(* ===== verification/_CoqProject ===== *)
-Q . S2P
Prelude.v
Ipc.v
Checks.v
Dump.v
HwrngDev.v
Hwrng.v
Keybox.v
Evp.v
Hwkey.v
HwkeyProps.v
HwkeyCorrect.v
HwkeyProvider.v
Hwcrypto.v
HwkeyDemo.v
Watch.v
HwkeyTable.v
Hwaes.v
HwaesCorrect.v
HwaesDemo.v
Swspi.v
SwspiCorrect.v
SwspiTest.v
SwspiTestCorrect.v
SwspiDemo.v
AppMgmt.v
AppMgmtCorrect.v
AppMgmtDemo.v
Samples.v
SamplesCorrect.v
SamplesDemo.v
Timer.v
Mains.v
Manifest.v
AppMgmtClient.v
AppMgmtClientCorrect.v
AppMgmtClientDemo.v
Memref.v
MemrefCorrect.v
MemrefTest.v
MemrefDemo.v
Services.v
MemrefSuite.v
MemrefSuiteCorrect.v
MemrefSuiteDemo.v
SecureFb.v
Prebuilts.v
HwkeyTest.v
HwrngTestCorrect.v
HwkeyTestCorrect.v
HwkeyTestPasses.v
HwkeyLink.v
HwkeyLinkDemo.v
HwaesLink.v
HwaesLinkDemo.v
HwrngLink.v
HwrngLinkDemo.v
