(* ===== verification/Prelude.v ===== *)
(** A verification development for the Trusty sample applications: the secure
    services and the test servers of this repository, as executable Rocq
    definitions translated from the C source, with the theorems that make
    them correct.

    * The program

    A Trusty application is a process with one thread.  It creates ports,
    waits for an event, dispatches it to the handler of the port or channel it
    is about, and waits again.  Each client has a channel and the service a
    context for it; a handler reads a message, changes the state of the
    service and answers on the channel.  The applications modelled are:

    - hwcrypto (src/hwcrypto): three services in one process, over one random
      number device.  The random number service queues requests of any size
      and answers in chunks; the key service derives keys, hands out the keys
      of its slots, and gives clients opaque handles (random tokens) under
      which other, allowed, clients obtain a key; the keybox service unwraps
      keyboxes.  main.c starts the three and dispatches events to them.
    - hwaes (src/hwaes): a service that encrypts or decrypts a client's
      buffer, with a key from the request or fetched from the key service by
      its opaque handle.
    - swspi-srv (src/spi/swspi-srv): a simulated SPI controller.  Requests are
      queued in a sequence, which is executed when it is committed.
    - memref-test's lender and receiver (src/memref-test): servers that lend
      memory to clients and write to memory they are lent.
    - app-mgmt-test (src/app-mgmt-test): a client that loads applications and
      checks when the application manager starts them, and the servers it
      loads; port-start-srv obeys the commands of the client's channels.
    - smaller programs: storage-test, spinner, timer, manifest-test, the mock of
      a secure framebuffer (src/secure_fb_mock_impl), hwbcc's main, and
      userscs-test.

    The test drivers of the services are modelled too, and composed with the
    services they test: hwcrypto-unittest with the key service and with the random
    number service over the fake device, swspi-test with
    the SPI driver, memref-test's client functions with the
    lender, app-mgmt-test's client with port-start-srv.  The AES service is
    composed with the key service it fetches keys from.

    * The files

    Prelude         the outcomes of a run, the state monad of the models, total
                    correctness triples with their tactics, unsigned integers,
                    buffers, lemmas on lists
    Ipc             the kernel and lib/tipc as the classes Uapi, Kernel and
                    KernelLaws; the state of an application ([world]: its
                    globals and heap, its device, its environment, the trace of
                    its calls); the accounting of handles on the trace; heaps
                    of objects; a scripted kernel for concrete runs
    HwrngDev        hwrng_dev.h as the class HwrngDev, hwrng_srv_fake_provider.c
                    as its instance
    Dump            the loops that print memory, of hwrng_srv.c and the unit tests
    Hwrng           hwrng_srv.c and its properties
    Keybox          keybox/keybox.c, keybox/srv.c and their properties
    Evp             the cryptography the key service calls, as the class Evp
    Hwkey           hwkey_srv.c and hwkey_srv_priv.h; the platform's provider is
                    the class HwkeyProvider
    HwkeyProps      lemmas on the key service: tokens, the list of handles, its
                    invariant, each operation
    HwkeyCorrect    the properties of the key service
    HwkeyProvider   hwkey_srv_fake_provider.c for every build configuration, and
                    that it keeps the promises of HwkeyProvider
    Hwcrypto        main.c: start-up, dispatch, the event loop, reachable states
    HwkeyDemo       these theorems at concrete states
    Hwaes, HwaesCorrect, HwaesDemo       hwaes/main.c
    Watch           a device that remembers whether one of its calls failed
    HwkeyTable      the key service as an abstract table of handles
    Swspi, SwspiCorrect, SwspiDemo       driver/swspi.c, swspi.h, swspi-srv.c
    Checks          the failed checks of a test, and which came first; triples
                    that say in which state a run may stop
    SwspiTest, SwspiTestCorrect   swspi-test.c over the client library, and what
                    its tests establish on the driver
    Memref, MemrefCorrect, MemrefDemo    lender.c, lender.h, receiver.c
    MemrefTest      memref-test.c: the client functions, on the lender
    MemrefSuite, MemrefSuiteCorrect, MemrefSuiteDemo
                    memref-test.c: the tests, the kernel's shared pages and the
                    lender behind its channels as classes, and what the tests
                    establish there
    AppMgmt, AppMgmtCorrect, AppMgmtDemo the servers of app-mgmt-test
    AppMgmtClient, AppMgmtClientCorrect, AppMgmtClientDemo
                    app-mgmt-test/client/main.c, on its own and on port-start-srv
    Samples, SamplesCorrect, SamplesDemo storage-test.c, spinner.c
    Timer           timer_app.c
    Mains           the mains that register tests (timer, app-mgmt client) with
                    their runners; the samples that only print: skel, skel2,
                    skel_rust, dev-only-srv
    Manifest        manifest_test.c and its manifest
    Services        the mains over lib/tipc: swspi-srv, hwbcc, lender, receiver
    SecureFb        secure_fb_mock_impl/main.cpp
    Prebuilts       prebuilts-test: lib/foo.c and main.c
    HwkeyTest       hwcrypto-unittest/main.c
    HwrngTestCorrect  its random number tests
    HwkeyTestCorrect  what its key service tests rely on, as the classes KeyService
                    and KeyServiceLaws, and the effect of each call
    HwkeyTestPasses the tests of the key service pass on any such service
    HwkeyLink       the key service is one: the tests' calls run its handlers
    HwkeyLinkDemo   these theorems at concrete states
    HwaesLink, HwaesLinkDemo   the AES service as a client of the key service
    HwrngLink, HwrngLinkDemo   the random number tests on the random number service

    A definition has the name of the C function, type or object it models.
    Where a C function is split, the definition for its loop or its inner block
    is named after what it does, and the C function's definition calls it.

    * How C is modelled

    A call is a function from a state to an [outcome]: it returns a value, or
    it halts the process, for the reason in [halt].  A failed assert, abort,
    exit, a use of a freed object, an access out of bounds, a null pointer, the
    use of a variable that was not set and the overflow of a signed integer all
    halt, so that a triple [wp] says
    both that none of these happens and what the call does.  Objects that are
    allocated live in finite maps from pointers, a freed pointer is not in its
    map any more, and a list of lk/list.h is the list of the pointers in it.
    size_t and uint32_t are integers reduced by [u64] and [u32] where the C
    wraps.  A local buffer that is not initialised is an argument of the model,
    over which the theorems quantify.  Handlers take the event as an argument,
    and the answers of the kernel, of the peers, of the allocator and of the
    device come from parameters, so the theorems hold for all of them.

    Code outside src/ is never defined here.  The kernel, lib/tipc, EVP and
    HKDF, rand, the memref calls and the client library of the key service are
    classes of operations; what the services rely on is stated by classes of
    laws (a message is received whole and within its bounds, a decryption
    undoes the encryption, the device either fails or fills what it says), and
    each class has an instance, on which the witnesses run.

    * What the theorems show

    - Every state the hwcrypto application reaches, for any interleaving of
      connections, messages and closures, satisfies the invariants of its three
      services, and every handle obtained is held or was closed exactly once.
      Whatever event comes next, its handler runs to its end, with two
      exceptions, stated exactly: the library aborts on an error event, and the
      keybox channel handler uses freed memory when a message that cannot be
      answered comes together with a hang-up (Hwcrypto).  The invariants are
      composed from those of the services, proved for each handler in its own
      file.
    - The random number service: one pass over the queue refines an abstract
      machine of pending byte counts; no client is ever sent more than it asked
      for (Hwrng).
    - The keybox: unwrapping is the inverse of an explicit wrapping, every
      corruption of one byte is detected, buffers are never overrun; each
      request is answered (Keybox).
    - The key service: only an allowed client with a live token obtains an
      opaque key; a handle lives exactly until its owner closes; what a slot
      request resolves to; the derived key is the decryption of the slot's data
      under the retrieved key; each message is answered; key material is wiped
      from the buffer (HwkeyCorrect).
    - The provider: its key functions, the consistency of its tables for every
      configuration, its start-up (HwkeyProvider).
    - AES: the checks on arguments, the bytes answered, each refusal, the round
      trip, independence from what earlier requests left in the shared cipher
      context (HwaesCorrect).
    - SPI: queueing and committing a sequence has the result of executing its
      commands in order, or, when one does not fit, of executing none; every
      sequence of the server's clients is safe; transfers deliver, digests
      detect changes of one byte (SwspiCorrect).
    - memref: the outcome of the lender for each message, and the bytes the
      receiver writes (MemrefCorrect).
    - The handle table: each event of a client of the key service is a step of
      an abstract table of (owner, slot, token), with its answer; that a handle
      could not be made is tied to the allocation or the readings of the device
      that failed (HwkeyTable).
    - The AES service on the key service: a request that names its key by an
      opaque handle has the result of the request that carries the key of the
      handle's slot, for the handles the service may open, and HWAES_ERR_IO for
      all others; the session it opens is closed (HwaesLink).
    - Clients on their servers: the hwcrypto unit tests pass on the key service
      (HwkeyTestPasses against an interface, HwkeyLink for the handlers; unless
      a call of the kernel, the allocator, the device or the cryptography under
      the service failed, a connection or message was lost, or a token was drawn
      twice, all read off the calls made and the watched device, never off the
      service's answers); the tests of the SPI driver find nothing wrong with the
      bytes received, unless an answer of the library was wrong before, and each
      stops, if at all, only at the variable the library left unset that is
      stated for it (SwspiTestCorrect); what is written
      to the lender's page is read back (MemrefTest), the tests of memref-test
      find nothing wrong with the bytes of shared pages before a call has failed,
      and leave no handle open (MemrefSuiteCorrect); the commands a test sends
      make port-start-srv close every handle and end (AppMgmtClientCorrect).
    - The start and stop servers and the samples: every run of a server's main
      closes the handles it obtained, up to the exceptions stated; every
      application test returns, with its handles accounted for; storage-test's
      loops hold their handles; the busy wait ends, after the time asked for
      (AppMgmtCorrect, AppMgmtClientCorrect, SamplesCorrect).
    - The framebuffer mock: what is acquired is given back, but for what a
      failed initialisation leaves behind, exactly (SecureFb).
    - The timer test: its sleeps pass on a clock that is late by little, its
      counter overflows in the 22nd round (Timer).  The manifest test leaves
      nothing mapped and passes on a platform that follows the manifest
      (Manifest).  The test of prebuilts-test compares a byte that was never
      written (Prebuilts).  The mains over lib/tipc hand on valid handle sets,
      but for the lender's (Services).
    - The dumps print each byte of their region once and read none outside
      (Dump).  The main of the timer test registers a port for one run and one
      for runs without end, and the stress test of the app-mgmt client goes on
      as long as its tests pass (Mains).
    - The statistics of the random number test: exact counts, no wrap-around,
      and when it fails (HwrngTestCorrect); run on the service's handlers over the
      fake device, every request is served in full and no check fails, unless a
      call of the kernel or the allocator failed under the service (HwrngLink).

    * Fuel

    Some loops are not structural.  get_key_handle draws random bytes until its
    token is complete: [token_loop] has fuel, and [token_fuel], given by
    HwrngDevFair, is enough for any device that fails or delivers 31 non-zero
    bytes within that number of reads (the fake device needs one read); the
    theorems on the handlers use it and exclude OutOfFuel.  The event loop of
    main takes the list of answers of wait as an argument and runs as long as
    the list does.  The service loops that end only on an error ([cmd_loop],
    [boot_start_loop], [port_loop], [ctrl_loop]) are observed for any number of
    rounds and return None when they are still running after them.
    [delay_loop] reads a clock: it has a fuel, for which a bound is proved that
    is enough on a clock that advances.  Loops over lists and arrays are
    [foldM] or structural.

    * What is not modelled

    The archives of prebuilts-test, whose source is modelled instead; the main
    functions that the macro PORT_TEST generates; the definition of a hook for
    device specific tests, which is empty; log messages, but for the programs
    that do nothing else. *)

From Stdlib Require Export Lia ZifyBool ZifyNat.
From stdpp Require Export base gmap strings list fin_maps.

Declare Scope sample_scope.
Delimit Scope sample_scope with sample.
#[global] Open Scope Z_scope.

(** * 1. Ways a run can stop *)

(** A call of the modelled code either returns or stops the application:
    a failed [assert], a call of [abort] or [exit], a memory error (the
    object was freed, the access is out of bounds, the pointer is null, a
    variable is read before it was set, a signed integer overflows), or
    a loop that used up the fuel given to its model. *)
Inductive halt :=
| AssertFailed
| Aborted
| Exited (code : Z)
| UseAfterFree
| OutOfBounds
| NullDeref
| UninitRead
| SignedOverflow
| OutOfFuel.

Inductive outcome (S A : Type) :=
| Ret (a : A) (s : S)
| Halt (h : halt) (s : S).
Arguments Ret {S A}.
Arguments Halt {S A}.

(** * 2. The state monad of the models *)

Definition M (S A : Type) : Type := S → outcome S A.

Definition ret {S A} (a : A) : M S A := λ s, Ret a s.
Definition bind {S A B} (m : M S A) (f : A → M S B) : M S B := λ s,
  match m s with
  | Ret a s' => f a s'
  | Halt h s' => Halt h s'
  end.

Notation "x ← m ; k" := (bind m (λ x, k))
  (at level 20, m at level 100, k at level 200, only parsing) : sample_scope.
Notation "' p ← m ; k" := (bind m (λ x, match x with p => k end))
  (at level 20, p pattern, m at level 100, k at level 200, only parsing) : sample_scope.
Notation "m ;; k" := (bind m (λ _, k))
  (at level 100, k at level 200, right associativity, only parsing) : sample_scope.
#[global] Open Scope sample_scope.

Definition get {S} : M S S := λ s, Ret s s.
Definition gets {S A} (f : S → A) : M S A := λ s, Ret (f s) s.
Definition modify {S} (f : S → S) : M S unit := λ s, Ret tt (f s).
Definition stop {S A} (h : halt) : M S A := λ s, Halt h s.
Definition assert {S} (b : bool) : M S unit :=
  if b then ret tt else stop AssertFailed.

(** [zoom] runs a computation on a part of the state. *)
Definition zoom {S T A} (view : S → T) (put : T → S → S) (m : M T A) : M S A :=
  λ s, match m (view s) with
       | Ret a t => Ret a (put t s)
       | Halt h t => Halt h (put t s)
       end.

(** [local t m] runs [m] on a buffer of the caller's frame, of content [t]. *)
Definition local {S T A} (t : T) (m : M T A) : M S (A * T) :=
  λ s, match m t with
       | Ret a t' => Ret (a, t') s
       | Halt h _ => Halt h s
       end.

(** An array access at an index of type [size_t]. *)
Definition fetch {S A} (l : list A) (i : Z) : M S A :=
  match l !! Z.to_nat i with
  | Some a => if 0 <=? i then ret a else stop OutOfBounds
  | None => stop OutOfBounds
  end.

(** A loop over a list threading an accumulator, the shape of
    [list_for_every_entry] and of [for] over an array. *)
Fixpoint foldM {S A B} (f : B → A → M S B) (b : B) (l : list A) : M S B :=
  match l with
  | [] => ret b
  | a :: l => b' ← f b a; foldM f b' l
  end.

(** * 3. Total-correctness triples *)

(** [wp m Q s]: started in [s], [m] returns (it does not halt) and its
    result and final state satisfy [Q]. *)
Definition wp {S A} (m : M S A) (Q : A → S → Prop) (s : S) : Prop :=
  match m s with
  | Ret a s' => Q a s'
  | Halt _ _ => False
  end.

Section Wp.
Context {S : Type}.
Implicit Types s : S.

Lemma wp_mono {A} (m : M S A) (P Q : A → S → Prop) s :
  wp m P s → (∀ a s', P a s' → Q a s') → wp m Q s.
Proof. unfold wp. destruct (m s); auto. Qed.

Lemma wp_ret {A} (a : A) (Q : A → S → Prop) s : Q a s → wp (ret a) Q s.
Proof. done. Qed.

Lemma wp_bind {A B} (m : M S A) (f : A → M S B) Q s :
  wp m (λ a, wp (f a) Q) s → wp (bind m f) Q s.
Proof. unfold wp, bind. by destruct (m s). Qed.

Lemma wp_bind_inv {A B} (m : M S A) (f : A → M S B) Q s :
  wp (bind m f) Q s → wp m (λ a, wp (f a) Q) s.
Proof. unfold wp, bind. intros H. by destruct (m s). Qed.

Lemma wp_conj {A} (m : M S A) (P Q : A → S → Prop) s :
  wp m P s → wp m Q s → wp m (λ a s', P a s' ∧ Q a s') s.
Proof. unfold wp. destruct (m s); auto. Qed.

Lemma wp_get (Q : S → S → Prop) s : Q s s → wp get Q s.
Proof. done. Qed.

Lemma wp_gets {A} (f : S → A) (Q : A → S → Prop) s :
  Q (f s) s → wp (gets f) Q s.
Proof. done. Qed.

Lemma wp_modify (f : S → S) (Q : unit → S → Prop) s :
  Q tt (f s) → wp (modify f) Q s.
Proof. done. Qed.

Lemma wp_assert (b : bool) (Q : unit → S → Prop) s :
  b = true → Q tt s → wp (assert b) Q s.
Proof. by intros ->. Qed.

Lemma wp_if {A} (b : bool) (m1 m2 : M S A) Q s :
  (b = true → wp m1 Q s) → (b = false → wp m2 Q s) →
  wp (if b then m1 else m2) Q s.
Proof. destruct b; auto. Qed.

Lemma wp_zoom {T A} (view : S → T) (put : T → S → S) (m : M T A) Q s :
  wp m (λ a t, Q a (put t s)) (view s) → wp (zoom view put m) Q s.
Proof. unfold wp, zoom. by destruct (m (view s)). Qed.

Lemma wp_local {T A} (t : T) (m : M T A) (Q : A * T → S → Prop) s :
  wp m (λ a t', Q (a, t') s) t → wp (local t m) Q s.
Proof. unfold wp, local. by destruct (m t). Qed.

Lemma wp_fetch {A} (l : list A) i a (Q : A → S → Prop) s :
  0 ≤ i → l !! Z.to_nat i = Some a → Q a s → wp (fetch l i) Q s.
Proof. intros Hi Hl HQ. unfold fetch. rewrite Hl. by destruct (Z.leb_spec 0 i); [|lia]. Qed.

(** What a triple says of an actual run. *)
Lemma wp_returns {A} (m : M S A) Q s :
  wp m Q s → ∃ a s', m s = Ret a s' ∧ Q a s'.
Proof. unfold wp. intros H. destruct (m s) eqn:E; [eauto | done]. Qed.

Lemma wp_run {A} (m : M S A) Q s a s' :
  wp m Q s → m s = Ret a s' → Q a s'.
Proof. unfold wp. intros H E. by rewrite E in H. Qed.

Lemma bind_run {A B} (m : M S A) (f : A → M S B) s a s' :
  m s = Ret a s' → bind m f s = f a s'.
Proof. unfold bind. by intros ->. Qed.

Lemma bind_halt {A B} (m : M S A) (f : A → M S B) s h s' :
  m s = Halt h s' → bind m f s = Halt h s'.
Proof. unfold bind. by intros ->. Qed.

Lemma wp_eq {A} (m : M S A) s a s' :
  wp m (λ b t, b = a ∧ t = s') s → m s = Ret a s'.
Proof. unfold wp. destruct (m s); [by intros [-> ->]|done]. Qed.

Lemma wp_of_run {A} (m : M S A) (Q : A → S → Prop) s a s' :
  m s = Ret a s' → Q a s' → wp m Q s.
Proof. unfold wp. by intros ->. Qed.

(** [wpx m Q E s]: [m] may also stop, in a way [E] admits. *)
Definition wpx {A} (m : M S A) (Q : A → S → Prop) (E : halt → Prop) s : Prop :=
  match m s with
  | Ret a s' => Q a s'
  | Halt h _ => E h
  end.

Lemma wpx_wp {A} (m : M S A) (Q : A → S → Prop) E s : wp m Q s → wpx m Q E s.
Proof. unfold wp, wpx. by destruct (m s). Qed.

Lemma wpx_bind {A B} (m : M S A) (f : A → M S B) Q E s :
  wpx m (λ a, wpx (f a) Q E) E s → wpx (bind m f) Q E s.
Proof. unfold wpx, bind. by destruct (m s). Qed.

Lemma wpx_mono {A} (m : M S A) (P Q : A → S → Prop) E s :
  wpx m P E s → (∀ a s', P a s' → Q a s') → wpx m Q E s.
Proof. unfold wpx. destruct (m s); auto. Qed.

(** Loop rule: an invariant over the accumulator and the items left. *)
Lemma wp_foldM {A B} (f : B → A → M S B) (I : list A → B → S → Prop) l b s :
  (∀ a l' b s, I (a :: l') b s → wp (f b a) (λ b', I l' b') s) →
  I l b s → wp (foldM f b l) (I []) s.
Proof.
  intros Hstep. revert b s. induction l as [|a l IH]; intros b s HI; [done|].
  cbn. apply wp_bind. eapply wp_mono; [by apply Hstep|]. intros b' s' H'.
  by apply IH.
Qed.
End Wp.

(** [wp_steps] walks through binds, reads and writes of a model. *)
Ltac wp_step :=
  lazymatch goal with
  | |- wp (bind _ _) _ _ => apply wp_bind
  | |- wp (ret _) _ _ => apply wp_ret
  | |- wp get _ _ => apply wp_get
  | |- wp (gets _) _ _ => apply wp_gets
  | |- wp (modify _) _ _ => apply wp_modify
  | |- wp (zoom _ _ _) _ _ => apply wp_zoom
  end; cbn beta.
Ltac wp_steps := repeat wp_step.

(** [wp_cases H] splits the conditional at the head of a model. *)
Ltac wp_cases H := apply wp_if; intros H.

(** * 4. Machine integers and buffers *)

(** Unsigned integers of the LP64 target: [uint8_t], [uint32_t], and
    [size_t]/[uint64_t]. *)
Definition u8 (z : Z) : Z := z mod 2 ^ 8.
Definition u32 (z : Z) : Z := z mod 2 ^ 32.
Definition u64 (z : Z) : Z := z mod 2 ^ 64.

(** [int64_t] and [int] arithmetic: an overflow is undefined. *)
Definition is_int64 (z : Z) : bool := (- 2 ^ 63 <=? z) && (z <? 2 ^ 63).
Definition int64 {S} (z : Z) : M S Z := if is_int64 z then ret z else stop SignedOverflow.
Definition is_int32 (z : Z) : bool := (- 2 ^ 31 <=? z) && (z <? 2 ^ 31).
Definition int32 {S} (z : Z) : M S Z := if is_int32 z then ret z else stop SignedOverflow.

Lemma u64_small z : 0 ≤ z < 2 ^ 64 → u64 z = z.
Proof. apply Z.mod_small. Qed.

Lemma u64_range z : 0 ≤ u64 z < 2 ^ 64.
Proof. by apply Z.mod_pos_bound. Qed.

Lemma u32_small z : 0 ≤ z < 2 ^ 32 → u32 z = z.
Proof. apply Z.mod_small. Qed.

Lemma u32_range z : 0 ≤ u32 z < 2 ^ 32.
Proof. by apply Z.mod_pos_bound. Qed.

(** A write of [bs] at the start of a buffer; the rest keeps its content. *)
Definition overwrite {A} (bs buf : list A) : list A := bs ++ drop (length bs) buf.

Lemma length_overwrite {A} (bs buf : list A) :
  (length bs ≤ length buf)%nat → length (overwrite bs buf) = length buf.
Proof. intros H. unfold overwrite. rewrite length_app, length_drop. lia. Qed.

Lemma take_overwrite {A} (bs buf : list A) :
  take (length bs) (overwrite bs buf) = bs.
Proof. unfold overwrite. by rewrite take_app_length. Qed.

Lemma take_overwrite_Z {A} n (bs buf : list A) :
  Z.of_nat (length bs) = n → take (Z.to_nat n) (overwrite bs buf) = bs.
Proof. intros <-. rewrite Nat2Z.id. apply take_overwrite. Qed.

Create HintDb sample discriminated.
#[export] Hint Resolve u64_range u32_range length_overwrite : sample.

(** [memset(buf, 0, n)]. *)
Definition memset0 (n : nat) (buf : list Z) : list Z :=
  overwrite (replicate n 0) buf.

(** * 5. Lists *)

Lemma filter_ext_on {A} (P Q : A → Prop) `{!∀ x, Decision (P x), !∀ x, Decision (Q x)}
    (l : list A) :
  (∀ x, x ∈ l → P x ↔ Q x) → filter P l = filter Q l.
Proof.
  induction l as [|x l IH]; intros Heq; [done|].
  assert (filter P l = filter Q l) as E by (apply IH; intros y ?; apply Heq; by right).
  destruct (decide (P x)) as [HP|HP].
  - assert (Q x) by (apply Heq; [by left|done]).
    rewrite !filter_cons_True by done. by rewrite E.
  - assert (¬ Q x) by (rewrite <- (Heq x); [done|by left]).
    by rewrite !filter_cons_False by done.
Qed.

Lemma filter_all {A} (P : A → Prop) `{!∀ x, Decision (P x)} (l : list A) :
  Forall P l → filter P l = l.
Proof.
  induction 1 as [|x l Hx _ IH]; [done|]. rewrite filter_cons_True by done. by rewrite IH.
Qed.

Lemma NoDup_fmap_filter {A B} (f : A → B) (P : A → Prop) `{!∀ x, Decision (P x)} (l : list A) :
  NoDup (f <$> l) → NoDup (f <$> filter P l).
Proof.
  induction l as [|x l IH]; [done|]. intros [Hx Hnd]%NoDup_cons.
  destruct (decide (P x)) as [HP|HP].
  - rewrite filter_cons_True by done. apply NoDup_cons. split; [|by apply IH].
    intros (y & Hy & Hin)%list_elem_of_fmap. apply Hx. cbn. rewrite Hy.
    apply list_elem_of_fmap_2. by apply list_elem_of_filter in Hin as [_ ?].
  - rewrite filter_cons_False by done. by apply IH.
Qed.
