(* ===== verification/Ipc.v ===== *)
(** The IPC layer the applications run on, as the models see it: the kernel
    and [lib/tipc] calls are parameters (a class of operations on an abstract
    environment and a class of their documented laws), every call is recorded
    in a trace, and handles are accounted for on that trace.  A scripted
    kernel at the end instantiates the classes for the witnesses. *)

From S2P Require Import Prelude.

Abbreviation handle := Z (only parsing).
Abbreviation ptr := positive (only parsing).
Abbreviation bytes := (list Z) (only parsing).

(** A [uuid_t] in its textual form, as hwcrypto_consts.json writes it;
    [memcmp] of two of them being 0 is equality. *)
Abbreviation uuid := string (only parsing).

(** * 1. Constants of the environment (uapi/err.h, trusty_ipc.h) *)

Class Uapi := {
  NO_ERROR : Z;
  ERR_NOT_FOUND : Z;
  ERR_NO_MEMORY : Z;
  ERR_NOT_ENOUGH_BUFFER : Z;
  ERR_BAD_LEN : Z;
  ERR_CHANNEL_CLOSED : Z;
  INVALID_IPC_HANDLE : Z;
  IPC_HANDLE_POLL_NONE : Z;
  IPC_HANDLE_POLL_READY : Z;
  IPC_HANDLE_POLL_HUP : Z;
  IPC_HANDLE_POLL_MSG : Z;
  IPC_HANDLE_POLL_SEND_UNBLOCKED : Z;
  IPC_PORT_ALLOW_TA_CONNECT : Z;
  (** [tipc_handle_port_errors] and [tipc_handle_chan_errors] of
      lib/tipc/tipc.h abort on these events. *)
  tipc_port_error : Z → bool;
  tipc_chan_error : Z → bool;
  no_error_zero : NO_ERROR = 0;
  err_not_found_neg : ERR_NOT_FOUND < 0;
  err_not_enough_buffer_neg : ERR_NOT_ENOUGH_BUFFER < 0;
  err_no_memory_neg : ERR_NO_MEMORY < 0;
  err_channel_closed_neg : ERR_CHANNEL_CLOSED < 0;
  invalid_handle_neg : INVALID_IPC_HANDLE < 0
}.

(** [uevent_t]: what [wait] and [wait_any] fill in.  The cookie is modelled
    where it is used, by the application's event loop. *)
Record uevent := UEvent { ev_handle : handle; ev_event : Z }.

(** [ev & bit] used as a condition. *)
Definition has (ev bit : Z) : bool := negb (Z.land ev bit =? 0).

(** * 2. The kernel *)

(** Every operation takes the state of the environment and answers; nothing
    else is known about it, so a theorem for every instance holds for every
    behaviour of the kernel, the peers and the allocator. *)
Class Kernel (W : Type) := {
  k_port_create : string → Z → Z → Z → W → Z * W;
  k_accept : handle → W → (Z * uuid) * W;
  k_set_cookie : handle → W → Z * W;
  k_close : handle → W → Z * W;
  k_send : handle → bytes → W → Z * W;
  (** [k_recv chan min_sz buf_sz]: the return code and the bytes written to
      the start of the buffer. *)
  k_recv : handle → Z → Z → W → (Z * bytes) * W;
  (** Whether the next [calloc]/[malloc] succeeds. *)
  k_alloc : W → bool * W
}.

Definition is_byte (b : Z) : Prop := 0 ≤ b < 256.

(** What the code relies on: a message is received whole, between the
    minimum and the size of the buffer. *)
Class KernelLaws (W : Type) `{Kernel W} : Prop := {
  k_recv_ok h mn mx e rc bs e' :
    k_recv h mn mx e = ((rc, bs), e') → 0 ≤ rc →
    mn ≤ rc ≤ mx ∧ Z.of_nat (length bs) = rc ∧ Forall is_byte bs
}.

(** * 3. The state of an application and the trace of its calls *)

Inductive sysev :=
| SPortCreate (name : string) (rc : Z)
| SAccept (port : handle) (rc : Z)
| SSetCookie (h : handle) (rc : Z)
| SClose (h : handle)
| SSend (h : handle) (bs : bytes) (rc : Z)
(** [send_msg] of a message that carries handles, or could. *)
| SSendMsg (h : handle) (bs : bytes) (hs : list handle) (rc : Z)
| SRecv (h : handle) (rc : Z) (bs : bytes)
| SAlloc (ok : bool)
| SConnect (name : string) (rc : Z)
| SHandleSetCreate (rc : Z)
| SHandleSetAdd (hset h : handle) (rc : Z)
| SWait (h : handle) (rc : Z)
| SMemrefCreate (base size prot : Z) (rc : Z)
| SReadHandle (rc : Z) (h : handle)
| SHsetCreate (hset : Z)
| SAddService (hset : Z) (rc : Z)
| SEventLoop (hset : Z) (rc : Z).

(** A call that was refused or that failed for want of a resource. *)
Definition call_failed (e : sysev) : bool :=
  match e with
  | SAccept _ rc | SSend _ _ rc | SRecv _ rc _ => rc <? 0
  | SSetCookie _ rc => negb (rc =? 0)
  | SAlloc ok => negb ok
  | _ => false
  end.

(** The calls made since the trace was [old]. *)
Definition since (old tr : list sysev) : list sysev := take (length tr - length old) tr.

Lemma since_refl old : since old old = [].
Proof. unfold since. by rewrite Nat.sub_diag. Qed.
Lemma since_cons old e tr : (length old ≤ length tr)%nat → since old (e :: tr) = e :: since old tr.
Proof. intros H. unfold since. cbn [length]. by rewrite Nat.sub_succ_l. Qed.
Lemma since_app old new : since old (new ++ old) = new.
Proof. unfold since. rewrite length_app, take_app_le, take_ge by lia. done. Qed.

(** [loc]: the globals and the heap of a component; [dev]: the device it
    drives; [env]: the environment; [trace]: the calls made, newest first. *)
Record world (L D W : Type) := World {
  loc : L;
  dev : D;
  env : W;
  trace : list sysev
}.
Arguments World {L D W}.
Arguments loc {L D W}.
Arguments dev {L D W}.
Arguments env {L D W}.
Arguments trace {L D W}.

Section Calls.
Context {L D W : Type} `{!Kernel W}.
Abbreviation C := (M (world L D W)).

Definition set_loc (l : L) (w : world L D W) : world L D W :=
  World l (dev w) (env w) (trace w).
Definition set_dev (d : D) (w : world L D W) : world L D W :=
  World (loc w) d (env w) (trace w).
Definition logged (e : sysev) (v : W) (w : world L D W) : world L D W :=
  World (loc w) (dev w) v (e :: trace w).

Definition syscall {A} (f : W → A * W) (ev : A → sysev) : C A := λ w,
  let '(a, v) := f (env w) in Ret a (logged (ev a) v w).

Definition port_create (name : string) (qlen maxsz flags : Z) : C Z :=
  syscall (k_port_create name qlen maxsz flags) (SPortCreate name).
Definition accept (port : handle) : C (Z * uuid) :=
  syscall (k_accept port) (λ r, SAccept port r.1).
Definition set_cookie (h : handle) : C Z :=
  syscall (k_set_cookie h) (SSetCookie h).
Definition close (h : handle) : C Z :=
  syscall (k_close h) (λ _, SClose h).
Definition tipc_send (h : handle) (bs : bytes) : C Z :=
  syscall (k_send h bs) (SSend h bs).
Definition tipc_recv (h : handle) (min_sz buf_sz : Z) : C (Z * bytes) :=
  syscall (k_recv h min_sz buf_sz) (λ r, SRecv h r.1 r.2).
Definition alloc_ok : C bool := syscall k_alloc SAlloc.

(** A call that leaves no trace: it only involves the environment. *)
Definition env_call {A} (f : W → A * W) : C A := λ w,
  let '(a, v) := f (env w) in Ret a (World (loc w) (dev w) v (trace w)).

(** The error filters of lib/tipc/tipc.h. *)
Definition tipc_handle_port_errors `{Uapi} (ev : uevent) : C unit :=
  if tipc_port_error (ev_event ev) then stop Aborted else ret tt.
Definition tipc_handle_chan_errors `{Uapi} (ev : uevent) : C unit :=
  if tipc_chan_error (ev_event ev) then stop Aborted else ret tt.

Definition get_loc {A} (f : L → A) : C A := gets (f ∘ loc).
Definition mod_loc (f : L → L) : C unit := modify (λ w, set_loc (f (loc w)) w).

(** An access through a pointer into the heap [heap] of the application. *)
Definition load {V} (heap : L → gmap ptr V) (p : ptr) : C V :=
  o ← get_loc (λ l, heap l !! p);
  match o with Some v => ret v | None => stop UseAfterFree end.

Lemma wp_syscall {A} (f : W → A * W) (ev : A → sysev) Q (w : world L D W) :
  (∀ a v, f (env w) = (a, v) → Q a (logged (ev a) v w)) →
  wp (syscall f ev) Q w.
Proof. unfold wp, syscall. destruct (f (env w)) as [a v]. auto. Qed.

Lemma wp_env_call {A} (f : W → A * W) (Q : A → world L D W → Prop) (w : world L D W) :
  (∀ a v, f (env w) = (a, v) → Q a (World (loc w) (dev w) v (trace w))) → wp (env_call f) Q w.
Proof. intros HQ. unfold wp, env_call. destruct (f (env w)) as [a v] eqn:E. by apply HQ. Qed.

Lemma wp_get_loc {A} (f : L → A) Q (w : world L D W) :
  Q (f (loc w)) w → wp (get_loc f) Q w.
Proof. done. Qed.

Lemma wp_mod_loc (f : L → L) Q (w : world L D W) :
  Q tt (set_loc (f (loc w)) w) → wp (mod_loc f) Q w.
Proof. done. Qed.

Lemma wp_load {V} (heap : L → gmap ptr V) p v Q (w : world L D W) :
  heap (loc w) !! p = Some v → Q v w → wp (load heap p) Q w.
Proof.
  intros Hp HQ. unfold load. apply wp_bind, wp_get_loc. by rewrite Hp.
Qed.

(** [rc] is an answer of the kernel to sending [bs] on [h]. *)
Definition sends (h : handle) (bs : bytes) (rc : Z) : Prop := ∃ e, (k_send h bs e).1 = rc.

Lemma wp_send h bs (Q : Z → world L D W → Prop) (w : world L D W) :
  (∀ rc v, sends h bs rc → Q rc (logged (SSend h bs rc) v w)) → wp (tipc_send h bs) Q w.
Proof.
  intros HQ. apply wp_syscall. intros rc v E. apply HQ. exists (env w). by rewrite E.
Qed.

Lemma wp_close h (Q : Z → world L D W → Prop) (w : world L D W) :
  (∀ rc v, Q rc (logged (SClose h) v w)) → wp (close h) Q w.
Proof. intros HQ. apply wp_syscall. intros rc v _. apply HQ. Qed.

Lemma load_ok {V} (heap : L → gmap ptr V) p v (w : world L D W) :
  heap (loc w) !! p = Some v → load heap p w = Ret v w.
Proof. intros Hp. unfold load, bind, get_loc, gets. cbn. by rewrite Hp. Qed.

Lemma load_freed {V} (heap : L → gmap ptr V) p (w : world L D W) :
  heap (loc w) !! p = None → load heap p w = Halt UseAfterFree w.
Proof. intros Hp. unfold load, bind, get_loc, gets. cbn. by rewrite Hp. Qed.
End Calls.

(** [since_in H]: the calls of an explicit trace. *)
Ltac since_in H := unfold logged in H; cbn [trace] in H; rewrite ?since_cons, ?since_refl in H by (cbn [length]; lia).

Ltac ipc_step :=
  first
    [ progress wp_step
    | lazymatch goal with
      | |- wp (get_loc _) _ _ => apply wp_get_loc; cbn beta
      | |- wp (mod_loc _) _ _ => apply wp_mod_loc; cbn beta
      end ].
Ltac world_simpl :=
  unfold set_loc, set_dev, logged; cbn [loc dev env trace fst snd].
Ltac ipc_steps := repeat ipc_step; world_simpl.

(** [ipc_call a v E]: run a system call; [a] is its answer, [v] the
    environment after it. *)
Tactic Notation "ipc_call" ident(a) ident(v) ident(E) :=
  apply wp_syscall; intros a v E; cbn beta.

(** * 4. Handle accounting *)

(** The handles a trace obtained and the ones it gave back; closing a negative
    handle, which the kernel never hands out, gives nothing back. *)
Definition opened (tr : list sysev) : list handle :=
  omap (λ e, match e with
             | SAccept _ rc | SPortCreate _ rc | SConnect _ rc | SHandleSetCreate rc
             | SMemrefCreate _ _ _ rc =>
                 if 0 <=? rc then Some rc else None
             | SReadHandle rc h => if (0 <=? rc) && (0 <=? h) then Some h else None
             | _ => None
             end) tr.

Definition closed (tr : list sysev) : list handle :=
  omap (λ e, match e with
             | SClose h => if 0 <=? h then Some h else None
             | _ => None
             end) tr.

(** The handles in [held] are exactly those obtained and not yet closed:
    none is lost and none is closed twice. *)
Definition balanced (tr : list sysev) (held : list handle) : Prop :=
  opened tr ≡ₚ closed tr ++ held.

(** An event that neither opens nor closes a handle. *)
Definition neutral (e : sysev) : bool :=
  match e with
  | SAccept _ rc | SPortCreate _ rc | SConnect _ rc | SHandleSetCreate rc
  | SMemrefCreate _ _ _ rc => rc <? 0
  | SClose h => h <? 0
  | SReadHandle rc h => (rc <? 0) || (h <? 0)
  | _ => true
  end.

Section Balance.
Implicit Types tr : list sysev.

Lemma balanced_perm tr l l' : l ≡ₚ l' → balanced tr l → balanced tr l'.
Proof. unfold balanced. intros E H. by rewrite <- E. Qed.

Lemma balanced_neutral e tr l :
  neutral e = true → balanced tr l → balanced (e :: tr) l.
Proof.
  unfold balanced. destruct e; simpl; try done; intros H ?;
    repeat match goal with |- context [if ?b then _ else _] => destruct b eqn:? end; done || lia.
Qed.

Lemma opened_nonneg tr : Forall (λ h, 0 ≤ h) (opened tr).
Proof.
  induction tr as [|e tr IH]; [constructor|]. destruct e; cbn; try done;
    destruct (Z.leb_spec 0 rc); auto; destruct (Z.leb_spec 0 h); cbn; auto.
Qed.

Lemma balanced_nonneg tr h l : balanced tr (h :: l) → 0 ≤ h.
Proof.
  intros E. assert (h ∈ opened tr) as Hin.
  { rewrite E. apply elem_of_app. right. left. }
  by apply (proj1 (Forall_forall _ _) (opened_nonneg tr)).
Qed.

Lemma balanced_accept p rc tr l :
  0 ≤ rc → balanced tr l → balanced (SAccept p rc :: tr) (rc :: l).
Proof.
  unfold balanced. simpl. intros H E. rewrite (proj2 (Z.leb_le _ _) H).
  rewrite E. by rewrite Permutation_middle.
Qed.

Lemma balanced_port n rc tr l :
  0 ≤ rc → balanced tr l → balanced (SPortCreate n rc :: tr) (rc :: l).
Proof.
  unfold balanced. simpl. intros H E. rewrite (proj2 (Z.leb_le _ _) H).
  rewrite E. by rewrite Permutation_middle.
Qed.

Lemma balanced_memref p n prot rc tr l :
  0 ≤ rc → balanced tr l → balanced (SMemrefCreate p n prot rc :: tr) (rc :: l).
Proof.
  unfold balanced. simpl. intros H E. rewrite (proj2 (Z.leb_le _ _) H).
  rewrite E. by rewrite Permutation_middle.
Qed.

Lemma balanced_close h tr l :
  balanced tr (h :: l) → balanced (SClose h :: tr) l.
Proof.
  intros E. pose proof (balanced_nonneg _ _ _ E) as Hh. unfold balanced in *. simpl.
  rewrite (proj2 (Z.leb_le _ _) Hh), E. by rewrite <- Permutation_middle.
Qed.
End Balance.

Create HintDb ipc discriminated.
#[export] Hint Resolve balanced_neutral balanced_close : ipc.

(** * 5. A heap of objects *)

Section Heap.
Context {V : Type}.
Implicit Types h : gmap ptr V.

(** The address [calloc] returns: one no live object has. *)
Definition new_ptr h : ptr := fresh (dom h : gset ptr).

Lemma new_ptr_fresh h : h !! new_ptr h = None.
Proof.
  apply (not_elem_of_dom (D:=gset ptr)). unfold new_ptr.
  exact (is_fresh (dom h : gset ptr)).
Qed.

(** The values of [f] over the live objects, as a multiset. *)
Definition objects {A} (f : V → A) h : list A := (f ∘ snd) <$> map_to_list h.

Lemma objects_insert {A} (f : V → A) h p v :
  h !! p = None → objects f (<[p := v]> h) ≡ₚ f v :: objects f h.
Proof. intros H. unfold objects. by rewrite map_to_list_insert. Qed.

Lemma objects_delete {A} (f : V → A) h p v :
  h !! p = Some v → objects f h ≡ₚ f v :: objects f (delete p h).
Proof. intros H. unfold objects. by rewrite <- (map_to_list_delete h p v H). Qed.

Lemma objects_update {A} (f : V → A) h p v v' :
  h !! p = Some v → f v' = f v → objects f (<[p := v']> h) ≡ₚ objects f h.
Proof.
  intros H E. rewrite (objects_delete f h p v H), <- insert_delete_eq.
  rewrite objects_insert by apply lookup_delete_eq. by rewrite E.
Qed.
End Heap.

(** A heap of channel contexts owns the channels: freeing one with its channel
    and allocating one for an accepted channel keep the balance. *)
Section Owners.
Context {V : Type} (f : V → handle).
Implicit Types (h : gmap ptr V) (tr : list sysev).

Lemma balanced_free h p v rest tr :
  h !! p = Some v → balanced tr (objects f h ++ rest) →
  balanced (SClose (f v) :: tr) (objects f (delete p h) ++ rest).
Proof.
  intros Hp Hb. apply balanced_close. eapply balanced_perm; [|done].
  by rewrite (objects_delete f _ _ _ Hp).
Qed.

Lemma balanced_new h p v port rest tr :
  h !! p = None → 0 ≤ f v → balanced tr (objects f h ++ rest) →
  balanced (SAccept port (f v) :: tr) (objects f (<[p := v]> h) ++ rest).
Proof.
  intros Hp Hv Hb. eapply balanced_perm; [|by apply balanced_accept].
  by rewrite (objects_insert f _ _ _ Hp).
Qed.

(** A connection refused after the accept. *)
Lemma balanced_refused l port rc tr mid :
  Forall (λ e, neutral e = true) mid → 0 ≤ rc → balanced tr l →
  balanced (SClose rc :: mid ++ SAccept port rc :: tr) l.
Proof.
  intros Hmid Hrc Hb. apply balanced_close. induction Hmid; cbn [app].
  - by apply balanced_accept.
  - by apply balanced_neutral.
Qed.
End Owners.

(** [lk/list.h]: a list of nodes is the list of the objects they are embedded
    in; a node is in a list when [list_add_tail] put it there and no
    [list_delete] took it out. *)
Definition unlink (p : ptr) (l : list ptr) : list ptr := filter (λ q, q ≠ p) l.
#[global] Arguments unlink : simpl never.

Section Unlink.
Implicit Types l : list ptr.

Lemma elem_of_unlink p q l : q ∈ unlink p l ↔ q ≠ p ∧ q ∈ l.
Proof. unfold unlink. by rewrite list_elem_of_filter. Qed.

Lemma NoDup_unlink p l : NoDup l → NoDup (unlink p l).
Proof. apply NoDup_filter. Qed.

Lemma unlink_notin p l : p ∉ l → unlink p l = l.
Proof.
  induction l as [|q l IH]; intros H; [done|].
  apply not_elem_of_cons in H as [Hne H]. unfold unlink in *.
  rewrite filter_cons_True by done. by rewrite IH.
Qed.

Lemma unlink_app p l1 l2 : unlink p (l1 ++ l2) = unlink p l1 ++ unlink p l2.
Proof. apply filter_app. Qed.

Lemma unlink_cons_eq p l : p ∉ l → unlink p (p :: l) = l.
Proof.
  intros H. unfold unlink. rewrite filter_cons_False by auto.
  by apply unlink_notin.
Qed.
End Unlink.

(** * 6. A scripted kernel *)

(** Queues of answers; an operation whose queue is empty answers as the
    comment says.  It is the instance the witnesses run on. *)
Record script := Script {
  sc_next : handle;               (** the next handle given out *)
  sc_peers : list uuid;           (** peers waiting to connect; none: error *)
  sc_sends : list Z;              (** errors of the next sends; none: success *)
  sc_msgs : list bytes;           (** messages waiting; none: error *)
  sc_allocs : list bool           (** allocations; none: success *)
}.

Module Sim.
Definition uapi : Uapi.
Proof.
  refine {| NO_ERROR := 0; ERR_NOT_FOUND := -2; ERR_NO_MEMORY := -5;
            ERR_NOT_ENOUGH_BUFFER := -9; ERR_BAD_LEN := -19;
            ERR_CHANNEL_CLOSED := -35; INVALID_IPC_HANDLE := -1;
            IPC_HANDLE_POLL_NONE := 0; IPC_HANDLE_POLL_READY := 1;
            IPC_HANDLE_POLL_HUP := 4; IPC_HANDLE_POLL_MSG := 8;
            IPC_HANDLE_POLL_SEND_UNBLOCKED := 16;
            IPC_PORT_ALLOW_TA_CONNECT := 2;
            tipc_port_error ev := has ev 30;
            tipc_chan_error ev := has ev 3 |}; lia.
Defined.

Definition recv (mn mx : Z) (s : script) : (Z * bytes) * script :=
  match sc_msgs s with
  | [] => ((-4, []), s)
  | m :: ms =>
      let s' := Script (sc_next s) (sc_peers s) (sc_sends s) ms (sc_allocs s) in
      let n := Z.of_nat (length m) in
      if (mn <=? n) && (n <=? mx) && forallb (λ b, (0 <=? b) && (b <? 256)) m
      then ((n, m), s') else ((-19, []), s')
  end.

Definition kernel : Kernel script := {|
  k_port_create _ _ _ _ s :=
    (sc_next s, Script (sc_next s + 1) (sc_peers s) (sc_sends s) (sc_msgs s) (sc_allocs s));
  k_accept _ s :=
    match sc_peers s with
    | [] => ((-2, ""%string), s)
    | u :: us => ((sc_next s, u),
                  Script (sc_next s + 1) us (sc_sends s) (sc_msgs s) (sc_allocs s))
    end;
  k_set_cookie _ s := (0, s);
  k_close _ s := (0, s);
  k_send _ bs s :=
    match sc_sends s with
    | [] => (Z.of_nat (length bs), s)
    | rc :: rcs => (rc, Script (sc_next s) (sc_peers s) rcs (sc_msgs s) (sc_allocs s))
    end;
  k_recv _ mn mx s := recv mn mx s;
  k_alloc s :=
    match sc_allocs s with
    | [] => (true, s)
    | b :: bs => (b, Script (sc_next s) (sc_peers s) (sc_sends s) (sc_msgs s) bs)
    end
|}.

Definition quiet : script := Script 100 [] [] [] [].

Lemma kernel_laws : @KernelLaws script kernel.
Proof.
  constructor. simpl. unfold recv. intros _ mn mx e rc bs e' H Hrc.
  destruct (sc_msgs e) as [|m ms]; simplify_eq; [lia|].
  destruct ((mn <=? Z.of_nat (length m)) && (Z.of_nat (length m) <=? mx)
    && forallb (λ b, (0 <=? b) && (b <? 256)) m) eqn:E; simplify_eq; [|lia].
  apply andb_prop in E as [E Hb]. split_and!; try lia.
  apply Forall_forall. intros b Hin. rewrite forallb_forall in Hb.
  apply list_elem_of_In in Hin. specialize (Hb b Hin). unfold is_byte. lia.
Qed.
End Sim.
