(* ===== verification/Checks.v ===== *)
(** The checks of a test over a library: which of them fail first. *)

From S2P Require Import Prelude.

(** A check of what the library answered, or of data that came back. *)
Inductive check := Answer (what : string) | Data (what : string).

(** No check failed since, or the first that did is of an answer. *)
Definition blames (old new : list check) : Prop :=
  new = old ∨ ∃ l what, new = l ++ Answer what :: old.

Lemma blames_answer old new what : blames old new → blames old (Answer what :: new).
Proof.
  intros [->|(l & what' & ->)]; right; [by exists [], what|]. by exists (Answer what :: l), what'.
Qed.

Lemma blames_more old new c : blames old new → new ≠ old → blames old (c :: new).
Proof. intros [->|(l & what & ->)] Hne; [done|]. right. by exists (c :: l), what. Qed.

Lemma blames_grows old new c : blames old new → c :: new ≠ old.
Proof.
  intros Hb Hl. assert (length old ≤ length new)%nat.
  { destruct Hb as [->|(l & what & ->)]; [done|]. rewrite length_app. cbn. lia. }
  apply (f_equal length) in Hl. cbn in Hl. lia.
Qed.

Lemma blames_ext old new : blames old new → ∃ l, new = l ++ old.
Proof.
  intros [->|(l & what & ->)]; [by exists []|]. exists (l ++ [Answer what]). by rewrite <- app_assoc.
Qed.

Lemma blames_trans old mid new : blames old mid → blames mid new → blames old new.
Proof.
  intros [->|(l & what & ->)]; [done|]. intros (l' & ->)%blames_ext. right.
  exists (l' ++ l), what. by rewrite <- app_assoc.
Qed.

(** The check [c] is one of those that failed since. *)
Definition failed_since (c : check) (old new : list check) : Prop := ∃ l, new = l ++ old ∧ c ∈ l.

Lemma failed_now c old new : blames old new → failed_since c old (c :: new).
Proof. intros (l & ->)%blames_ext. exists (c :: l). split; [done|left]. Qed.

Lemma failed_later c old mid new : failed_since c old mid → blames mid new → failed_since c old new.
Proof.
  intros (l & -> & Hc) (l' & ->)%blames_ext. exists (l' ++ l). rewrite <- app_assoc.
  split; [done|]. rewrite elem_of_app. by right.
Qed.

(** * Runs that may stop *)

(** [wph m Q E s]: [m] returns as [Q] says, or stops as [E] says. *)
Definition wph {S A} (m : M S A) (Q : A → S → Prop) (E : halt → S → Prop) (s : S) : Prop :=
  match m s with
  | Ret a s' => Q a s'
  | Halt h s' => E h s'
  end.

Section Stops.
Context {S : Type}.
Implicit Types (s : S) (E : halt → S → Prop).

Lemma wph_wp {A} (m : M S A) (Q : A → S → Prop) E s : wp m Q s → wph m Q E s.
Proof. unfold wp, wph. by destruct (m s). Qed.

Lemma wph_bind {A B} (m : M S A) (f : A → M S B) Q E s :
  wph m (λ a, wph (f a) Q E) E s → wph (bind m f) Q E s.
Proof. unfold wph, bind. by destruct (m s). Qed.

Lemma wph_mono {A} (m : M S A) (P Q : A → S → Prop) E E' s :
  wph m P E s → (∀ a s', P a s' → Q a s') → (∀ h s', E h s' → E' h s') → wph m Q E' s.
Proof. unfold wph. destruct (m s); auto. Qed.

Lemma wph_ret {A} (m : M S A) (P Q : A → S → Prop) E s :
  wph m P E s → (∀ a s', P a s' → Q a s') → wph m Q E s.
Proof. intros Hm HQ. by eapply wph_mono. Qed.
End Stops.
