(* ===== verification/Dump.v ===== *)
(** The loops that print a region of memory, sixteen bytes to a line:
    [_hexdump8] of hwrng_srv.c and [hwrng_show_data] of the unit tests.  They
    are kept apart from the services since what they print is read by nobody. *)

From S2P Require Import Prelude Ipc.

(** What [fprintf(stderr, ...)] is given. *)
Inductive printed := PHeader | PAddress (a : Z) | PByte (b : Z) | PNewline.

Section Dump.
Context {S : Type}.
Abbreviation C := (M S).

(** [for (i = 0; i < n; i++)], from index [at0] of the region on. *)
Definition dump_line (region : bytes) (at0 n : Z) : C (list printed) :=
  foldM (λ out i, b ← fetch region (at0 + i); ret (out ++ [PByte b])) [] (seqZ 0 n).

(** The outer loop, from [count] on: [address] is [base + at0], and
    [addresses] says whether it is printed. *)
Fixpoint dump_loop (fuel : nat) (addresses : bool) (region : bytes) (base len at0 count : Z) :
    C (list printed) :=
  match fuel with
  | O => stop OutOfFuel
  | Datatypes.S fuel =>
    if negb (count <? len) then ret [] else
    line ← dump_line region at0 (Z.min (u64 (len - count)) 16);
    rest ← dump_loop fuel addresses region base len (at0 + 16) (u64 (count + 16));
    ret ((if addresses then [PAddress (u64 (base + at0))] else []) ++ line ++ PNewline :: rest)
  end.

(** A line for each sixteen bytes, and the last test. *)
Definition dump_fuel (len : Z) : nat := Z.to_nat (len / 16 + 2).

Definition _hexdump8 (region : bytes) (base len : Z) : C (list printed) :=
  dump_loop (dump_fuel len) true region base len 0 0.

Definition hwrng_show_data (region : bytes) (base len : Z) : C (list printed) :=
  out ← dump_loop (dump_fuel len) false region base len 0 0;
  ret (PHeader :: out).

(** The bytes that were printed, and the lines. *)
Definition printed_bytes (out : list printed) : bytes :=
  omap (λ p, match p with PByte b => Some b | _ => None end) out.
Definition printed_addresses (out : list printed) : list Z :=
  omap (λ p, match p with PAddress a => Some a | _ => None end) out.

Lemma dump_line_spec region at0 n (Q : list printed → S → Prop) s :
  0 ≤ at0 → 0 ≤ n → at0 + n ≤ Z.of_nat (length region) →
  Q (PByte <$> take (Z.to_nat n) (drop (Z.to_nat at0) region)) s →
  wp (dump_line region at0 n) Q s.
Proof.
  intros Ha Hn Hl HQ. unfold dump_line.
  eapply wp_mono; [apply (wp_foldM _ (λ rest out s', s' = s ∧ ∃ k, 0 ≤ k ≤ n ∧ rest = seqZ k (n - k) ∧
    out = PByte <$> take (Z.to_nat k) (drop (Z.to_nat at0) region)))|].
  - intros i rest out s' (-> & k & Hk & E & ->).
    destruct (decide (k = n)) as [->|Hne]; [by rewrite Z.sub_diag in E|].
    rewrite seqZ_cons in E by lia. injection E as -> ->.
    destruct (lookup_lt_is_Some_2 region (Z.to_nat (at0 + k))) as [b Hb]; [lia|].
    apply wp_bind. eapply wp_fetch; [lia|exact Hb|]. apply wp_ret. split; [done|].
    exists (k + 1). split_and!; [lia|lia|f_equal; lia|].
    replace (Z.to_nat (k + 1)) with (Datatypes.S (Z.to_nat k)) by lia.
    rewrite (take_S_r _ _ b); [by rewrite fmap_app|]. rewrite lookup_drop.
    by replace (Z.to_nat at0 + Z.to_nat k)%nat with (Z.to_nat (at0 + k)) by lia.
  - split; [done|]. exists 0. split_and!; [lia..|by rewrite Z.sub_0_r|done].
  - intros out s' (-> & k & Hk & E & ->). assert (k = n) as ->; [|done].
    symmetry in E. apply (f_equal length) in E. rewrite length_seqZ in E. cbn in E. lia.
Qed.

(** The number of lines. *)
Definition lines (len : Z) : Z := (len + 15) / 16.

Lemma lines_fuel len : 0 ≤ len → lines len < Z.of_nat (dump_fuel len).
Proof.
  intros Hlen. unfold lines, dump_fuel. rewrite Z2Nat.id by (pose proof (Z.div_pos len 16); lia).
  assert ((len + 15) / 16 < len / 16 + 2); [|done]. apply Z.div_lt_upper_bound; [lia|].
  pose proof (Z.mod_pos_bound len 16). pose proof (Z_div_mod_eq_full len 16). lia.
Qed.

Lemma printed_bytes_app l l' : printed_bytes (l ++ l') = printed_bytes l ++ printed_bytes l'.
Proof. apply omap_app. Qed.
Lemma printed_addresses_app l l' :
  printed_addresses (l ++ l') = printed_addresses l ++ printed_addresses l'.
Proof. apply omap_app. Qed.
Lemma printed_bytes_line bs : printed_bytes (PByte <$> bs) = bs.
Proof.
  induction bs as [|b bs IH]; [done|]. change (b :: printed_bytes (PByte <$> bs) = b :: bs). by rewrite IH.
Qed.
Lemma printed_addresses_line bs : printed_addresses (PByte <$> bs) = [].
Proof. by induction bs. Qed.

(** A line and what follows it. *)
Lemma line_then_rest (region : bytes) a len : 0 ≤ a < len →
  take (Z.to_nat (Z.min (len - a) 16)) (drop (Z.to_nat a) region) ++
    drop (Z.to_nat (a + 16)) (take (Z.to_nat len) region) =
  drop (Z.to_nat a) (take (Z.to_nat len) region).
Proof.
  intros Ha. rewrite !skipn_firstn_comm.
  replace (Z.to_nat (a + 16)) with (Z.to_nat a + 16)%nat by lia. rewrite <- drop_drop.
  destruct (Z.le_gt_cases (len - a) 16).
  - replace (Z.to_nat len - (Z.to_nat a + 16))%nat with 0%nat by lia. rewrite app_nil_r. f_equal. lia.
  - replace (Z.to_nat (Z.min (len - a) 16)) with 16%nat by lia. rewrite take_take_drop. f_equal. lia.
Qed.

(** From line [j] on. *)
Lemma dump_loop_spec addresses region base len : ∀ fuel j s,
  0 ≤ j → 0 ≤ len ≤ Z.of_nat (length region) → len ≤ 2 ^ 64 - 16 → 16 * j < len + 16 →
  lines len - j < Z.of_nat fuel →
  wp (dump_loop fuel addresses region base len (16 * j) (16 * j)) (λ out s', s' = s ∧
    printed_bytes out = drop (Z.to_nat (16 * j)) (take (Z.to_nat len) region) ∧
    printed_addresses out = if addresses then (λ k, u64 (base + 16 * k)) <$> seqZ j (lines len - j) else []) s.
Proof.
  unfold lines. induction fuel as [|fuel IH]; intros j s Hj Hlen Hmax Hjl Hfuel; [cbn in *; lia|].
  cbn [dump_loop]. wp_cases Hend.
  { apply wp_ret. split; [done|]. rewrite drop_ge by (rewrite length_take; lia). split; [done|].
    rewrite seqZ_nil by lia. by destruct addresses. }
  rewrite u64_small by lia. apply wp_bind, dump_line_spec; [lia..|].
  apply wp_bind. rewrite u64_small by lia. replace (16 * j + 16) with (16 * (j + 1)) by lia.
  eapply wp_mono; [apply (IH (j + 1) s); lia|]. intros out s' (-> & Hb & Ha). apply wp_ret.
  rewrite (printed_bytes_app (if addresses then _ else _)), (printed_bytes_app (PByte <$> _)).
  rewrite (printed_addresses_app (if addresses then _ else _)), (printed_addresses_app (PByte <$> _)).
  rewrite printed_bytes_line, printed_addresses_line.
  change (printed_bytes (PNewline :: out)) with (printed_bytes out).
  change (printed_addresses (PNewline :: out)) with (printed_addresses out). rewrite Hb, Ha.
  split_and!; [done| |].
  - replace (16 * (j + 1)) with (16 * j + 16) by lia. rewrite line_then_rest by lia. by destruct addresses.
  - destruct addresses; [|done]. rewrite (seqZ_cons j) by lia. cbn [fmap list_fmap printed_addresses omap list_omap app].
    by replace (Z.pred ((len + 15) / 16 - j)) with ((len + 15) / 16 - (j + 1)) by lia.
Qed.

(** Both dumps, of any region below the last sixteen bytes of the address space:
    they end, read inside the region, and print its first [len] bytes, each
    once and in order, with the address of each line of sixteen. *)
Theorem hexdump_prints region base len s :
  0 ≤ len ≤ Z.of_nat (length region) → len ≤ 2 ^ 64 - 16 →
  wp (_hexdump8 region base len) (λ out s', s' = s ∧ printed_bytes out = take (Z.to_nat len) region ∧
    printed_addresses out = (λ k, u64 (base + 16 * k)) <$> seqZ 0 (lines len)) s ∧
  wp (hwrng_show_data region base len) (λ out s', s' = s ∧
    printed_bytes out = take (Z.to_nat len) region) s.
Proof.
  intros Hlen Hmax. assert (∀ b, wp (dump_loop (dump_fuel len) b region base len 0 0) (λ out s', s' = s ∧
    printed_bytes out = take (Z.to_nat len) region ∧
    printed_addresses out = if b then (λ k, u64 (base + 16 * k)) <$> seqZ 0 (lines len) else []) s) as Hd.
  { intros b. pose proof (dump_loop_spec b region base len (dump_fuel len) 0 s) as Hw.
    rewrite Z.sub_0_r in Hw. apply Hw; [lia..|]. apply lines_fuel. lia. }
  split; [apply (Hd true)|]. unfold hwrng_show_data. apply wp_bind.
  eapply wp_mono; [apply (Hd false)|]. intros out s' (-> & Hb & _). by apply wp_ret.
Qed.
End Dump.

Module DumpDemo.
Example seventeen :
  _hexdump8 (seqZ 0 20) 4096 17 () =
    Ret ([PAddress 4096] ++ (PByte <$> seqZ 0 16) ++ [PNewline; PAddress 4112; PByte 16; PNewline]) ().
Proof. by vm_compute. Qed.

Lemma hexdump_prints_witness :
  wp (_hexdump8 (seqZ 0 20) 4096 17) (λ out s', s' = () ∧ printed_bytes out = seqZ 0 17 ∧
    printed_addresses out = [4096; 4112]) () ∧
  wp (hwrng_show_data (seqZ 0 20) 4096 17) (λ out s', s' = () ∧ printed_bytes out = seqZ 0 17) ().
Proof. apply (hexdump_prints (seqZ 0 20) 4096 17 ()); by vm_compute. Defined.
End DumpDemo.
