(* ===== verification/HwrngDev.v ===== *)
(** The device interface hwrng_dev.h, to be defined for each platform:
    a class of operations with its laws, and the sample's fake provider
    (hwrng_srv_fake_provider.c) as an instance of it. *)

From S2P Require Import Prelude Ipc.

(** * 1. The interface *)

Class HwrngDev (D : Type) := {
  hwrng_dev_init : D → Z * D;
  (** The return code and the bytes written to the start of the buffer. *)
  hwrng_dev_get_rng_data : Z → D → (Z * bytes) * D
}.

Class HwrngDevLaws (D : Type) `{Uapi, HwrngDev D} : Prop := {
  rng_data_bounds n d rc bs d' :
    0 ≤ n → hwrng_dev_get_rng_data n d = ((rc, bs), d') →
    Z.of_nat (length bs) ≤ n ∧ Forall is_byte bs;
  rng_data_full n d bs d' :
    0 ≤ n → hwrng_dev_get_rng_data n d = ((NO_ERROR, bs), d') →
    Z.of_nat (length bs) = n
}.

(** * 2. The fake provider *)

Module Fake.
(** [static size_t counter = 1;] *)
Definition counter0 : Z := 1.

(** The loop [*buf = counter++ & 0xff] over [n] bytes. *)
Fixpoint rng_fill (n : nat) (counter : Z) : bytes * Z :=
  match n with
  | O => ([], counter)
  | S n =>
      let b := Z.land counter 255 in
      let '(bs, c) := rng_fill n (u64 (counter + 1)) in
      (b :: bs, c)
  end.

Section Provider.
Context `{Uapi}.

Definition rng_init (counter : Z) : Z * Z := (NO_ERROR, counter).

Definition get_rng_data (buf_len : Z) (counter : Z) : (Z * bytes) * Z :=
  let '(bs, c) := rng_fill (Z.to_nat buf_len) counter in ((NO_ERROR, bs), c).

#[export] Instance dev : HwrngDev Z := {|
  hwrng_dev_init := rng_init;
  hwrng_dev_get_rng_data := get_rng_data
|}.
End Provider.

Lemma land_255 c : Z.land c 255 = c mod 256.
Proof. by apply (Z.land_ones c 8). Qed.

(** Wrapping the counter does not disturb its low byte. *)
Lemma u64_mod_256 z : u64 z mod 256 = z mod 256.
Proof.
  apply Z.mod_mod_divide. by exists (2 ^ 56).
Qed.

Lemma fill_length n c : length (rng_fill n c).1 = n.
Proof.
  revert c. induction n as [|n IH]; intros c; [done|].
  simpl. specialize (IH (u64 (c + 1))).
  destruct (rng_fill n (u64 (c + 1))). simpl in *. lia.
Qed.

(** Closed form of the loop. *)
Lemma fill_spec n c :
  0 ≤ c < 2 ^ 64 →
  rng_fill n c = ((λ i, (c + i) mod 256) <$> seqZ 0 (Z.of_nat n), u64 (c + Z.of_nat n)).
Proof.
  revert c. induction n as [|n IH]; intros c Hc.
  { simpl. by rewrite Z.add_0_r, u64_small. }
  cbn [rng_fill]. rewrite IH by apply u64_range. rewrite land_255.
  rewrite (seqZ_cons 0 (Z.of_nat (S n))) by lia.
  replace (Z.pred (Z.of_nat (S n))) with (Z.of_nat n) by lia. rewrite fmap_cons.
  f_equal.
  - f_equal; [f_equal; lia|].
    rewrite <- (fmap_add_seqZ 1 0), <- list_fmap_compose. apply list_fmap_ext.
    intros _ i _. cbn. rewrite <- Zplus_mod_idemp_l, u64_mod_256, Zplus_mod_idemp_l.
    f_equal. lia.
  - unfold u64. rewrite Zplus_mod_idemp_l. f_equal. lia.
Qed.

Lemma fill_bytes n c : Forall is_byte (rng_fill n c).1.
Proof.
  revert c. induction n as [|n IH]; intros c; [constructor|].
  simpl. specialize (IH (u64 (c + 1))).
  destruct (rng_fill n (u64 (c + 1))). constructor; [|done].
  rewrite land_255. by apply Z.mod_pos_bound.
Qed.

(** The low byte of the counter after one step. *)
Lemma mod_256_succ c :
  u64 (c + 1) mod 256 = if c mod 256 =? 255 then 0 else c mod 256 + 1.
Proof.
  rewrite u64_mod_256. pose proof (Z.mod_pos_bound c 256 eq_refl).
  rewrite <- Zplus_mod_idemp_l. destruct (Z.eqb_spec (c mod 256) 255) as [->|]; [done|].
  apply Z.mod_small. lia.
Qed.

Definition nonzero (bs : bytes) : bytes := filter (λ b, b ≠ 0) bs.

(** No zero byte before the low byte of the counter wraps. *)
Lemma fill_nonzero_run n c :
  1 ≤ c mod 256 → c mod 256 + Z.of_nat n ≤ 256 →
  nonzero (rng_fill n c).1 = (rng_fill n c).1.
Proof.
  revert c. induction n as [|n IH]; intros c Hlo Hhi; [done|].
  cbn [rng_fill]. destruct n as [|n].
  { cbn [rng_fill fst]. unfold nonzero.
    rewrite filter_cons_True; [done|]. rewrite land_255. lia. }
  specialize (IH (u64 (c + 1))). rewrite mod_256_succ in IH.
  destruct (Z.eqb_spec (c mod 256) 255); [lia|].
  destruct (rng_fill (S n) (u64 (c + 1))) as [bs c'] eqn:E. cbn [fst] in *.
  unfold nonzero in *. rewrite filter_cons_True by (rewrite land_255; lia).
  by rewrite IH by lia.
Qed.

(** At most one byte in a window of 256 is zero. *)
Lemma fill_nonzero n c :
  (n ≤ 256)%nat → (n - 1 ≤ length (nonzero (rng_fill n c).1))%nat.
Proof.
  revert c. induction n as [|n IH]; intros c Hn; [simpl; lia|].
  destruct (Z.eq_dec (c mod 256) 0) as [E|E].
  - (* the zero byte is the first one: none follows in the window *)
    cbn [rng_fill]. pose proof (fill_nonzero_run n (u64 (c + 1))) as Hrun.
    rewrite mod_256_succ, E in Hrun. change (0 =? 255) with false in Hrun.
    pose proof (fill_length n (u64 (c + 1))) as Hl.
    destruct (rng_fill n (u64 (c + 1))) as [bs c']. cbn [fst] in *.
    unfold nonzero in *. rewrite filter_cons_False by (rewrite land_255; lia).
    rewrite Hrun by lia. lia.
  - cbn [rng_fill]. specialize (IH (u64 (c + 1))).
    destruct (rng_fill n (u64 (c + 1))) as [bs c']. cbn [fst] in *.
    unfold nonzero in *. rewrite filter_cons_True by (rewrite land_255; lia).
    cbn. lia.
Qed.

#[export] Instance laws `{Uapi} : HwrngDevLaws Z.
Proof.
  constructor.
  - cbn. unfold get_rng_data. intros n d rc bs d' Hn E.
    pose proof (fill_length (Z.to_nat n) d). pose proof (fill_bytes (Z.to_nat n) d).
    destruct (rng_fill (Z.to_nat n) d). simplify_eq. cbn in *. split; [lia|done].
  - cbn. unfold get_rng_data. intros n d bs d' Hn E.
    pose proof (fill_length (Z.to_nat n) d).
    destruct (rng_fill (Z.to_nat n) d). simplify_eq. cbn in *. lia.
Qed.
End Fake.
