(* ===== verification/Hwrng.v ===== *)
(** The random number service, hwcrypto/hwrng_srv.c: its channel contexts, the
    queue of pending requests and the handlers, with their safety, resource
    and functional properties. *)

From S2P Require Import Prelude Ipc HwrngDev.

(** * 1. Data *)

(** interface/hwrng/hwrng.h: [struct hwrng_req] and its 32-bit [len]. *)
Class HwrngIface := {
  HWRNG_PORT : string;
  sizeof_hwrng_req : Z;
  hwrng_req_len : bytes → Z;
  hwrng_req_len_u32 bs : 0 ≤ hwrng_req_len bs < 2 ^ 32
}.

Definition MAX_HWRNG_MSG_SIZE : Z := 4096.

Record hwrng_chan_ctx := HwrngCtx {
  chan : handle;
  req_size : Z;
  send_blocked : bool
}.

(** The globals of the file and the heap of contexts. *)
Record hwrng_state := HwrngState {
  ctxs : gmap ptr hwrng_chan_ctx;
  hwrng_req_list : list ptr;
  rng_data : bytes;
  hwrng_port : handle
}.

Definition with_ctxs (f : gmap ptr hwrng_chan_ctx → gmap ptr hwrng_chan_ctx)
    (l : hwrng_state) : hwrng_state :=
  HwrngState (f (ctxs l)) (hwrng_req_list l) (rng_data l) (hwrng_port l).
Definition with_list (f : list ptr → list ptr) (l : hwrng_state) : hwrng_state :=
  HwrngState (ctxs l) (f (hwrng_req_list l)) (rng_data l) (hwrng_port l).
Definition with_data (f : bytes → bytes) (l : hwrng_state) : hwrng_state :=
  HwrngState (ctxs l) (hwrng_req_list l) (f (rng_data l)) (hwrng_port l).
Definition with_port (h : handle) (l : hwrng_state) : hwrng_state :=
  HwrngState (ctxs l) (hwrng_req_list l) (rng_data l) h.

Definition hwrng_init `{Uapi} : hwrng_state :=
  HwrngState ∅ [] (replicate (Z.to_nat MAX_HWRNG_MSG_SIZE) 0) INVALID_IPC_HANDLE.

Definition block (b : bool) (c : hwrng_chan_ctx) : hwrng_chan_ctx :=
  HwrngCtx (chan c) (req_size c) b.
Definition resize (n : Z) (c : hwrng_chan_ctx) : hwrng_chan_ctx :=
  HwrngCtx (chan c) n (send_blocked c).

(** * 2. Operations *)

Section Ops.
Context {D W : Type} `{!Uapi} `{!HwrngIface} `{!HwrngDev D} `{!Kernel W}.
Abbreviation C := (M (world hwrng_state D W)).

Definition deref (p : ptr) : C hwrng_chan_ctx := load ctxs p.

Definition store (p : ptr) (c : hwrng_chan_ctx) : C unit :=
  mod_loc (with_ctxs <[p := c]>).

(** [hwrng_dev_get_rng_data(rng_data, len)]. *)
Definition fill_rng_data (len : Z) : C Z := λ w,
  let '((rc, bs), d) := hwrng_dev_get_rng_data len (dev w) in
  Ret rc (set_dev d (set_loc (with_data (overwrite bs) (loc w)) w)).

Definition hwrng_close_chan (p : ptr) : C unit :=
  ctx ← deref p;
  close (chan ctx);;
  in_list ← get_loc (λ l, bool_decide (p ∈ hwrng_req_list l));
  (if in_list then mod_loc (with_list (unlink p)) else ret tt);;
  mod_loc (with_ctxs (delete p)).

(** The body of the loop of [hwrng_handle_req_queue]. *)
Definition hwrng_service_req (need_more : bool) (p : ptr) : C bool :=
  ctx ← deref p;
  if send_blocked ctx then ret need_more else
  let len := if MAX_HWRNG_MSG_SIZE <? req_size ctx
             then MAX_HWRNG_MSG_SIZE else req_size ctx in
  rc ← fill_rng_data len;
  if negb (rc =? NO_ERROR) then hwrng_close_chan p;; ret need_more else
  data ← get_loc (λ l, take (Z.to_nat len) (rng_data l));
  rc ← tipc_send (chan ctx) data;
  if rc <? 0 then
    (if rc =? ERR_NOT_ENOUGH_BUFFER then store p (block true ctx)
     else hwrng_close_chan p);;
    ret need_more
  else
    let left := u64 (req_size ctx - len) in
    store p (resize left ctx);;
    if left =? 0 then mod_loc (with_list (unlink p));; ret need_more
    else ret true.

(** [list_for_every_entry_safe] reads the successor before the body runs,
    and the body unlinks the current entry only: the entries visited are
    those of the list as the loop finds it. *)
Definition hwrng_handle_req_queue : C bool :=
  l ← get_loc hwrng_req_list;
  foldM hwrng_service_req false l.

Definition hwrng_kick_req_queue : C unit :=
  hwrng_handle_req_queue;; ret tt.

Definition hwrng_chan_handle_msg (p : ptr) : C Z :=
  ctx ← deref p;
  r ← tipc_recv (chan ctx) sizeof_hwrng_req sizeof_hwrng_req;
  let '(rc, req) := r in
  if rc <? 0 then ret rc else
  in_list ← get_loc (λ l, bool_decide (p ∈ hwrng_req_list l));
  (if in_list then
     store p (resize (u64 (req_size ctx + hwrng_req_len req)) ctx)
   else
     store p (resize (hwrng_req_len req) ctx);;
     mod_loc (with_list (λ l, l ++ [p])));;
  ret 0.

Definition hwrng_chan_handler (ev : uevent) (p : ptr) : C unit :=
  ctx ← deref p;
  assert (ev_handle ev =? chan ctx);;
  tipc_handle_chan_errors ev;;
  (if has (ev_event ev) IPC_HANDLE_POLL_HUP then hwrng_close_chan p
   else
     (if has (ev_event ev) IPC_HANDLE_POLL_SEND_UNBLOCKED
      then store p (block false ctx) else ret tt);;
     (if has (ev_event ev) IPC_HANDLE_POLL_MSG then
        rc ← hwrng_chan_handle_msg p;
        if negb (rc =? 0) then hwrng_close_chan p else ret tt
      else ret tt));;
  hwrng_kick_req_queue.

Definition hwrng_port_handler (ev : uevent) : C unit :=
  tipc_handle_port_errors ev;;
  if has (ev_event ev) IPC_HANDLE_POLL_READY then
    r ← accept (ev_handle ev);
    let '(rc, _) := r in
    if rc <? 0 then ret tt else
    ok ← alloc_ok;
    if negb ok then close rc;; ret tt else
    p ← get_loc (λ l, new_ptr (ctxs l));
    store p (HwrngCtx rc 0 false);;
    rc' ← set_cookie rc;
    if negb (rc' =? 0) then
      mod_loc (with_ctxs (delete p));; close rc;; ret tt
    else ret tt
  else ret tt.

Definition hwrng_start_service : C Z :=
  rc ← port_create HWRNG_PORT 1 MAX_HWRNG_MSG_SIZE IPC_PORT_ALLOW_TA_CONNECT;
  if rc <? 0 then ret rc else
  mod_loc (with_port rc);;
  set_cookie rc;;
  rc ← (λ w, let '(rc, d) := hwrng_dev_init (dev w) in Ret rc (set_dev d w));
  if negb (rc =? NO_ERROR) then
    port ← get_loc hwrng_port; close port;; ret rc
  else ret NO_ERROR.
End Ops.

(** * 3. The invariant *)

(** [rest]: handles of the application this service does not own.  Between
    two handlers every node of the queue is a live context, request sizes are
    [size_t] values, and the channels of the live contexts are exactly the
    handles obtained and not yet closed. *)
Record hwrng_ok (rest : list handle) (l : hwrng_state) (tr : list sysev) : Prop :=
  HwrngOk {
    ok_nodup : NoDup (hwrng_req_list l);
    ok_alloc : ∀ p, p ∈ hwrng_req_list l → is_Some (ctxs l !! p);
    ok_size : ∀ p c, ctxs l !! p = Some c → 0 ≤ req_size c < 2 ^ 64;
    ok_data : Z.of_nat (length (rng_data l)) = MAX_HWRNG_MSG_SIZE;
    ok_bal : balanced tr (objects chan (ctxs l) ++ rest)
  }.

Section Ok.
Context (rest : list handle).
Implicit Types (l : hwrng_state) (c : hwrng_chan_ctx) (tr : list sysev).

Lemma ok_trace e l tr :
  neutral e = true → hwrng_ok rest l tr → hwrng_ok rest l (e :: tr).
Proof. intros He []. split; auto with ipc. Qed.

Lemma ok_buf data l tr :
  Z.of_nat (length data) = MAX_HWRNG_MSG_SIZE →
  hwrng_ok rest l tr → hwrng_ok rest (with_data (λ _, data) l) tr.
Proof. intros Hd []. by split. Qed.

Lemma ok_update p c c' l tr :
  ctxs l !! p = Some c → chan c' = chan c → 0 ≤ req_size c' < 2 ^ 64 →
  hwrng_ok rest l tr → hwrng_ok rest (with_ctxs <[p := c']> l) tr.
Proof.
  intros Hp Hch Hsz []. split; cbn; auto.
  - intros q Hq. destruct (decide (q = p)) as [->|]; simplify_map_eq; eauto.
  - intros q d Hq. destruct (decide (q = p)) as [->|]; simplify_map_eq; eauto.
  - eapply balanced_perm; [|done]. by rewrite (objects_update _ _ _ _ _ Hp Hch).
Qed.

Lemma ok_unlink p l tr :
  hwrng_ok rest l tr → hwrng_ok rest (with_list (unlink p) l) tr.
Proof.
  intros []. split; cbn; auto using NoDup_unlink.
  intros q [_ Hq]%elem_of_unlink. auto.
Qed.

Lemma ok_link p l tr :
  is_Some (ctxs l !! p) → p ∉ hwrng_req_list l →
  hwrng_ok rest l tr → hwrng_ok rest (with_list (λ q, q ++ [p]) l) tr.
Proof.
  intros Hp Hn []. split; cbn; auto.
  - apply NoDup_app. split_and!; [done| |apply NoDup_singleton].
    intros q Hq ->%list_elem_of_singleton. done.
  - intros q [Hq| ->%list_elem_of_singleton]%elem_of_app; auto.
Qed.

Lemma ok_close p c l tr :
  ctxs l !! p = Some c → p ∉ hwrng_req_list l → hwrng_ok rest l tr →
  hwrng_ok rest (with_ctxs (delete p) l) (SClose (chan c) :: tr).
Proof.
  intros Hp Hn []. split; cbn; auto.
  - intros q Hq. rewrite lookup_delete_ne; [auto|]. by intros ->.
  - intros q d Hq. apply lookup_delete_Some in Hq as [_ Hq]. eauto.
  - by apply (balanced_free chan).
Qed.

Lemma ok_open port rc p c l tr :
  0 ≤ rc → ctxs l !! p = None → chan c = rc → 0 ≤ req_size c < 2 ^ 64 →
  p ∉ hwrng_req_list l → hwrng_ok rest l tr →
  hwrng_ok rest (with_ctxs <[p := c]> l) (SAccept port rc :: tr).
Proof.
  intros Hrc Hp <- Hsz Hn []. split; cbn; auto.
  - intros q Hq. destruct (decide (q = p)) as [->|]; simplify_map_eq; eauto.
  - intros q d Hq. destruct (decide (q = p)) as [->|]; simplify_map_eq; eauto.
  - by apply (balanced_new chan).
Qed.
End Ok.
#[export] Hint Resolve ok_trace ok_buf ok_unlink ok_close : ipc.

(** * 4. What each operation does *)

Section Specs.
Context {D W : Type} `{!Uapi} `{!HwrngIface} `{!HwrngDev D} `{!HwrngDevLaws D}
  `{!Kernel W}.
Implicit Types (w : world hwrng_state D W) (p : ptr) (c : hwrng_chan_ctx).

Lemma wp_deref p c Q w :
  ctxs (loc w) !! p = Some c → Q c w → wp (deref p) Q w.
Proof. apply wp_load. Qed.

Lemma close_chan_spec p c Q w :
  ctxs (loc w) !! p = Some c →
  (∀ v, Q tt (World (with_ctxs (delete p) (with_list (unlink p) (loc w)))
                 (dev w) v (SClose (chan c) :: trace w))) →
  wp (hwrng_close_chan p) Q w.
Proof.
  intros Hp HQ. unfold hwrng_close_chan. ipc_steps. eapply wp_deref; [done|].
  ipc_steps. unfold close. ipc_call r v E. ipc_steps.
  case_bool_decide as Hin; ipc_steps; cbn in *; [apply HQ|].
  specialize (HQ v). unfold with_list in HQ.
  rewrite unlink_notin in HQ by done. by destruct (loc w).
Qed.

Lemma wp_fill n Q w :
  (∀ rc bs d, hwrng_dev_get_rng_data n (dev w) = ((rc, bs), d) →
     Q rc (World (with_data (overwrite bs) (loc w)) d (env w) (trace w))) →
  wp (fill_rng_data n) Q w.
Proof.
  intros HQ. unfold fill_rng_data, wp.
  destruct (hwrng_dev_get_rng_data n (dev w)) as [[rc bs] d] eqn:E. by apply HQ.
Qed.

(** The number of bytes one pass offers to a request. *)
Definition chunk c : Z := Z.min (req_size c) MAX_HWRNG_MSG_SIZE.

(** The context is gone, with its place in the queue. *)
Definition dropped p (l : hwrng_state) : hwrng_state :=
  with_ctxs (delete p) (with_list (unlink p) l).

(** The outcomes of serving the request of [c], at address [p], in [w]. *)
Inductive service_result p c (more : bool) w : bool → world hwrng_state D W → Prop :=
| SR_blocked :
    send_blocked c = true → service_result p c more w more w
| SR_dev_failed rc bs d v :
    send_blocked c = false → rc ≠ NO_ERROR →
    hwrng_dev_get_rng_data (chunk c) (dev w) = ((rc, bs), d) →
    service_result p c more w more
      (World (dropped p (with_data (overwrite bs) (loc w))) d v
         (SClose (chan c) :: trace w))
| SR_send_blocked bs d v :
    send_blocked c = false →
    hwrng_dev_get_rng_data (chunk c) (dev w) = ((NO_ERROR, bs), d) →
    (k_send (chan c) bs (env w)).1 = ERR_NOT_ENOUGH_BUFFER →
    service_result p c more w more
      (World (with_ctxs <[p := block true c]> (with_data (overwrite bs) (loc w))) d v
         (SSend (chan c) bs ERR_NOT_ENOUGH_BUFFER :: trace w))
| SR_send_failed rc bs d v :
    send_blocked c = false → rc < 0 → rc ≠ ERR_NOT_ENOUGH_BUFFER →
    hwrng_dev_get_rng_data (chunk c) (dev w) = ((NO_ERROR, bs), d) →
    (k_send (chan c) bs (env w)).1 = rc →
    service_result p c more w more
      (World (dropped p (with_data (overwrite bs) (loc w))) d v
         (SClose (chan c) :: SSend (chan c) bs rc :: trace w))
| SR_done rc bs d v :
    send_blocked c = false → 0 ≤ rc → req_size c ≤ MAX_HWRNG_MSG_SIZE →
    hwrng_dev_get_rng_data (chunk c) (dev w) = ((NO_ERROR, bs), d) →
    (k_send (chan c) bs (env w)).1 = rc →
    service_result p c more w more
      (World (with_list (unlink p)
                (with_ctxs <[p := resize 0 c]> (with_data (overwrite bs) (loc w)))) d v
         (SSend (chan c) bs rc :: trace w))
| SR_more rc bs d v :
    send_blocked c = false → 0 ≤ rc → MAX_HWRNG_MSG_SIZE < req_size c →
    hwrng_dev_get_rng_data (chunk c) (dev w) = ((NO_ERROR, bs), d) →
    (k_send (chan c) bs (env w)).1 = rc →
    service_result p c more w true
      (World (with_ctxs <[p := resize (req_size c - MAX_HWRNG_MSG_SIZE) c]>
                (with_data (overwrite bs) (loc w))) d v
         (SSend (chan c) bs rc :: trace w)).

Lemma service_req_spec p c more w :
  ctxs (loc w) !! p = Some c → 0 ≤ req_size c < 2 ^ 64 →
  wp (hwrng_service_req more p) (service_result p c more w) w.
Proof.
  intros Hp Hsz. unfold hwrng_service_req. ipc_steps. eapply wp_deref; [done|].
  wp_cases Hb; ipc_steps; [by constructor|].
  replace (if MAX_HWRNG_MSG_SIZE <? req_size c then MAX_HWRNG_MSG_SIZE else req_size c)
    with (chunk c) by (unfold chunk; destruct (Z.ltb_spec MAX_HWRNG_MSG_SIZE (req_size c)); lia).
  apply wp_fill. intros rc bs d E. wp_cases Hrc; ipc_steps.
  { eapply close_chan_spec; [done|]. intros v. ipc_steps.
    apply (SR_dev_failed _ _ _ _ rc bs d v); try done. lia. }
  assert (rc = NO_ERROR) as -> by lia.
  assert (Z.of_nat (length bs) = chunk c) as Hl.
  { eapply rng_data_full; [|done]. unfold chunk, MAX_HWRNG_MSG_SIZE. lia. }
  cbn. rewrite (take_overwrite_Z (chunk c)) by done.
  unfold tipc_send. ipc_call r v Es. wp_cases Hneg; ipc_steps.
  { wp_cases Henb.
    - unfold store. ipc_steps. apply Z.eqb_eq in Henb as ->. constructor; try done.
      exact (f_equal fst Es).
    - eapply close_chan_spec; [done|]. intros v'. ipc_steps.
      apply (SR_send_failed _ _ _ _ r bs d v'); try done; [lia..|].
      exact (f_equal fst Es). }
  unfold store. ipc_steps.
  destruct (Z.le_gt_cases (req_size c) MAX_HWRNG_MSG_SIZE) as [Hle|Hgt].
  - replace (u64 (req_size c - chunk c)) with 0
      by (replace (req_size c - chunk c) with 0 by (unfold chunk; lia); done).
    wp_cases Hz; [|done]. ipc_steps. apply (SR_done _ _ _ _ r bs d v); try done; [lia|].
    exact (f_equal fst Es).
  - replace (chunk c) with MAX_HWRNG_MSG_SIZE in * by (unfold chunk; lia).
    rewrite u64_small by (unfold MAX_HWRNG_MSG_SIZE in *; lia).
    wp_cases Hz; [lia|]. ipc_steps. apply (SR_more _ _ _ _ r bs d v); try done; [lia| |exact (f_equal fst Es)].
    by replace (chunk c) with MAX_HWRNG_MSG_SIZE by (unfold chunk; lia).
Qed.

(** Serving one entry keeps the invariant and disturbs no other entry. *)
Lemma service_result_ok rest p c more w more' w' :
  ctxs (loc w) !! p = Some c → hwrng_ok rest (loc w) (trace w) →
  service_result p c more w more' w' →
  hwrng_ok rest (loc w') (trace w') ∧
  (∀ q, q ≠ p → ctxs (loc w') !! q = ctxs (loc w) !! q) ∧
  (∀ q, q ≠ p → q ∈ hwrng_req_list (loc w) → q ∈ hwrng_req_list (loc w')).
Proof.
  intros Hp Hok Hr.
  assert (∀ bs d rc, hwrng_dev_get_rng_data (chunk c) (dev w) = ((rc, bs), d) →
    hwrng_ok rest (with_data (overwrite bs) (loc w)) (trace w)) as Hbuf.
  { intros bs d rc E. pose proof (ok_size _ _ _ Hok _ _ Hp).
    pose proof (ok_data _ _ _ Hok).
    apply rng_data_bounds in E as [Hb _]; [|unfold chunk, MAX_HWRNG_MSG_SIZE; lia].
    apply (ok_buf rest (overwrite bs (rng_data (loc w)))); [|done].
    rewrite length_overwrite; [done|]. unfold chunk in Hb. lia. }
  pose proof (ok_size _ _ _ Hok _ _ Hp) as Hsz.
  destruct Hr as [|rc bs d v Hb Hrc E|bs d v Hb E Es|rc bs d v Hb Hrc Hne E Es
    |rc bs d v Hb Hrc Hle E Es|rc bs d v Hb Hrc Hgt E Es]; cbn.
  1: by auto.
  all: split; [|split; intros q Hq;
    [by rewrite ?lookup_delete_ne, ?lookup_insert_ne by done
    |intros Hin; try done; by apply elem_of_unlink]].
  all: specialize (Hbuf _ _ _ E).
  - apply ok_close; auto with ipc. cbn. by intros [? _]%elem_of_unlink.
  - apply ok_trace; [done|]. eapply ok_update; eauto.
  - apply ok_close; auto with ipc. cbn. by intros [? _]%elem_of_unlink.
  - apply ok_trace; [done|]. apply ok_unlink. eapply ok_update; eauto. cbn. lia.
  - apply ok_trace; [done|]. eapply ok_update; eauto. cbn.
    unfold MAX_HWRNG_MSG_SIZE in *. lia.
Qed.

(** What reading a request does to the context [c] at [p]. *)
Definition queued p c (n : Z) (l : hwrng_state) : hwrng_state :=
  if decide (p ∈ hwrng_req_list l)
  then with_ctxs <[p := resize (u64 (req_size c + n)) c]> l
  else with_list (λ q, q ++ [p]) (with_ctxs <[p := resize n c]> l).

Lemma chan_handle_msg_spec p c (Q : Z → world hwrng_state D W → Prop) w :
  ctxs (loc w) !! p = Some c →
  (∀ rc bs v, rc < 0 →
     Q rc (World (loc w) (dev w) v (SRecv (chan c) rc bs :: trace w))) →
  (∀ rc req v, 0 ≤ rc →
     Q 0 (World (queued p c (hwrng_req_len req) (loc w)) (dev w) v
            (SRecv (chan c) rc req :: trace w))) →
  wp (hwrng_chan_handle_msg p) Q w.
Proof.
  intros Hp Herr Hmsg. unfold hwrng_chan_handle_msg. ipc_steps.
  eapply wp_deref; [done|]. ipc_steps. unfold tipc_recv.
  ipc_call r v E. destruct r as [rc req]. wp_cases Hrc; ipc_steps; [apply Herr; lia|].
  specialize (Hmsg rc req v ltac:(lia)). unfold queued in Hmsg. unfold store.
  case_bool_decide as Hin.
  - rewrite decide_True in Hmsg by done. by ipc_steps.
  - rewrite decide_False in Hmsg by done. by ipc_steps.
Qed.

Lemma queued_ok rest p c n l tr :
  ctxs l !! p = Some c → 0 ≤ n < 2 ^ 32 →
  hwrng_ok rest l tr → hwrng_ok rest (queued p c n l) tr.
Proof.
  intros Hp Hn Hok. unfold queued. destruct (decide _) as [Hin|Hin].
  - eapply ok_update; eauto. apply u64_range.
  - apply (ok_link rest p (with_ctxs <[p := resize n c]> l)); cbn.
    + rewrite lookup_insert_eq. eauto.
    + done.
    + eapply ok_update; eauto. cbn. lia.
Qed.
End Specs.

(** * 5. Invariants of the handlers *)

(** A property of the globals and the trace that every elementary step of the
    service keeps: the handlers then keep it as well. *)
Class Stable {D W} `{!Uapi} `{!HwrngIface} `{!HwrngDev D} `{!Kernel W} (rest : list handle)
    (I : hwrng_state → list sysev → Prop) : Prop := {
  st_ok l tr : I l tr → hwrng_ok rest l tr;
  st_service p c more (w : world hwrng_state D W) more' w' :
    ctxs (loc w) !! p = Some c → p ∈ hwrng_req_list (loc w) → I (loc w) (trace w) →
    service_result p c more w more' w' → I (loc w') (trace w');
  st_close p c l tr :
    ctxs l !! p = Some c → I l tr → I (dropped p l) (SClose (chan c) :: tr);
  st_unblock p c l tr :
    ctxs l !! p = Some c → I l tr → I (with_ctxs <[p := block false c]> l) tr;
  st_recv_err h rc bs l tr : rc < 0 → I l tr → I l (SRecv h rc bs :: tr);
  st_queue p c rc bs l tr :
    ctxs l !! p = Some c → 0 ≤ rc → I l tr →
    I (queued p c (hwrng_req_len bs) l) (SRecv (chan c) rc bs :: tr);
  st_accept_err port rc l tr : rc < 0 → I l tr → I l (SAccept port rc :: tr);
  st_no_memory port rc ok l tr :
    0 ≤ rc → I l tr → I l (SClose rc :: SAlloc ok :: SAccept port rc :: tr);
  st_no_cookie port rc ok rc' l tr :
    0 ≤ rc → I l tr →
    I l (SClose rc :: SSetCookie rc rc' :: SAlloc ok :: SAccept port rc :: tr);
  st_open port rc ok rc' p l tr :
    0 ≤ rc → ctxs l !! p = None → p ∉ hwrng_req_list l → I l tr →
    I (with_ctxs <[p := HwrngCtx rc 0 false]> l)
      (SSetCookie rc rc' :: SAlloc ok :: SAccept port rc :: tr)
}.

Section Invariants.
Context {D W : Type} `{!Uapi} `{!HwrngIface} `{!HwrngDev D} `{!HwrngDevLaws D}
  `{!Kernel W}.
Context (rest : list handle) (I : hwrng_state → list sysev → Prop)
  {HI : Stable (D:=D) (W:=W) rest I}.
Implicit Types (w : world hwrng_state D W) (p : ptr) (c : hwrng_chan_ctx).
Abbreviation holds := (λ _ w', I (loc w') (trace w')) (only parsing).

(** The state of the loop over the entries still to visit. *)
Definition pass_inv (l : list ptr) (_ : bool) w : Prop :=
  I (loc w) (trace w) ∧ NoDup l ∧ ∀ q, q ∈ l → q ∈ hwrng_req_list (loc w).

Lemma kick_stable w : I (loc w) (trace w) → wp hwrng_kick_req_queue holds w.
Proof.
  intros HIw. unfold hwrng_kick_req_queue, hwrng_handle_req_queue. ipc_steps.
  eapply wp_mono; [eapply (wp_foldM _ pass_inv)|intros ?? []; by ipc_steps].
  - intros p l more s (Hs & Hnd & Hin). pose proof (st_ok _ _ Hs) as Hok.
    apply NoDup_cons in Hnd as [Hp Hnd].
    destruct (ok_alloc _ _ _ Hok p) as [c Hc]; [apply Hin; left|].
    eapply wp_mono; [apply service_req_spec; [done|by eapply ok_size]|].
    intros more' s' Hr.
    destruct (service_result_ok _ _ _ _ _ _ _ Hc Hok Hr) as (_ & _ & Hl).
    split_and!; [eapply st_service; [done| |done|done]; apply Hin; left|done|].
    intros q Hq. apply Hl; [by intros ->|].
    apply Hin. by right.
  - pose proof (st_ok _ _ HIw). split_and!; eauto using ok_nodup.
Qed.

Lemma close_kick_stable q d w :
  ctxs (loc w) !! q = Some d → I (loc w) (trace w) →
  wp (hwrng_close_chan q) (λ _, wp hwrng_kick_req_queue holds) w.
Proof.
  intros Hq Hl. eapply close_chan_spec; [done|]. intros v'.
  apply kick_stable. by apply st_close.
Qed.

(** The SEND_UNBLOCKED branch clears the flag of the context. *)
Lemma unblock_stable (b : bool) p c (Q : unit → world hwrng_state D W → Prop) w :
  ctxs (loc w) !! p = Some c → I (loc w) (trace w) →
  (∀ l c', ctxs l !! p = Some c' → chan c' = chan c → I l (trace w) →
     Q tt (World l (dev w) (env w) (trace w))) →
  wp (if b then store p (block false c) else ret tt) Q w.
Proof.
  intros Hp Hok HQ. wp_cases Hb.
  - unfold store. ipc_steps. apply (HQ _ (block false c)); [|done|by apply st_unblock].
    cbn. by rewrite lookup_insert_eq.
  - ipc_steps. specialize (HQ (loc w) c Hp eq_refl Hok). by destruct w.
Qed.

Lemma chan_handler_stable ev p c w :
  I (loc w) (trace w) → ctxs (loc w) !! p = Some c → ev_handle ev = chan c →
  tipc_chan_error (ev_event ev) = false →
  wp (hwrng_chan_handler ev p) holds w.
Proof.
  intros Hok Hp Hh Herr. unfold hwrng_chan_handler, tipc_handle_chan_errors.
  ipc_steps. eapply wp_deref; [done|]. ipc_steps. apply wp_assert; [lia|].
  ipc_steps. rewrite Herr. ipc_steps.
  wp_cases Hhup; ipc_steps; [by eapply close_kick_stable|].
  eapply unblock_stable; [done..|]. intros l c' Hl Hch Hlok.
  wp_cases Hmsg; ipc_steps; [|by apply kick_stable].
  eapply chan_handle_msg_spec; [done| |]; world_simpl.
  - intros rc bs v Hrc. wp_cases Hz; [|lia]. eapply close_kick_stable; [done|].
    by apply st_recv_err.
  - intros rc req v Hrc. wp_cases Hz; [done|]. ipc_steps. apply kick_stable.
    by apply st_queue.
Qed.

Lemma port_handler_stable ev w :
  I (loc w) (trace w) → tipc_port_error (ev_event ev) = false →
  wp (hwrng_port_handler ev) holds w.
Proof.
  intros HIw Herr. unfold hwrng_port_handler, tipc_handle_port_errors.
  rewrite Herr. ipc_steps. wp_cases Hready; ipc_steps; [|done].
  unfold accept. ipc_call r v E. destruct r as [rc u]. wp_cases Hrc; ipc_steps.
  { apply st_accept_err; [lia|done]. }
  unfold alloc_ok. ipc_call ok v' E'. wp_cases Hok'; ipc_steps.
  { unfold close. ipc_call r'' v'' E''. ipc_steps. apply st_no_memory; [lia|done]. }
  unfold store. ipc_steps. unfold set_cookie. ipc_call r2 v2 E2.
  pose proof (new_ptr_fresh (ctxs (loc w))) as Hfresh.
  wp_cases Hck; ipc_steps.
  - unfold close. ipc_call r3 v3 E3. ipc_steps.
    replace (with_ctxs (delete _) (with_ctxs <[_ := _]> (loc w))) with (loc w).
    + apply st_no_cookie; [lia|done].
    + destruct (loc w) as [cs ? ? ?]. unfold with_ctxs. cbn in *.
      by rewrite delete_insert_id.
  - apply st_open; [lia|done| |done].
    intros [c Hc]%(ok_alloc _ _ _ (st_ok _ _ HIw)). by rewrite Hfresh in Hc.
Qed.
End Invariants.

(** The basic invariant is stable. *)
#[export] Instance hwrng_ok_stable {D W} `{!Uapi} `{!HwrngIface} `{!HwrngDev D}
    `{!HwrngDevLaws D} `{!Kernel W} rest : Stable (D:=D) (W:=W) rest (hwrng_ok rest).
Proof.
  split; auto with ipc.
  - intros * Hp _ Hok Hr. by eapply service_result_ok.
  - intros * Hp Hok. apply ok_close; [done| |by apply ok_unlink].
    cbn. by intros [? _]%elem_of_unlink.
  - intros * Hp Hok. eapply ok_update; eauto. cbn. eauto using ok_size.
  - intros * Hp Hrc Hok. apply ok_trace; [done|].
    eapply queued_ok; eauto using hwrng_req_len_u32.
  - intros port rc l tr Hrc []. split; auto. apply balanced_neutral; [cbn; lia|done].
  - intros * Hrc []. split; auto.
    apply (balanced_refused _ _ _ _ [SAlloc ok]); auto.
  - intros * Hrc []. split; auto.
    apply (balanced_refused _ _ _ _ [SSetCookie rc rc'; SAlloc ok]); auto.
  - intros * Hrc Hp Hn Hok. apply ok_trace, ok_trace; [done..|].
    by apply ok_open.
Qed.

Section Handlers.
Context {D W : Type} `{!Uapi} `{!HwrngIface} `{!HwrngDev D} `{!HwrngDevLaws D}
  `{!Kernel W}.
Implicit Types (w : world hwrng_state D W) (p : ptr) (c : hwrng_chan_ctx).

(** hwrng_chan_handler, called with the context registered for the
    channel, whatever the event, the kernel's answers and the device do:
    it runs to its end (no assertion fails, no freed context is touched)
    and keeps the service's invariant: the queue holds live contexts only,
    each at most once, sizes stay within size_t, and the live contexts own
    exactly the handles accepted and not yet closed. *)
Theorem hwrng_chan_handler_safe rest ev p c w :
  hwrng_ok rest (loc w) (trace w) →
  ctxs (loc w) !! p = Some c →
  ev_handle ev = chan c →
  tipc_chan_error (ev_event ev) = false →
  wp (hwrng_chan_handler ev p) (λ _ w', hwrng_ok rest (loc w') (trace w')) w.
Proof. eapply (chan_handler_stable rest (hwrng_ok rest)). Qed.

End Handlers.

(** * 6. The queue as an abstract machine *)

(** What the service promises when the device and the channels accept
    everything: a pass sends at most 4096 bytes for each request, in arrival
    order, and keeps what is left. *)
Module Spec.
(** The channel and the remaining size of each pending request. *)
Abbreviation queue := (list (handle * Z)) (only parsing).

Definition serve (e : handle * Z) : option (handle * Z) :=
  if e.2 <=? MAX_HWRNG_MSG_SIZE then None
  else Some (e.1, e.2 - MAX_HWRNG_MSG_SIZE).
Definition pass (q : queue) : queue := omap serve q.

(** The messages sent: the channel and the length of each. *)
Definition messages (q : queue) : queue :=
  (λ e, (e.1, Z.min e.2 MAX_HWRNG_MSG_SIZE)) <$> q.
End Spec.

Definition chan_at (l : hwrng_state) (p : ptr) : handle :=
  from_option chan 0 (ctxs l !! p).
Definition size_at (l : hwrng_state) (p : ptr) : Z :=
  from_option req_size 0 (ctxs l !! p).

(** The abstraction function. *)
Definition entries (l : hwrng_state) (ps : list ptr) : list (handle * Z) :=
  (λ p, (chan_at l p, size_at l p)) <$> ps.
Definition queue_of (l : hwrng_state) : list (handle * Z) :=
  entries l (hwrng_req_list l).

(** No context among [ps] waits for its channel to be unblocked. *)
Definition ready (l : hwrng_state) (ps : list ptr) : Prop :=
  ∀ p c, p ∈ ps → ctxs l !! p = Some c → send_blocked c = false.

(** The messages a trace sent, newest first. *)
Definition sent (tr : list sysev) : list (handle * Z) :=
  omap (λ e, match e with
             | SSend h bs rc => if 0 <=? rc then Some (h, Z.of_nat (length bs)) else None
             | _ => None
             end) tr.

Section Refinement.
Context {D W : Type} `{!Uapi} `{!HwrngIface} `{!HwrngDev D} `{!HwrngDevLaws D}
  `{!Kernel W}.
Implicit Types (w : world hwrng_state D W) (p : ptr) (c : hwrng_chan_ctx).

(** The device always delivers and every channel takes the message. *)
Definition device_ready : Prop :=
  ∀ n d, 0 ≤ n → (hwrng_dev_get_rng_data (D:=D) n d).1.1 = NO_ERROR.
Definition channels_ready : Prop := ∀ h bs v, 0 ≤ (k_send (W:=W) h bs v).1.

Lemma entries_ext l l' ps :
  (∀ q, q ∈ ps → ctxs l' !! q = ctxs l !! q) → entries l' ps = entries l ps.
Proof.
  intros Heq. apply list_fmap_ext. intros i q Hq%list_elem_of_lookup_2.
  unfold chan_at, size_at. by rewrite Heq.
Qed.

(** One service, and the pass, as functions of the heap and the queue. *)
Definition core (l : hwrng_state) : gmap ptr hwrng_chan_ctx * list ptr :=
  (ctxs l, hwrng_req_list l).

Definition advance c : hwrng_chan_ctx := resize (req_size c - chunk c) c.

Definition serve_core (s : gmap ptr hwrng_chan_ctx * list ptr) (p : ptr) :
    gmap ptr hwrng_chan_ctx * list ptr :=
  match s.1 !! p with
  | Some c =>
      (<[p := advance c]> s.1,
       if req_size c <=? MAX_HWRNG_MSG_SIZE then unlink p s.2 else s.2)
  | None => s
  end.

Definition pending (m : gmap ptr hwrng_chan_ctx) (p : ptr) : Z :=
  from_option req_size 0 (m !! p).
Definition large (m : gmap ptr hwrng_chan_ctx) (p : ptr) : Prop :=
  MAX_HWRNG_MSG_SIZE < pending m p.
#[local] Instance large_dec m p : Decision (large m p) :=
  decide (MAX_HWRNG_MSG_SIZE < pending m p).

Lemma foldl_core_lookup l m ps q :
  NoDup l →
  (foldl serve_core (m, ps) l).1 !! q =
  if decide (q ∈ l) then advance <$> m !! q else m !! q.
Proof.
  revert m ps. induction l as [|p l IH]; intros m ps; [done|].
  intros [Hp Hnd]%NoDup_cons. cbn [foldl].
  destruct (serve_core (m, ps) p) as [m' ps'] eqn:E. rewrite IH by done.
  assert (m' !! q = if decide (q = p) then advance <$> m !! q else m !! q) as ->.
  { unfold serve_core in E. cbn in E. destruct (m !! p) as [c|] eqn:Hm; simplify_eq.
    - destruct (decide (q = p)) as [->|]; simplify_map_eq; done.
    - destruct (decide (q = p)) as [->|]; [by rewrite Hm|done]. }
  destruct (decide (q = p)) as [->|Hne].
  - rewrite decide_False by done. by rewrite decide_True by left.
  - destruct (decide (q ∈ l)).
    + by rewrite decide_True by (by right).
    + by rewrite decide_False by (by intros [?|?]%elem_of_cons).
Qed.

Lemma foldl_core_list l k m :
  NoDup (k ++ l) → (∀ p, p ∈ l → is_Some (m !! p)) →
  (foldl serve_core (m, k ++ l) l).2 = k ++ filter (large m) l.
Proof.
  revert k m. induction l as [|p l IH]; intros k m Hnd Hin; [done|].
  destruct (Hin p) as [c Hc]; [left|]. cbn [foldl]. unfold serve_core at 2. cbn [fst snd].
  rewrite Hc. pose proof Hnd as (_ & Hk & [Hpl _]%NoDup_cons)%NoDup_app.
  assert (p ∉ k) as Hpk by (intros ?; by apply (Hk p); [|left]).
  set (m' := <[p := advance c]> m).
  assert (filter (large m') l = filter (large m) l) as Hf.
  { apply filter_ext_on. intros q Hq. unfold large, pending, m'.
    by rewrite lookup_insert_ne by (by intros ->). }
  assert (∀ q, q ∈ l → is_Some (m' !! q)) as Hin'.
  { intros q Hq. unfold m'. rewrite lookup_insert_ne by (by intros ->).
    apply Hin. by right. }
  assert (pending m p = req_size c) as Hsz by (unfold pending; by rewrite Hc).
  destruct (Z.leb_spec (req_size c) MAX_HWRNG_MSG_SIZE) as [Hle|Hgt].
  - rewrite filter_cons_False by (unfold large; lia).
    rewrite unlink_app, unlink_cons_eq, unlink_notin by done.
    rewrite (IH k m'); [by rewrite Hf| |done].
    apply NoDup_app in Hnd as (? & ? & [? ?]%NoDup_cons). apply NoDup_app.
    split_and!; [done| |done]. intros q Hq Hq'. by apply (Hk q); [|right].
  - rewrite filter_cons_True by (unfold large; lia).
    replace (k ++ p :: l) with ((k ++ [p]) ++ l) by (by rewrite <- app_assoc).
    rewrite (IH (k ++ [p]) m'); [|by rewrite <- app_assoc|done].
    by rewrite <- app_assoc, Hf.
Qed.

(** The pure pass is the specification's, on the abstraction. *)
Lemma foldl_core_pass (l l' : hwrng_state) :
  NoDup (hwrng_req_list l) →
  (∀ p, p ∈ hwrng_req_list l → is_Some (ctxs l !! p)) →
  core l' = foldl serve_core (core l) (hwrng_req_list l) →
  queue_of l' = Spec.pass (queue_of l).
Proof.
  intros Hnd Hin Hcore. unfold queue_of, Spec.pass.
  pose proof (foldl_core_list (hwrng_req_list l) [] (ctxs l) Hnd Hin) as Hl.
  change ([] ++ ?x) with x in Hl.
  assert (hwrng_req_list l' = filter (large (ctxs l)) (hwrng_req_list l)) as ->.
  { rewrite <- Hl. by apply (f_equal snd) in Hcore. }
  assert (∀ q, q ∈ hwrng_req_list l → ctxs l' !! q = advance <$> ctxs l !! q) as Hm.
  { intros q Hq. apply (f_equal fst) in Hcore. cbn in Hcore. rewrite Hcore.
    unfold core. rewrite foldl_core_lookup by done. by rewrite decide_True. }
  clear Hl Hcore Hnd. induction (hwrng_req_list l) as [|p ps IH]; [done|].
  destruct (Hin p) as [c Hc]; [left|].
  assert (pending (ctxs l) p = req_size c) as Hsz by (unfold pending; by rewrite Hc).
  change (entries l (p :: ps)) with ((chan_at l p, size_at l p) :: entries l ps).
  cbn [omap list_omap]. unfold Spec.serve at 1. cbn [fst snd].
  unfold size_at at 1. rewrite Hc. cbn [from_option].
  rewrite <- IH by (intros; (apply Hin || apply Hm); by right).
  destruct (Z.leb_spec (req_size c) MAX_HWRNG_MSG_SIZE) as [Hle|Hgt].
  - by rewrite filter_cons_False by (unfold large; lia).
  - rewrite filter_cons_True by (unfold large; lia).
    unfold entries. cbn [fmap list_fmap]. f_equal.
    unfold chan_at, size_at. rewrite (Hm p), Hc by left. cbn.
    f_equal. unfold chunk. lia.
Qed.

(** Serving one entry when nothing fails. *)
Lemma service_ideal rest more p c w :
  device_ready → channels_ready → hwrng_ok rest (loc w) (trace w) →
  ctxs (loc w) !! p = Some c → send_blocked c = false →
  wp (hwrng_service_req more p) (λ more' w',
    core (loc w') = serve_core (core (loc w)) p ∧
    sent (trace w') = (chan c, chunk c) :: sent (trace w) ∧
    more' = more || bool_decide (large (ctxs (loc w)) p) ∧
    hwrng_ok rest (loc w') (trace w')) w.
Proof.
  intros Hdev Hch Hok Hp Hb. pose proof (ok_size _ _ _ Hok _ _ Hp) as Hsz.
  eapply wp_mono; [by apply service_req_spec|]. intros more' w' Hr.
  pose proof (proj1 (service_result_ok _ _ _ _ _ _ _ Hp Hok Hr)) as Hok'.
  assert (0 ≤ chunk c) as Hc by (unfold chunk, MAX_HWRNG_MSG_SIZE; lia).
  assert (pending (ctxs (loc w)) p = req_size c) as Hpd
    by (unfold pending; by rewrite Hp).
  destruct Hr as [Hb'|rc bs d v _ Hrc E|bs d v _ E Es|rc bs d v _ Hrc Hne E Es
    |rc bs d v _ Hrc Hle E Es|rc bs d v _ Hrc Hgt E Es].
  - congruence.
  - specialize (Hdev (chunk c) (dev w) Hc). rewrite E in Hdev. by cbn in Hdev.
  - pose proof err_not_enough_buffer_neg. pose proof (Hch (chan c) bs (env w)). lia.
  - pose proof (Hch (chan c) bs (env w)). lia.
  - pose proof (rng_data_full _ _ _ _ Hc E) as Hlen.
    unfold serve_core, core, sent. cbn. rewrite Hp. split_and!; [| | |done].
    + rewrite (proj2 (Z.leb_le _ _) Hle). unfold advance, chunk.
      by replace (req_size c - _) with 0 by lia.
    + by rewrite (proj2 (Z.leb_le _ _) Hrc), Hlen.
    + rewrite bool_decide_eq_false_2 by (unfold large; lia). by rewrite orb_false_r.
  - pose proof (rng_data_full _ _ _ _ Hc E) as Hlen.
    unfold serve_core, core, sent. cbn. rewrite Hp. split_and!; [| | |done].
    + rewrite (proj2 (Z.leb_gt _ _) Hgt). unfold advance, chunk.
      by rewrite Z.min_r by lia.
    + by rewrite (proj2 (Z.leb_le _ _) Hrc), Hlen.
    + rewrite bool_decide_eq_true_2 by (unfold large; lia). by rewrite orb_true_r.
Qed.

Lemma messages_cons (l : hwrng_state) p c ps :
  ctxs l !! p = Some c →
  Spec.messages (entries l (p :: ps)) = (chan c, chunk c) :: Spec.messages (entries l ps).
Proof. intros Hp. unfold entries, chan_at, size_at. cbn. by rewrite Hp. Qed.

(** The loop when nothing fails is the fold of the pure step. *)
Lemma pass_ideal rest l more w :
  device_ready → channels_ready → hwrng_ok rest (loc w) (trace w) →
  NoDup l → (∀ p, p ∈ l → is_Some (ctxs (loc w) !! p)) → ready (loc w) l →
  wp (foldM hwrng_service_req more l) (λ more' w',
    core (loc w') = foldl serve_core (core (loc w)) l ∧
    sent (trace w') = rev (Spec.messages (entries (loc w) l)) ++ sent (trace w) ∧
    more' = more || existsb (λ p, bool_decide (large (ctxs (loc w)) p)) l ∧
    hwrng_ok rest (loc w') (trace w')) w.
Proof.
  intros Hdev Hch. revert more w. induction l as [|p l IH]; intros more w Hok Hnd Hin Hr.
  { cbn. by rewrite orb_false_r. }
  apply NoDup_cons in Hnd as [Hpl Hnd]. destruct (Hin p) as [c Hp]; [left|].
  cbn [foldM]. apply wp_bind. eapply wp_mono.
  { eapply service_ideal; try done. eapply Hr; [left|done]. }
  intros m' w1 (Hcore & Hsent & Hm & Hok1).
  assert (∀ q, q ∈ l → ctxs (loc w1) !! q = ctxs (loc w) !! q) as Hfr.
  { intros q Hq. apply (f_equal fst) in Hcore. cbn in Hcore. rewrite Hcore.
    unfold serve_core. cbn. rewrite Hp. cbn. rewrite lookup_insert_ne; [done|].
    by intros ->. }
  eapply wp_mono; [apply IH; try done|].
  { intros q Hq. rewrite Hfr by done. apply Hin. by right. }
  { intros q d Hq Hd. rewrite Hfr in Hd by done. eapply Hr; [by right|done]. }
  intros m2 w2 (Hcore2 & Hsent2 & Hm2 & Hok2). split_and!; [| | |done].
  - by rewrite Hcore2, Hcore.
  - rewrite Hsent2, Hsent, (entries_ext _ _ _ Hfr), (messages_cons _ _ _ _ Hp).
    cbn [rev]. by rewrite <- app_assoc.
  - rewrite Hm2, Hm. cbn [existsb]. rewrite <- orb_assoc. do 2 f_equal.
    clear -Hfr. induction l as [|q l IH]; [done|]. cbn. f_equal.
    + apply bool_decide_ext. unfold large, pending. by rewrite (Hfr q) by left.
    + apply IH. intros; apply Hfr; by right.
Qed.

(** What a pass leaves is exactly the specification's, and it says whether
    something is left. *)
Lemma pass_refines rest w :
  device_ready → channels_ready → hwrng_ok rest (loc w) (trace w) →
  ready (loc w) (hwrng_req_list (loc w)) →
  wp hwrng_handle_req_queue (λ more w',
    queue_of (loc w') = Spec.pass (queue_of (loc w)) ∧
    sent (trace w') = rev (Spec.messages (queue_of (loc w))) ++ sent (trace w) ∧
    more = negb (bool_decide (queue_of (loc w') = [])) ∧
    hwrng_ok rest (loc w') (trace w') ∧
    ready (loc w') (hwrng_req_list (loc w'))) w.
Proof.
  intros Hdev Hch Hok Hr. pose proof (ok_nodup _ _ _ Hok) as Hnd.
  unfold hwrng_handle_req_queue. ipc_steps.
  eapply wp_mono; [apply pass_ideal; eauto using ok_alloc|].
  intros more w' (Hcore & Hsent & Hm & Hok').
  pose proof (foldl_core_list _ [] (ctxs (loc w)) Hnd (ok_alloc _ _ _ Hok)) as Hl.
  change ([] ++ ?x) with x in Hl.
  assert (hwrng_req_list (loc w') = filter (large (ctxs (loc w))) (hwrng_req_list (loc w)))
    as Hl'. { rewrite <- Hl. by apply (f_equal snd) in Hcore. }
  split_and!; [|done| |done|].
  - apply foldl_core_pass; eauto using ok_alloc.
  - rewrite Hm. cbn [orb]. unfold queue_of, entries. rewrite Hl'. clear.
    induction (hwrng_req_list (loc w)) as [|p ps IH]; [done|]. cbn [existsb].
    rewrite IH. destruct (decide (large (ctxs (loc w)) p)).
    + rewrite filter_cons_True by done. by rewrite bool_decide_eq_true_2.
    + rewrite filter_cons_False by done. by rewrite bool_decide_eq_false_2.
  - intros p d Hp Hd. rewrite Hl' in Hp. apply list_elem_of_filter in Hp as [_ Hp].
    apply (f_equal fst) in Hcore. cbn in Hcore. rewrite Hcore in Hd. unfold core in Hd.
    rewrite foldl_core_lookup, decide_True in Hd by done.
    apply fmap_Some in Hd as (c & Hc & ->). by apply (Hr p c).
Qed.

(** C11. A pass over the request queue refines its specification: with a
    working device and channels that take every message, each pending
    request gets one message of min(size, 4096) bytes, in arrival order,
    the queue keeps exactly the requests larger than 4096 bytes with 4096
    bytes less to send, and the result says whether any is left. *)
Theorem hwrng_pass_refines rest w :
  device_ready → channels_ready → hwrng_ok rest (loc w) (trace w) →
  ready (loc w) (hwrng_req_list (loc w)) →
  wp hwrng_handle_req_queue (λ more w',
    queue_of (loc w') = Spec.pass (queue_of (loc w)) ∧
    sent (trace w') = rev (Spec.messages (queue_of (loc w))) ++ sent (trace w) ∧
    more = negb (bool_decide (queue_of (loc w') = []))) w.
Proof.
  intros Hdev Hch Hok Hr. eapply wp_mono; [by eapply pass_refines|].
  by intros more w' (? & ? & ? & _).
Qed.

(** The kick drops the answer of the pass: a request larger than 4096
    bytes, all of whose sends succeed, is still queued after the kick with
    4096 bytes less to send and its channel not blocked, and the handler
    returns to the event loop without serving it further. *)
Theorem hwrng_kick_leaves_rest rest p c w :
  device_ready → channels_ready → hwrng_ok rest (loc w) (trace w) →
  ready (loc w) (hwrng_req_list (loc w)) →
  p ∈ hwrng_req_list (loc w) → ctxs (loc w) !! p = Some c →
  MAX_HWRNG_MSG_SIZE < req_size c →
  wp hwrng_kick_req_queue (λ _ w',
    p ∈ hwrng_req_list (loc w') ∧
    ctxs (loc w') !! p =
      Some (HwrngCtx (chan c) (req_size c - MAX_HWRNG_MSG_SIZE) false)) w.
Proof.
  intros Hdev Hch Hok Hr Hin Hp Hsz. pose proof (ok_nodup _ _ _ Hok) as Hnd.
  unfold hwrng_kick_req_queue, hwrng_handle_req_queue. ipc_steps.
  eapply wp_mono; [apply pass_ideal; eauto using ok_alloc|].
  intros more w' (Hcore & _). ipc_steps. split.
  - apply (f_equal snd) in Hcore. cbn in Hcore. rewrite Hcore.
    pose proof (foldl_core_list _ [] (ctxs (loc w)) Hnd (ok_alloc _ _ _ Hok)) as Hl.
    change ([] ++ ?x) with x in Hl. unfold core. rewrite Hl.
    apply list_elem_of_filter. split; [|done]. unfold large, pending. by rewrite Hp.
  - apply (f_equal fst) in Hcore. cbn in Hcore. rewrite Hcore. unfold core.
    rewrite foldl_core_lookup, decide_True, Hp by done. cbn. unfold advance, resize, chunk.
    by rewrite Z.min_r, (Hr p c Hin Hp) by lia.
Qed.
End Refinement.

(** * 7. The service never sends more than it was asked for *)

Section Quota.
Context {D W : Type} `{!Uapi} `{!HwrngIface} `{!HwrngDev D} `{!HwrngDevLaws D}
  `{!Kernel W}.
Implicit Types (l : hwrng_state) (p : ptr) (c : hwrng_chan_ctx) (tr : list sysev).

(** Bytes still owed to the requests [ps]. *)
Definition owed (m : gmap ptr hwrng_chan_ctx) (ps : list ptr) : Z :=
  foldr (λ p a, pending m p + a) 0 ps.

(** Bytes sent, and bytes asked for, in a trace. *)
Definition sent_total tr : Z := foldr (λ e a, e.2 + a) 0 (sent tr).
Definition requested tr : Z :=
  foldr (λ e a, match e with
                | SRecv _ rc bs => if rc <? 0 then a else hwrng_req_len bs + a
                | _ => a
                end) 0 tr.

Definition quota l tr : Prop :=
  owed (ctxs l) (hwrng_req_list l) + sent_total tr ≤ requested tr.

#[local] Arguments owed : simpl never.
#[local] Arguments sent_total : simpl never.
#[local] Arguments requested : simpl never.

Lemma owed_cons m p ps : owed m (p :: ps) = pending m p + owed m ps.
Proof. done. Qed.

Lemma owed_ext m m' ps :
  (∀ q, q ∈ ps → m' !! q = m !! q) → owed m' ps = owed m ps.
Proof.
  induction ps as [|p ps IH]; intros Heq; [done|].
  rewrite !owed_cons. f_equal; [unfold pending; by rewrite Heq by left|].
  apply IH. intros q Hq. apply Heq. by right.
Qed.

Lemma owed_app m ps qs : owed m (ps ++ qs) = owed m ps + owed m qs.
Proof.
  induction ps as [|p ps IH]; [done|]. cbn [app]. rewrite !owed_cons. lia.
Qed.

Lemma owed_split m p ps :
  NoDup ps → p ∈ ps → owed m ps = pending m p + owed m (unlink p ps).
Proof.
  intros Hnd Hin. apply list_elem_of_split in Hin as (l1 & l2 & ->).
  apply NoDup_app in Hnd as (_ & Hd & [Hp _]%NoDup_cons).
  rewrite unlink_app, unlink_cons_eq, unlink_notin, !owed_app; [|set_solver|done].
  rewrite owed_cons. lia.
Qed.

Lemma owed_insert_notin m p c ps : p ∉ ps → owed (<[p := c]> m) ps = owed m ps.
Proof.
  intros Hp. apply owed_ext. intros q Hq. by rewrite lookup_insert_ne by (by intros ->).
Qed.

Lemma owed_delete_notin m p ps : p ∉ ps → owed (delete p m) ps = owed m ps.
Proof.
  intros Hp. apply owed_ext. intros q Hq. by rewrite lookup_delete_ne by (by intros ->).
Qed.

Lemma unlink_self p ps : p ∉ unlink p ps.
Proof. by intros [? _]%elem_of_unlink. Qed.

(** Dropping a request, and replacing its size. *)
Lemma owed_unlink_le m p c ps :
  NoDup ps → m !! p = Some c → 0 ≤ req_size c →
  owed m (unlink p ps) ≤ owed m ps.
Proof.
  intros Hnd Hp Hc. destruct (decide (p ∈ ps)) as [Hin|Hn].
  - rewrite (owed_split m p ps) by done. unfold pending. rewrite Hp. cbn. lia.
  - by rewrite unlink_notin.
Qed.

Lemma owed_insert m p c c' ps :
  NoDup ps → m !! p = Some c → p ∈ ps →
  owed (<[p := c']> m) ps = owed m ps - req_size c + req_size c'.
Proof.
  intros Hnd Hp Hin. rewrite !(owed_split _ p ps) by done.
  rewrite owed_insert_notin by apply unlink_self.
  unfold pending. rewrite lookup_insert_eq, Hp. cbn. lia.
Qed.

Lemma owed_insert_le m p c c' ps :
  NoDup ps → m !! p = Some c → req_size c' ≤ req_size c →
  owed (<[p := c']> m) ps ≤ owed m ps.
Proof.
  intros Hnd Hp Hle. destruct (decide (p ∈ ps)) as [Hin|Hn].
  - rewrite (owed_insert m p c c' ps); [lia|done..].
  - by rewrite owed_insert_notin.
Qed.

Lemma requested_send h bs rc tr : requested (SSend h bs rc :: tr) = requested tr.
Proof. done. Qed.

Lemma sent_total_ok h bs rc tr :
  0 ≤ rc → sent_total (SSend h bs rc :: tr) = Z.of_nat (length bs) + sent_total tr.
Proof. intros Hrc. unfold sent_total. cbn. by rewrite (proj2 (Z.leb_le _ _) Hrc). Qed.

Lemma sent_total_err h bs rc tr :
  rc < 0 → sent_total (SSend h bs rc :: tr) = sent_total tr.
Proof. intros Hrc. unfold sent_total. cbn. by rewrite (proj2 (Z.leb_gt _ _) Hrc). Qed.

Lemma quota_dropped rest p c l tr :
  ctxs l !! p = Some c → hwrng_ok rest l tr → quota l tr →
  owed (ctxs (dropped p l)) (hwrng_req_list (dropped p l)) + sent_total tr ≤ requested tr.
Proof.
  intros Hp Hok Hq. unfold quota in Hq. cbn.
  rewrite owed_delete_notin by apply unlink_self.
  pose proof (owed_unlink_le (ctxs l) p c _ (ok_nodup _ _ _ Hok) Hp).
  pose proof (ok_size _ _ _ Hok _ _ Hp). lia.
Qed.

Lemma service_quota rest p c more (w w' : world hwrng_state D W) more' :
  ctxs (loc w) !! p = Some c → p ∈ hwrng_req_list (loc w) →
  hwrng_ok rest (loc w) (trace w) → quota (loc w) (trace w) →
  service_result p c more w more' w' → quota (loc w') (trace w').
Proof.
  intros Hp Hin Hok Hq Hr. pose proof (ok_size _ _ _ Hok _ _ Hp) as Hsz.
  pose proof (ok_nodup _ _ _ Hok) as Hnd.
  pose proof (quota_dropped rest p c _ _ Hp Hok Hq) as Hdrop. unfold quota in *.
  assert (0 ≤ chunk c) as Hc by (unfold chunk, MAX_HWRNG_MSG_SIZE; lia).
  destruct Hr as [Hb'|rc bs d v _ Hrc E|bs d v _ E Es|rc bs d v _ Hrc Hne E Es
    |rc bs d v _ Hrc Hle E Es|rc bs d v _ Hrc Hgt E Es]; cbn [loc trace].
  - done.
  - exact Hdrop.
  - rewrite sent_total_err by apply err_not_enough_buffer_neg. cbn.
    rewrite (owed_insert _ _ _ _ _ Hnd Hp Hin). cbn. rewrite requested_send. lia.
  - change (sent_total (?a :: ?b)) with (sent_total b) at 1.
    rewrite sent_total_err by done. exact Hdrop.
  - rewrite sent_total_ok by done. rewrite (rng_data_full _ _ _ _ Hc E). cbn.
    rewrite owed_insert_notin by apply unlink_self.
    pose proof (owed_split (ctxs (loc w)) p _ Hnd Hin) as Hs.
    unfold pending at 1 in Hs. rewrite Hp in Hs. cbn in Hs. unfold chunk.
    rewrite requested_send. lia.
  - rewrite sent_total_ok by done. rewrite (rng_data_full _ _ _ _ Hc E). cbn.
    rewrite (owed_insert _ _ _ _ _ Hnd Hp Hin). unfold chunk.
    rewrite requested_send. cbn. lia.
Qed.

Lemma requested_ok h rc bs tr :
  0 ≤ rc → requested (SRecv h rc bs :: tr) = hwrng_req_len bs + requested tr.
Proof. intros Hrc. unfold requested. cbn. by rewrite (proj2 (Z.ltb_ge _ _) Hrc). Qed.

Lemma requested_err h rc bs tr :
  rc < 0 → requested (SRecv h rc bs :: tr) = requested tr.
Proof. intros Hrc. unfold requested. cbn. by rewrite (proj2 (Z.ltb_lt _ _) Hrc). Qed.

Lemma queued_quota rest p c rc bs l tr :
  ctxs l !! p = Some c → 0 ≤ rc → hwrng_ok rest l tr → quota l tr →
  quota (queued p c (hwrng_req_len bs) l) (SRecv (chan c) rc bs :: tr).
Proof.
  intros Hp Hrc Hok Hq. pose proof (ok_size _ _ _ Hok _ _ Hp) as Hsz.
  pose proof (ok_nodup _ _ _ Hok) as Hnd. pose proof (hwrng_req_len_u32 bs) as Hlen.
  unfold quota in *. rewrite requested_ok by done.
  change (sent_total (SRecv _ _ _ :: tr)) with (sent_total tr).
  unfold queued. destruct (decide _) as [Hin|Hin]; cbn.
  - rewrite (owed_insert _ _ _ _ _ Hnd Hp Hin). cbn.
    assert (u64 (req_size c + hwrng_req_len bs) ≤ req_size c + hwrng_req_len bs)
      by (apply Z.mod_le; lia). lia.
  - rewrite owed_app, owed_insert_notin by done. rewrite owed_cons.
    unfold pending at 1. rewrite lookup_insert_eq. cbn. unfold owed at 2. cbn. lia.
Qed.

(** The invariant with the quota is stable too. *)
#[local] Instance quota_stable rest :
  Stable (D:=D) (W:=W) rest (λ l tr, hwrng_ok rest l tr ∧ quota l tr).
Proof.
  pose proof (hwrng_ok_stable (D:=D) (W:=W) rest) as HS. split.
  - by intros * [? _].
  - intros * Hp Hin [Hok Hq] Hr. split; [by eapply st_service|by eapply service_quota].
  - intros * Hp [Hok Hq]. split; [by apply st_close|].
    exact (quota_dropped rest p c l tr Hp Hok Hq).
  - intros * Hp [Hok Hq]. split; [by apply st_unblock|]. unfold quota in *. cbn.
    pose proof (owed_insert_le (ctxs l) p c (block false c) _ (ok_nodup _ _ _ Hok) Hp).
    cbn in *. lia.
  - intros * Hrc [Hok Hq]. split; [by apply st_recv_err|]. unfold quota in *.
    by rewrite requested_err.
  - intros * Hp Hrc [Hok Hq]. split; [by apply st_queue|by eapply queued_quota].
  - intros * Hrc [Hok Hq]. split; [by apply st_accept_err|done].
  - intros * Hrc [Hok Hq]. split; [by apply st_no_memory|done].
  - intros * Hrc [Hok Hq]. split; [by apply st_no_cookie|done].
  - intros * Hrc Hp Hn [Hok Hq]. split; [by apply st_open|]. unfold quota in *. cbn.
    by rewrite owed_insert_notin.
Qed.

(** C12. The service never sends more random bytes than it was asked for:
    bytes sent plus bytes still owed to queued requests are at most the sum of
    the lengths requested, and hwrng_chan_handler keeps that bound on every
    event of a client, whatever the kernel and the device do (but an error
    event, on which the library aborts). *)
Theorem hwrng_never_over_delivers rest ev p c (w : world hwrng_state D W) :
  hwrng_ok rest (loc w) (trace w) → quota (loc w) (trace w) →
  ctxs (loc w) !! p = Some c → ev_handle ev = chan c →
  tipc_chan_error (ev_event ev) = false →
  wp (hwrng_chan_handler ev p) (λ _ w', quota (loc w') (trace w')) w.
Proof.
  intros Hok Hq Hp Hh Herr. eapply wp_mono.
  - by apply (chan_handler_stable rest _ (HI := quota_stable rest) ev p c).
  - by intros ? w' [_ ?].
Qed.
End Quota.

(** * 8. Start-up *)

Section Start.
Context {D W : Type} `{!Uapi} `{!HwrngIface} `{!HwrngDev D} `{!Kernel W}.
Implicit Types w : world hwrng_state D W.

Lemma hwrng_init_ok : hwrng_ok [] hwrng_init [].
Proof.
  split; [apply NoDup_nil_2| | |by vm_compute|].
  - by intros p ?%elem_of_nil.
  - intros p c Hp. unfold hwrng_init in Hp. cbn [ctxs] in Hp.
    by apply lookup_empty_Some in Hp.
  - unfold balanced, objects. cbn. by rewrite map_to_list_empty.
Qed.

Lemma ok_port rest l name rc tr :
  0 ≤ rc → hwrng_ok rest l tr → hwrng_ok (rc :: rest) l (SPortCreate name rc :: tr).
Proof.
  intros Hrc []. split; auto. eapply balanced_perm; [|by apply balanced_port].
  by rewrite Permutation_middle.
Qed.

Lemma hwrng_start_stable rest w :
  hwrng_ok rest (loc w) (trace w) →
  wp hwrng_start_service (λ rc w',
    if rc =? NO_ERROR
    then hwrng_ok (hwrng_port (loc w') :: rest) (loc w') (trace w')
    else hwrng_ok rest (loc w') (trace w')) w.
Proof.
  intros Hok. unfold hwrng_start_service, port_create. ipc_steps.
  ipc_call rc v E. wp_cases Hrc; ipc_steps.
  { destruct (Z.eqb_spec rc NO_ERROR); [pose proof no_error_zero; lia|].
    apply ok_trace; [done|]. done. }
  unfold set_cookie. ipc_call rc' v' E'.
  assert (hwrng_ok (rc :: rest) (with_port rc (loc w))
    (SSetCookie rc rc' :: SPortCreate HWRNG_PORT rc :: trace w)) as Hok'.
  { apply ok_trace; [done|]. assert (0 ≤ rc) as Hrc' by lia.
    destruct (ok_port rest _ HWRNG_PORT rc _ Hrc' Hok). by split. }
  ipc_steps. unfold wp at 1. destruct (hwrng_dev_init _) as [rc2 d]. ipc_steps.
  wp_cases Hinit; ipc_steps; [|by rewrite Z.eqb_refl].
  unfold close. ipc_call r3 v3 E3. ipc_steps. rewrite (proj1 (negb_true_iff _) Hinit).
  destruct Hok'. split; auto. apply balanced_close. eapply balanced_perm; [|done].
  by rewrite <- Permutation_middle.
Qed.

End Start.

(** * 9. Witnesses *)

(** The theorems at concrete states, on the scripted kernel and the fake
    device: one client (address 1, channel 100) with 10000 bytes pending. *)
Module Demo.
#[local] Instance uapi : Uapi := Sim.uapi.
#[local] Instance kernel : Kernel script := Sim.kernel.
#[local] Existing Instances Fake.dev Fake.laws.
#[local] Instance iface : HwrngIface.
Proof.
  refine {| HWRNG_PORT := "com.android.trusty.hwrng"; sizeof_hwrng_req := 4;
            hwrng_req_len bs :=
              u32 (bs !!! 0%nat + bs !!! 1%nat * 256 + bs !!! 2%nat * 65536
                   + bs !!! 3%nat * 16777216) |}.
  intros. apply u32_range.
Defined.

Definition client : hwrng_chan_ctx := HwrngCtx 100 10000 false.
Definition state : hwrng_state :=
  HwrngState {[1%positive := client]} [1%positive] (replicate 4096 0) 7.
Definition w (s : script) : world hwrng_state Z script :=
  World state Fake.counter0 s [SRecv 100 4 [16; 39; 0; 0]; SAccept 7 100].
(** A second request for 300 bytes waits on the channel. *)
Definition asks : script := Script 101 [] [] [[44; 1; 0; 0]] [].

Lemma demo_state_ok s : hwrng_ok [] (loc (w s)) (trace (w s)).
Proof.
  split; [apply NoDup_singleton| | |by vm_compute|].
  - intros p ->%list_elem_of_singleton. exists client. apply lookup_singleton_eq.
  - intros p c Hp. change (({[1%positive := client]} : gmap ptr hwrng_chan_ctx) !! p = Some c) in Hp.
    apply lookup_singleton_Some in Hp as [<- <-]. by vm_compute.
  - unfold balanced, objects. by vm_compute.
Qed.

Lemma demo_state_ready : ready state [1%positive].
Proof.
  intros p c ->%list_elem_of_singleton Hc. unfold state in Hc. cbn [ctxs] in Hc.
  rewrite lookup_singleton_eq in Hc. by simplify_eq.
Qed.

Lemma fake_ready : device_ready (D:=Z).
Proof.
  intros n d Hn. cbn. unfold Fake.get_rng_data. by destruct (Fake.rng_fill _ _).
Qed.

(** A kernel whose sends always succeed. *)
Definition open_kernel : Kernel script := {|
  k_port_create := k_port_create; k_accept := k_accept;
  k_set_cookie := k_set_cookie; k_close := k_close;
  k_send _ bs s := (Z.of_nat (length bs), s);
  k_recv := k_recv; k_alloc := k_alloc |}.

Lemma open_kernel_ready : @channels_ready script open_kernel.
Proof. intros h bs v. cbn. lia. Qed.

Lemma hwrng_chan_handler_safe_witness :
  wp (hwrng_chan_handler (UEvent 100 24) 1%positive)
    (λ _ w', hwrng_ok [] (loc w') (trace w')) (w asks).
Proof.
  apply (hwrng_chan_handler_safe [] _ _ client); [apply demo_state_ok|reflexivity..].
Defined.

Lemma hwrng_pass_refines_witness :
  wp (hwrng_handle_req_queue (Kernel0 := open_kernel)) (λ more w',
    queue_of (loc w') = Spec.pass (queue_of state) ∧
    sent (trace w') = rev (Spec.messages (queue_of state)) ++ sent (trace (w asks)) ∧
    more = negb (bool_decide (queue_of (loc w') = []))) (w asks).
Proof.
  apply (hwrng_pass_refines (Kernel0 := open_kernel) []);
    [apply fake_ready|apply open_kernel_ready|apply demo_state_ok|apply demo_state_ready].
Defined.

Lemma hwrng_kick_leaves_rest_witness :
  wp (hwrng_kick_req_queue (Kernel0 := open_kernel)) (λ _ w',
    1%positive ∈ hwrng_req_list (loc w') ∧
    ctxs (loc w') !! 1%positive = Some (HwrngCtx 100 5904 false)) (w asks).
Proof.
  apply (hwrng_kick_leaves_rest (Kernel0 := open_kernel) [] 1%positive client);
    [apply fake_ready|apply open_kernel_ready|apply demo_state_ok|apply demo_state_ready| | |].
  - apply list_elem_of_singleton. reflexivity.
  - apply lookup_singleton_eq.
  - by vm_compute.
Defined.

Lemma hwrng_never_over_delivers_witness :
  wp (hwrng_chan_handler (UEvent 100 24) 1%positive)
    (λ _ w', quota (loc w') (trace w')) (w asks).
Proof.
  apply (hwrng_never_over_delivers [] _ _ client);
    [apply demo_state_ok|by vm_compute|reflexivity..].
Defined.

End Demo.
