(* ===== verification/Keybox.v ===== *)
(** The keybox service, hwcrypto/keybox: the mock unwrapping of keybox.c with
    its reference function, and the service of srv.c around it. *)

From S2P Require Import Prelude Ipc.

(** * 1. The interface (interface/keybox/keybox.h) *)

Class KeyboxIface := {
  KEYBOX_PORT : string;
  KEYBOX_CMD_RSP_BIT : Z;
  KEYBOX_CMD_UNWRAP : Z;
  KEYBOX_STATUS_SUCCESS : Z;
  KEYBOX_STATUS_INVALID_REQUEST : Z;
  KEYBOX_STATUS_UNWRAP_FAIL : Z;
  KEYBOX_STATUS_INTERNAL_ERROR : Z;
  KEYBOX_MAX_SIZE : Z;
  (** Sizes and fields of the messages; no struct has padding. *)
  sizeof_keybox_req : Z;
  sizeof_keybox_unwrap_req : Z;
  keybox_req_cmd : bytes → Z;
  wrapped_keybox_len : bytes → Z;
  keybox_resp : Z → Z → bytes;
  keybox_unwrap_resp : Z → bytes;
  keybox_success_zero : KEYBOX_STATUS_SUCCESS = 0;
  keybox_internal_nonzero : KEYBOX_STATUS_INTERNAL_ERROR ≠ 0;
  keybox_invalid_not_success : KEYBOX_STATUS_INVALID_REQUEST ≠ KEYBOX_STATUS_SUCCESS;
  keybox_fail_not_success : KEYBOX_STATUS_UNWRAP_FAIL ≠ KEYBOX_STATUS_SUCCESS;
  keybox_sizes : 0 ≤ sizeof_keybox_req ∧ 0 ≤ sizeof_keybox_unwrap_req ∧ 0 ≤ KEYBOX_MAX_SIZE;
  keybox_sizes_bounded :
    sizeof_keybox_req + sizeof_keybox_unwrap_req + KEYBOX_MAX_SIZE < 2 ^ 31;
  wrapped_keybox_len_u64 bs : 0 ≤ wrapped_keybox_len bs < 2 ^ 64
}.

(** * 2. keybox.c *)

Section Unwrap.
Context `{!KeyboxIface}.

(** The caller's buffer and length, written through the out-parameters. *)
Abbreviation U := (M (bytes * Z)).

Definition put_byte (i : Z) (b : Z) : U unit := λ '(out, n),
  if (0 <=? i) && (i <? Z.of_nat (length out))
  then Ret tt (<[Z.to_nat i := b]> out, n) else Halt OutOfBounds (out, n).

Definition checksum_step (wrapped : bytes) (checksum i : Z) : U Z :=
  b ← fetch wrapped i; ret (u8 (Z.lxor checksum b)).

Definition unmask_step (wrapped : bytes) (_ : unit) (i : Z) : U unit :=
  b ← fetch wrapped i; put_byte i (u8 (Z.lxor b 66)).

Definition keybox_unwrap (wrapped : bytes) (wrapped_keybox_len buf_len : Z) : U Z :=
  if wrapped_keybox_len <? 1 then ret KEYBOX_STATUS_INVALID_REQUEST else
  if buf_len <? wrapped_keybox_len - 1 then ret KEYBOX_STATUS_INVALID_REQUEST else
  checksum ← foldM (checksum_step wrapped) 0 (seqZ 0 (wrapped_keybox_len - 1));
  last ← fetch wrapped (wrapped_keybox_len - 1);
  if negb (checksum =? last) then ret KEYBOX_STATUS_UNWRAP_FAIL else
  foldM (unmask_step wrapped) tt (seqZ 0 (wrapped_keybox_len - 1));;
  modify (λ '(out, _), (out, wrapped_keybox_len - 1));;
  ret KEYBOX_STATUS_SUCCESS.
End Unwrap.

(** * 3. What unwrapping is *)

Module Wrapping.
Definition checksum (bs : bytes) : Z := foldl Z.lxor 0 bs.
Definition mask (bs : bytes) : bytes := (λ b, Z.lxor b 66) <$> bs.
Definition wrap (p : bytes) : bytes := mask p ++ [checksum (mask p)].

(** The plaintext of a wrapped keybox, if it is one. *)
Definition unwrap (w : bytes) : option bytes :=
  match last w with
  | Some c =>
      let body := take (length w - 1) w in
      if checksum body =? c then Some (mask body) else None
  | None => None
  end.

Lemma lxor_byte a b : is_byte a → is_byte b → is_byte (Z.lxor a b).
Proof.
  unfold is_byte. intros Ha Hb. split; [apply Z.lxor_nonneg; lia|].
  destruct (Z.eq_dec (Z.lxor a b) 0) as [->|Hne]; [lia|].
  assert (0 ≤ Z.lxor a b) by (apply Z.lxor_nonneg; lia).
  apply (Z.log2_lt_pow2 _ 8); [lia|].
  eapply Z.le_lt_trans; [apply Z.log2_lxor; lia|]. apply Z.max_lub_lt.
  - destruct (Z.eq_dec a 0) as [->|]; [done|]. apply Z.log2_lt_pow2; lia.
  - destruct (Z.eq_dec b 0) as [->|]; [done|]. apply Z.log2_lt_pow2; lia.
Qed.

Lemma foldl_byte c bs : is_byte c → Forall is_byte bs → is_byte (foldl Z.lxor c bs).
Proof.
  intros Hc Hbs. revert c Hc. induction Hbs as [|b bs Hb _ IH]; [done|].
  intros c Hc. cbn. by apply IH, lxor_byte.
Qed.

Lemma mask_bytes bs : Forall is_byte bs → Forall is_byte (mask bs).
Proof.
  intros H. apply Forall_fmap. eapply Forall_impl; [done|]. intros b Hb. cbn.
  by apply lxor_byte.
Qed.

Lemma wrap_bytes p : Forall is_byte p → Forall is_byte (wrap p).
Proof.
  intros Hp. apply Forall_app. split; [by apply mask_bytes|].
  apply Forall_singleton. apply foldl_byte; [done|by apply mask_bytes].
Qed.

Lemma mask_involutive bs : mask (mask bs) = bs.
Proof.
  unfold mask. rewrite <- list_fmap_compose. rewrite <- (list_fmap_id bs) at 2.
  apply list_fmap_ext. intros _ b _. cbn.
  by rewrite Z.lxor_assoc, Z.lxor_nilpotent, Z.lxor_0_r.
Qed.

Lemma length_mask bs : length (mask bs) = length bs.
Proof. apply length_fmap. Qed.

Lemma unwrap_snoc body c :
  unwrap (body ++ [c]) = if checksum body =? c then Some (mask body) else None.
Proof.
  unfold unwrap. rewrite last_snoc, length_app. cbn [length].
  replace (length body + 1 - 1)%nat with (length body) by lia.
  by rewrite take_app_length.
Qed.

Lemma unwrap_wrap p : unwrap (wrap p) = Some p.
Proof. unfold wrap. by rewrite unwrap_snoc, Z.eqb_refl, mask_involutive. Qed.

Lemma unwrap_Some w p : unwrap w = Some p ↔ w = wrap p.
Proof.
  split; [|intros ->; apply unwrap_wrap].
  destruct w as [|c body _] using rev_ind; [done|]. rewrite unwrap_snoc.
  destruct (Z.eqb_spec (checksum body) c) as [<-|]; [|done]. intros [= <-].
  unfold wrap. by rewrite mask_involutive.
Qed.

(** Two lists that differ in one place have different checksums. *)
Lemma foldl_lxor c bs : foldl Z.lxor c bs = Z.lxor c (foldl Z.lxor 0 bs).
Proof.
  revert c. induction bs as [|b bs IH]; intros c; cbn; [by rewrite Z.lxor_0_r|].
  rewrite (IH (Z.lxor c b)), (IH (Z.lxor 0 b)), Z.lxor_0_l. by rewrite Z.lxor_assoc.
Qed.

Lemma lxor_cancel_l c a b : Z.lxor c a = Z.lxor c b → a = b.
Proof.
  intros E. apply (f_equal (Z.lxor c)) in E.
  by rewrite <- !Z.lxor_assoc, Z.lxor_nilpotent, !Z.lxor_0_l in E.
Qed.

Lemma lxor_cancel_r c a b : Z.lxor a c = Z.lxor b c → a = b.
Proof. rewrite !(Z.lxor_comm _ c). apply lxor_cancel_l. Qed.

Lemma checksum_change pre a b post :
  checksum (pre ++ a :: post) = checksum (pre ++ b :: post) → a = b.
Proof.
  unfold checksum. rewrite !foldl_app. cbn. rewrite !(foldl_lxor (Z.lxor _ _)).
  by intros ?%lxor_cancel_r%lxor_cancel_l.
Qed.

Lemma unwrap_tampered w i b c p :
  unwrap w = Some p → w !! i = Some b → c ≠ b → unwrap (<[i := c]> w) = None.
Proof.
  intros ->%unwrap_Some Hi Hne. unfold wrap in *.
  apply lookup_app_Some in Hi as [Hi|[Hle Hi]].
  - rewrite insert_app_l, unwrap_snoc by (by eapply lookup_lt_Some).
    destruct (Z.eqb_spec (checksum (<[i := c]> (mask p))) (checksum (mask p))) as [E|]; [|done].
    rewrite <- (take_drop_middle _ _ _ Hi) in E.
    rewrite insert_app_r_alt in E by (rewrite length_take; lia).
    rewrite length_take_le in E by (apply Nat.lt_le_incl; by eapply lookup_lt_Some).
    rewrite Nat.sub_diag in E. cbn in E. by apply checksum_change in E.
  - apply list_lookup_singleton_Some in Hi as [Hi <-].
    rewrite insert_app_r_alt, Hi by lia. cbn. rewrite unwrap_snoc.
    by destruct (Z.eqb_spec (checksum (mask p)) c); [subst|].
Qed.
End Wrapping.

Section UnwrapSpec.
Context `{!KeyboxIface}.
Implicit Types (w out : bytes).

(** The checksum loop from index [length pre] on. *)
Lemma checksum_loop pre mid post c Q s :
  is_byte c → Forall is_byte mid → Q (foldl Z.lxor c mid) s →
  wp (foldM (checksum_step (pre ++ mid ++ post)) c
        (seqZ (Z.of_nat (length pre)) (Z.of_nat (length mid)))) Q s.
Proof.
  revert pre c. induction mid as [|b mid IH]; intros pre c Hc Hmid HQ; [done|].
  apply Forall_cons in Hmid as [Hb Hmid]. rewrite seqZ_cons by (cbn; lia).
  cbn [foldM]. unfold checksum_step at 1. wp_steps.
  apply (wp_fetch _ _ b); [lia| |].
  { rewrite Nat2Z.id. by rewrite lookup_app_r, Nat.sub_diag by lia. }
  wp_steps. pose proof (Wrapping.lxor_byte c b Hc Hb) as Hcb.
  unfold u8. rewrite Z.mod_small by done.
  replace (pre ++ (b :: mid) ++ post) with ((pre ++ [b]) ++ mid ++ post)
    by (by rewrite <- app_assoc).
  replace (Z.succ (Z.of_nat (length pre))) with (Z.of_nat (length (pre ++ [b])))
    by (rewrite length_app; cbn; lia).
  replace (Z.pred _) with (Z.of_nat (length mid))
    by (cbn; lia).
  by apply IH.
Qed.

(** The unmasking loop from index [length pre] on: the bytes before it are
    written, the ones of [rest] still have their old content. *)
Lemma unmask_loop pre mid post done old n Q :
  Forall is_byte mid → length done = length pre → (length mid ≤ length old)%nat →
  Q tt (done ++ overwrite (Wrapping.mask mid) old, n) →
  wp (foldM (unmask_step (pre ++ mid ++ post)) tt
        (seqZ (Z.of_nat (length pre)) (Z.of_nat (length mid)))) Q (done ++ old, n).
Proof.
  revert pre done old. induction mid as [|b mid IH]; intros pre dn old Hmid Hd Hl HQ.
  { by unfold overwrite in HQ. }
  apply Forall_cons in Hmid as [Hb Hmid]. destruct old as [|o old]; [cbn in Hl; lia|].
  rewrite seqZ_cons by (cbn; lia). cbn [foldM]. unfold unmask_step at 1. wp_steps.
  apply (wp_fetch _ _ b); [lia| |].
  { rewrite Nat2Z.id. by rewrite lookup_app_r, Nat.sub_diag by lia. }
  assert (is_byte (Z.lxor b 66)) as Hb' by (by apply Wrapping.lxor_byte).
  unfold put_byte, wp. rewrite length_app. cbn [length].
  rewrite (proj2 (Z.leb_le _ _)), (proj2 (Z.ltb_lt _ _)) by lia. cbn [andb].
  rewrite Nat2Z.id, insert_app_r_alt, Hd, Nat.sub_diag by lia.
  unfold u8. rewrite Z.mod_small by done. cbn [list_insert insert].
  replace (pre ++ (b :: mid) ++ post) with ((pre ++ [b]) ++ mid ++ post)
    by (by rewrite <- app_assoc).
  replace (Z.succ (Z.of_nat (length pre))) with (Z.of_nat (length (pre ++ [b])))
    by (rewrite length_app; cbn; lia).
  replace (Z.pred _) with (Z.of_nat (length mid))
    by (cbn; lia).
  replace (dn ++ Z.lxor b 66 :: old) with ((dn ++ [Z.lxor b 66]) ++ old)
    by (by rewrite <- app_assoc).
  apply IH; [done|rewrite !length_app; cbn; lia|cbn in Hl; lia|].
  by rewrite <- app_assoc.
Qed.

(** Everything [keybox_unwrap] does, for a request that is not empty and
    fits: [mem] is the memory behind the pointer. *)
Lemma keybox_unwrap_spec w more out n buf_len Q :
  Forall is_byte w → w ≠ [] → Z.of_nat (length w) - 1 ≤ buf_len →
  buf_len ≤ Z.of_nat (length out) →
  match Wrapping.unwrap w with
  | Some p => Q KEYBOX_STATUS_SUCCESS (overwrite p out, Z.of_nat (length p))
  | None => Q KEYBOX_STATUS_UNWRAP_FAIL (out, n)
  end →
  wp (keybox_unwrap (w ++ more) (Z.of_nat (length w)) buf_len) Q (out, n).
Proof.
  intros Hw Hne Hfit Hout. destruct w as [|c body _] using rev_ind; [done|].
  apply Forall_app in Hw as [Hbody Hc].
  rewrite Wrapping.unwrap_snoc, length_app in *. cbn [length] in *. intros HQ.
  unfold keybox_unwrap. rewrite (proj2 (Z.ltb_ge _ _)) by lia. rewrite (proj2 (Z.ltb_ge _ _)) by lia. wp_steps.
  replace (Z.of_nat (length body + 1) - 1) with (Z.of_nat (length body)) by lia.
  rewrite <- app_assoc. apply (checksum_loop [] body); [done..|]. wp_steps.
  apply (wp_fetch _ _ c); [lia| |].
  { rewrite Nat2Z.id, lookup_app_r, Nat.sub_diag by lia. done. }
  change (foldl Z.lxor 0 body) with (Wrapping.checksum body).
  destruct (Z.eqb_spec (Wrapping.checksum body) c) as [E|E]; cbn [negb]; wp_steps; [|done].
  apply (unmask_loop [] body ([c] ++ more) []); [done|done|lia|].
  wp_steps. by rewrite Wrapping.length_mask in HQ.
Qed.
End UnwrapSpec.

(** * 4. srv.c *)

Record keybox_chan_ctx := KeyboxCtx { keybox_chan : handle }.

Record keybox_state := KeyboxState {
  keybox_ctxs : gmap ptr keybox_chan_ctx;
  keybox_port : handle
}.

Definition keybox_init `{Uapi} : keybox_state := KeyboxState ∅ INVALID_IPC_HANDLE.

Definition with_keybox_ctxs (f : gmap ptr keybox_chan_ctx → gmap ptr keybox_chan_ctx)
    (l : keybox_state) : keybox_state :=
  KeyboxState (f (keybox_ctxs l)) (keybox_port l).

(** The uninitialised locals of [keybox_handle_msg] ([req]) and of
    [keybox_handle_unwrap] ([output]), with whatever the stack holds. *)
Record keybox_frame := KeyboxFrame { fr_req : bytes; fr_output : bytes }.

Section Service.
Context {W : Type} `{!Uapi} `{!KeyboxIface} `{!Kernel W}.
Abbreviation C := (M (world keybox_state unit W)).

Definition sizeof_full_keybox_req : Z :=
  sizeof_keybox_req + sizeof_keybox_unwrap_req + KEYBOX_MAX_SIZE.

Definition keybox_shutdown (p : ptr) : C unit :=
  ctx ← load keybox_ctxs p;
  close (keybox_chan ctx);;
  mod_loc (with_keybox_ctxs (delete p)).

(** [tipc_send1(chan, &rsp, sizeof(rsp.header))]. *)
Definition keybox_send_status (chan : handle) (status : Z) : C Z :=
  tipc_send chan (keybox_resp (Z.lor KEYBOX_CMD_UNWRAP KEYBOX_CMD_RSP_BIT) status).

(** [req]: the memory from the command header on. *)
Definition keybox_handle_unwrap (output : bytes) (chan : handle) (req : bytes)
    (req_size : Z) : C Z :=
  if req_size <? sizeof_keybox_unwrap_req
  then keybox_send_status chan KEYBOX_STATUS_INVALID_REQUEST else
  let len := wrapped_keybox_len (take (Z.to_nat sizeof_keybox_unwrap_req) req) in
  let computed_size := len + sizeof_keybox_unwrap_req in
  if 2 ^ 64 <=? computed_size
  then keybox_send_status chan KEYBOX_STATUS_INVALID_REQUEST else
  if negb (computed_size =? req_size)
  then keybox_send_status chan KEYBOX_STATUS_INVALID_REQUEST else
  r ← local (output, 0)
        (keybox_unwrap (drop (Z.to_nat sizeof_keybox_unwrap_req) req) len KEYBOX_MAX_SIZE);
  let '(status, (plaintext, plaintext_len)) := r in
  if negb (status =? KEYBOX_STATUS_SUCCESS) then keybox_send_status chan status else
  tipc_send chan
    (keybox_resp (Z.lor KEYBOX_CMD_UNWRAP KEYBOX_CMD_RSP_BIT) status ++
     keybox_unwrap_resp plaintext_len ++ take (Z.to_nat plaintext_len) plaintext).

Definition keybox_handle_msg (fr : keybox_frame) (p : ptr) : C Z :=
  ctx ← load keybox_ctxs p;
  r ← tipc_recv (keybox_chan ctx) sizeof_keybox_req sizeof_full_keybox_req;
  let '(rc, msg) := r in
  if rc <? 0 then ret KEYBOX_STATUS_INTERNAL_ERROR else
  let req := overwrite msg (fr_req fr) in
  let cmd_specific_size := u64 (rc - sizeof_keybox_req) in
  let cmd := keybox_req_cmd (take (Z.to_nat sizeof_keybox_req) req) in
  rc ← (if cmd =? KEYBOX_CMD_UNWRAP
        then keybox_handle_unwrap (fr_output fr) (keybox_chan ctx)
               (drop (Z.to_nat sizeof_keybox_req) req) cmd_specific_size
        else tipc_send (keybox_chan ctx)
               (keybox_resp (Z.lor cmd KEYBOX_CMD_RSP_BIT) KEYBOX_STATUS_INVALID_REQUEST));
  ret (if rc <? 0 then KEYBOX_STATUS_INTERNAL_ERROR else KEYBOX_STATUS_SUCCESS).

Definition keybox_chan_handler (fr : keybox_frame) (ev : uevent) (p : ptr) : C unit :=
  ctx ← load keybox_ctxs p;
  assert (ev_handle ev =? keybox_chan ctx);;
  tipc_handle_chan_errors ev;;
  rc ← (if has (ev_event ev) IPC_HANDLE_POLL_MSG then keybox_handle_msg fr p else ret 0);
  (if has (ev_event ev) IPC_HANDLE_POLL_HUP then keybox_shutdown p else ret tt);;
  (if negb (rc =? 0) then keybox_shutdown p else ret tt).

Definition keybox_port_handler (ev : uevent) : C unit :=
  tipc_handle_port_errors ev;;
  if has (ev_event ev) IPC_HANDLE_POLL_READY then
    r ← accept (ev_handle ev);
    let '(rc, _) := r in
    if rc <? 0 then ret tt else
    ok ← alloc_ok;
    if negb ok then close rc;; ret tt else
    p ← get_loc (λ l, new_ptr (keybox_ctxs l));
    mod_loc (with_keybox_ctxs <[p := KeyboxCtx rc]>);;
    rc' ← set_cookie rc;
    if negb (rc' =? 0) then
      mod_loc (with_keybox_ctxs (delete p));; close rc;; ret tt
    else ret tt
  else ret tt.

Definition keybox_start_service : C Z :=
  rc ← port_create KEYBOX_PORT 1 sizeof_full_keybox_req IPC_PORT_ALLOW_TA_CONNECT;
  if rc <? 0 then
    port ← get_loc keybox_port; close port;; ret rc
  else
    mod_loc (λ l, KeyboxState (keybox_ctxs l) rc);;
    set_cookie rc;;
    ret NO_ERROR.
End Service.

(** * 5. What the service answers *)

Section Response.
Context `{!KeyboxIface}.

(** The wrapped keybox of an unwrap request, if it is well formed. *)
Definition wrapped_of (body : bytes) : option bytes :=
  let hdr := Z.to_nat sizeof_keybox_unwrap_req in
  if Z.of_nat (length body) <? sizeof_keybox_unwrap_req then None else
  if wrapped_keybox_len (take hdr body) =? Z.of_nat (length (drop hdr body))
  then Some (drop hdr body) else None.

Definition unwrap_response (body : bytes) : bytes :=
  let resp := keybox_resp (Z.lor KEYBOX_CMD_UNWRAP KEYBOX_CMD_RSP_BIT) in
  match wrapped_of body with
  | None | Some [] => resp KEYBOX_STATUS_INVALID_REQUEST
  | Some w =>
      match Wrapping.unwrap w with
      | None => resp KEYBOX_STATUS_UNWRAP_FAIL
      | Some p =>
          resp KEYBOX_STATUS_SUCCESS ++ keybox_unwrap_resp (Z.of_nat (length p)) ++ p
      end
  end.

Definition response (msg : bytes) : bytes :=
  let hdr := Z.to_nat sizeof_keybox_req in
  let cmd := keybox_req_cmd (take hdr msg) in
  if cmd =? KEYBOX_CMD_UNWRAP then unwrap_response (drop hdr msg)
  else keybox_resp (Z.lor cmd KEYBOX_CMD_RSP_BIT) KEYBOX_STATUS_INVALID_REQUEST.

(** The frame has the sizes the declarations give it. *)
Definition frame_ok (fr : keybox_frame) : Prop :=
  Z.of_nat (length (fr_req fr)) = sizeof_keybox_req + sizeof_keybox_unwrap_req + KEYBOX_MAX_SIZE ∧
  Z.of_nat (length (fr_output fr)) = KEYBOX_MAX_SIZE.
End Response.

Section ServiceSpec.
Context {W : Type} `{!Uapi} `{!KeyboxIface} `{!Kernel W} `{!KernelLaws W}.
Implicit Types (w : world keybox_state unit W) (p : ptr) (c : keybox_chan_ctx).

(** The answer to an unwrap command is a function of the bytes received. *)
Lemma handle_unwrap_spec output h body junk Q w :
  Forall is_byte body →
  Z.of_nat (length body) ≤ sizeof_keybox_unwrap_req + KEYBOX_MAX_SIZE →
  Z.of_nat (length output) = KEYBOX_MAX_SIZE →
  (∀ rc v, sends h (unwrap_response body) rc →
     Q rc (World (loc w) (dev w) v (SSend h (unwrap_response body) rc :: trace w))) →
  wp (keybox_handle_unwrap output h (body ++ junk) (Z.of_nat (length body))) Q w.
Proof.
  intros Hb Hlen Hout HQ. unfold keybox_handle_unwrap, keybox_send_status.
  unfold unwrap_response, wrapped_of in HQ.
  pose proof keybox_sizes as (Hs1 & Hs2 & Hs3). pose proof keybox_sizes_bounded.
  wp_cases Hshort; [rewrite Hshort in HQ; by apply wp_send|].
  rewrite Hshort in HQ. apply Z.ltb_ge in Hshort.
  rewrite take_app_le, drop_app_le by lia.
  set (hdr := Z.to_nat sizeof_keybox_unwrap_req) in *.
  pose proof (wrapped_keybox_len_u64 (take hdr body)).
  assert (Z.of_nat (length (drop hdr body)) =
          Z.of_nat (length body) - sizeof_keybox_unwrap_req) as Hd
    by (rewrite length_drop; lia). rewrite Hd in HQ.
  destruct (Z.eqb_spec (wrapped_keybox_len (take hdr body))
              (Z.of_nat (length body) - sizeof_keybox_unwrap_req)) as [E|E].
  2: { wp_cases Hov; [by apply wp_send|]. wp_cases Hdiff; [by apply wp_send|]. lia. }
  wp_cases Hov; [lia|]. wp_cases Hdiff; [lia|]. wp_steps. apply wp_local.
  rewrite E, <- Hd. destruct (drop hdr body) as [|b w'] eqn:Ew.
  { cbn [length]. unfold keybox_unwrap. wp_cases Hempty; [|lia]. wp_steps.
    wp_cases Hst; [by apply wp_send|]. pose proof keybox_invalid_not_success. lia. }
  rewrite <- Ew in *. apply keybox_unwrap_spec; [by apply Forall_drop|by rewrite Ew|lia..|].
  destruct (Wrapping.unwrap (drop hdr body)) as [pl|].
  - rewrite Z.eqb_refl. apply wp_send. rewrite Nat2Z.id, take_overwrite. done.
  - wp_cases Hst; [by apply wp_send|]. pose proof keybox_fail_not_success. lia.
Qed.

Lemma handle_msg_spec fr p c Q w :
  frame_ok fr → keybox_ctxs (loc w) !! p = Some c →
  (∀ rc bs v, rc < 0 →
     Q KEYBOX_STATUS_INTERNAL_ERROR
       (World (loc w) (dev w) v (SRecv (keybox_chan c) rc bs :: trace w))) →
  (∀ msg n v, sends (keybox_chan c) (response msg) n →
     Q (if n <? 0 then KEYBOX_STATUS_INTERNAL_ERROR else KEYBOX_STATUS_SUCCESS)
       (World (loc w) (dev w) v
          (SSend (keybox_chan c) (response msg) n ::
           SRecv (keybox_chan c) (Z.of_nat (length msg)) msg :: trace w))) →
  wp (keybox_handle_msg fr p) Q w.
Proof.
  intros [Hreq Hout] Hp Herr Hmsg. pose proof keybox_sizes as (Hs1 & Hs2 & Hs3).
  pose proof keybox_sizes_bounded.
  unfold keybox_handle_msg. ipc_steps. eapply wp_load; [done|]. ipc_steps.
  unfold tipc_recv. ipc_call r v E. destruct r as [rc msg].
  wp_cases Hrc; ipc_steps; [apply Herr; lia|].
  apply Z.ltb_ge in Hrc. destruct (k_recv_ok _ _ _ _ _ _ _ E Hrc) as ([Hlo Hhi] & Hl & Hb).
  unfold sizeof_full_keybox_req in Hhi. specialize (Hmsg msg). rewrite Hl in Hmsg.
  unfold overwrite. unfold response in Hmsg.
  rewrite take_app_le, drop_app_le by lia.
  wp_cases Hcmd; rewrite Hcmd in Hmsg.
  - rewrite u64_small by lia.
    replace (rc - sizeof_keybox_req)
      with (Z.of_nat (length (drop (Z.to_nat sizeof_keybox_req) msg)))
      by (rewrite length_drop; lia).
    apply handle_unwrap_spec; [by apply Forall_drop|rewrite length_drop; lia|done|].
    intros n v' Hn. ipc_steps. by apply Hmsg.
  - apply wp_send. intros n v' Hn. ipc_steps. by apply Hmsg.
Qed.

(** The contexts own exactly the channels accepted and not yet closed. *)
Definition keybox_ok (rest : list handle) (l : keybox_state) (tr : list sysev) : Prop :=
  balanced tr (objects keybox_chan (keybox_ctxs l) ++ rest).

Lemma shutdown_spec p c Q w :
  keybox_ctxs (loc w) !! p = Some c →
  (∀ v, Q tt (World (with_keybox_ctxs (delete p) (loc w)) (dev w) v
                (SClose (keybox_chan c) :: trace w))) →
  wp (keybox_shutdown p) Q w.
Proof.
  intros Hp HQ. unfold keybox_shutdown. ipc_steps. eapply wp_load; [done|].
  ipc_steps. apply wp_close. intros rc v. ipc_steps. apply HQ.
Qed.
End ServiceSpec.

(** * 6. Properties of keybox_unwrap *)

Section UnwrapTheorems.
Context `{!KeyboxIface}.

(** What [keybox_unwrap] leaves: status, plaintext buffer, length. *)
Definition unwrap_outcome (w : bytes) (buf_len : Z) (out : bytes) (n : Z) : Z * (bytes * Z) :=
  if (Z.of_nat (length w) <? 1) || (buf_len <? Z.of_nat (length w) - 1)
  then (KEYBOX_STATUS_INVALID_REQUEST, (out, n))
  else match Wrapping.unwrap w with
       | Some p => (KEYBOX_STATUS_SUCCESS, (overwrite p out, Z.of_nat (length p)))
       | None => (KEYBOX_STATUS_UNWRAP_FAIL, (out, n))
       end.

(** C13. keybox_unwrap always returns and stays inside its buffers: it reads
    only the wrapped_keybox_len bytes of its input and, when the plaintext
    buffer has keybox_plaintext_buf_len bytes, writes only there; an empty
    or too long input is INVALID_REQUEST, a wrong checksum UNWRAP_FAIL,
    both leaving the outputs untouched, and otherwise exactly the unmasked
    bytes are written and their number reported. *)
Theorem keybox_unwrap_correct (w more out : bytes) (n buf_len : Z) :
  Forall is_byte w → buf_len ≤ Z.of_nat (length out) →
  let '(status, outputs) := unwrap_outcome w buf_len out n in
  keybox_unwrap (w ++ more) (Z.of_nat (length w)) buf_len (out, n) = Ret status outputs.
Proof.
  intros Hw Hout. unfold unwrap_outcome.
  destruct (orb _ _) eqn:E.
  { unfold keybox_unwrap. destruct (Z.of_nat (length w) <? 1); [done|].
    cbn in E. by rewrite E. }
  apply orb_false_iff in E as [Hne Hfit].
  destruct (Wrapping.unwrap w) as [p|] eqn:Hu; apply wp_eq;
    (apply keybox_unwrap_spec; [done|by intros ->|lia|done|by rewrite Hu]).
Qed.

(** C33. Wrapping and unwrapping are inverse: the wrapped form of a keybox
    that fits the buffer, its bytes masked and followed by their checksum,
    unwraps to exactly that keybox, whatever lies behind it in memory; the rest
    of the plaintext buffer keeps its bytes. *)
Theorem keybox_unwrap_wrap (p more out : bytes) (n buf_len : Z) :
  Forall is_byte p → Z.of_nat (length p) ≤ buf_len ≤ Z.of_nat (length out) →
  keybox_unwrap (Wrapping.wrap p ++ more) (Z.of_nat (length p) + 1) buf_len (out, n) =
  Ret KEYBOX_STATUS_SUCCESS (overwrite p out, Z.of_nat (length p)).
Proof.
  intros Hp [Hlo Hhi]. apply wp_eq.
  assert (length (Wrapping.wrap p) = (length p + 1)%nat) as Hl
    by (unfold Wrapping.wrap; by rewrite length_app, Wrapping.length_mask).
  replace (Z.of_nat (length p) + 1) with (Z.of_nat (length (Wrapping.wrap p))) by lia.
  apply keybox_unwrap_spec; [by apply Wrapping.wrap_bytes| |lia|done|].
  - intros E. by rewrite E in Hl; cbn in Hl; lia.
  - by rewrite Wrapping.unwrap_wrap.
Qed.

(** C34. Tampering is detected: changing any one byte of a wrapped keybox,
    the checksum byte included, makes keybox_unwrap fail with UNWRAP_FAIL
    and write nothing. *)
Theorem keybox_unwrap_tampered (p more out : bytes) (n buf_len : Z) (i : nat) (b c : Z) :
  Forall is_byte p → Z.of_nat (length p) ≤ buf_len ≤ Z.of_nat (length out) →
  Wrapping.wrap p !! i = Some b → is_byte c → c ≠ b →
  keybox_unwrap (<[i := c]> (Wrapping.wrap p) ++ more) (Z.of_nat (length p) + 1) buf_len (out, n)
  = Ret KEYBOX_STATUS_UNWRAP_FAIL (out, n).
Proof.
  intros Hp [Hlo Hhi] Hi Hc Hne. apply wp_eq.
  assert (length (<[i := c]> (Wrapping.wrap p)) = (length p + 1)%nat) as Hl
    by (rewrite length_insert; unfold Wrapping.wrap; by rewrite length_app, Wrapping.length_mask).
  replace (Z.of_nat (length p) + 1) with (Z.of_nat (length (<[i := c]> (Wrapping.wrap p)))) by lia.
  apply keybox_unwrap_spec; [|intros E; rewrite E in Hl; cbn in Hl; lia|lia|done|].
  - apply Forall_insert; [by apply Wrapping.wrap_bytes|done].
  - by rewrite (Wrapping.unwrap_tampered _ _ _ _ _ (Wrapping.unwrap_wrap p) Hi Hne).
Qed.
End UnwrapTheorems.

(** * 7. Properties of the service *)

Section ServiceTheorems.
Context {W : Type} `{!Uapi} `{!KeyboxIface} `{!Kernel W} `{!KernelLaws W}.
Implicit Types (w : world keybox_state unit W) (p : ptr) (c : keybox_chan_ctx).

(** The outcomes of a message. *)
Lemma keybox_handle_msg_outcome fr p c w :
  frame_ok fr → keybox_ctxs (loc w) !! p = Some c →
  wp (keybox_handle_msg fr p) (λ status w',
    loc w' = loc w ∧
    ((∃ rc bs, rc < 0 ∧ status = KEYBOX_STATUS_INTERNAL_ERROR ∧
        trace w' = SRecv (keybox_chan c) rc bs :: trace w) ∨
     (∃ msg n, status = (if n <? 0 then KEYBOX_STATUS_INTERNAL_ERROR
                         else KEYBOX_STATUS_SUCCESS) ∧
        trace w' = SSend (keybox_chan c) (response msg) n ::
                   SRecv (keybox_chan c) (Z.of_nat (length msg)) msg :: trace w))) w.
Proof.
  intros Hfr Hp. eapply handle_msg_spec; [done..| |].
  - intros rc bs v Hrc. split; [done|]. left. by exists rc, bs.
  - intros msg n v _. split; [done|]. right. by exists msg, n.
Qed.

(** C19. keybox_handle_msg answers every message it receives with exactly
    one message, [response msg], a function of the bytes received alone:
    neither the uninitialised request buffer nor the uninitialised output
    buffer shows in it.  It reports INTERNAL_ERROR exactly when the receive
    or the send failed, and changes no context. *)
Theorem keybox_handle_msg_responds fr p c w :
  frame_ok fr → keybox_ctxs (loc w) !! p = Some c →
  wp (keybox_handle_msg fr p) (λ status w',
    loc w' = loc w ∧
    ((∃ rc bs, rc < 0 ∧ status = KEYBOX_STATUS_INTERNAL_ERROR ∧
        trace w' = SRecv (keybox_chan c) rc bs :: trace w) ∨
     (∃ msg n, status = (if n <? 0 then KEYBOX_STATUS_INTERNAL_ERROR
                         else KEYBOX_STATUS_SUCCESS) ∧
        trace w' = SSend (keybox_chan c) (response msg) n ::
                   SRecv (keybox_chan c) (Z.of_nat (length msg)) msg :: trace w))) w.
Proof. apply keybox_handle_msg_outcome. Qed.

Lemma handler_head fr ev p c (Q : unit → world keybox_state unit W → Prop) w :
  keybox_ctxs (loc w) !! p = Some c → ev_handle ev = keybox_chan c →
  tipc_chan_error (ev_event ev) = false →
  wp (rc ← (if has (ev_event ev) IPC_HANDLE_POLL_MSG then keybox_handle_msg fr p else ret 0);
      (if has (ev_event ev) IPC_HANDLE_POLL_HUP then keybox_shutdown p else ret tt);;
      (if negb (rc =? 0) then keybox_shutdown p else ret tt)) Q w →
  wp (keybox_chan_handler fr ev p) Q w.
Proof.
  intros Hp Hh Herr HQ. unfold keybox_chan_handler, tipc_handle_chan_errors. apply wp_bind.
  eapply wp_load; [done|]. apply wp_bind, wp_assert; [lia|]. by rewrite Herr.
Qed.

Lemma keybox_chan_stable rest fr ev p c w :
  frame_ok fr → keybox_ok rest (loc w) (trace w) →
  keybox_ctxs (loc w) !! p = Some c → ev_handle ev = keybox_chan c →
  tipc_chan_error (ev_event ev) = false →
  has (ev_event ev) IPC_HANDLE_POLL_MSG && has (ev_event ev) IPC_HANDLE_POLL_HUP = false →
  wp (keybox_chan_handler fr ev p) (λ _ w', keybox_ok rest (loc w') (trace w')) w.
Proof.
  intros Hfr Hok Hp Hh Herr Hboth. eapply handler_head; [done..|].
  assert (∀ v tr, keybox_ok rest (loc w) tr →
    wp (keybox_shutdown p) (λ _ w', keybox_ok rest (loc w') (trace w'))
       (World (loc w) (dev w) v tr)) as Hshut.
  { intros v tr Htr. eapply shutdown_spec; [done|]. intros v'. cbn.
    by apply (balanced_free keybox_chan). }
  apply wp_bind. wp_cases Hmsg.
  - rewrite Hmsg in Hboth. cbn in Hboth. rewrite Hboth.
    eapply handle_msg_spec; [done..| |]; cbn beta.
    + intros rc bs v Hrc. wp_steps. wp_cases Hz; [|done].
      apply Hshut. by apply balanced_neutral.
    + intros msg n v _. wp_steps.
      assert (keybox_ok rest (loc w) (SSend (keybox_chan c) (response msg) n ::
        SRecv (keybox_chan c) (Z.of_nat (length msg)) msg :: trace w)) as Hok'
        by (apply balanced_neutral, balanced_neutral; done).
      wp_cases Hz; [by apply Hshut|done].
  - wp_steps. cbn [negb]. wp_cases Hhup; [|done].
    destruct w as [l d v tr]. apply wp_mono with (2 := λ _ _ H, H). by apply Hshut.
Qed.

(** A message and a hang-up were signalled together, the message could not be
    received or answered, and the context was shut down after that: what the
    handler has done when it comes to its second shutdown. *)
Definition shut_down_twice (ev : uevent) c (tr tr' : list sysev) : Prop :=
  has (ev_event ev) IPC_HANDLE_POLL_MSG = true ∧ has (ev_event ev) IPC_HANDLE_POLL_HUP = true ∧
  let h := keybox_chan c in
  ((∃ rc bs, rc < 0 ∧ tr' = SClose h :: SRecv h rc bs :: tr) ∨
   (∃ msg n, n < 0 ∧
      tr' = SClose h :: SSend h (response msg) n :: SRecv h (Z.of_nat (length msg)) msg :: tr)).

(** Every event without an error: the handler keeps the service's invariant,
    or touches the freed context. *)
Lemma keybox_chan_outcomes rest fr ev p c w :
  frame_ok fr → keybox_ok rest (loc w) (trace w) →
  keybox_ctxs (loc w) !! p = Some c → ev_handle ev = keybox_chan c →
  tipc_chan_error (ev_event ev) = false →
  match keybox_chan_handler fr ev p w with
  | Ret _ w' => keybox_ok rest (loc w') (trace w')
  | Halt h w' => h = UseAfterFree ∧ shut_down_twice ev c (trace w) (trace w')
  end.
Proof.
  intros Hfr Hok Hp Hh Herr.
  destruct (has (ev_event ev) IPC_HANDLE_POLL_MSG && has (ev_event ev) IPC_HANDLE_POLL_HUP) eqn:Hboth.
  2: { pose proof (keybox_chan_stable rest fr ev p c w Hfr Hok Hp Hh Herr Hboth) as Hw. unfold wp in Hw.
       by destruct (keybox_chan_handler fr ev p w). }
  apply andb_prop in Hboth as [Hmsg Hhup].
  pose proof (keybox_handle_msg_outcome fr p c w Hfr Hp) as Hm.
  apply wp_returns in Hm as (status & w1 & E1 & Hl & Htr).
  assert (wp (keybox_shutdown p) (λ _ w', loc w' = with_keybox_ctxs (delete p) (loc w) ∧
    trace w' = SClose (keybox_chan c) :: trace w1) w1) as Hs.
  { eapply shutdown_spec; [by rewrite Hl|]. intros v. cbn. by rewrite Hl. }
  apply wp_returns in Hs as ([] & w2 & E2 & Hl2 & Htr2).
  unfold keybox_chan_handler, tipc_handle_chan_errors.
  rewrite (bind_run _ _ _ _ _ (load_ok _ _ _ _ Hp)), Hh, Z.eqb_refl, Herr, Hmsg, Hhup.
  rewrite (bind_run _ _ w tt w), (bind_run _ _ w tt w), (bind_run _ _ _ _ _ E1),
    (bind_run _ _ _ _ _ E2) by done. pose proof keybox_internal_nonzero.
  destruct (Z.eqb_spec status 0) as [->|Hne]; cbn [negb ret].
  - rewrite Hl2, Htr2. cbn. apply (balanced_free keybox_chan); [done|].
    destruct Htr as [(rc & bs & _ & Hst & ->)|(msg & n & _ & ->)]; [lia|].
    apply balanced_neutral, balanced_neutral; done.
  - unfold keybox_shutdown.
    rewrite (bind_halt _ _ _ _ _ (load_freed keybox_ctxs p w2 ltac:(rewrite Hl2; apply lookup_delete_eq))).
    split; [done|]. split_and!; [done..|]. cbn zeta. rewrite Htr2.
    destruct Htr as [(rc & bs & Hrc & Hst & ->)|(msg & n & Hst & ->)].
    + left. by exists rc, bs.
    + right. exists msg, n. split; [|done]. destruct (Z.ltb_spec n 0); [done|].
      by rewrite Hst, keybox_success_zero in Hne.
Qed.

(** keybox_chan_handler is safe on every event that does not signal a
    message and a hang-up together, whatever the kernel answers: no freed
    context is touched and the contexts keep owning exactly the channels
    accepted and not yet closed. *)
Theorem keybox_chan_handler_safe rest fr ev p c w :
  frame_ok fr → keybox_ok rest (loc w) (trace w) →
  keybox_ctxs (loc w) !! p = Some c → ev_handle ev = keybox_chan c →
  tipc_chan_error (ev_event ev) = false →
  has (ev_event ev) IPC_HANDLE_POLL_MSG && has (ev_event ev) IPC_HANDLE_POLL_HUP = false →
  wp (keybox_chan_handler fr ev p) (λ _ w', keybox_ok rest (loc w') (trace w')) w.
Proof. apply keybox_chan_stable. Qed.

(** The context is shut down twice when a message and a hang-up are
    signalled together and the answer cannot be delivered (the peer has
    closed its end): the HUP branch frees it and the error branch uses it
    again, so the handler touches freed memory. *)
Theorem keybox_chan_handler_double_shutdown fr ev p c w :
  frame_ok fr → keybox_ctxs (loc w) !! p = Some c → ev_handle ev = keybox_chan c →
  tipc_chan_error (ev_event ev) = false →
  has (ev_event ev) IPC_HANDLE_POLL_MSG = true →
  has (ev_event ev) IPC_HANDLE_POLL_HUP = true →
  (∀ h bs v, (k_send (W:=W) h bs v).1 < 0) →
  ∃ w', keybox_chan_handler fr ev p w = Halt UseAfterFree w'.
Proof.
  intros Hfr Hp Hh Herr Hmsg Hhup Hsend.
  assert (wp (keybox_handle_msg fr p) (λ status w', status ≠ 0 ∧ loc w' = loc w) w) as Hm.
  { pose proof keybox_internal_nonzero. eapply handle_msg_spec; [done..| |]; [by auto|].
    intros msg n v [e He]. specialize (Hsend (keybox_chan c) (response msg) e).
    destruct (Z.ltb_spec n 0); [auto|lia]. }
  apply wp_returns in Hm as (status & w1 & E1 & Hst & Hl).
  assert (wp (keybox_shutdown p) (λ _ w', keybox_ctxs (loc w') !! p = None) w1) as Hs.
  { eapply shutdown_spec; [by rewrite Hl|]. intros v. cbn. apply lookup_delete_eq. }
  apply wp_returns in Hs as ([] & w2 & E2 & Hfree). exists w2.
  unfold keybox_chan_handler, tipc_handle_chan_errors.
  rewrite (bind_run _ _ _ _ _ (load_ok _ _ _ _ Hp)), Hh, Z.eqb_refl, Herr, Hmsg, Hhup.
  rewrite (bind_run _ _ w tt w), (bind_run _ _ w tt w), (bind_run _ _ _ _ _ E1),
    (bind_run _ _ _ _ _ E2) by done.
  destruct (Z.eqb_spec status 0); [done|]. cbn [negb]. unfold keybox_shutdown.
  by rewrite (bind_halt _ _ _ _ _ (load_freed _ _ _ Hfree)).
Qed.

Lemma keybox_port_stable rest ev w :
  keybox_ok rest (loc w) (trace w) → tipc_port_error (ev_event ev) = false →
  wp (keybox_port_handler ev) (λ _ w', keybox_ok rest (loc w') (trace w')) w.
Proof.
  intros Hok Herr. unfold keybox_port_handler, tipc_handle_port_errors.
  rewrite Herr. ipc_steps. wp_cases Hready; ipc_steps; [|done].
  unfold accept. ipc_call r v E. destruct r as [rc u]. wp_cases Hrc; ipc_steps.
  { by apply balanced_neutral. }
  apply Z.ltb_ge in Hrc. unfold alloc_ok. ipc_call ok v' E'. wp_cases Hno; ipc_steps.
  { apply wp_close. intros. ipc_steps. by apply (balanced_refused _ _ _ _ [SAlloc ok]); auto. }
  unfold set_cookie. ipc_call r2 v2 E2.
  pose proof (new_ptr_fresh (keybox_ctxs (loc w))) as Hfresh. wp_cases Hck; ipc_steps.
  - apply wp_close. intros. ipc_steps. unfold keybox_ok. cbn. rewrite delete_insert_id by done.
    apply (balanced_refused _ _ _ _ [SSetCookie rc r2; SAlloc ok]); auto.
  - apply balanced_neutral; [done|]. apply balanced_neutral; [done|].
    by apply (balanced_new keybox_chan _ _ (KeyboxCtx rc)).
Qed.

Lemma keybox_start_stable rest w :
  keybox_port (loc w) = INVALID_IPC_HANDLE → keybox_ok rest (loc w) (trace w) →
  wp keybox_start_service (λ rc w', ∃ new,
    (if rc =? NO_ERROR then new = [keybox_port (loc w')] else new = []) ∧
    keybox_ok (new ++ rest) (loc w') (trace w')) w.
Proof.
  intros Hport Hok. pose proof no_error_zero. unfold keybox_start_service, port_create.
  ipc_steps. ipc_call rc v E. wp_cases Hrc; ipc_steps.
  - cbn. rewrite Hport. apply wp_close. intros. ipc_steps. exists [].
    destruct (Z.eqb_spec rc NO_ERROR); [lia|]. pose proof invalid_handle_neg.
    split; [done|]. apply balanced_neutral; [by cbn; lia|]. by apply balanced_neutral.
  - unfold set_cookie. ipc_call rc' v' E'. ipc_steps. rewrite Z.eqb_refl. cbn.
    exists [rc]. split; [done|].
    apply balanced_neutral; [done|]. unfold keybox_ok in *. cbn.
    eapply balanced_perm; [|apply balanced_port; [lia|done]].
    apply Permutation_middle.
Qed.

End ServiceTheorems.

(** * 8. Witnesses *)

(** A 4-byte command, a 1-byte length, plaintexts of up to 8 bytes. *)
Module KeyboxDemo.
#[local] Instance uapi : Uapi := Sim.uapi.
#[local] Instance kernel : Kernel script := Sim.kernel.
#[local] Instance laws : KernelLaws script := Sim.kernel_laws.
#[local] Instance iface : KeyboxIface.
Proof.
  refine {| KEYBOX_PORT := "com.android.trusty.keybox"; KEYBOX_CMD_RSP_BIT := 1;
            KEYBOX_CMD_UNWRAP := 0; KEYBOX_STATUS_SUCCESS := 0;
            KEYBOX_STATUS_INVALID_REQUEST := 1; KEYBOX_STATUS_UNWRAP_FAIL := 2;
            KEYBOX_STATUS_INTERNAL_ERROR := 4; KEYBOX_MAX_SIZE := 8;
            sizeof_keybox_req := 4; sizeof_keybox_unwrap_req := 1;
            keybox_req_cmd bs := bs !!! 0%nat; wrapped_keybox_len bs := u8 (bs !!! 0%nat);
            keybox_resp cmd st := [cmd; st]; keybox_unwrap_resp n := [n] |};
    try done.
  intros bs. unfold u8. pose proof (Z.mod_pos_bound (bs !!! 0%nat) 256 eq_refl). lia.
Defined.

Definition frame : keybox_frame :=
  KeyboxFrame (replicate 13 170) (replicate 8 187).
Definition state : keybox_state := KeyboxState {[1%positive := KeyboxCtx 100]} 7.
Definition w (s : script) : world keybox_state unit script :=
  World state () s [SAccept 7 100].

(** An unwrap request for the wrapped form of [1; 2; 3]. *)
Definition request : bytes := [0; 0; 0; 0; 4] ++ Wrapping.wrap [1; 2; 3].
Definition asks : script := Script 101 [] [] [request] [].

(** The peer is gone: sends fail, the message is still there. *)
Definition gone : Kernel script := {|
  k_port_create := k_port_create; k_accept := k_accept;
  k_set_cookie := k_set_cookie; k_close := k_close;
  k_send _ _ s := (-35, s); k_recv := k_recv; k_alloc := k_alloc |}.

Lemma gone_laws : @KernelLaws script gone.
Proof. split. apply (k_recv_ok (KernelLaws := laws)). Qed.

Lemma keybox_demo_ok s : keybox_ok [] (loc (w s)) (trace (w s)).
Proof. by vm_compute. Qed.

Lemma frame_sizes : frame_ok frame.
Proof. by vm_compute. Qed.

Example response_of_request :
  response request = [1; 0; 3; 1; 2; 3].
Proof. by vm_compute. Qed.

Lemma keybox_unwrap_correct_witness :
  Forall is_byte [67; 64; 65; 66] ∧
  keybox_unwrap ([67; 64; 65; 66] ++ [9; 9]) 4 8 (replicate 8 0, 0) =
  Ret 0 ([1; 2; 3; 0; 0; 0; 0; 0], 3).
Proof.
  split; [by repeat (constructor; [done|])|].
  exact (keybox_unwrap_correct [67; 64; 65; 66] [9; 9] (replicate 8 0) 0 8
           ltac:(by repeat (constructor; [done|])) ltac:(done)).
Defined.

Lemma keybox_unwrap_wrap_witness :
  keybox_unwrap (Wrapping.wrap [1; 2; 3] ++ []) 4 8 (replicate 8 0, 0) =
  Ret 0 ([1; 2; 3; 0; 0; 0; 0; 0], 3).
Proof.
  exact (keybox_unwrap_wrap [1; 2; 3] [] (replicate 8 0) 0 8
           ltac:(by repeat (constructor; [done|])) ltac:(by cbn)).
Defined.

Lemma keybox_unwrap_tampered_witness :
  keybox_unwrap (<[1%nat := 0]> (Wrapping.wrap [1; 2; 3]) ++ []) 4 8 (replicate 8 0, 0) =
  Ret 2 (replicate 8 0, 0).
Proof.
  exact (keybox_unwrap_tampered [1; 2; 3] [] (replicate 8 0) 0 8 1 64 0
           ltac:(by repeat (constructor; [done|])) ltac:(by cbn)
           ltac:(done) ltac:(done) ltac:(done)).
Defined.

Lemma keybox_handle_msg_responds_witness :
  wp (keybox_handle_msg frame 1) (λ status w',
    loc w' = loc (w asks) ∧
    ((∃ rc bs, rc < 0 ∧ status = KEYBOX_STATUS_INTERNAL_ERROR ∧
        trace w' = SRecv 100 rc bs :: trace (w asks)) ∨
     (∃ msg n, status = (if n <? 0 then KEYBOX_STATUS_INTERNAL_ERROR
                         else KEYBOX_STATUS_SUCCESS) ∧
        trace w' = SSend 100 (response msg) n ::
                   SRecv 100 (Z.of_nat (length msg)) msg :: trace (w asks)))) (w asks).
Proof. apply (keybox_handle_msg_responds _ _ (KeyboxCtx 100)); [apply frame_sizes|done]. Defined.

Lemma keybox_chan_handler_safe_witness :
  wp (keybox_chan_handler frame (UEvent 100 8) 1)
    (λ _ w', keybox_ok [] (loc w') (trace w')) (w asks).
Proof.
  apply (keybox_chan_handler_safe [] _ _ _ (KeyboxCtx 100));
    [apply frame_sizes|apply keybox_demo_ok|done..].
Defined.

Lemma keybox_chan_handler_double_shutdown_witness :
  ∃ w', keybox_chan_handler (Kernel0 := gone) frame (UEvent 100 12) 1 (w asks) =
        Halt UseAfterFree w'.
Proof.
  apply (keybox_chan_handler_double_shutdown (Kernel0 := gone) (KernelLaws0 := gone_laws)
           _ _ _ (KeyboxCtx 100)); [apply frame_sizes|done..].
Defined.

End KeyboxDemo.
