(* ===== verification/Evp.v ===== *)
(** The cryptography the services call, as a class: BoringSSL's EVP cipher
    contexts and HKDF are parameters, with their documented behaviour as the
    laws of a second class, and a small concrete instance for the witnesses. *)

From S2P Require Import Prelude Ipc.

(** * 1. The interface *)

Inductive cipher := AES_128_CBC | AES_256_CBC | AES_128_GCM | AES_256_GCM.

(** The calls that only succeed or fail: [EVP_CIPHER_CTX_new] and [free], for a
    context on the stack [EVP_CIPHER_CTX_init] and [cleanup], and the calls
    that set up a cipher. *)
Inductive evp_op :=
| EvpNew | EvpFree | EvpCtxInit | EvpCtxCleanup | EvpInit | EvpInitKey | EvpPadding.

(** Each call takes the state of the device and the allocator and answers;
    the two updates return what they wrote to the output buffer, the final
    calls the number of bytes they added to it. *)
Class Evp (D : Type) := {
  evp_call : evp_op → D → bool * D;
  evp_decrypt_update : cipher → bytes → bytes → bytes → D → (bool * bytes) * D;
  evp_encrypt_update : cipher → bytes → bytes → bytes → D → (bool * bytes) * D;
  evp_final : cipher → bytes → D → (bool * Z) * D;
  evp_iv_length : cipher → Z;
  evp_key_length : cipher → Z;
  evp_block_size : cipher → Z;
  (** [HKDF(out, out_len, EVP_sha256(), secret, salt, info)]: success and
      what it wrote to [out]. *)
  hkdf : Z → bytes → bytes → bytes → D → (bool * bytes) * D;
  (** What the calls compute. *)
  aes_decrypt : cipher → bytes → bytes → bytes → bytes;
  aes_encrypt : cipher → bytes → bytes → bytes → bytes;
  hkdf_sha256 : Z → bytes → bytes → bytes → bytes
}.

(** The input is a whole number of blocks. *)
Definition aligned `{Evp D} (c : cipher) (bs : bytes) : Prop :=
  Z.of_nat (length bs) mod evp_block_size c = 0.

Class EvpLaws (D : Type) `{Evp D} : Prop := {
  evp_iv_nonneg c : 0 ≤ evp_iv_length c;
  evp_key_nonneg c : 0 ≤ evp_key_length c;
  evp_cbc_key_length : evp_key_length AES_128_CBC = 16 ∧ evp_key_length AES_256_CBC = 32;
  evp_block_pos c : 0 < evp_block_size c;
  aes_decrypt_length c k iv ct : length (aes_decrypt c k iv ct) = length ct;
  aes_encrypt_length c k iv pt : length (aes_encrypt c k iv pt) = length pt;
  hkdf_sha256_length n secret salt info :
    0 ≤ n → Z.of_nat (length (hkdf_sha256 n secret salt info)) = n;
  (** Without padding no call writes more than its input is long. *)
  evp_decrypt_bound c k iv ct d ok out d' :
    evp_decrypt_update c k iv ct d = ((ok, out), d') → (length out ≤ length ct)%nat;
  evp_encrypt_bound c k iv pt d ok out d' :
    evp_encrypt_update c k iv pt d = ((ok, out), d') → (length out ≤ length pt)%nat;
  evp_decrypt_ok c k iv ct d out d' :
    aligned c ct → evp_decrypt_update c k iv ct d = ((true, out), d') →
    out = aes_decrypt c k iv ct;
  evp_encrypt_ok c k iv pt d out d' :
    aligned c pt → evp_encrypt_update c k iv pt d = ((true, out), d') →
    out = aes_encrypt c k iv pt;
  evp_final_ok c input d n d' :
    aligned c input → evp_final c input d = ((true, n), d') → n = 0;
  hkdf_bound n secret salt info d ok out d' :
    0 ≤ n → hkdf n secret salt info d = ((ok, out), d') → Z.of_nat (length out) ≤ n;
  hkdf_ok n secret salt info d out d' :
    0 ≤ n → hkdf n secret salt info d = ((true, out), d') →
    out = hkdf_sha256 n secret salt info
}.

(** Failing calls leave nothing behind, and a final call after whole blocks
    does not fail: what wiping the key buffer relies on. *)
Class EvpAtomic (D : Type) `{!Evp D} : Prop := {
  evp_decrypt_fail c k iv ct d out d' :
    evp_decrypt_update c k iv ct d = ((false, out), d') → out = [];
  evp_encrypt_fail c k iv pt d out d' :
    evp_encrypt_update c k iv pt d = ((false, out), d') → out = [];
  evp_final_succeeds c input d ok n d' :
    aligned c input → evp_final c input d = ((ok, n), d') → ok = true
}.

(** The CBC ciphers work on blocks of 16 bytes with a block as IV. *)
Class EvpCbc (D : Type) `{!Evp D} : Prop := {
  evp_cbc_sizes c : c = AES_128_CBC ∨ c = AES_256_CBC →
    evp_iv_length c = 16 ∧ evp_block_size c = 16
}.

(** * 2. An instance *)

(** A toy cipher that xors every byte with the sum of key and IV, and a toy
    derivation; every call succeeds and leaves the device alone. *)
Module ToyEvp.

Definition key_byte (k iv : bytes) : Z := u8 (foldr Z.add 0 (k ++ iv)).
Definition crypt (k iv bs : bytes) : bytes := (λ b, Z.lxor b (key_byte k iv)) <$> bs.
Definition derive (n : Z) (secret salt info : bytes) : bytes :=
  (λ i, u8 (i + key_byte secret (salt ++ info))) <$> seqZ 0 n.

#[export] Instance toy_evp D : Evp D := {|
  evp_call _ d := (true, d);
  evp_decrypt_update _ k iv bs d := ((true, crypt k iv bs), d);
  evp_encrypt_update _ k iv bs d := ((true, crypt k iv bs), d);
  evp_final _ _ d := ((true, 0), d);
  evp_iv_length c := match c with AES_128_CBC | AES_256_CBC => 16 | _ => 12 end;
  evp_key_length c := match c with AES_128_CBC | AES_128_GCM => 16 | _ => 32 end;
  evp_block_size c := match c with AES_128_CBC | AES_256_CBC => 16 | _ => 1 end;
  hkdf n secret salt info d := ((true, derive n secret salt info), d);
  aes_decrypt _ := crypt;
  aes_encrypt _ := crypt;
  hkdf_sha256 := derive
|}.

#[export] Instance toy_evp_laws D : EvpLaws D.
Proof.
  assert (∀ n secret salt info, 0 ≤ n → Z.of_nat (length (derive n secret salt info)) = n)
    as Hderive by (intros; unfold derive; rewrite length_fmap, length_seqZ; lia).
  split; cbn; intros; simplify_eq; unfold crypt; rewrite ?length_fmap; auto;
    try by destruct c. by rewrite Hderive.
Qed.

#[export] Instance toy_evp_cbc D : @EvpCbc D (toy_evp D).
Proof. split. by intros c [->| ->]. Qed.

#[export] Instance toy_evp_atomic D : @EvpAtomic D (toy_evp D).
Proof. split; cbn; intros; by simplify_eq. Qed.

End ToyEvp.
