(* ===== verification/Hwkey.v ===== *)
(** The key service, hwcrypto/hwkey_srv.c: its data (key slots, channel
    contexts, the list of opaque handles with their access tokens) and its
    operations, over the provider interface of hwkey_srv_priv.h. *)

From S2P Require Import Prelude Ipc HwrngDev Evp.

(** * 1. Interfaces *)

(** The header of a message: the fields the service reads or writes, and the
    others, which it echoes. *)
Record hwkey_msg := HwkeyMsg {
  cmd : Z;
  status : Z;
  arg1 : Z;
  other_fields : bytes
}.

Definition with_cmd (c : Z) (m : hwkey_msg) : hwkey_msg :=
  HwkeyMsg c (status m) (arg1 m) (other_fields m).
Definition with_status (s : Z) (m : hwkey_msg) : hwkey_msg :=
  HwkeyMsg (cmd m) s (arg1 m) (other_fields m).
Definition with_arg1 (a : Z) (m : hwkey_msg) : hwkey_msg :=
  HwkeyMsg (cmd m) (status m) a (other_fields m).

(** interface/hwkey/hwkey.h. *)
Class HwkeyIface := {
  HWKEY_PORT : string;
  HWKEY_GET_KEYSLOT : Z;
  HWKEY_DERIVE : Z;
  HWKEY_RESP_BIT : Z;
  HWKEY_KDF_VERSION_BEST : Z;
  HWKEY_KDF_VERSION_1 : Z;
  HWKEY_NO_ERROR : Z;
  HWKEY_ERR_GENERIC : Z;
  HWKEY_ERR_NOT_FOUND : Z;
  HWKEY_ERR_BAD_LEN : Z;
  HWKEY_ERR_NOT_IMPLEMENTED : Z;
  HWKEY_ERR_ALREADY_EXISTS : Z;
  sizeof_hwkey_msg : Z;
  hwkey_msg_decode : bytes → hwkey_msg;
  hwkey_msg_encode : hwkey_msg → bytes;
  sizeof_hwkey_msg_range : 0 ≤ sizeof_hwkey_msg < 2 ^ 16;
  hwkey_cmds_differ : HWKEY_GET_KEYSLOT ≠ HWKEY_DERIVE;
  hwkey_errors_not_ok :
    HWKEY_ERR_GENERIC ≠ HWKEY_NO_ERROR ∧ HWKEY_ERR_NOT_FOUND ≠ HWKEY_NO_ERROR ∧
    HWKEY_ERR_BAD_LEN ≠ HWKEY_NO_ERROR ∧ HWKEY_ERR_NOT_IMPLEMENTED ≠ HWKEY_NO_ERROR ∧
    HWKEY_ERR_ALREADY_EXISTS ≠ HWKEY_NO_ERROR
}.

Definition HWKEY_MAX_PAYLOAD_SIZE : Z := 2048.
Definition HWKEY_OPAQUE_HANDLE_SIZE : Z := 32.
Definition HWKEY_DERIVED_KEY_MAX_SIZE : Z := 32.

(** What a key function works on: the output buffer [kbuf], the cell behind
    [klen] (uninitialised at some call sites) and the devices. *)
Record kout (D : Type) := KOut {
  kbuf : bytes;
  klen : option Z;
  kdev : D
}.
Arguments KOut {D}.
Arguments kbuf {D}.
Arguments klen {D}.
Arguments kdev {D}.

Section KeyFunctions.
Context {D : Type}.
Abbreviation K := (M (kout D)).

(** [uint32_t f(..., uint8_t* kbuf, size_t kbuf_len, size_t* klen)], applied
    to its slot or data argument. *)
Definition key_fn : Type := Z → K Z.

Definition set_klen (n : Z) : K unit :=
  modify (λ k, KOut (kbuf k) (Some n) (kdev k)).

(** A write of [bs] to the start of [kbuf], inside the buffer. *)
Definition write_kbuf (bs : bytes) : K unit := λ k,
  if (length bs <=? length (kbuf k))%nat
  then Ret tt (KOut (overwrite bs (kbuf k)) (klen k) (kdev k))
  else Halt OutOfBounds k.

(** A call of the devices or the libraries. *)
Definition dev_call {A} (f : D → A * D) : K A := λ k,
  let '(a, d) := f (kdev k) in Ret a (KOut (kbuf k) (klen k) d).
End KeyFunctions.
Arguments key_fn : clear implicits.

(** hwkey_srv_priv.h. *)
Record hwkey_opaque_handle_data (D : Type) := OpaqueData {
  allowed_uuids : list uuid;
  retriever : key_fn D
}.
Arguments OpaqueData {D}.
Arguments allowed_uuids {D}.
Arguments retriever {D}.

Record hwkey_derived_keyslot_data (D : Type) := DerivedData {
  encrypted_key_data : bytes;
  encrypted_key_size_ptr : option Z;
  derived_retriever : key_fn D
}.
Arguments DerivedData {D}.
Arguments encrypted_key_data {D}.
Arguments encrypted_key_size_ptr {D}.
Arguments derived_retriever {D}.

(** The handler of a slot with its [priv] data: none, [get_key_handle] with
    its opaque handle data, or a function of the provider applied to the slot. *)
Inductive slot_handler (D : Type) :=
| NoHandler
| GetKeyHandle (priv : option (hwkey_opaque_handle_data D))
| ProviderFn (f : key_fn D).
Arguments NoHandler {D}.
Arguments GetKeyHandle {D}.
Arguments ProviderFn {D}.

Record hwkey_keyslot (D : Type) := KeySlot {
  key_id : bytes;
  slot_uuid : uuid;
  handler : slot_handler D
}.
Arguments KeySlot {D}.
Arguments key_id {D}.
Arguments slot_uuid {D}.
Arguments handler {D}.

(** The functions the provider is linked with. *)
Class HwkeyProvider (D : Type) := {
  hwkey_client_allowed : uuid → bool;
  derive_key_v1 : uuid → bytes → M (kout D) Z
}.

(** * 2. State *)

Record hwkey_chan_ctx := HwkeyCtx { hwkey_chan : handle; hwkey_uuid : uuid }.

(** [key_slot]: a slot pointer, as the index of the slot in the table. *)
Record opaque_handle_node := OpaqueNode {
  key_slot : nat;
  owner : ptr;
  token : bytes
}.

(** [opaque_handles] is the list of the nodes with their addresses; a node is
    allocated and linked, and unlinked and freed, together. *)
Record hwkey_state (D : Type) := HwkeyState {
  hwkey_ctxs : gmap ptr hwkey_chan_ctx;
  opaque_handles : list (ptr * opaque_handle_node);
  req_data : bytes;
  key_data : bytes;
  key_slots : option (list (hwkey_keyslot D))
}.
Arguments HwkeyState {D}.
Arguments hwkey_ctxs {D}.
Arguments opaque_handles {D}.
Arguments req_data {D}.
Arguments key_data {D}.
Arguments key_slots {D}.

Definition hwkey_init {D} : hwkey_state D :=
  HwkeyState ∅ [] (replicate (Z.to_nat (HWKEY_MAX_PAYLOAD_SIZE + 1)) 0)
    (replicate (Z.to_nat HWKEY_MAX_PAYLOAD_SIZE) 0) None.

Section Updates.
Context {D : Type}.
Implicit Types l : hwkey_state D.

Definition with_hwkey_ctxs (f : gmap ptr hwkey_chan_ctx → gmap ptr hwkey_chan_ctx) l :=
  HwkeyState (f (hwkey_ctxs l)) (opaque_handles l) (req_data l) (key_data l) (key_slots l).
Definition with_handles
    (f : list (ptr * opaque_handle_node) → list (ptr * opaque_handle_node)) l :=
  HwkeyState (hwkey_ctxs l) (f (opaque_handles l)) (req_data l) (key_data l) (key_slots l).
Definition with_req_data (f : bytes → bytes) l :=
  HwkeyState (hwkey_ctxs l) (opaque_handles l) (f (req_data l)) (key_data l) (key_slots l).
Definition with_key_data (f : bytes → bytes) l :=
  HwkeyState (hwkey_ctxs l) (opaque_handles l) (req_data l) (f (key_data l)) (key_slots l).
Definition with_key_slots (s : option (list (hwkey_keyslot D))) l :=
  HwkeyState (hwkey_ctxs l) (opaque_handles l) (req_data l) (key_data l) s.
End Updates.

Definition with_token (t : bytes) (n : opaque_handle_node) : opaque_handle_node :=
  OpaqueNode (key_slot n) (owner n) t.

(** The node at an address, and its update in place. *)
Fixpoint node_at (q : ptr) (l : list (ptr * opaque_handle_node)) : option opaque_handle_node :=
  match l with
  | [] => None
  | (r, n) :: l => if decide (r = q) then Some n else node_at q l
  end.
Definition set_node (q : ptr) (n : opaque_handle_node) (l : list (ptr * opaque_handle_node)) :=
  (λ e, if decide (e.1 = q) then (q, n) else e) <$> l.

(** C strings: the bytes before the first NUL. *)
Fixpoint cstr (bs : bytes) : bytes :=
  match bs with
  | [] => []
  | b :: bs => if b =? 0 then [] else b :: cstr bs
  end.
Definition strnlen (bs : bytes) (n : Z) : Z :=
  Z.of_nat (length (cstr (take (Z.to_nat n) bs))).

(** * 3. hwkey_get_derived_key *)

Section DerivedKey.
Context {D : Type} `{!HwkeyIface} `{!Evp D}.
Abbreviation K := (M (kout D)).

(** [retriever(data, key_buffer, sizeof(key_buffer), &key_len)] on the local
    buffer and the uninitialised length. *)
Definition retrieve_key (f : key_fn D) : K (Z * bytes * option Z) := λ k,
  let key_buffer := replicate (Z.to_nat HWKEY_DERIVED_KEY_MAX_SIZE) 0 in
  match f HWKEY_DERIVED_KEY_MAX_SIZE (KOut key_buffer None (kdev k)) with
  | Ret rc k' => Ret (rc, kbuf k', klen k') (KOut (kbuf k) (klen k) (kdev k'))
  | Halt h k' => Halt h (KOut (kbuf k) (klen k) (kdev k'))
  end.

(** From the first use of the context to the label [out]. *)
Definition decrypt_derived (data : hwkey_derived_keyslot_data D) (cipher : cipher)
    (key : bytes) (encrypted_size kbuf_len : Z) : K Z :=
  init ← dev_call (evp_call EvpInit);
  if negb init then ret HWKEY_ERR_GENERIC else
  let iv_length := evp_iv_length cipher in
  if encrypted_size <=? iv_length then ret HWKEY_ERR_GENERIC else
  if kbuf_len <? encrypted_size - iv_length then ret HWKEY_ERR_BAD_LEN else
  init ← dev_call (evp_call EvpInitKey);
  if negb init then ret HWKEY_ERR_GENERIC else
  padding ← dev_call (evp_call EvpPadding);
  if negb padding then ret HWKEY_ERR_GENERIC else
  let iv := take (Z.to_nat iv_length) (encrypted_key_data data) in
  let ciphertext := take (Z.to_nat (encrypted_size - iv_length))
                      (drop (Z.to_nat iv_length) (encrypted_key_data data)) in
  r ← dev_call (evp_decrypt_update cipher key iv ciphertext);
  let '(ok, out) := r in
  write_kbuf out;;
  if negb ok then ret HWKEY_ERR_GENERIC else
  assert (Z.of_nat (length out) =? encrypted_size - iv_length);;
  r ← dev_call (evp_final cipher ciphertext);
  let '(ok, out_len) := r in
  if negb ok then ret HWKEY_ERR_GENERIC else
  assert (out_len =? 0);;
  set_klen (encrypted_size - iv_length);;
  ret HWKEY_NO_ERROR.

(** The cipher for a key of [key_len] bytes. *)
Definition cipher_for (key_len : Z) : option cipher :=
  if key_len =? 16 then Some AES_128_CBC
  else if key_len =? 32 then Some AES_256_CBC else None.

Definition hwkey_get_derived_key (data : hwkey_derived_keyslot_data D) : key_fn D :=
  λ kbuf_len,
  match encrypted_key_size_ptr data with
  | None => stop AssertFailed
  | Some encrypted_size =>
    r ← retrieve_key (derived_retriever data);
    let '(rc, key_buffer, key_len) := r in
    if negb (rc =? HWKEY_NO_ERROR) then ret rc else
    match key_len with
    | None => stop UninitRead
    | Some key_len =>
      match cipher_for key_len with
      | None => ret HWKEY_ERR_GENERIC
      | Some cipher =>
        new ← dev_call (evp_call EvpNew);
        if negb new then ret HWKEY_ERR_GENERIC else
        rc ← decrypt_derived data cipher (take (Z.to_nat key_len) key_buffer)
               encrypted_size kbuf_len;
        dev_call (evp_call EvpFree);;
        ret rc
      end
    end
  end.
End DerivedKey.

(** * 4. Opaque handles *)

Section Ops.
Context {D W : Type} `{!Uapi} `{!HwkeyIface} `{!HwrngDev D} `{!HwkeyProvider D} `{!Kernel W}.
Abbreviation C := (M (world (hwkey_state D) D W)).

Definition node (q : ptr) : C opaque_handle_node :=
  o ← get_loc (λ l, node_at q (opaque_handles l));
  match o with Some n => ret n | None => stop UseAfterFree end.

(** The slot a pointer into [key_slots] points to. *)
Definition slot_of (l : hwkey_state D) (i : nat) : option (hwkey_keyslot D) :=
  match key_slots l with Some slots => slots !! i | None => None end.
Definition slot_at (i : nat) : C (hwkey_keyslot D) :=
  o ← get_loc (λ l, slot_of l i);
  match o with Some s => ret s | None => stop OutOfBounds end.

Definition is_opaque_handle (s : hwkey_keyslot D) : bool :=
  match handler s with GetKeyHandle _ => true | _ => false end.

(** Its [memset] of the token has no reader: the node is freed. *)
Definition delete_opaque_handle (q : ptr) : C unit :=
  n ← node q;
  mod_loc (with_handles (set_node q
    (with_token (memset0 (Z.to_nat HWKEY_OPAQUE_HANDLE_SIZE) (token n)) n)));;
  mod_loc (with_handles (filter (λ e, e.1 ≠ q))).

(** The loop of [hwkey_ctx_close] over the list it finds. *)
Definition revoke_owned (p : ptr) (_ : unit) (q : ptr) : C unit :=
  entry ← node q;
  if decide (owner entry = p) then delete_opaque_handle q else ret tt.

Definition hwkey_ctx_close (p : ptr) : C unit :=
  l ← get_loc opaque_handles;
  foldM (revoke_owned p) tt l.*1;;
  ctx ← load hwkey_ctxs p;
  close (hwkey_chan ctx);;
  mod_loc (with_hwkey_ctxs (delete p)).

Definition hwkey_send_rsp (chan : handle) (rsp_hdr : hwkey_msg) (rsp_data : bytes) : C Z :=
  tipc_send chan
    (hwkey_msg_encode (with_cmd (Z.lor (cmd rsp_hdr) HWKEY_RESP_BIT) rsp_hdr) ++ rsp_data).

(** [slot->priv] of an opaque slot. *)
Definition opaque_data (s : hwkey_keyslot D) : option (hwkey_opaque_handle_data D) :=
  match handler s with GetKeyHandle priv => priv | _ => None end.

Definition is_allowed_to_read_opaque_key (u : uuid) (s : hwkey_keyslot D) : C bool :=
  match opaque_data s with
  | None => stop AssertFailed
  | Some data => ret (existsb (λ a, bool_decide (a = u)) (allowed_uuids data))
  end.

Definition find_slot (i : nat) (l : list (ptr * opaque_handle_node)) : option ptr :=
  fst <$> find (λ e, bool_decide (key_slot e.2 = i)) l.
Definition find_opaque_handle_for_slot (i : nat) : C (option ptr) :=
  get_loc (λ l, find_slot i (opaque_handles l)).

Definition insert_handle_node (p : ptr) (i : nat) : C Z :=
  entry ← find_opaque_handle_for_slot i;
  match entry with
  | Some _ => ret HWKEY_NO_ERROR
  | None =>
    ok ← alloc_ok;
    if negb ok then ret HWKEY_ERR_GENERIC else
    q ← get_loc (λ l, fresh (list_to_set (opaque_handles l).*1 : gset ptr));
    mod_loc (with_handles (λ l,
      l ++ [(q, OpaqueNode i p (replicate (Z.to_nat HWKEY_OPAQUE_HANDLE_SIZE) 0))]));;
    ret HWKEY_NO_ERROR
  end.

Definition is_empty_token (t : bytes) : C bool :=
  if forallb (λ b, b =? 0) t then ret true else
  assert (strnlen t HWKEY_OPAQUE_HANDLE_SIZE =? HWKEY_OPAQUE_HANDLE_SIZE - 1);;
  ret false.

(** The inner loop of [get_key_handle]: the non-zero bytes of [random_buf] to
    the token from [token_offset] on. *)
Fixpoint fill_token (random_buf : bytes) (token_offset : nat) (t : bytes) : nat * bytes :=
  match random_buf with
  | [] => (token_offset, t)
  | b :: bs =>
    if Z.of_nat token_offset <? HWKEY_OPAQUE_HANDLE_SIZE - 1 then
      if negb (b =? 0) then fill_token bs (S token_offset) (<[token_offset := b]> t)
      else fill_token bs token_offset t
    else (token_offset, t)
  end.

(** A read of the random number device through [C]. *)
Definition get_random (n : Z) : C (Z * bytes) := λ w,
  let '(r, d) := hwrng_dev_get_rng_data n (dev w) in Ret r (set_dev d w).

(** [while (1)], at most [fuel] times.  NO_ERROR means that the whole buffer
    was filled. *)
Fixpoint token_loop (fuel : nat) (q : ptr) : C Z :=
  match fuel with
  | O => stop OutOfFuel
  | S fuel =>
    r ← get_random (HWKEY_OPAQUE_HANDLE_SIZE + 2);
    let '(rc, random_buf) := r in
    if negb (rc =? NO_ERROR) then delete_opaque_handle q;; ret rc else
    entry ← node q;
    let '(token_offset, t) := fill_token random_buf 0 (token entry) in
    mod_loc (with_handles (set_node q (with_token t entry)));;
    if Z.of_nat token_offset =? HWKEY_OPAQUE_HANDLE_SIZE - 1 then ret NO_ERROR
    else token_loop fuel q
  end.

(** A write to [kbuf], which is [key_data] at every call. *)
Definition write_key_data (bs : bytes) : C unit :=
  l ← get_loc key_data;
  if (length bs <=? length l)%nat then mod_loc (with_key_data (overwrite bs))
  else stop OutOfBounds.

(** The functions that fill the key buffer return their status and the value
    they leave in [*klen], given the one it had. *)
Definition get_key_handle (fuel : nat) (i : nat) (kbuf_len klen : Z) : C (Z * Z) :=
  s ← slot_at i;
  match opaque_data s with
  | None => stop AssertFailed
  | Some _ =>
    assert (HWKEY_OPAQUE_HANDLE_SIZE <=? kbuf_len);;
    o ← find_opaque_handle_for_slot i;
    match o with
    | None => stop AssertFailed
    | Some q =>
      entry ← node q;
      empty ← is_empty_token (token entry);
      if negb empty then ret (HWKEY_ERR_ALREADY_EXISTS, klen) else
      rc ← token_loop fuel q;
      if negb (rc =? NO_ERROR) then ret (u32 rc, klen) else
      entry ← node q;
      last ← fetch (token entry) (HWKEY_OPAQUE_HANDLE_SIZE - 1);
      assert (last =? 0);;
      write_key_data (take (Z.to_nat HWKEY_OPAQUE_HANDLE_SIZE) (token entry));;
      ret (HWKEY_NO_ERROR, HWKEY_OPAQUE_HANDLE_SIZE)
    end
  end.

(** A call of a key function of the provider on [key_data]. *)
Definition call_key_fn (f : M (kout D) Z) (klen0 : Z) : C (Z * Z) := λ w,
  match f (KOut (key_data (loc w)) (Some klen0) (dev w)) with
  | Ret rc k =>
    Ret (rc, from_option id klen0 (klen k))
      (set_dev (kdev k) (set_loc (with_key_data (λ _, kbuf k) (loc w)) w))
  | Halt h k => Halt h (set_dev (kdev k) (set_loc (with_key_data (λ _, kbuf k) (loc w)) w))
  end.

Fixpoint opaque_key_loop (l : list (ptr * opaque_handle_node)) (u : uuid)
    (access_token : bytes) (kbuf_len klen : Z) : C (Z * Z) :=
  match l with
  | [] => ret (HWKEY_ERR_NOT_FOUND, klen)
  | (_, entry) :: l =>
    empty ← is_empty_token (token entry);
    assert (negb empty);;
    s ← slot_at (key_slot entry);
    allowed ← is_allowed_to_read_opaque_key u s;
    if negb allowed then opaque_key_loop l u access_token kbuf_len klen else
    if bool_decide (token entry = take (Z.to_nat HWKEY_OPAQUE_HANDLE_SIZE) access_token) then
      match opaque_data s with
      | None => stop AssertFailed
      | Some data => call_key_fn (retriever data kbuf_len) klen
      end
    else opaque_key_loop l u access_token kbuf_len klen
  end.

Definition get_opaque_key (u : uuid) (access_token : bytes) (kbuf_len klen : Z) : C (Z * Z) :=
  l ← get_loc opaque_handles;
  opaque_key_loop l u access_token kbuf_len klen.

(** * 5. Requests *)

(** [slots->handler(slots, kbuf, kbuf_len, klen)]. *)
Definition call_handler (fuel : nat) (i : nat) (s : hwkey_keyslot D) (kbuf_len klen : Z) :
    C (Z * Z) :=
  match handler s with
  | NoHandler => stop NullDeref
  | GetKeyHandle _ => get_key_handle fuel i kbuf_len klen
  | ProviderFn f => call_key_fn (f kbuf_len) klen
  end.

(** The loop of [_handle_slots], [i] being the index of the first of [slots]. *)
Fixpoint handle_slots_loop (fuel : nat) (p : ptr) (slot_id : bytes)
    (slots : list (hwkey_keyslot D)) (i : nat) (kbuf_len klen : Z) : C (Z * Z) :=
  match slots with
  | [] =>
    ctx ← load hwkey_ctxs p;
    get_opaque_key (hwkey_uuid ctx) slot_id kbuf_len klen
  | s :: slots =>
    if negb (bool_decide (key_id s = cstr slot_id))
    then handle_slots_loop fuel p slot_id slots (S i) kbuf_len klen else
    ctx ← load hwkey_ctxs p;
    if bool_decide (hwkey_uuid ctx = slot_uuid s) then
      match handler s with
      | NoHandler => handle_slots_loop fuel p slot_id slots (S i) kbuf_len klen
      | _ =>
        if is_opaque_handle s then
          rc ← insert_handle_node p i;
          if negb (rc =? HWKEY_NO_ERROR) then ret (rc, klen)
          else call_handler fuel i s kbuf_len klen
        else call_handler fuel i s kbuf_len klen
      end
    else handle_slots_loop fuel p slot_id slots (S i) kbuf_len klen
  end.

Definition handle_slots (fuel : nat) (p : ptr) (slot_id : bytes)
    (slots : option (list (hwkey_keyslot D))) (kbuf_len klen : Z) : C (Z * Z) :=
  match slots with
  | None => ret (HWKEY_ERR_NOT_FOUND, klen)
  | Some slots => handle_slots_loop fuel p slot_id slots 0 kbuf_len klen
  end.

(** [rsp_data] of a response: the first [n] bytes of [key_data]. *)
Definition key_data_prefix (n : Z) : C bytes :=
  l ← get_loc key_data;
  if (0 <=? n) && (n <=? Z.of_nat (length l)) then ret (take (Z.to_nat n) l)
  else stop OutOfBounds.

Definition sanitize_key_data (n : Z) : C unit :=
  if negb (n =? 0) then mod_loc (with_key_data (memset0 (Z.to_nat n))) else ret tt.

Definition hwkey_handle_get_keyslot_cmd (fuel : nat) (p : ptr) (hdr : hwkey_msg)
    (slot_id : bytes) : C Z :=
  slots ← get_loc key_slots;
  kbuf_len ← get_loc (λ l, Z.of_nat (length (key_data l)));
  r ← handle_slots fuel p slot_id slots kbuf_len 0;
  let '(status, klen) := r in
  data ← key_data_prefix klen;
  ctx ← load hwkey_ctxs p;
  rc ← hwkey_send_rsp (hwkey_chan ctx) (with_status status hdr) data;
  sanitize_key_data klen;;
  ret rc.

Definition hwkey_handle_derive_key_cmd (p : ptr) (hdr : hwkey_msg) (ikm_data : bytes) : C Z :=
  key_len ← get_loc (λ l, Z.of_nat (length (key_data l)));
  let hdr := if arg1 hdr =? HWKEY_KDF_VERSION_BEST
             then with_arg1 HWKEY_KDF_VERSION_1 hdr else hdr in
  r ← (if arg1 hdr =? HWKEY_KDF_VERSION_1 then
         ctx ← load hwkey_ctxs p;
         call_key_fn (derive_key_v1 (hwkey_uuid ctx) ikm_data) key_len
       else ret (HWKEY_ERR_NOT_IMPLEMENTED, 0));
  let '(status, key_len) := r in
  data ← key_data_prefix key_len;
  ctx ← load hwkey_ctxs p;
  rc ← hwkey_send_rsp (hwkey_chan ctx) (with_status status hdr) data;
  sanitize_key_data key_len;;
  ret rc.

(** [tipc_recv_hdr_payload]: one message, the header to [hdr], the payload to
    the start of [req_data]. *)
Definition recv_hdr_payload (chan : handle) : C (Z * hwkey_msg * bytes) :=
  n ← get_loc (λ l, Z.of_nat (length (req_data l)) - 1);
  r ← tipc_recv chan sizeof_hwkey_msg (sizeof_hwkey_msg + n);
  let '(rc, msg) := r in
  let hdr := hwkey_msg_decode (take (Z.to_nat sizeof_hwkey_msg) msg) in
  let payload := drop (Z.to_nat sizeof_hwkey_msg) msg in
  (if rc <? 0 then ret tt else mod_loc (with_req_data (overwrite payload)));;
  ret (rc, hdr, payload).

(** [req_data[n] = 0]. *)
Definition terminate_req_data (n : Z) : C unit :=
  l ← get_loc req_data;
  if (0 <=? n) && (n <? Z.of_nat (length l))
  then mod_loc (with_req_data <[Z.to_nat n := 0]>) else stop OutOfBounds.

Definition hwkey_chan_handle_msg (fuel : nat) (p : ptr) : C Z :=
  ctx ← load hwkey_ctxs p;
  r ← recv_hdr_payload (hwkey_chan ctx);
  let '(rc, hdr, _) := r in
  if rc <? 0 then ret rc else
  let req_data_len := u64 (rc - sizeof_hwkey_msg) in
  if cmd hdr =? HWKEY_GET_KEYSLOT then
    terminate_req_data req_data_len;;
    slot_id ← get_loc req_data;
    hwkey_handle_get_keyslot_cmd fuel p hdr slot_id
  else if cmd hdr =? HWKEY_DERIVE then
    ikm ← get_loc (λ l, take (Z.to_nat req_data_len) (req_data l));
    rc ← hwkey_handle_derive_key_cmd p hdr ikm;
    mod_loc (with_req_data (memset0 (Z.to_nat req_data_len)));;
    ret rc
  else
    hwkey_send_rsp (hwkey_chan ctx) (with_status HWKEY_ERR_NOT_IMPLEMENTED hdr) [].

(** * 6. Handlers and start-up *)

Definition hwkey_chan_handler (fuel : nat) (ev : uevent) (p : ptr) : C unit :=
  ctx ← load hwkey_ctxs p;
  assert (ev_handle ev =? hwkey_chan ctx);;
  tipc_handle_chan_errors ev;;
  if has (ev_event ev) IPC_HANDLE_POLL_HUP then hwkey_ctx_close p else
  if has (ev_event ev) IPC_HANDLE_POLL_MSG then
    rc ← hwkey_chan_handle_msg fuel p;
    if rc <? 0 then hwkey_ctx_close p else ret tt
  else ret tt.

Definition hwkey_port_handler (ev : uevent) : C unit :=
  tipc_handle_port_errors ev;;
  if has (ev_event ev) IPC_HANDLE_POLL_READY then
    r ← accept (ev_handle ev);
    let '(rc, peer_uuid) := r in
    if rc <? 0 then ret tt else
    if negb (hwkey_client_allowed peer_uuid) then close rc;; ret tt else
    ok ← alloc_ok;
    if negb ok then close rc;; ret tt else
    p ← get_loc (λ l, new_ptr (hwkey_ctxs l));
    mod_loc (with_hwkey_ctxs <[p := HwkeyCtx rc peer_uuid]>);;
    rc ← set_cookie rc;
    if rc <? 0 then hwkey_ctx_close p else ret tt
  else ret tt.

Definition hwkey_install_keys (keys : list (hwkey_keyslot D)) : C unit :=
  slots ← get_loc key_slots;
  assert (match slots with None => true | Some _ => false end);;
  assert (negb (Nat.eqb (length keys) 0));;
  mod_loc (with_key_slots (Some keys)).

Definition hwkey_start_service : C Z :=
  rc ← port_create HWKEY_PORT 1 (sizeof_hwkey_msg + HWKEY_MAX_PAYLOAD_SIZE)
         IPC_PORT_ALLOW_TA_CONNECT;
  if rc <? 0 then ret rc else
  let port := rc in
  rc ← set_cookie port;
  if negb (rc =? 0) then close port;; ret rc else ret NO_ERROR.
End Ops.
