(* ===== verification/HwkeyProps.v ===== *)
(** The correctness of the key service of Hwkey.v: tokens, opaque handles,
    requests and handlers, proved against the provider interface. *)

From S2P Require Import Prelude Ipc HwrngDev Evp Hwkey.

(** * 1. Tokens *)

(** A complete token: 31 non-zero bytes and a terminator. *)
Definition token_ok (t : bytes) : Prop :=
  ∃ body, t = body ++ [0] ∧ length body = 31%nat ∧ Forall (λ b, b ≠ 0) body.

Definition empty_token : bytes := replicate (Z.to_nat HWKEY_OPAQUE_HANDLE_SIZE) 0.

(** The token made of a random buffer. *)
Definition make_token (random_buf : bytes) : bytes :=
  take 31 (Fake.nonzero random_buf) ++ [0].

Section Tokens.
Implicit Types (t bs : bytes).

Lemma token_ok_length t : token_ok t → length t = 32%nat.
Proof. intros (body & -> & Hl & _). rewrite length_app, Hl. done. Qed.

Lemma cstr_nonzero body rest :
  Forall (λ b, b ≠ 0) body → cstr (body ++ 0 :: rest) = body.
Proof.
  induction 1 as [|b body Hb _ IH]; [done|]. cbn. rewrite IH.
  by destruct (Z.eqb_spec b 0).
Qed.

Lemma token_ok_strnlen t : token_ok t → strnlen t HWKEY_OPAQUE_HANDLE_SIZE = 31.
Proof.
  intros (body & -> & Hl & Hb). unfold strnlen, HWKEY_OPAQUE_HANDLE_SIZE.
  rewrite take_ge by (rewrite length_app, Hl; cbn; lia).
  rewrite (cstr_nonzero body [] Hb). lia.
Qed.

Lemma token_ok_not_zero t : token_ok t → forallb (λ b, b =? 0) t = false.
Proof.
  intros (body & -> & Hl & Hb). destruct body as [|b body]; [done|].
  apply Forall_cons in Hb as [Hb _]. cbn. by destruct (Z.eqb_spec b 0).
Qed.

Lemma nonzero_spec bs : Forall (λ b, b ≠ 0) (Fake.nonzero bs).
Proof. apply Forall_forall. by intros b [? _]%list_elem_of_filter. Qed.

Lemma make_token_ok bs : (31 ≤ length (Fake.nonzero bs))%nat → token_ok (make_token bs).
Proof.
  intros Hl. exists (take 31 (Fake.nonzero bs)). split_and!; [done| |].
  - rewrite length_take. lia.
  - apply Forall_take, nonzero_spec.
Qed.

(** Closed form of the inner loop. *)
Lemma fill_token_spec bs off t :
  (off ≤ 31)%nat → length t = 32%nat →
  let w := take (31 - off) (Fake.nonzero bs) in
  fill_token bs off t =
  ((off + length w)%nat, take off t ++ w ++ drop (off + length w) t).
Proof.
  cbv zeta. revert off t. induction bs as [|b bs IH]; intros off t Hoff Hl; cbn [fill_token].
  { change (Fake.nonzero []) with (@nil Z). rewrite take_nil. cbn [length app].
    by rewrite Nat.add_0_r, take_drop. }
  destruct (Z.ltb_spec (Z.of_nat off) (HWKEY_OPAQUE_HANDLE_SIZE - 1)) as [Hlt|Hge].
  2: { replace (31 - off)%nat with 0%nat by (unfold HWKEY_OPAQUE_HANDLE_SIZE in *; lia).
       rewrite take_0. cbn [length app]. by rewrite Nat.add_0_r, take_drop. }
  unfold HWKEY_OPAQUE_HANDLE_SIZE in Hlt. destruct (Z.eqb_spec b 0) as [->|Hb]; cbn [negb].
  { rewrite IH by done. unfold Fake.nonzero. by rewrite filter_cons_False by auto. }
  rewrite IH by (rewrite ?length_insert; lia). unfold Fake.nonzero.
  rewrite filter_cons_True by done. replace (31 - off)%nat with (S (31 - S off)) by lia.
  cbn [take length]. set (w := take _ _).
  replace (off + S (length w))%nat with (S off + length w)%nat by lia. f_equal.
  rewrite (take_S_r _ off b) by (apply list_lookup_insert_eq; lia).
  rewrite take_insert_ge by lia. rewrite drop_insert_lt by lia. by rewrite <- app_assoc.
Qed.

(** A pass over a buffer with enough non-zero bytes completes the token. *)
Lemma fill_token_done bs t :
  length t = 32%nat → t !! 31%nat = Some 0 → (31 ≤ length (Fake.nonzero bs))%nat →
  fill_token bs 0 t = (31%nat, make_token bs).
Proof.
  intros Hl Hlast Hn. rewrite fill_token_spec by (done || lia).
  change (31 - 0)%nat with 31%nat. assert (length (take 31 (Fake.nonzero bs)) = 31%nat) as Hw by (rewrite length_take; lia).
  rewrite Hw, take_0. cbn [app Nat.add]. unfold make_token.
  by rewrite (drop_S _ _ _ Hlast), drop_ge by lia.
Qed.

(** A pass that does not complete it leaves its terminator alone. *)
Lemma fill_token_partial bs t :
  length t = 32%nat → t !! 31%nat = Some 0 → (length (Fake.nonzero bs) < 31)%nat →
  ∃ t', fill_token bs 0 t = (length (Fake.nonzero bs), t') ∧
        length t' = 32%nat ∧ t' !! 31%nat = Some 0.
Proof.
  intros Hl Hlast Hn. rewrite fill_token_spec by (done || lia).
  change (31 - 0)%nat with 31%nat. rewrite take_0, take_ge by lia. cbn [app Nat.add]. eexists. split_and!; [done| |].
  - rewrite length_app, length_drop. lia.
  - rewrite lookup_app_r, lookup_drop by lia.
    by replace (_ + (31 - _))%nat with 31%nat by lia.
Qed.
End Tokens.

(** * 2. The random number device delivers tokens *)

Section Fair.
Context {D : Type} `{!Uapi} `{!HwrngDev D}.

(** Within [fuel] reads the device fails or delivers 31 non-zero bytes. *)
Fixpoint token_ready (fuel : nat) (d : D) : Prop :=
  match fuel with
  | O => False
  | S fuel =>
    let '((rc, bs), d') := hwrng_dev_get_rng_data (HWKEY_OPAQUE_HANDLE_SIZE + 2) d in
    rc ≠ NO_ERROR ∨ (31 ≤ length (Fake.nonzero bs))%nat ∨ token_ready fuel d'
  end.
End Fair.

(** The number of reads after which the loop of [get_key_handle] has ended. *)
Class HwrngDevFair (D : Type) `{!Uapi} `{!HwrngDev D} := {
  token_fuel : nat;
  token_fuel_ready d : token_ready token_fuel d
}.

(** The fake device needs one: of 34 successive bytes one at most is zero. *)
#[export] Instance fake_fair `{!Uapi} : @HwrngDevFair Z _ Fake.dev.
Proof.
  refine {| token_fuel := 1 |}. intros d. unfold token_ready.
  change (hwrng_dev_get_rng_data _ d) with (Fake.get_rng_data 34 d).
  unfold Fake.get_rng_data. change (Z.to_nat 34) with 34%nat.
  pose proof (Fake.fill_nonzero 34 d) as Hn.
  destruct (Fake.rng_fill 34 d) as [bs c]. change ((bs, c).1) with bs in Hn.
  right. left. lia.
Defined.

(** * 3. The list of opaque handles *)

Abbreviation handles := (list (ptr * opaque_handle_node)) (only parsing).

Section Handles.
Implicit Types (L : list (ptr * opaque_handle_node)) (q : ptr) (n : opaque_handle_node).

Lemma node_at_elem q n L : NoDup L.*1 → (q, n) ∈ L → node_at q L = Some n.
Proof.
  induction L as [|[r m] L IH]; [by intros _ ?%elem_of_nil|].
  intros [Hr Hnd]%NoDup_cons [[= -> ->]|Hin]%elem_of_cons; cbn.
  - by rewrite decide_True.
  - rewrite decide_False; [by apply IH|]. intros ->. apply Hr.
    by apply (list_elem_of_fmap_2 fst) in Hin.
Qed.

Lemma node_at_snoc q n L : q ∉ L.*1 → node_at q (L ++ [(q, n)]) = Some n.
Proof.
  induction L as [|[r m] L IH]; intros Hq; cbn in *; [by rewrite decide_True|].
  apply not_elem_of_cons in Hq as [Hne Hq]. rewrite decide_False by auto. by apply IH.
Qed.

Lemma set_node_snoc q n n' L :
  q ∉ L.*1 → set_node q n' (L ++ [(q, n)]) = L ++ [(q, n')].
Proof.
  induction L as [|[r m] L IH]; intros Hq; cbn in *; [by rewrite decide_True|].
  apply not_elem_of_cons in Hq as [Hne Hq]. rewrite decide_False by auto.
  f_equal. by apply IH.
Qed.

Lemma remove_snoc q n L : q ∉ L.*1 → filter (λ e, e.1 ≠ q) (L ++ [(q, n)]) = L.
Proof.
  intros Hq. rewrite filter_app, filter_cons_False by (cbn; tauto). cbn.
  rewrite app_nil_r. induction L as [|[r m] L IH]; [done|].
  apply not_elem_of_cons in Hq as [Hne Hq]. rewrite filter_cons_True by auto.
  by rewrite IH.
Qed.

Lemma remove_set_node q n L :
  filter (λ e, e.1 ≠ q) (set_node q n L) = filter (λ e, e.1 ≠ q) L.
Proof.
  induction L as [|[r m] L IH]; [done|].
  change (set_node q n ((r, m) :: L))
    with ((if decide (r = q) then (q, n) else (r, m)) :: set_node q n L).
  destruct (decide (r = q)) as [->|Hne].
  - rewrite !filter_cons_False by (cbn; tauto). apply IH.
  - rewrite !filter_cons_True by done. f_equal. apply IH.
Qed.

Lemma find_slot_None i L :
  find_slot i L = None → ∀ e, e ∈ L → key_slot e.2 ≠ i.
Proof.
  unfold find_slot. intros Hf e He%list_elem_of_In Hk.
  destruct (List.find _ L) as [|] eqn:E; [done|].
  apply (List.find_none _ _ E) in He. by apply bool_decide_eq_false in He.
Qed.

Lemma find_slot_Some i L q :
  find_slot i L = Some q → ∃ n, (q, n) ∈ L ∧ key_slot n = i.
Proof.
  unfold find_slot. destruct (List.find _ L) as [[r n]|] eqn:E; [|done].
  intros [= <-]. apply List.find_some in E as [Hin Hk%bool_decide_eq_true].
  exists n. split; [by apply list_elem_of_In|done].
Qed.

Lemma find_slot_snoc i L q p t :
  find_slot i L = None → find_slot i (L ++ [(q, OpaqueNode i p t)]) = Some q.
Proof.
  unfold find_slot. intros Hf. induction L as [|e L IH]; cbn in *.
  - by rewrite bool_decide_eq_true_2.
  - destruct (bool_decide _); [done|]. by apply IH.
Qed.
End Handles.
#[global] Arguments set_node : simpl never.

(** * 4. The invariant *)

(** A provider function called on a full key buffer returns, with the buffer
    as long as it was and a length inside it. *)
Definition kout_ok {D} (k : kout D) : Prop :=
  Z.of_nat (length (kbuf k)) = HWKEY_MAX_PAYLOAD_SIZE ∧
  ∃ n, klen k = Some n ∧ 0 ≤ n ≤ HWKEY_MAX_PAYLOAD_SIZE.
Definition key_fn_ok {D} (m : M (kout D) Z) : Prop :=
  ∀ k, kout_ok k → wp m (λ _, kout_ok) k.

Definition slot_ok {D} (s : hwkey_keyslot D) : Prop :=
  match handler s with
  | NoHandler => True
  | GetKeyHandle None => False
  | GetKeyHandle (Some data) => key_fn_ok (retriever data HWKEY_MAX_PAYLOAD_SIZE)
  | ProviderFn f => key_fn_ok (f HWKEY_MAX_PAYLOAD_SIZE)
  end.

Class HwkeyProviderLaws (D : Type) `{HwkeyProvider D} : Prop := {
  derive_key_v1_ok u ikm :
    Z.of_nat (length ikm) ≤ HWKEY_MAX_PAYLOAD_SIZE → key_fn_ok (derive_key_v1 u ikm)
}.

Section Invariant.
Context {D : Type} `{!HwkeyProvider D}.
Implicit Types (l : hwkey_state D) (tr : list sysev) (L : list (ptr * opaque_handle_node)).

(** A node of the list belongs to a live client, refers to an opaque slot and
    holds a complete token. *)
Definition node_ok l (n : opaque_handle_node) : Prop :=
  is_Some (hwkey_ctxs l !! owner n) ∧
  (∃ s data, slot_of l (key_slot n) = Some s ∧ handler s = GetKeyHandle (Some data)) ∧
  token_ok (token n).

Record hwkey_ok (rest : list handle) l tr : Prop := HwkeyOk {
  hk_bal : balanced tr (objects hwkey_chan (hwkey_ctxs l) ++ rest);
  hk_ptrs : NoDup (opaque_handles l).*1;
  hk_unique : NoDup (key_slot ∘ snd <$> opaque_handles l);
  hk_nodes : Forall (λ e, node_ok l e.2) (opaque_handles l);
  hk_req : Z.of_nat (length (req_data l)) = HWKEY_MAX_PAYLOAD_SIZE + 1;
  hk_key : Z.of_nat (length (key_data l)) = HWKEY_MAX_PAYLOAD_SIZE;
  hk_table : ∀ slots, key_slots l = Some slots → Forall slot_ok slots;
  hk_clients : ∀ p c, hwkey_ctxs l !! p = Some c → hwkey_client_allowed (hwkey_uuid c) = true
}.

Lemma hwkey_ok_trace rest e l tr :
  neutral e = true → hwkey_ok rest l tr → hwkey_ok rest l (e :: tr).
Proof. intros He []. split; auto with ipc. Qed.

Lemma hwkey_ok_key_data rest bs l tr :
  Z.of_nat (length bs) = HWKEY_MAX_PAYLOAD_SIZE → hwkey_ok rest l tr →
  hwkey_ok rest (with_key_data (λ _, bs) l) tr.
Proof. intros Hb []. by split. Qed.

Lemma hwkey_ok_req_data rest bs l tr :
  Z.of_nat (length bs) = HWKEY_MAX_PAYLOAD_SIZE + 1 → hwkey_ok rest l tr →
  hwkey_ok rest (with_req_data (λ _, bs) l) tr.
Proof. intros Hb []. by split. Qed.

(** A new complete handle for a slot that has none. *)
Lemma hwkey_ok_new_handle rest q n l tr :
  q ∉ (opaque_handles l).*1 → find_slot (key_slot n) (opaque_handles l) = None →
  node_ok l n → hwkey_ok rest l tr →
  hwkey_ok rest (with_handles (λ L, L ++ [(q, n)]) l) tr.
Proof.
  intros Hq Hf Hn []. split; auto; cbn.
  - rewrite fmap_app. apply NoDup_app. split_and!; [done| |apply NoDup_singleton].
    intros r Hr ->%list_elem_of_singleton. done.
  - rewrite fmap_app. apply NoDup_app. split_and!; [done| |apply NoDup_singleton].
    intros i (e & -> & He)%list_elem_of_fmap Hi%list_elem_of_singleton.
    by apply (find_slot_None _ _ Hf e).
  - apply Forall_app. split; [done|]. by apply Forall_singleton.
Qed.
End Invariant.
#[export] Hint Resolve hwkey_ok_trace hwkey_ok_key_data hwkey_ok_req_data : ipc.

(** * 5. Creating a handle *)

Section HandleSpecs.
Context {D W : Type} `{!Uapi} `{!HwkeyIface} `{!HwrngDev D} `{!HwkeyProvider D} `{!Kernel W}.
Implicit Types (w : world (hwkey_state D) D W) (L : list (ptr * opaque_handle_node)).

Lemma wp_is_empty_token_ok t (Q : bool → world (hwkey_state D) D W → Prop) w :
  token_ok t → Q false w → wp (is_empty_token t) Q w.
Proof.
  intros Ht HQ. unfold is_empty_token. rewrite token_ok_not_zero by done.
  ipc_steps. apply wp_assert; [by rewrite token_ok_strnlen|done].
Qed.

Lemma wp_is_empty_token_zero (Q : bool → world (hwkey_state D) D W → Prop) w :
  Q true w → wp (is_empty_token empty_token) Q w.
Proof. done. Qed.

Lemma wp_node q n Q w :
  node_at q (opaque_handles (loc w)) = Some n → Q n w → wp (node q) Q w.
Proof. intros Hn HQ. unfold node. ipc_steps. cbn. rewrite Hn. by ipc_steps. Qed.

Lemma wp_slot_at i s Q w : slot_of (loc w) i = Some s → Q s w → wp (slot_at i) Q w.
Proof. intros Hs HQ. unfold slot_at. ipc_steps. cbn. rewrite Hs. by ipc_steps. Qed.

Lemma wp_delete_last q n L Q w :
  opaque_handles (loc w) = L ++ [(q, n)] → q ∉ L.*1 →
  Q tt (set_loc (with_handles (λ _, L) (loc w)) w) → wp (delete_opaque_handle q) Q w.
Proof.
  intros HL Hq HQ. unfold delete_opaque_handle. ipc_steps.
  apply (wp_node _ n); [by rewrite HL, node_at_snoc|]. ipc_steps.
  unfold with_handles. cbn. rewrite remove_set_node, HL, remove_snoc by done. exact HQ.
Qed.

(** The state while the token of a new last node is made. *)
Definition with_last (L : list (ptr * opaque_handle_node)) (q : ptr) (n : opaque_handle_node)
    (d : D) w : world (hwkey_state D) D W :=
  World (with_handles (λ _, L ++ [(q, n)]) (loc w)) d (env w) (trace w).

(** One attempt to make a token: the device is read until a buffer has
    enough non-zero bytes, or a read fails; [d'] is the device afterwards. *)
Inductive token_draw : D → Z → bytes → D → Prop :=
| DrawLast d rc bs d' :
    hwrng_dev_get_rng_data (HWKEY_OPAQUE_HANDLE_SIZE + 2) d = ((rc, bs), d') →
    (rc = NO_ERROR → (31 ≤ length (Fake.nonzero bs))%nat) → token_draw d rc bs d'
| DrawAgain d bs d1 rc bs' d' :
    hwrng_dev_get_rng_data (HWKEY_OPAQUE_HANDLE_SIZE + 2) d = ((NO_ERROR, bs), d1) →
    ¬ (31 ≤ length (Fake.nonzero bs))%nat → token_draw d1 rc bs' d' → token_draw d rc bs' d'.

Lemma token_draw_enough d bs d' : token_draw d NO_ERROR bs d' → (31 ≤ length (Fake.nonzero bs))%nat.
Proof. remember NO_ERROR as rc eqn:E. induction 1; auto. Qed.

Lemma token_loop_spec fuel q i p t L d Q w :
  q ∉ L.*1 → length t = 32%nat → t !! 31%nat = Some 0 → token_ready fuel d →
  (∀ rc bs d', token_draw d rc bs d' → rc ≠ NO_ERROR →
     Q rc (World (with_handles (λ _, L) (loc w)) d' (env w) (trace w))) →
  (∀ bs d', token_draw d NO_ERROR bs d' →
     Q NO_ERROR (with_last L q (OpaqueNode i p (make_token bs)) d' w)) →
  wp (token_loop fuel q) Q (with_last L q (OpaqueNode i p t) d w).
Proof.
  intros Hq. revert t d.
  induction fuel as [|fuel IH]; intros t d Hl Hlast Hr Hfail Hok; [done|]. cbn [token_loop].
  ipc_steps. unfold wp at 1, get_random. cbn [dev with_last]. cbn [token_ready] in Hr.
  destruct (hwrng_dev_get_rng_data _ d) as [[rc bs] d'] eqn:E.
  destruct (Z.eqb_spec rc NO_ERROR) as [->|Hrc]; cbn [negb]; ipc_steps.
  2: { eapply wp_delete_last; [reflexivity|done|]. ipc_steps. apply (Hfail rc bs); [|done]. by apply DrawLast. }
  apply (wp_node _ (OpaqueNode i p t)); [by apply node_at_snoc|]. ipc_steps. cbn [token].
  destruct (decide (31 ≤ length (Fake.nonzero bs))%nat) as [Hn|Hn].
  - rewrite fill_token_done by done. ipc_steps.
    replace (Z.of_nat 31 =? HWKEY_OPAQUE_HANDLE_SIZE - 1) with true by done. ipc_steps.
    specialize (Hok bs d' (DrawLast _ _ _ _ E (λ _, Hn))). unfold with_last in Hok.
    unfold with_handles, with_token. cbn. by rewrite set_node_snoc.
  - destruct (fill_token_partial bs t Hl Hlast) as (t' & -> & Hl' & Hlast'); [lia|].
    ipc_steps. destruct (Z.eqb_spec (Z.of_nat (length (Fake.nonzero bs)))
      (HWKEY_OPAQUE_HANDLE_SIZE - 1)) as [Heq|_]; [unfold HWKEY_OPAQUE_HANDLE_SIZE in Heq; lia|].
    destruct Hr as [?|[?|Hr]]; [done|done|].
    specialize (IH t' d' Hl' Hlast' Hr (λ rc x y Hd, Hfail rc x y (DrawAgain _ _ _ _ _ _ E Hn Hd))
      (λ x y Hd, Hok x y (DrawAgain _ _ _ _ _ _ E Hn Hd))).
    unfold with_last, with_handles in *. unfold with_token. cbn in *.
    by rewrite set_node_snoc.
Qed.

(** The call of [get_key_handle] as [_handle_slots] makes it. *)
Definition fetch_handle (fuel : nat) (p : ptr) (i : nat) (kbuf_len klen : Z) :
    M (world (hwkey_state D) D W) (Z * Z) :=
  rc ← insert_handle_node p i;
  if negb (rc =? HWKEY_NO_ERROR) then ret (rc, klen)
  else get_key_handle fuel i kbuf_len klen.

(** The outcomes of asking for the handle of slot [i] for the client [p]. *)
Inductive fetch_result (p : ptr) (i : nat) (klen : Z) w :
    Z * Z → world (hwkey_state D) D W → Prop :=
| Fetch_exists q :
    find_slot i (opaque_handles (loc w)) = Some q →
    fetch_result p i klen w (HWKEY_ERR_ALREADY_EXISTS, klen) w
| Fetch_no_memory v :
    find_slot i (opaque_handles (loc w)) = None →
    fetch_result p i klen w (HWKEY_ERR_GENERIC, klen) (logged (SAlloc false) v w)
| Fetch_no_random rc bs d v :
    find_slot i (opaque_handles (loc w)) = None → token_draw (dev w) rc bs d → rc ≠ NO_ERROR →
    fetch_result p i klen w (u32 rc, klen) (World (loc w) d v (SAlloc true :: trace w))
| Fetch_new q bs d v :
    find_slot i (opaque_handles (loc w)) = None → q ∉ (opaque_handles (loc w)).*1 →
    token_draw (dev w) NO_ERROR bs d →
    fetch_result p i klen w (HWKEY_NO_ERROR, HWKEY_OPAQUE_HANDLE_SIZE)
      (World (with_key_data (overwrite (make_token bs))
                (with_handles (λ L, L ++ [(q, OpaqueNode i p (make_token bs))]) (loc w)))
         d v (SAlloc true :: trace w)).

Lemma wp_find_slot i Q w :
  Q (find_slot i (opaque_handles (loc w))) w → wp (find_opaque_handle_for_slot i) Q w.
Proof. done. Qed.

(** [get_key_handle] on the empty node just linked at the end of the list. *)
Lemma get_key_handle_new fuel rest s data p i q L kbuf_len klen0 v w tr :
  (∀ d, token_ready fuel d) → hwkey_ok rest (loc w) (trace w) →
  slot_of (loc w) i = Some s → handler s = GetKeyHandle (Some data) →
  HWKEY_OPAQUE_HANDLE_SIZE ≤ kbuf_len → opaque_handles (loc w) = L →
  find_slot i L = None → q ∉ L.*1 → tr = SAlloc true :: trace w →
  wp (get_key_handle fuel i kbuf_len klen0) (fetch_result p i klen0 w)
    (World (with_handles (λ _, L ++ [(q, OpaqueNode i p empty_token)]) (loc w)) (dev w) v tr).
Proof.
  intros Hfuel Hok Hs Hh Hlen HL Hf Hq ->. unfold get_key_handle. ipc_steps.
  eapply wp_slot_at; [exact Hs|]. unfold opaque_data. rewrite Hh. ipc_steps.
  apply wp_assert; [lia|]. ipc_steps. apply wp_find_slot. cbn [loc with_handles opaque_handles].
  rewrite find_slot_snoc by done. ipc_steps.
  apply (wp_node _ (OpaqueNode i p empty_token)); [by apply node_at_snoc|]. ipc_steps.
  apply wp_is_empty_token_zero. cbn [negb]. ipc_steps.
  apply (token_loop_spec fuel q i p empty_token L (dev w) _
           (World (loc w) (dev w) v (SAlloc true :: trace w))); [done|done|done|done| |].
  - intros rc bs d Hd Hrc. rewrite (proj2 (Z.eqb_neq _ _) Hrc). cbn. ipc_steps.
    replace (with_handles (λ _, L) (loc w)) with (loc w) by (subst L; by destruct (loc w)).
    subst L. by eapply Fetch_no_random.
  - intros bs d Hbs. pose proof (token_draw_enough _ _ _ Hbs) as Hn. rewrite Z.eqb_refl. cbn. ipc_steps.
    pose proof (make_token_ok bs Hn) as Ht. pose proof (token_ok_length _ Ht) as Htl.
    apply (wp_node _ (OpaqueNode i p (make_token bs))); [by apply node_at_snoc|]. ipc_steps.
    cbn [token]. destruct Ht as (body & Hb & Hbl & _).
    apply (wp_fetch _ _ 0); [done| |].
    { change (Z.to_nat (HWKEY_OPAQUE_HANDLE_SIZE - 1)) with 31%nat.
      rewrite Hb, lookup_app_r, Hbl by lia. done. }
    ipc_steps. apply wp_assert; [done|]. ipc_steps. unfold write_key_data. ipc_steps.
    cbn [with_last loc with_handles key_data].
    change (Z.to_nat HWKEY_OPAQUE_HANDLE_SIZE) with 32%nat. rewrite take_ge by lia.
    pose proof (hk_key _ _ _ Hok) as Hk. unfold HWKEY_MAX_PAYLOAD_SIZE in Hk.
    rewrite (proj2 (Nat.leb_le _ _)) by lia. ipc_steps. subst L.
    by apply (Fetch_new p i klen0 w q bs d v).
Qed.

Lemma fetch_handle_spec fuel rest s data p i kbuf_len klen0 w :
  (∀ d, token_ready fuel d) → hwkey_ok rest (loc w) (trace w) →
  slot_of (loc w) i = Some s → handler s = GetKeyHandle (Some data) →
  HWKEY_OPAQUE_HANDLE_SIZE ≤ kbuf_len →
  wp (fetch_handle fuel p i kbuf_len klen0) (fetch_result p i klen0 w) w.
Proof.
  intros Hfuel Hok Hs Hh Hlen. unfold fetch_handle, insert_handle_node. ipc_steps.
  apply wp_find_slot. destruct (find_slot i _) as [q|] eqn:Hf; ipc_steps.
  - rewrite Z.eqb_refl. cbn [negb]. unfold get_key_handle. ipc_steps.
    eapply wp_slot_at; [done|]. unfold opaque_data. rewrite Hh. ipc_steps.
    apply wp_assert; [lia|]. ipc_steps. apply wp_find_slot. rewrite Hf. ipc_steps.
    destruct (find_slot_Some _ _ _ Hf) as (n & Hin & Hn).
    apply (wp_node _ n); [apply node_at_elem; [by eapply hk_ptrs|done]|]. ipc_steps.
    pose proof (hk_nodes _ _ _ Hok) as Hnodes. rewrite Forall_forall in Hnodes.
    destruct (Hnodes _ Hin) as (_ & _ & Ht). apply wp_is_empty_token_ok; [done|].
    cbn. ipc_steps. by apply (Fetch_exists _ _ _ _ q).
  - unfold alloc_ok. ipc_call ok v E. destruct ok; cbn [negb]; ipc_steps.
    + rewrite Z.eqb_refl. cbn [negb].
      set (q := fresh _). assert (q ∉ (opaque_handles (loc w)).*1) as Hq.
      { intros Hin. apply (is_fresh (list_to_set (opaque_handles (loc w)).*1 : gset ptr)).
        apply elem_of_list_to_set. exact Hin. }
      by eapply get_key_handle_new.
    + pose proof hwkey_errors_not_ok as (Hg & _). rewrite (proj2 (Z.eqb_neq _ _) Hg). cbn.
      ipc_steps. by constructor.
Qed.
End HandleSpecs.

(** * 6. Resolving a request *)

Section Resolve.
Context {D W : Type} `{!Uapi} `{!HwkeyIface} `{!HwrngDev D} `{!HwkeyProvider D} `{!Kernel W}.
Implicit Types (w : world (hwkey_state D) D W) (l : hwkey_state D) (u : uuid).

(** Whether the client [u] presenting [tok] may read the key behind [n]. *)
Definition opens l u (tok : bytes) (n : opaque_handle_node) :
    option (hwkey_opaque_handle_data D) :=
  match slot_of l (key_slot n) with
  | Some s =>
    match opaque_data s with
    | Some data =>
      if existsb (λ a, bool_decide (a = u)) (allowed_uuids data) &&
         bool_decide (token n = take (Z.to_nat HWKEY_OPAQUE_HANDLE_SIZE) tok)
      then Some data else None
    | None => None
    end
  | None => None
  end.

(** The first handle of the list that does. *)
Definition opaque_lookup l u (tok : bytes) : option (hwkey_opaque_handle_data D) :=
  head (omap (λ e, opens l u tok e.2) (opaque_handles l)).

(** What looking up a handle does with its result. *)
Definition call_opaque (o : option (hwkey_opaque_handle_data D)) (kbuf_len klen0 : Z) :
    M (world (hwkey_state D) D W) (Z * Z) :=
  match o with
  | Some data => call_key_fn (retriever data kbuf_len) klen0
  | None => ret (HWKEY_ERR_NOT_FOUND, klen0)
  end.

Lemma is_empty_token_run t w : token_ok t → is_empty_token t w = Ret false w.
Proof.
  intros Ht. unfold is_empty_token. rewrite token_ok_not_zero by done.
  unfold bind, assert. by rewrite token_ok_strnlen by done.
Qed.

Lemma slot_at_run i s w : slot_of (loc w) i = Some s → slot_at i w = Ret s w.
Proof. intros Hs. unfold slot_at, bind, get_loc, gets. cbn. by rewrite Hs. Qed.

Lemma opaque_loop_run u tok L kbuf_len klen0 w :
  Forall (λ e, node_ok (loc w) e.2) L →
  opaque_key_loop L u tok kbuf_len klen0 w =
  call_opaque (head (omap (λ e, opens (loc w) u tok e.2) L)) kbuf_len klen0 w.
Proof.
  induction 1 as [|[q n] L Hn _ IH]; [done|].
  destruct Hn as (_ & (s & data & Hs & Hh) & Ht). cbn [opaque_key_loop snd] in *.
  rewrite (bind_run _ _ _ _ _ (is_empty_token_run _ w Ht)), (bind_run _ _ w tt w),
    (bind_run _ _ _ _ _ (slot_at_run _ _ _ Hs)) by done. cbn [omap list_omap snd].
  assert (opaque_data s = Some data) as Ho by (unfold opaque_data; by rewrite Hh).
  unfold opens at 1, is_allowed_to_read_opaque_key. rewrite Hs, Ho.
  rewrite (bind_run _ _ w (existsb (λ a, bool_decide (a = u)) (allowed_uuids data)) w) by done.
  destruct (existsb _ _); cbn [negb andb]; [|exact IH].
  case_bool_decide; [done|exact IH].
Qed.

Lemma get_opaque_key_run rest u tok kbuf_len klen0 w :
  hwkey_ok rest (loc w) (trace w) →
  get_opaque_key u tok kbuf_len klen0 w =
  call_opaque (opaque_lookup (loc w) u tok) kbuf_len klen0 w.
Proof.
  intros Hok. unfold get_opaque_key. rewrite (bind_run _ _ w (opaque_handles (loc w)) w) by done.
  apply opaque_loop_run. by eapply hk_nodes.
Qed.

(** The slot a request for [id] by [u] is served from: the first one with that
    name, that owner and a handler. *)
Definition serves u (id : bytes) (s : hwkey_keyslot D) : bool :=
  bool_decide (key_id s = cstr id) && bool_decide (u = slot_uuid s) &&
  match handler s with NoHandler => false | _ => true end.

Fixpoint select_slot u (id : bytes) (slots : list (hwkey_keyslot D)) (i : nat) :
    option (nat * hwkey_keyslot D) :=
  match slots with
  | [] => None
  | s :: slots => if serves u id s then Some (i, s) else select_slot u id slots (S i)
  end.

Lemma select_slot_Some u id slots i j s :
  select_slot u id slots i = Some (j, s) →
  (i ≤ j)%nat ∧ slots !! (j - i)%nat = Some s ∧ serves u id s = true.
Proof.
  revert i. induction slots as [|s' slots IH]; intros i; cbn; [done|].
  destruct (serves u id s') eqn:E.
  - intros [= -> ->]. by rewrite Nat.sub_diag.
  - intros Hsel. apply IH in Hsel as (Hle & Hl & Hs). split_and!; [lia| |done].
    by replace (j - i)%nat with (S (j - S i)) by lia.
Qed.

(** What a request is answered with. *)
Definition serve_slot (fuel : nat) (p : ptr) (i : nat) (s : hwkey_keyslot D)
    (kbuf_len klen0 : Z) : M (world (hwkey_state D) D W) (Z * Z) :=
  match handler s with
  | NoHandler => ret (HWKEY_ERR_NOT_FOUND, klen0)
  | GetKeyHandle _ => fetch_handle fuel p i kbuf_len klen0
  | ProviderFn f => call_key_fn (f kbuf_len) klen0
  end.

(** The whole of a request, [i] being the index of the first slot. *)
Definition resolve (fuel : nat) (p : ptr) (c : hwkey_chan_ctx) (id : bytes)
    (slots : list (hwkey_keyslot D)) (i : nat) (kbuf_len klen0 : Z) :
    M (world (hwkey_state D) D W) (Z * Z) := λ w,
  match select_slot (hwkey_uuid c) id slots i with
  | Some (j, s) => serve_slot fuel p j s kbuf_len klen0 w
  | None => call_opaque (opaque_lookup (loc w) (hwkey_uuid c) id) kbuf_len klen0 w
  end.

Lemma handle_slots_loop_run fuel rest p c id slots i kbuf_len klen0 w :
  hwkey_ok rest (loc w) (trace w) → hwkey_ctxs (loc w) !! p = Some c →
  handle_slots_loop fuel p id slots i kbuf_len klen0 w =
  resolve fuel p c id slots i kbuf_len klen0 w.
Proof.
  intros Hok Hp. revert i. induction slots as [|s slots IH]; intros i.
  { cbn [handle_slots_loop]. rewrite (bind_run _ _ _ _ _ (load_ok _ _ _ _ Hp)).
    by eapply get_opaque_key_run. }
  unfold resolve in *. cbn [handle_slots_loop select_slot]. unfold serves at 1.
  case_bool_decide as Hid; cbn [negb andb]; [|by apply IH].
  rewrite (bind_run _ _ _ _ _ (load_ok _ _ _ _ Hp)).
  case_bool_decide as Hu; cbn [andb]; [|by apply IH].
  unfold is_opaque_handle, call_handler.
  destruct (handler s) as [|priv|f] eqn:Hh; [by apply IH| |];
    unfold serve_slot; by rewrite Hh.
Qed.

(** A provider function leaves the state as it was but for the key buffer. *)
Lemma call_key_fn_spec rest (f : M (kout D) Z) klen0 w :
  hwkey_ok rest (loc w) (trace w) → key_fn_ok f → 0 ≤ klen0 ≤ HWKEY_MAX_PAYLOAD_SIZE →
  wp (call_key_fn f klen0) (λ r w',
    (∃ rc k, f (KOut (key_data (loc w)) (Some klen0) (dev w)) = Ret rc k ∧
       r = (rc, from_option id klen0 (klen k)) ∧
       w' = World (with_key_data (λ _, kbuf k) (loc w)) (kdev k) (env w) (trace w)) ∧
    0 ≤ r.2 ≤ HWKEY_MAX_PAYLOAD_SIZE ∧ hwkey_ok rest (loc w') (trace w')) w.
Proof.
  intros Hok Hf Hk. specialize (Hf (KOut (key_data (loc w)) (Some klen0) (dev w))).
  assert (kout_ok (KOut (key_data (loc w)) (Some klen0) (dev w))) as Hpre.
  { split; [by eapply hk_key|by exists klen0]. }
  specialize (Hf Hpre). unfold wp, call_key_fn in *.
  destruct (f _) as [rc k|] eqn:E; [|done]. destruct Hf as [Hl (n & Hn & Hr)].
  split_and!; [| | |]; [by exists rc, k| | |].
  1,2: cbn; rewrite Hn; cbn; lia. by apply hwkey_ok_key_data.
Qed.
End Resolve.

(** * 7. Closing a client *)

Section Close.
Context {D W : Type} `{!Uapi} `{!HwkeyIface} `{!HwrngDev D} `{!HwkeyProvider D} `{!Kernel W}.
Implicit Types (w : world (hwkey_state D) D W) (l : hwkey_state D)
  (L : list (ptr * opaque_handle_node)).

(** The handles that do not belong to the client. *)
Definition not_owned (p : ptr) L : list (ptr * opaque_handle_node) :=
  filter (λ e, owner e.2 ≠ p) L.

Lemma wp_delete_handle q n Q w :
  node_at q (opaque_handles (loc w)) = Some n →
  Q tt (set_loc (with_handles (filter (λ e, e.1 ≠ q)) (loc w)) w) →
  wp (delete_opaque_handle q) Q w.
Proof.
  intros Hn HQ. unfold delete_opaque_handle. ipc_steps. apply (wp_node _ n); [done|].
  ipc_steps. unfold with_handles in *. cbn [opaque_handles hwkey_ctxs req_data key_data key_slots].
  by rewrite remove_set_node.
Qed.

Lemma revoke_loop p qs Q w :
  NoDup (opaque_handles (loc w)).*1 → NoDup qs →
  (∀ q, q ∈ qs → q ∈ (opaque_handles (loc w)).*1) →
  Q tt (set_loc (with_handles (filter (λ e, e.1 ∉ qs ∨ owner e.2 ≠ p)) (loc w)) w) →
  wp (foldM (revoke_owned p) tt qs) Q w.
Proof.
  revert w. induction qs as [|q qs IH]; intros w Hnd Hqs Hin HQ.
  { cbn. ipc_steps. unfold with_handles in HQ. rewrite filter_all in HQ.
    2: { apply Forall_forall. intros e _. left. apply not_elem_of_nil. }
    by destruct w as [[] ? ? ?]. }
  apply NoDup_cons in Hqs as [Hq Hqs]. cbn [foldM]. ipc_steps. unfold revoke_owned at 1.
  assert (q ∈ (opaque_handles (loc w)).*1) as ([q' n] & Heq & He)%list_elem_of_fmap
    by (apply Hin; by left). cbn in Heq. subst q'. ipc_steps.
  pose proof (node_at_elem _ _ _ Hnd He) as Hn. apply (wp_node _ n); [done|].
  assert (∀ e, e ∈ opaque_handles (loc w) → e.1 = q → e = (q, n)) as Huniq.
  { intros [q' n'] He' [= ->]. pose proof (node_at_elem _ _ _ Hnd He'). congruence. }
  destruct (decide (owner n = p)) as [Ho|Ho].
  - apply (wp_delete_handle _ n); [done|]. apply IH; cbn [loc set_loc with_handles opaque_handles].
    + by apply NoDup_fmap_filter.
    + done.
    + intros r Hr. assert (r ≠ q) as Hne by (by intros ->).
      assert (r ∈ (opaque_handles (loc w)).*1) as (e & -> & Her)%list_elem_of_fmap
        by (apply Hin; by right).
      apply (list_elem_of_fmap_2 fst). by apply list_elem_of_filter.
    + unfold with_handles, set_loc in *. cbn in *. rewrite list_filter_filter.
      erewrite filter_ext_on; [exact HQ|]. intros e He'. cbn.
      rewrite not_elem_of_cons. split; [intros [[?|?] ?]; auto|].
      intros [[? ?]|Hoe]; [auto|]. split; [auto|]. intros Heq. by rewrite (Huniq e He' Heq) in Hoe.
  - ipc_steps. apply IH; [done|done|intros; apply Hin; by right|].
    unfold with_handles, set_loc in *. cbn in *.
    erewrite filter_ext_on; [exact HQ|]. intros e He'. cbn. rewrite not_elem_of_cons.
    split; [|by intros [[_ ?]|?]; auto]. intros [?|?]; [|auto].
    destruct (decide (e.1 = q)) as [Heq|?]; [|auto]. right. by rewrite (Huniq e He' Heq).
Qed.

(** What closing a client leaves. *)
Definition closed_client (p : ptr) l : hwkey_state D :=
  with_hwkey_ctxs (delete p) (with_handles (not_owned p) l).

Lemma ctx_close_spec p c Q w :
  NoDup (opaque_handles (loc w)).*1 → hwkey_ctxs (loc w) !! p = Some c →
  (∀ v, Q tt (World (closed_client p (loc w)) (dev w) v (SClose (hwkey_chan c) :: trace w))) →
  wp (hwkey_ctx_close p) Q w.
Proof.
  intros Hnd Hp HQ. unfold hwkey_ctx_close. ipc_steps. apply revoke_loop; [done|done|done|].
  ipc_steps. eapply wp_load; [done|]. ipc_steps. apply wp_close. intros rc v. ipc_steps.
  specialize (HQ v). unfold closed_client, with_handles, not_owned in *.
  erewrite filter_ext_on; [exact HQ|]. intros e He. cbn. split; [|auto].
  intros [Hn|?]; [|done]. destruct Hn. by apply (list_elem_of_fmap_2 fst).
Qed.

Lemma closed_client_ok rest p c l tr :
  hwkey_ctxs l !! p = Some c → hwkey_ok rest l tr →
  hwkey_ok rest (closed_client p l) (SClose (hwkey_chan c) :: tr).
Proof.
  intros Hp []. unfold closed_client, not_owned. split; auto; cbn.
  - by apply (balanced_free hwkey_chan).
  - by apply NoDup_fmap_filter.
  - by apply NoDup_fmap_filter.
  - apply Forall_forall. intros e [Ho He]%list_elem_of_filter.
    rewrite Forall_forall in hk_nodes0. destruct (hk_nodes0 e He) as (Hl & Hs & Ht).
    split_and!; [|done|done]. cbn. by rewrite lookup_delete_ne by auto.
  - intros q d [_ Hq]%lookup_delete_Some. eauto.
Qed.
End Close.

(** * 8. The commands *)

Section Commands.
Context {D W : Type} `{!Uapi} `{!HwkeyIface} `{!HwrngDev D} `{!HwkeyProvider D}
  `{!HwkeyProviderLaws D} `{!Kernel W}.
Implicit Types (w : world (hwkey_state D) D W) (l : hwkey_state D) (p : ptr) (c : hwkey_chan_ctx).

(** At most one allocation. *)
Definition allocs (a : list sysev) : Prop := a = [] ∨ ∃ ok, a = [SAlloc ok].

Lemma no_allocs tr : ∃ a, allocs a ∧ tr = a ++ tr.
Proof. exists []. split; [by left|done]. Qed.
Lemma one_alloc ok tr : ∃ a, allocs a ∧ SAlloc ok :: tr = a ++ tr.
Proof. exists [SAlloc ok]. split; [right; by exists ok|done]. Qed.

(** What resolving a request keeps: the contexts, the request buffer, the
    table and the invariant; the length it reports is inside the buffer. *)
Definition resolved (rest : list handle) w (r : Z * Z) (w' : world (hwkey_state D) D W) : Prop :=
  hwkey_ctxs (loc w') = hwkey_ctxs (loc w) ∧ req_data (loc w') = req_data (loc w) ∧
  key_slots (loc w') = key_slots (loc w) ∧
  0 ≤ r.2 ≤ HWKEY_MAX_PAYLOAD_SIZE ∧ hwkey_ok rest (loc w') (trace w') ∧
  ∃ a, allocs a ∧ trace w' = a ++ trace w.

Lemma length_key_overwrite rest bs l tr :
  hwkey_ok rest l tr → Z.of_nat (length bs) ≤ HWKEY_MAX_PAYLOAD_SIZE →
  Z.of_nat (length (overwrite bs (key_data l))) = HWKEY_MAX_PAYLOAD_SIZE.
Proof. intros Hok Hb. pose proof (hk_key _ _ _ Hok). rewrite length_overwrite; lia. Qed.

Lemma fetch_result_resolved rest p c i s data klen0 w r w' :
  hwkey_ok rest (loc w) (trace w) → hwkey_ctxs (loc w) !! p = Some c →
  slot_of (loc w) i = Some s → handler s = GetKeyHandle (Some data) →
  0 ≤ klen0 ≤ HWKEY_MAX_PAYLOAD_SIZE →
  fetch_result p i klen0 w r w' → resolved rest w r w'.
Proof.
  intros Hok Hp Hs Hh Hk [q Hf|v Hf|rc bs d v Hf Hd Hrc|q bs d v Hf Hq Hbs].
  1-3: split_and!; try done; try apply Hk; try apply no_allocs; try apply one_alloc;
    by apply hwkey_ok_trace.
  split_and!; [done..| | |apply one_alloc];
    [unfold HWKEY_OPAQUE_HANDLE_SIZE, HWKEY_MAX_PAYLOAD_SIZE; cbn; lia|].
  pose proof (make_token_ok bs (token_draw_enough _ _ _ Hbs)) as Ht. apply hwkey_ok_trace; [done|].
  assert (hwkey_ok rest (with_handles (λ L, L ++ [(q, OpaqueNode i p (make_token bs))]) (loc w))
            (trace w)) as Hnew.
  { apply hwkey_ok_new_handle; [done|done| |done]. split_and!; [by exists c|by exists s, data|done]. }
  apply (hwkey_ok_key_data rest (overwrite (make_token bs) (key_data (loc w)))); [|exact Hnew].
  eapply length_key_overwrite; [done|]. by rewrite (token_ok_length _ Ht).
Qed.

Lemma slot_ok_of rest l tr i s : hwkey_ok rest l tr → slot_of l i = Some s → slot_ok s.
Proof.
  intros Hok Hs. unfold slot_of in Hs. destruct (key_slots l) as [slots|] eqn:E; [|done].
  pose proof (hk_table _ _ _ Hok _ E) as Ht. rewrite Forall_forall in Ht.
  apply Ht. by eapply list_elem_of_lookup_2.
Qed.

Lemma opens_ok rest l tr u tok n data :
  hwkey_ok rest l tr → opens l u tok n = Some data →
  key_fn_ok (retriever data HWKEY_MAX_PAYLOAD_SIZE).
Proof.
  intros Hok. unfold opens. destruct (slot_of l (key_slot n)) as [s|] eqn:Hs; [|done].
  pose proof (slot_ok_of _ _ _ _ _ Hok Hs) as Hsk. unfold slot_ok, opaque_data in *.
  destruct (handler s) as [|[data'|]|]; try done.
  destruct (_ && _); [|done]. by intros [= <-].
Qed.

Lemma opaque_lookup_ok rest l tr u tok data :
  hwkey_ok rest l tr → opaque_lookup l u tok = Some data →
  key_fn_ok (retriever data HWKEY_MAX_PAYLOAD_SIZE).
Proof.
  intros Hok Hl. unfold opaque_lookup in Hl. apply head_Some in Hl as [tl Hl].
  assert (data ∈ omap (λ e, opens l u tok e.2) (opaque_handles l)) as Hin
    by (rewrite Hl; by left).
  apply list_elem_of_omap in Hin as (e & _ & He). by eapply opens_ok.
Qed.

Lemma call_key_fn_resolved rest f klen0 w :
  hwkey_ok rest (loc w) (trace w) → key_fn_ok f → 0 ≤ klen0 ≤ HWKEY_MAX_PAYLOAD_SIZE →
  wp (call_key_fn f klen0) (resolved rest w) w.
Proof.
  intros Hok Hf Hk. eapply wp_mono; [by eapply call_key_fn_spec|].
  intros r w' ((rc & k & _ & _ & ->) & Hr & Hok'). split_and!; try done; [apply Hr..|].
  apply no_allocs.
Qed.

Lemma handle_slots_resolved fuel rest p c id w :
  (∀ d, token_ready fuel d) → hwkey_ok rest (loc w) (trace w) →
  hwkey_ctxs (loc w) !! p = Some c →
  wp (handle_slots fuel p id (key_slots (loc w)) HWKEY_MAX_PAYLOAD_SIZE 0) (resolved rest w) w.
Proof.
  intros Hfuel Hok Hp. destruct (key_slots (loc w)) as [slots|] eqn:E.
  2: { cbn. ipc_steps. split_and!; try done. apply no_allocs. }
  unfold wp, handle_slots. rewrite (handle_slots_loop_run _ _ _ _ _ _ _ _ _ _ Hok Hp).
  unfold resolve. change (match ?r with Ret a s' => resolved rest w a s' | Halt _ _ => False end)
    with (wp (λ w, r) (resolved rest w) w).
  destruct (select_slot _ _ _ _) as [[j s]|] eqn:Hsel.
  - apply select_slot_Some in Hsel as (_ & Hj & Hserves). rewrite Nat.sub_0_r in Hj.
    assert (slot_of (loc w) j = Some s) as Hs by (unfold slot_of; by rewrite E).
    pose proof (slot_ok_of _ _ _ _ _ Hok Hs) as Hsk. unfold slot_ok, serve_slot in *.
    destruct (handler s) as [|[data|]|f] eqn:Hh; rewrite ?Hh in Hsk; [| |done|].
    + unfold serves in Hserves. by rewrite Hh, andb_false_r in Hserves.
    + eapply wp_mono; [by eapply fetch_handle_spec|]. intros r w' Hr.
      by eapply fetch_result_resolved.
    + by apply call_key_fn_resolved.
  - destruct (opaque_lookup _ _ _) as [data|] eqn:Hl.
    2: { split_and!; try done. apply no_allocs. }
    apply call_key_fn_resolved; [done|by eapply opaque_lookup_ok|done].
Qed.

(** The tail both commands share: answer, then wipe what was answered. *)
Lemma reply_spec rest p c hdr st n Q w :
  hwkey_ok rest (loc w) (trace w) → hwkey_ctxs (loc w) !! p = Some c →
  0 ≤ n ≤ HWKEY_MAX_PAYLOAD_SIZE →
  (∀ rc v, sends (hwkey_chan c)
       (hwkey_msg_encode (with_cmd (Z.lor (cmd hdr) HWKEY_RESP_BIT) (with_status st hdr)) ++
        take (Z.to_nat n) (key_data (loc w))) rc →
     Q rc (World (with_key_data (memset0 (Z.to_nat n)) (loc w)) (dev w) v
             (SSend (hwkey_chan c)
                (hwkey_msg_encode (with_cmd (Z.lor (cmd hdr) HWKEY_RESP_BIT) (with_status st hdr)) ++
                 take (Z.to_nat n) (key_data (loc w))) rc :: trace w))) →
  wp (data ← key_data_prefix n;
      ctx ← load hwkey_ctxs p;
      rc ← hwkey_send_rsp (hwkey_chan ctx) (with_status st hdr) data;
      sanitize_key_data n;;
      ret rc) Q w.
Proof.
  intros Hok Hp Hn HQ. pose proof (hk_key _ _ _ Hok) as Hk. unfold key_data_prefix. ipc_steps.
  rewrite (proj2 (Z.leb_le _ _)), (proj2 (Z.leb_le _ _)) by (cbn; lia). cbn [andb]. ipc_steps.
  eapply wp_load; [done|]. ipc_steps. unfold hwkey_send_rsp. apply wp_send. intros rc v Hs.
  ipc_steps. unfold sanitize_key_data. destruct (Z.eqb_spec n 0) as [->|Hne]; cbn [negb].
  - ipc_steps. specialize (HQ rc v Hs). unfold with_key_data in HQ.
    change (memset0 (Z.to_nat 0) (key_data (loc w))) with (key_data (loc w)) in HQ.
    destruct (loc w). exact HQ.
  - ipc_steps. by apply HQ.
Qed.

(** One answer to a request with header [hdr] was sent, with the result [rc]. *)
Definition answered c (hdr : hwkey_msg) (rc : Z) (tr tr' : list sysev) : Prop :=
  ∃ hdr' data a, allocs a ∧
    cmd hdr' = Z.lor (cmd hdr) HWKEY_RESP_BIT ∧ other_fields hdr' = other_fields hdr ∧
    tr' = SSend (hwkey_chan c) (hwkey_msg_encode hdr' ++ data) rc :: a ++ tr.

(** The state after a command, and the trace with its one answer. *)
Definition replied (rest : list handle) c (hdr : hwkey_msg) w (rc : Z)
    (w' : world (hwkey_state D) D W) : Prop :=
  hwkey_ctxs (loc w') = hwkey_ctxs (loc w) ∧ key_slots (loc w') = key_slots (loc w) ∧
  hwkey_ok rest (loc w') (trace w') ∧ answered c hdr rc (trace w) (trace w').

Lemma memset_key_ok rest n l tr :
  0 ≤ n ≤ HWKEY_MAX_PAYLOAD_SIZE → hwkey_ok rest l tr →
  hwkey_ok rest (with_key_data (memset0 (Z.to_nat n)) l) tr.
Proof.
  intros Hn Hok. apply (hwkey_ok_key_data rest (memset0 (Z.to_nat n) (key_data l))); [|done].
  unfold memset0. eapply length_key_overwrite; [done|]. rewrite length_replicate. lia.
Qed.

Lemma reply_replied rest p c hdr0 hdr st n w w0 :
  hwkey_ctxs (loc w0) !! p = Some c →
  cmd hdr = cmd hdr0 → other_fields hdr = other_fields hdr0 →
  resolved rest w0 (st, n) w →
  wp (data ← key_data_prefix n;
      ctx ← load hwkey_ctxs p;
      rc ← hwkey_send_rsp (hwkey_chan ctx) (with_status st hdr) data;
      sanitize_key_data n;;
      ret rc) (replied rest c hdr0 w0) w.
Proof.
  intros Hp Hcmd Hother (Hc & Hreq & Hs & Hn & Hok & a & Ha & Htr). cbn [snd] in Hn.
  eapply reply_spec; [done|by rewrite Hc|done|]. intros rc v _.
  split_and!; [done|done| |].
  - apply hwkey_ok_trace; [done|]. by apply memset_key_ok.
  - eexists _, _, a. split_and!; [done| | |by cbn [trace]; rewrite Htr]; cbn; by rewrite ?Hcmd.
Qed.

Lemma get_keyslot_replied fuel rest p c hdr id w :
  (∀ d, token_ready fuel d) → hwkey_ok rest (loc w) (trace w) →
  hwkey_ctxs (loc w) !! p = Some c →
  wp (hwkey_handle_get_keyslot_cmd fuel p hdr id) (replied rest c hdr w) w.
Proof.
  intros Hfuel Hok Hp. unfold hwkey_handle_get_keyslot_cmd. ipc_steps.
  cbn [loc]. change ((λ l, Z.of_nat (length (key_data l))) (loc w))
    with (Z.of_nat (length (key_data (loc w)))). rewrite (hk_key _ _ _ Hok).
  eapply wp_mono; [by eapply handle_slots_resolved|].
  intros [st n] w' Hr. by eapply reply_replied.
Qed.

Lemma derive_replied rest p c hdr ikm w :
  hwkey_ok rest (loc w) (trace w) → hwkey_ctxs (loc w) !! p = Some c →
  Z.of_nat (length ikm) ≤ HWKEY_MAX_PAYLOAD_SIZE →
  wp (hwkey_handle_derive_key_cmd p hdr ikm) (replied rest c hdr w) w.
Proof.
  intros Hok Hp Hikm. unfold hwkey_handle_derive_key_cmd. ipc_steps.
  set (hdr' := if arg1 hdr =? HWKEY_KDF_VERSION_BEST then _ else _).
  assert (cmd hdr' = cmd hdr ∧ other_fields hdr' = other_fields hdr) as [Hcmd Hother]
    by (unfold hdr'; by destruct (_ =? _)).
  change ((λ l, Z.of_nat (length (key_data l))) (loc w))
    with (Z.of_nat (length (key_data (loc w)))). rewrite (hk_key _ _ _ Hok).
  wp_cases Hv.
  - ipc_steps. eapply wp_load; [done|]. eapply wp_mono.
    { apply (call_key_fn_resolved rest); [done|by apply derive_key_v1_ok|done]. }
    intros [st n] w' Hr. by eapply reply_replied.
  - apply wp_ret. cbn beta iota. eapply reply_replied; [done|done|done|].
    split_and!; try done. apply no_allocs.
Qed.
End Commands.

(** * 9. Messages and events *)

Section Handlers.
Context {D W : Type} `{!Uapi} `{!HwkeyIface} `{!HwrngDev D} `{!HwkeyProvider D}
  `{!HwkeyProviderLaws D} `{!Kernel W} `{!KernelLaws W}.
Implicit Types (w : world (hwkey_state D) D W) (l : hwkey_state D) (p : ptr) (c : hwkey_chan_ctx).

(** The header and the payload of a message. *)
Definition msg_hdr (msg : bytes) : hwkey_msg :=
  hwkey_msg_decode (take (Z.to_nat sizeof_hwkey_msg) msg).
Definition msg_payload (msg : bytes) : bytes := drop (Z.to_nat sizeof_hwkey_msg) msg.

(** The state once [msg] is received. *)
Definition received (h : handle) (msg : bytes) (v : W) w : world (hwkey_state D) D W :=
  World (with_req_data (overwrite (msg_payload msg)) (loc w)) (dev w) v
    (SRecv h (Z.of_nat (length msg)) msg :: trace w).

Lemma recv_spec rest h Q w :
  hwkey_ok rest (loc w) (trace w) →
  (∀ rc bs v, rc < 0 →
     Q (rc, msg_hdr bs, msg_payload bs) (logged (SRecv h rc bs) v w)) →
  (∀ msg v, Z.of_nat (length (msg_payload msg)) = Z.of_nat (length msg) - sizeof_hwkey_msg →
     Z.of_nat (length (msg_payload msg)) ≤ HWKEY_MAX_PAYLOAD_SIZE →
     Q (Z.of_nat (length msg), msg_hdr msg, msg_payload msg) (received h msg v w)) →
  wp (recv_hdr_payload h) Q w.
Proof.
  intros Hok Herr Hmsg. pose proof sizeof_hwkey_msg_range as Hsz.
  pose proof (hk_req _ _ _ Hok) as Hreq. unfold recv_hdr_payload. ipc_steps.
  cbn. rewrite Hreq. unfold tipc_recv. ipc_call r v E. destruct r as [rc msg].
  ipc_steps. wp_cases Hrc; ipc_steps; [apply Herr; lia|]. apply Z.ltb_ge in Hrc.
  destruct (k_recv_ok _ _ _ _ _ _ _ E Hrc) as ([Hlo Hhi] & Hl & _). subst rc.
  assert (Z.of_nat (length (msg_payload msg)) = Z.of_nat (length msg) - sizeof_hwkey_msg) as Hpl
    by (unfold msg_payload; rewrite length_drop; lia).
  apply (Hmsg msg v); [done|lia].
Qed.

Lemma received_ok rest h msg v w :
  Z.of_nat (length (msg_payload msg)) ≤ HWKEY_MAX_PAYLOAD_SIZE →
  hwkey_ok rest (loc w) (trace w) →
  hwkey_ok rest (loc (received h msg v w)) (trace (received h msg v w)).
Proof.
  intros Hl Hok. apply hwkey_ok_trace; [done|].
  apply (hwkey_ok_req_data rest (overwrite (msg_payload msg) (req_data (loc w)))); [|done].
  pose proof (hk_req _ _ _ Hok). rewrite length_overwrite; lia.
Qed.

(** The request buffer after [req_data[req_data_len] = 0]. *)
Definition terminated (payload req : bytes) : bytes :=
  <[length payload := 0]> (overwrite payload req).

Lemma terminate_spec n Q w :
  (Z.of_nat n < Z.of_nat (length (req_data (loc w)))) →
  Q tt (set_loc (with_req_data <[n := 0]> (loc w)) w) →
  wp (terminate_req_data (Z.of_nat n)) Q w.
Proof.
  intros Hn HQ. unfold terminate_req_data. ipc_steps. cbn [loc].
  rewrite (proj2 (Z.leb_le _ _)), (proj2 (Z.ltb_lt _ _)) by lia. cbn [andb].
  rewrite Nat2Z.id. by ipc_steps.
Qed.

(** A message leaves the contexts, the table and the invariant; it is either
    not received, or received and answered once. *)
Definition handled (rest : list handle) c w (rc : Z) (w' : world (hwkey_state D) D W) : Prop :=
  hwkey_ctxs (loc w') = hwkey_ctxs (loc w) ∧ key_slots (loc w') = key_slots (loc w) ∧
  hwkey_ok rest (loc w') (trace w') ∧
  ((rc < 0 ∧ ∃ bs, trace w' = SRecv (hwkey_chan c) rc bs :: trace w) ∨
   ∃ msg, answered c (msg_hdr msg) rc
            (SRecv (hwkey_chan c) (Z.of_nat (length msg)) msg :: trace w) (trace w')).

Lemma chan_handle_msg_ok fuel rest p c w :
  (∀ d, token_ready fuel d) → hwkey_ok rest (loc w) (trace w) →
  hwkey_ctxs (loc w) !! p = Some c →
  wp (hwkey_chan_handle_msg fuel p) (handled rest c w) w.
Proof.
  intros Hfuel Hok Hp. pose proof sizeof_hwkey_msg_range as Hsz.
  unfold hwkey_chan_handle_msg. ipc_steps. eapply wp_load; [done|]. ipc_steps.
  eapply recv_spec; [done| |].
  { intros rc bs v Hrc. wp_cases Hneg; [|lia]. ipc_steps. split_and!; [done|done| |].
    - by apply hwkey_ok_trace.
    - left. split; [done|by exists bs]. }
  intros msg v Hl Hmax. pose proof (received_ok rest (hwkey_chan c) msg v w Hmax Hok) as Hok1.
  wp_cases Hneg; [lia|]. rewrite u64_small by (unfold HWKEY_MAX_PAYLOAD_SIZE in Hmax; lia).
  rewrite <- Hl. assert (∀ bs, Z.of_nat (length bs) = HWKEY_MAX_PAYLOAD_SIZE + 1 →
    hwkey_ok rest (with_req_data (λ _, bs) (loc (received (hwkey_chan c) msg v w)))
      (trace (received (hwkey_chan c) msg v w))) as Hreq
    by (intros; by apply hwkey_ok_req_data).
  pose proof (hk_req _ _ _ Hok1) as Hlen. wp_cases Hget; [|wp_cases Hder].
  - ipc_steps. apply terminate_spec; [lia|]. ipc_steps.
    eapply wp_mono; [eapply (get_keyslot_replied _ rest p c (msg_hdr msg)); [done| |done]|].
    + apply Hreq. by rewrite length_insert.
    + intros rc w' (Hc & Hs & Hok' & Ha). split_and!; [done..|]. right. by exists msg.
  - ipc_steps. eapply wp_mono; [eapply (derive_replied rest p c (msg_hdr msg)); [done|done|]|].
    { rewrite length_take. lia. }
    intros rc w' (Hc & Hs & Hok' & Ha). ipc_steps.
    split_and!; [done|done| |right; by exists msg].
    apply (hwkey_ok_req_data rest (memset0 (Z.to_nat (Z.of_nat (length (msg_payload msg))))
             (req_data (loc w')))); [|done].
    pose proof (hk_req _ _ _ Hok') as Hlen'. unfold memset0.
    rewrite length_overwrite; [done|]. rewrite length_replicate. lia.
  - unfold hwkey_send_rsp. apply wp_send. intros rc v' _. split_and!; [done|done| |].
    + by apply hwkey_ok_trace.
    + right. exists msg.
      exists (with_cmd (Z.lor (cmd (msg_hdr msg)) HWKEY_RESP_BIT)
                (with_status HWKEY_ERR_NOT_IMPLEMENTED (msg_hdr msg))), [], [].
      split_and!; [by left|done..].
Qed.

Lemma chan_handler_ok fuel rest ev p c w :
  (∀ d, token_ready fuel d) → hwkey_ok rest (loc w) (trace w) →
  hwkey_ctxs (loc w) !! p = Some c → ev_handle ev = hwkey_chan c →
  tipc_chan_error (ev_event ev) = false →
  wp (hwkey_chan_handler fuel ev p) (λ _ w', hwkey_ok rest (loc w') (trace w')) w.
Proof.
  intros Hfuel Hok Hp Hh Herr. unfold hwkey_chan_handler, tipc_handle_chan_errors.
  ipc_steps. eapply wp_load; [done|]. ipc_steps. apply wp_assert; [lia|]. ipc_steps.
  rewrite Herr. ipc_steps.
  assert (∀ w', hwkey_ok rest (loc w') (trace w') → hwkey_ctxs (loc w') !! p = Some c →
    wp (hwkey_ctx_close p) (λ _ w', hwkey_ok rest (loc w') (trace w')) w') as Hclose.
  { intros w' Hok' Hp'. eapply ctx_close_spec; [by eapply hk_ptrs|done|].
    intros v. by apply closed_client_ok. }
  wp_cases Hhup; [by apply Hclose|]. wp_cases Hmsg; [|by ipc_steps]. ipc_steps.
  eapply wp_mono; [by eapply (chan_handle_msg_ok fuel rest p c)|].
  intros rc w' (Hc & _ & Hok' & _). wp_cases Hrc; [|by ipc_steps].
  apply Hclose; [done|by rewrite Hc].
Qed.

Lemma port_handler_ok rest ev w :
  hwkey_ok rest (loc w) (trace w) → tipc_port_error (ev_event ev) = false →
  wp (hwkey_port_handler ev) (λ _ w', hwkey_ok rest (loc w') (trace w')) w.
Proof.
  intros Hok Herr. unfold hwkey_port_handler, tipc_handle_port_errors.
  rewrite Herr. ipc_steps. wp_cases Hready; ipc_steps; [|done].
  unfold accept. ipc_call r v E. destruct r as [rc u]. wp_cases Hrc; ipc_steps.
  { by apply hwkey_ok_trace. }
  apply Z.ltb_ge in Hrc. wp_cases Hallow; ipc_steps.
  { apply wp_close. intros. ipc_steps. destruct Hok. split; auto.
    by apply (balanced_refused _ _ _ _ []). }
  apply negb_false_iff in Hallow. unfold alloc_ok. ipc_call ok v' E'. wp_cases Hno; ipc_steps.
  { apply wp_close. intros. ipc_steps. destruct Hok. split; auto.
    by apply (balanced_refused _ _ _ _ [SAlloc ok]); auto. }
  unfold set_cookie. ipc_call r2 v2 E2.
  pose proof (new_ptr_fresh (hwkey_ctxs (loc w))) as Hfresh.
  set (p := new_ptr (hwkey_ctxs (loc w))) in *.
  assert (∀ e1 e2 tr', tr' = e1 :: e2 :: SAccept (ev_handle ev) rc :: trace w →
    neutral e1 = true → neutral e2 = true →
    hwkey_ok rest (with_hwkey_ctxs <[p := HwkeyCtx rc u]> (loc w)) tr') as Hnew.
  { intros e1 e2 tr' -> He1 He2. destruct Hok. split; auto; cbn.
    - apply balanced_neutral; [done|]. apply balanced_neutral; [done|].
      by apply (balanced_new hwkey_chan _ _ (HwkeyCtx rc u)).
    - eapply Forall_impl; [done|]. intros e (Hlive & Hs & Ht). split_and!; [|done|done].
      cbn. destruct (decide (owner e.2 = p)) as [->|]; [by rewrite lookup_insert_eq|].
      by rewrite lookup_insert_ne.
    - intros q d Hq. destruct (decide (q = p)) as [->|].
      + rewrite lookup_insert_eq in Hq. by simplify_eq.
      + rewrite lookup_insert_ne in Hq by done. eauto. }
  pose proof (Hnew (SSetCookie rc r2) (SAlloc ok) _ eq_refl eq_refl eq_refl) as Hok'.
  wp_cases Hck; [|exact Hok']. eapply ctx_close_spec; [exact (hk_ptrs _ _ _ Hok')| |].
  - cbn. apply lookup_insert_eq.
  - intros v3. apply closed_client_ok; [apply lookup_insert_eq|exact Hok'].
Qed.
End Handlers.
