(* ===== verification/HwkeyCorrect.v ===== *)
(** The properties of the key service: safety of its handlers, resolution of
    requests, access control and life time of opaque handles, and what is
    answered and wiped. *)

From S2P Require Import Prelude Ipc HwrngDev Evp Hwkey HwkeyProps.

Section Safety.
Context {D W : Type} `{!Uapi} `{!HwkeyIface} `{!HwrngDev D} `{!HwrngDevFair D}
  `{!HwkeyProvider D} `{!HwkeyProviderLaws D} `{!Kernel W} `{!KernelLaws W}.
Implicit Types (w : world (hwkey_state D) D W) (p : ptr) (c : hwkey_chan_ctx).

(** C3. hwkey_chan_handler, on any event of a registered client but an error
    event (on which the library aborts), whatever the kernel, the peer's
    messages and the device do, runs to its end: no
    assertion fails, no freed context or handle node is touched, no buffer is
    overrun, the token loop ends.  It keeps the service's invariant: contexts
    own exactly the open channels, at most one opaque handle exists for a
    slot, each belongs to a live client, refers to an opaque slot and holds a
    complete token, and only allowed clients have contexts. *)
Theorem hwkey_chan_handler_safe rest ev p c w :
  hwkey_ok rest (loc w) (trace w) →
  hwkey_ctxs (loc w) !! p = Some c → ev_handle ev = hwkey_chan c →
  tipc_chan_error (ev_event ev) = false →
  wp (hwkey_chan_handler token_fuel ev p) (λ _ w', hwkey_ok rest (loc w') (trace w')) w.
Proof. eapply chan_handler_ok, token_fuel_ready. Qed.

(** C31. hwkey_chan_handle_msg answers each message it receives exactly once,
    on the channel it came from, with the command's response bit set and the
    fields it does not use echoed; a message that cannot be received gets no
    answer; no other handle is used. *)
Theorem hwkey_chan_handle_msg_answers rest p c w :
  hwkey_ok rest (loc w) (trace w) → hwkey_ctxs (loc w) !! p = Some c →
  wp (hwkey_chan_handle_msg token_fuel p) (λ rc w',
    (rc < 0 ∧ ∃ bs, trace w' = SRecv (hwkey_chan c) rc bs :: trace w) ∨
    ∃ msg, answered c (msg_hdr msg) rc
             (SRecv (hwkey_chan c) (Z.of_nat (length msg)) msg :: trace w) (trace w')) w.
Proof.
  intros Hok Hp. eapply wp_mono; [by eapply chan_handle_msg_ok; [apply token_fuel_ready|..]|].
  by intros rc w' (_ & _ & _ & ?).
Qed.

(** C18. _handle_slots computes its specification: the first slot with the
    requested name, the caller's uuid and a handler serves the request; with
    none, the first opaque handle whose slot allows the caller and whose token
    is the one presented; with none of these, HWKEY_ERR_NOT_FOUND with
    nothing changed. *)
Theorem hwkey_handle_slots_resolves fuel rest p c id slots kbuf_len klen0 w :
  hwkey_ok rest (loc w) (trace w) → hwkey_ctxs (loc w) !! p = Some c →
  handle_slots fuel p id (Some slots) kbuf_len klen0 w =
  match select_slot (hwkey_uuid c) id slots 0 with
  | Some (j, s) => serve_slot fuel p j s kbuf_len klen0 w
  | None =>
    match opaque_lookup (loc w) (hwkey_uuid c) id with
    | Some data => call_key_fn (retriever data kbuf_len) klen0 w
    | None => Ret (HWKEY_ERR_NOT_FOUND, klen0) w
    end
  end.
Proof.
  intros Hok Hp. unfold handle_slots. rewrite (handle_slots_loop_run _ _ _ _ _ _ _ _ _ _ Hok Hp).
  unfold resolve. destruct (select_slot _ _ _ _) as [[j s]|]; [done|].
  by destruct (opaque_lookup _ _ _).
Qed.

(** C14. Asking for the handle of an opaque slot has exactly these outcomes
    (insert_handle_node followed by get_key_handle, on every path): a handle
    of the slot exists already, for whichever client, and the answer is
    ALREADY_EXISTS with nothing changed; no memory; no random data (the last of
    the reads of the device failed), with no empty node left behind; or a new node for this client whose token is the
    first 31 non-zero bytes the device delivered and a terminator, which is
    also what the key buffer receives. *)
Theorem hwkey_get_key_handle_outcomes rest s data p i kbuf_len klen0 w :
  hwkey_ok rest (loc w) (trace w) →
  slot_of (loc w) i = Some s → handler s = GetKeyHandle (Some data) →
  HWKEY_OPAQUE_HANDLE_SIZE ≤ kbuf_len →
  wp (fetch_handle token_fuel p i kbuf_len klen0) (fetch_result p i klen0 w) w.
Proof. eapply fetch_handle_spec, token_fuel_ready. Qed.
End Safety.

(** * Opaque handles: access and life time *)

Section Access.
Context {D W : Type} `{!Uapi} `{!HwkeyIface} `{!HwrngDev D} `{!HwkeyProvider D} `{!Kernel W}.
Implicit Types (w : world (hwkey_state D) D W) (l : hwkey_state D) (p : ptr) (u : uuid).

Lemma opens_Some l u tok n data :
  opens l u tok n = Some data ↔
  ∃ s, slot_of l (key_slot n) = Some s ∧ opaque_data s = Some data ∧
       u ∈ allowed_uuids data ∧ token n = take (Z.to_nat HWKEY_OPAQUE_HANDLE_SIZE) tok.
Proof.
  unfold opens. destruct (slot_of l (key_slot n)) as [s|]; [|by split; [|intros (?&?&_)]].
  destruct (opaque_data s) as [d|] eqn:Ho; [|split; [done|intros (?&[= <-]&?&_); congruence]].
  assert (existsb (λ a, bool_decide (a = u)) (allowed_uuids d) = true ↔ u ∈ allowed_uuids d) as Hex.
  { rewrite existsb_exists. setoid_rewrite <- list_elem_of_In. split.
    - by intros (a & Ha & ->%bool_decide_eq_true).
    - intros Hu. exists u. by rewrite bool_decide_eq_true. }
  destruct (existsb _ _); cbn [andb].
  - case_bool_decide as Ht; split; try done.
    + intros [= <-]. exists s. split_and!; [done|done|by apply Hex|done].
    + intros (s' & [= <-] & Hd & _). congruence.
    + intros (s' & _ & _ & _ & ?). done.
  - split; [done|]. intros (s' & [= <-] & Hd & Hu & _). assert (d = data) as -> by congruence.
    by apply Hex in Hu.
Qed.

Lemma opaque_lookup_Some l u tok data :
  opaque_lookup l u tok = Some data →
  ∃ q n, (q, n) ∈ opaque_handles l ∧ opens l u tok n = Some data.
Proof.
  intros Hl. unfold opaque_lookup in Hl. apply head_Some in Hl as [tl Hl].
  assert (data ∈ omap (λ e, opens l u tok e.2) (opaque_handles l)) as Hin
    by (rewrite Hl; by left).
  apply list_elem_of_omap in Hin as ([q n] & Hin & He). by exists q, n.
Qed.

(** C2. Access control on opaque keys: get_opaque_key answers NOT_FOUND and
    changes nothing, or it hands the call to the retriever of a slot that
    lists the caller's uuid and for which a live client holds a handle whose
    token is, byte for byte, the one presented. *)
Theorem hwkey_opaque_key_access rest u tok kbuf_len klen0 w :
  hwkey_ok rest (loc w) (trace w) →
  get_opaque_key u tok kbuf_len klen0 w = Ret (HWKEY_ERR_NOT_FOUND, klen0) w ∨
  ∃ q n s data,
    (q, n) ∈ opaque_handles (loc w) ∧ is_Some (hwkey_ctxs (loc w) !! owner n) ∧
    slot_of (loc w) (key_slot n) = Some s ∧ handler s = GetKeyHandle (Some data) ∧
    u ∈ allowed_uuids data ∧ token n = take (Z.to_nat HWKEY_OPAQUE_HANDLE_SIZE) tok ∧
    get_opaque_key u tok kbuf_len klen0 w = call_key_fn (retriever data kbuf_len) klen0 w.
Proof.
  intros Hok. rewrite (get_opaque_key_run _ _ _ _ _ _ Hok).
  destruct (opaque_lookup _ _ _) as [data|] eqn:Hl; [right|by left].
  apply opaque_lookup_Some in Hl as (q & n & Hin & Ho).
  apply opens_Some in Ho as (s & Hs & Hd & Hu & Ht).
  pose proof (hk_nodes _ _ _ Hok) as Hnodes. rewrite Forall_forall in Hnodes.
  destruct (Hnodes _ Hin) as (Hlive & _ & _). exists q, n, s, data. split_and!; try done.
  unfold opaque_data in Hd. by destruct (handler s); simplify_eq.
Qed.

(** The 32 bytes compared with a complete token depend on the payload only. *)
Lemma token_compare payload req t :
  token_ok t → Z.of_nat (length payload) < Z.of_nat (length req) →
  t = take 32 (terminated payload req) ↔
  (31 ≤ length payload)%nat ∧ t = take 32 (payload ++ [0]).
Proof.
  intros (body & -> & Hbl & Hb) Hlen. unfold terminated, overwrite.
  destruct (drop (length payload) req) as [|r rest] eqn:Hd.
  { apply (f_equal length) in Hd. rewrite length_drop in Hd. cbn in Hd. lia. }
  rewrite insert_app_r_alt, Nat.sub_diag by done. cbn [list_insert insert].
  destruct (decide (31 ≤ length payload)%nat) as [Hge|Hlt].
  - replace (payload ++ 0 :: rest) with ((payload ++ [0]) ++ rest) by (by rewrite <- app_assoc).
    rewrite take_app_le by (rewrite length_app; cbn; lia). split; [auto|by intros [_ ?]].
  - split; [|by intros [? _]]. intros E. exfalso.
    apply (f_equal (λ bs : bytes, bs !! length payload)) in E.
    rewrite lookup_take_lt, (lookup_app_r payload), Nat.sub_diag in E by lia. cbn in E.
    rewrite lookup_app_l in E by lia. rewrite Forall_forall in Hb.
    by apply (Hb 0); [eapply list_elem_of_lookup_2|].
Qed.

(** Bytes left in the request buffer by earlier requests never count: two
    buffers that hold the same payload, each terminated as the code does,
    give the same result, even when the payload is shorter than a token. *)
Theorem hwkey_stale_bytes_irrelevant rest u payload req1 req2 kbuf_len klen0 w :
  hwkey_ok rest (loc w) (trace w) →
  Z.of_nat (length payload) < Z.of_nat (length req1) →
  Z.of_nat (length payload) < Z.of_nat (length req2) →
  get_opaque_key u (terminated payload req1) kbuf_len klen0 w =
  get_opaque_key u (terminated payload req2) kbuf_len klen0 w.
Proof.
  intros Hok H1 H2. rewrite !(get_opaque_key_run _ _ _ _ _ _ Hok). f_equal.
  unfold opaque_lookup. f_equal. pose proof (hk_nodes _ _ _ Hok) as Hnodes.
  induction Hnodes as [|[q n] L (_ & _ & Ht) _ IH]; [done|]. cbn [omap list_omap snd] in *.
  assert (opens (loc w) u (terminated payload req1) n =
          opens (loc w) u (terminated payload req2) n) as ->; [|by rewrite IH].
  unfold opens. destruct (slot_of (loc w) (key_slot n)) as [s|]; [|done].
  destruct (opaque_data s) as [data|]; [|done].
  change (Z.to_nat HWKEY_OPAQUE_HANDLE_SIZE) with 32%nat.
  assert (bool_decide (token n = take 32 (terminated payload req1)) =
          bool_decide (token n = take 32 (terminated payload req2))) as ->; [|done].
  apply bool_decide_ext. by rewrite !token_compare.
Qed.

(** Closing a client revokes its handles and only its: the list keeps, in
    order, exactly the handles of the other clients, the context is gone and
    its channel is closed once. *)
Theorem hwkey_ctx_close_revokes rest p c w :
  hwkey_ok rest (loc w) (trace w) → hwkey_ctxs (loc w) !! p = Some c →
  wp (hwkey_ctx_close p) (λ _ w',
    opaque_handles (loc w') = filter (λ e, owner e.2 ≠ p) (opaque_handles (loc w)) ∧
    hwkey_ctxs (loc w') = delete p (hwkey_ctxs (loc w)) ∧
    trace w' = SClose (hwkey_chan c) :: trace w ∧
    hwkey_ok rest (loc w') (trace w')) w.
Proof.
  intros Hok Hp. eapply ctx_close_spec; [by eapply hk_ptrs|done|]. intros v.
  split_and!; [done..|]. by apply closed_client_ok.
Qed.

(** C15. A handle opens its key, until its owner goes: from the state after a
    handle was fetched for the slot of [data], when no other live handle has
    the same token, a client the slot allows that presents the token is served
    by the slot's retriever; and once the owner is closed it gets NOT_FOUND. *)
Theorem hwkey_handle_opens_key rest p c i s data q bs u more kbuf_len klen0 l tr d v :
  hwkey_ok rest l tr → hwkey_ctxs l !! p = Some c →
  slot_of l i = Some s → handler s = GetKeyHandle (Some data) → u ∈ allowed_uuids data →
  (31 ≤ length (Fake.nonzero bs))%nat → find_slot i (opaque_handles l) = None →
  q ∉ (opaque_handles l).*1 →
  (∀ e, e ∈ opaque_handles l → token e.2 ≠ make_token bs) →
  let l' := with_handles (λ L, L ++ [(q, OpaqueNode i p (make_token bs))]) l in
  let w' : world (hwkey_state D) D W := World l' d v tr in
  get_opaque_key u (make_token bs ++ more) kbuf_len klen0 w' =
    call_key_fn (retriever data kbuf_len) klen0 w' ∧
  wp (hwkey_ctx_close p) (λ _ w2,
    get_opaque_key u (make_token bs ++ more) kbuf_len klen0 w2 =
    Ret (HWKEY_ERR_NOT_FOUND, klen0) w2) w'.
Proof.
  intros Hok Hp Hs Hh Hu Hn Hf Hq Huniq l' w'. pose proof (make_token_ok bs Hn) as Ht.
  pose proof (token_ok_length _ Ht) as Htl.
  assert (hwkey_ok rest l' tr) as Hok'.
  { apply hwkey_ok_new_handle; [done|done| |done].
    split_and!; [by exists c|by exists s, data|done]. }
  assert (take (Z.to_nat HWKEY_OPAQUE_HANDLE_SIZE) (make_token bs ++ more) = make_token bs) as Htake.
  { change (Z.to_nat HWKEY_OPAQUE_HANDLE_SIZE) with 32%nat. by rewrite <- Htl, take_app_length. }
  assert (∀ l2 L, (∀ e, e ∈ L → e ∈ opaque_handles l) →
    omap (λ e, opens l2 u (make_token bs ++ more) e.2) L = []) as Hnone.
  { intros l2 L Hin. induction L as [|[q' n] L IH]; [done|]. cbn.
    destruct (opens l2 u _ n) as [d'|] eqn:Ho; [|by apply IH; intros; apply Hin; right].
    apply opens_Some in Ho as (_ & _ & _ & _ & E). rewrite Htake in E.
    by destruct (Huniq (q', n) (Hin _ (list_elem_of_here _ _))). }
  split.
  - rewrite (get_opaque_key_run rest _ _ _ _ w' Hok'). unfold opaque_lookup.
    change (opaque_handles (loc w'))
      with (opaque_handles l ++ [(q, OpaqueNode i p (make_token bs))]).
    rewrite omap_app, Hnone by done. cbn [app omap list_omap snd]. change (loc w') with l'.
    assert (opens l' u (make_token bs ++ more) (OpaqueNode i p (make_token bs)) = Some data)
      as Ho; [|by rewrite Ho].
    apply opens_Some. exists s. split_and!; [done| |done|by rewrite Htake].
    unfold opaque_data. by rewrite Hh.
  - eapply ctx_close_spec; [by eapply hk_ptrs|done|]. intros v2.
    rewrite (get_opaque_key_run rest); [|by apply closed_client_ok].
    unfold opaque_lookup. rewrite Hnone; [done|]. cbn. intros e [Ho He]%list_elem_of_filter.
    apply elem_of_app in He as [He|He%list_elem_of_singleton]; [done|].
    subst e. by destruct Ho.
Qed.
End Access.

(** * Commands: what is answered and what is wiped *)

Section Answers.
Context {D W : Type} `{!Uapi} `{!HwkeyIface} `{!HwrngDev D} `{!HwkeyProvider D}
  `{!HwkeyProviderLaws D} `{!Kernel W}.
Implicit Types (w : world (hwkey_state D) D W) (l : hwkey_state D) (p : ptr) (c : hwkey_chan_ctx).

(** hwkey_handle_derive_key_cmd: for versions BEST and 1 the answer says
    version 1, carries the status of derive_key_v1 applied to the caller's
    uuid and the request's data and exactly the bytes it reports, which are
    then wiped from the key buffer; any other version is answered
    NOT_IMPLEMENTED, with no data and no call of the provider. *)
Theorem hwkey_derive_cmd_answers rest p c hdr ikm w :
  hwkey_ok rest (loc w) (trace w) → hwkey_ctxs (loc w) !! p = Some c →
  Z.of_nat (length ikm) ≤ HWKEY_MAX_PAYLOAD_SIZE →
  wp (hwkey_handle_derive_key_cmd p hdr ikm) (λ rc w', ∃ hdr' data,
    trace w' = SSend (hwkey_chan c) (hwkey_msg_encode hdr' ++ data) rc :: trace w ∧
    cmd hdr' = Z.lor (cmd hdr) HWKEY_RESP_BIT ∧
    if (arg1 hdr =? HWKEY_KDF_VERSION_BEST) || (arg1 hdr =? HWKEY_KDF_VERSION_1) then
      arg1 hdr' = HWKEY_KDF_VERSION_1 ∧ ∃ k n,
        derive_key_v1 (hwkey_uuid c) ikm
          (KOut (key_data (loc w)) (Some HWKEY_MAX_PAYLOAD_SIZE) (dev w)) = Ret (status hdr') k ∧
        klen k = Some n ∧ data = take (Z.to_nat n) (kbuf k) ∧
        key_data (loc w') = memset0 (Z.to_nat n) (kbuf k)
    else
      arg1 hdr' = arg1 hdr ∧ status hdr' = HWKEY_ERR_NOT_IMPLEMENTED ∧ data = [] ∧
      key_data (loc w') = key_data (loc w)) w.
Proof.
  intros Hok Hp Hikm. unfold hwkey_handle_derive_key_cmd. ipc_steps.
  set (hdr1 := if arg1 hdr =? HWKEY_KDF_VERSION_BEST then _ else _).
  assert (cmd hdr1 = cmd hdr) as Hcmd by (unfold hdr1; by destruct (_ =? _)).
  assert ((arg1 hdr1 =? HWKEY_KDF_VERSION_1) =
          (arg1 hdr =? HWKEY_KDF_VERSION_BEST) || (arg1 hdr =? HWKEY_KDF_VERSION_1)) as Hv.
  { unfold hdr1. destruct (arg1 hdr =? HWKEY_KDF_VERSION_BEST); cbn; [apply Z.eqb_refl|done]. }
  rewrite <- Hv. change ((λ l, Z.of_nat (length (key_data l))) (loc w))
    with (Z.of_nat (length (key_data (loc w)))). rewrite (hk_key _ _ _ Hok).
  wp_cases Hv1; rewrite Hv1.
  - ipc_steps. eapply wp_load; [done|]. eapply wp_mono.
    { apply (call_key_fn_spec rest); [done|by apply derive_key_v1_ok|done]. }
    intros r w' ((st & k & Hrun & -> & ->) & Hn & Hok'). cbn [snd fst] in *.
    assert (∃ n, klen k = Some n) as [n Hkn].
    { pose proof (derive_key_v1_ok (hwkey_uuid c) ikm Hikm) as Hd.
      destruct (wp_returns _ _ _ (Hd (KOut (key_data (loc w)) (Some HWKEY_MAX_PAYLOAD_SIZE) (dev w))
        ltac:(split; [by eapply hk_key|by eexists]))) as (st' & k' & Hrun' & _ & n & Hkn & _).
      rewrite Hrun in Hrun'. simplify_eq. by exists n. }
    rewrite Hkn in *. cbn [from_option id] in *. eapply (reply_spec rest); [done|done|done|].
    intros rc v _. cbn [loc trace with_key_data key_data].
    eexists _, _. split_and!; [done|by cbn; rewrite Hcmd| |].
    + by apply Z.eqb_eq in Hv1.
    + by exists k, n.
  - apply wp_ret. cbn beta iota. eapply (reply_spec rest); [done|done|done|].
    intros rc v _. cbn [loc trace with_key_data key_data].
    eexists _, _. split_and!; [done|by cbn; rewrite Hcmd| |done|done|done].
    cbn. rewrite Hv1 in Hv. symmetry in Hv. apply orb_false_iff in Hv as [Hbest _].
    unfold hdr1. by rewrite Hbest.
Qed.

(** A function that, given a zeroed buffer, leaves nothing in it but the bytes
    it reports. *)
Definition zeroed (bs : bytes) : Prop := bs = replicate (Z.to_nat HWKEY_MAX_PAYLOAD_SIZE) 0.
Definition contained (f : M (kout D) Z) : Prop := ∀ k, kout_ok k → zeroed (kbuf k) →
  wp f (λ _ k', ∃ n, klen k' = Some n ∧ drop (Z.to_nat n) (kbuf k') = drop (Z.to_nat n) (kbuf k)) k.

Definition slot_contained (s : hwkey_keyslot D) : Prop :=
  match handler s with
  | NoHandler => True
  | GetKeyHandle o => from_option (λ d, contained (retriever d HWKEY_MAX_PAYLOAD_SIZE)) True o
  | ProviderFn f => contained (f HWKEY_MAX_PAYLOAD_SIZE)
  end.

(** What resolving a request leaves beyond the bytes it reports. *)
Definition rest_kept w (r : Z * Z) (w' : world (hwkey_state D) D W) : Prop :=
  drop (Z.to_nat r.2) (key_data (loc w')) = drop (Z.to_nat r.2) (key_data (loc w)).

Lemma call_contained rest f w :
  hwkey_ok rest (loc w) (trace w) → zeroed (key_data (loc w)) → contained f → ∀ klen0,
  0 ≤ klen0 ≤ HWKEY_MAX_PAYLOAD_SIZE → wp (call_key_fn f klen0) (rest_kept w) w.
Proof.
  intros Hok Hz Hc klen0 Hk.
  assert (kout_ok (KOut (key_data (loc w)) (Some klen0) (dev w))) as Hpre
    by (split; [by eapply hk_key|by eexists]).
  specialize (Hc _ Hpre Hz). unfold wp, call_key_fn in *. destruct (f _) as [rc k|]; [|done].
  destruct Hc as (n & Hn & Hd). unfold rest_kept. cbn. by rewrite Hn.
Qed.

Lemma handle_slots_contained fuel rest p c id w :
  (∀ d, token_ready fuel d) → hwkey_ok rest (loc w) (trace w) →
  hwkey_ctxs (loc w) !! p = Some c →
  (∀ i s, slot_of (loc w) i = Some s → slot_contained s) → zeroed (key_data (loc w)) →
  wp (handle_slots fuel p id (key_slots (loc w)) HWKEY_MAX_PAYLOAD_SIZE 0) (rest_kept w) w.
Proof.
  intros Hfuel Hok Hp Hall Hz. destruct (key_slots (loc w)) as [slots|] eqn:E; [|done].
  unfold wp, handle_slots. rewrite (handle_slots_loop_run _ _ _ _ _ _ _ _ _ _ Hok Hp).
  unfold resolve. destruct (select_slot _ _ _ _) as [[j s]|] eqn:Hsel.
  - change (wp (serve_slot fuel p j s HWKEY_MAX_PAYLOAD_SIZE 0) (rest_kept w) w).
    apply select_slot_Some in Hsel as (_ & Hj & Hserves). rewrite Nat.sub_0_r in Hj.
    assert (slot_of (loc w) j = Some s) as Hs by (unfold slot_of; by rewrite E).
    pose proof (slot_ok_of _ _ _ _ _ Hok Hs) as Hsk. specialize (Hall _ _ Hs).
    unfold slot_ok, serve_slot, slot_contained in *.
    destruct (handler s) as [|[data|]|f] eqn:Hh; rewrite ?Hh in Hsk, Hall; [done| |done|].
    + eapply wp_mono; [by eapply fetch_handle_spec|]. intros r w' [ | | |q bs d v Hf Hq Hbs]; try done.
      pose proof (token_draw_enough _ _ _ Hbs) as Hn.
      unfold rest_kept. cbn [loc with_key_data with_handles key_data snd].
      change (Z.to_nat HWKEY_OPAQUE_HANDLE_SIZE) with 32%nat.
      pose proof (token_ok_length _ (make_token_ok bs Hn)) as Htl. unfold overwrite.
      by rewrite drop_app_ge, Htl, Nat.sub_diag, drop_0 by lia.
    + by eapply call_contained.
  - destruct (opaque_lookup _ _ _) as [data|] eqn:Hl; [|done].
    change (wp (call_key_fn (retriever data HWKEY_MAX_PAYLOAD_SIZE) 0) (rest_kept w) w).
    eapply call_contained; [done|done| |done].
    apply opaque_lookup_Some in Hl as (q & n & _ & (s & Hs & Hd & _)%opens_Some).
    specialize (Hall _ _ Hs). unfold slot_contained, opaque_data in *.
    destruct (handler s); simplify_eq. exact Hall.
Qed.

Lemma memset_rest_wiped n kd kd' :
  0 ≤ n ≤ HWKEY_MAX_PAYLOAD_SIZE → zeroed kd →
  drop (Z.to_nat n) kd' = drop (Z.to_nat n) kd → zeroed (memset0 (Z.to_nat n) kd').
Proof.
  unfold zeroed. intros Hn -> Hd. unfold memset0, overwrite.
  rewrite length_replicate, Hd, drop_replicate, <- replicate_add. f_equal. lia.
Qed.

Lemma get_keyslot_wipes fuel rest p c hdr id w :
  (∀ d, token_ready fuel d) → hwkey_ok rest (loc w) (trace w) →
  hwkey_ctxs (loc w) !! p = Some c →
  (∀ i s, slot_of (loc w) i = Some s → slot_contained s) → zeroed (key_data (loc w)) →
  wp (hwkey_handle_get_keyslot_cmd fuel p hdr id) (λ _ w', zeroed (key_data (loc w'))) w.
Proof.
  intros Hfuel Hok Hp Hall Hz. unfold hwkey_handle_get_keyslot_cmd. ipc_steps.
  change ((λ l, Z.of_nat (length (key_data l))) (loc w))
    with (Z.of_nat (length (key_data (loc w)))). rewrite (hk_key _ _ _ Hok).
  eapply wp_mono; [apply wp_conj; [by eapply handle_slots_resolved|by eapply handle_slots_contained]|].
  intros [st n] w' [(Hc & _ & _ & Hn & Hok' & _) Hrest]. cbn [snd] in Hn.
  eapply (reply_spec rest); [done|by rewrite Hc|done|]. intros rc v _.
  by eapply memset_rest_wiped.
Qed.

Lemma derive_wipes rest p c hdr ikm w :
  hwkey_ok rest (loc w) (trace w) → hwkey_ctxs (loc w) !! p = Some c →
  Z.of_nat (length ikm) ≤ HWKEY_MAX_PAYLOAD_SIZE →
  contained (derive_key_v1 (hwkey_uuid c) ikm) → zeroed (key_data (loc w)) →
  wp (hwkey_handle_derive_key_cmd p hdr ikm) (λ _ w', zeroed (key_data (loc w'))) w.
Proof.
  intros Hok Hp Hikm Hc Hz. unfold hwkey_handle_derive_key_cmd. ipc_steps.
  change ((λ l, Z.of_nat (length (key_data l))) (loc w))
    with (Z.of_nat (length (key_data (loc w)))). rewrite (hk_key _ _ _ Hok). wp_cases Hv.
  - ipc_steps. eapply wp_load; [done|]. eapply wp_mono.
    { apply wp_conj; [|by eapply call_contained].
      apply (call_key_fn_resolved rest); [done|by apply derive_key_v1_ok|done]. }
    intros [st n] w' [(Hcx & _ & _ & Hn & Hok' & _) Hrest]. cbn [snd] in Hn.
    eapply (reply_spec rest); [done|by rewrite Hcx|done|]. intros rc v _.
    by eapply memset_rest_wiped.
  - apply wp_ret. cbn beta iota. eapply (reply_spec rest); [done|done|done|]. intros rc v _.
    by eapply memset_rest_wiped.
Qed.

(** C16. No key material stays in the key buffer: with a provider whose
    functions leave in a zeroed buffer only the bytes they report, the buffer
    is all zero again after every message, whatever it was answered with. *)
Theorem hwkey_key_data_wiped `{!KernelLaws W} fuel rest p c w :
  (∀ d, token_ready fuel d) → hwkey_ok rest (loc w) (trace w) →
  hwkey_ctxs (loc w) !! p = Some c →
  (∀ i s, slot_of (loc w) i = Some s → slot_contained s) →
  (∀ u ikm, Z.of_nat (length ikm) ≤ HWKEY_MAX_PAYLOAD_SIZE → contained (derive_key_v1 u ikm)) →
  zeroed (key_data (loc w)) →
  wp (hwkey_chan_handle_msg fuel p) (λ _ w', zeroed (key_data (loc w'))) w.
Proof.
  intros Hfuel Hok Hp Hall Hder Hz. pose proof sizeof_hwkey_msg_range as Hsz.
  unfold hwkey_chan_handle_msg. ipc_steps. eapply wp_load; [done|]. ipc_steps.
  eapply recv_spec; [done| |].
  { intros rc bs v Hrc. wp_cases Hneg; [by ipc_steps|lia]. }
  intros msg v Hl Hmax. pose proof (received_ok rest (hwkey_chan c) msg v w Hmax Hok) as Hok1.
  wp_cases Hneg; [lia|]. rewrite u64_small by (unfold HWKEY_MAX_PAYLOAD_SIZE in Hmax; lia).
  rewrite <- Hl. pose proof (hk_req _ _ _ Hok1) as Hlen. wp_cases Hget; [|wp_cases Hd].
  - ipc_steps. apply terminate_spec; [lia|]. ipc_steps.
    eapply (get_keyslot_wipes _ rest); [done| |done|done|done].
    apply (hwkey_ok_req_data rest (<[length (msg_payload msg) := 0]>
      (req_data (loc (received (hwkey_chan c) msg v w))))); [by rewrite length_insert|exact Hok1].
  - ipc_steps. eapply wp_mono; [eapply (derive_wipes rest); [done|done| | |done]|].
    + rewrite length_take. lia.
    + apply Hder. rewrite length_take. lia.
    + intros rc w' Hz'. by ipc_steps.
  - unfold hwkey_send_rsp. by apply wp_send.
Qed.
End Answers.

(** * Derived keys *)

Section Derived.
Context {D : Type} `{!HwkeyIface} `{!Evp D} `{!EvpLaws D}.
Implicit Types (k : kout D) (data : hwkey_derived_keyslot_data D).

Lemma wp_dev_call {A} (f : D → A * D) (Q : A → kout D → Prop) k :
  (∀ a d, f (kdev k) = (a, d) → Q a (KOut (kbuf k) (klen k) d)) → wp (dev_call f) Q k.
Proof. intros HQ. unfold wp, dev_call. destruct (f (kdev k)) as [a d]. by apply HQ. Qed.

Lemma wp_write_kbuf bs (Q : unit → kout D → Prop) k :
  (length bs ≤ length (kbuf k))%nat →
  Q tt (KOut (overwrite bs (kbuf k)) (klen k) (kdev k)) → wp (write_kbuf bs) Q k.
Proof. intros Hl HQ. unfold wp, write_kbuf. by rewrite (proj2 (Nat.leb_le _ _)). Qed.

Definition derived_iv (c : cipher) data : bytes :=
  take (Z.to_nat (evp_iv_length c)) (encrypted_key_data data).
Definition derived_ciphertext (c : cipher) data : bytes :=
  drop (Z.to_nat (evp_iv_length c)) (encrypted_key_data data).

(** The call of the retriever on the zeroed local buffer. *)
Definition retrieved data (d : D) : outcome (kout D) Z :=
  derived_retriever data HWKEY_DERIVED_KEY_MAX_SIZE
    (KOut (replicate (Z.to_nat HWKEY_DERIVED_KEY_MAX_SIZE) 0) None d).

(** A well-formed slot: the size is that of the data, the ciphertext a whole
    number of blocks, and the retriever returns, reporting a length when it
    succeeds. *)
Record derived_data_ok data : Prop := {
  dd_size : encrypted_key_size_ptr data = Some (Z.of_nat (length (encrypted_key_data data)));
  dd_aligned c : c = AES_128_CBC ∨ c = AES_256_CBC → aligned c (derived_ciphertext c data);
  dd_retriever d : ∃ rc k, retrieved data d = Ret rc k ∧
    (rc = HWKEY_NO_ERROR → is_Some (klen k))
}.

(** What a successful derivation leaves. *)
Definition derived_key data k k' : Prop := ∃ kr n c,
  retrieved data (kdev k) = Ret HWKEY_NO_ERROR kr ∧ klen kr = Some n ∧ cipher_for n = Some c ∧
  let pt := aes_decrypt c (take (Z.to_nat n) (kbuf kr)) (derived_iv c data)
              (derived_ciphertext c data) in
  kbuf k' = overwrite pt (kbuf k) ∧ klen k' = Some (Z.of_nat (length pt)).

Lemma cipher_for_cbc n c : cipher_for n = Some c → c = AES_128_CBC ∨ c = AES_256_CBC.
Proof. unfold cipher_for. repeat case_match; intros; simplify_eq; auto. Qed.

(** The outcomes of a derivation that [ok] describes when it succeeds. *)
Definition derivation (ok : kout D → Prop) k (rc : Z) k' : Prop :=
  length (kbuf k') = length (kbuf k) ∧
  if decide (rc = HWKEY_NO_ERROR) then ok k'
  else klen k' = klen k ∧ (EvpAtomic D → kbuf k' = kbuf k).

Lemma derivation_fails ok k rc d (buf : bytes) :
  rc ≠ HWKEY_NO_ERROR → length buf = length (kbuf k) → (EvpAtomic D → buf = kbuf k) →
  wp (ret rc) (derivation ok k) (KOut buf (klen k) d).
Proof. intros Hrc Hl Hsame. apply wp_ret. split; [done|]. by rewrite decide_False. Qed.

(** Decrypting with a key. *)
Lemma decrypt_derived_spec data c key size kbuf_len k :
  size = Z.of_nat (length (encrypted_key_data data)) → kbuf_len = Z.of_nat (length (kbuf k)) →
  aligned c (derived_ciphertext c data) →
  let pt := aes_decrypt c key (derived_iv c data) (derived_ciphertext c data) in
  wp (decrypt_derived data c key size kbuf_len) (derivation (λ k',
    kbuf k' = overwrite pt (kbuf k) ∧ klen k' = Some (Z.of_nat (length pt))) k) k.
Proof.
  intros Hsize -> Hal pt. pose proof hwkey_errors_not_ok as (Hgen & _ & Hbad & _).
  pose proof (evp_iv_nonneg c) as Hiv. unfold decrypt_derived.
  wp_steps. apply wp_dev_call. intros b2 d2 _. wp_cases H2; [by apply (derivation_fails _ k)|].
  wp_cases Hsmall; [by apply (derivation_fails _ k)|]. wp_cases Hroom; [by apply derivation_fails|].
  wp_steps. apply wp_dev_call. intros b3 d3 _. wp_cases H3; [by apply (derivation_fails _ k)|].
  wp_steps. apply wp_dev_call. intros b4 d4 _. wp_cases H4; [by apply (derivation_fails _ k)|].
  assert (take (Z.to_nat (size - evp_iv_length c))
    (drop (Z.to_nat (evp_iv_length c)) (encrypted_key_data data)) = derived_ciphertext c data) as ->.
  { apply take_ge. unfold derived_ciphertext. rewrite length_drop. lia. }
  assert (Z.of_nat (length (derived_ciphertext c data)) = size - evp_iv_length c) as Hct
    by (unfold derived_ciphertext; rewrite length_drop; lia).
  wp_steps. apply wp_dev_call. intros [ok out] d5 Hup. wp_steps.
  cbn [kbuf klen kdev] in *. pose proof (evp_decrypt_bound _ _ _ _ _ _ _ _ Hup) as Hout.
  apply wp_write_kbuf; [cbn [kbuf]; lia|]. cbn [kbuf klen kdev].
  assert (length (overwrite out (kbuf k)) = length (kbuf k)) as Hol
    by (apply length_overwrite; lia).
  destruct ok; cbn [negb].
  2: { apply (derivation_fails _ k); [done|done|]. intros HA. by rewrite (evp_decrypt_fail _ _ _ _ _ _ _ Hup). }
  pose proof (evp_decrypt_ok _ _ _ _ _ _ _ Hal Hup) as Hpt.
  pose proof (aes_decrypt_length c key (derived_iv c data) (derived_ciphertext c data)) as Hpl.
  wp_steps. apply wp_assert; [unfold derived_iv in Hpl; rewrite Hpt; lia|].
  wp_steps. apply wp_dev_call. intros [ok m] d6 Hfin.
  destruct ok; cbn [negb].
  2: { apply (derivation_fails _ k); [done|done|]. intros HA.
    by pose proof (evp_final_succeeds _ _ _ _ _ _ Hal Hfin). }
  rewrite (evp_final_ok _ _ _ _ _ Hal Hfin). wp_steps. apply wp_assert; [done|].
  unfold set_klen. wp_steps. split; [done|]. rewrite decide_True by done. cbn [kbuf klen].
  unfold pt, derived_iv in *. subst out. split; [done|]. f_equal. lia.
Qed.

Lemma get_derived_key_spec data kbuf_len k :
  derived_data_ok data → kbuf_len = Z.of_nat (length (kbuf k)) →
  wp (hwkey_get_derived_key data kbuf_len) (derivation (derived_key data k) k) k.
Proof.
  intros Hd ->. pose proof hwkey_errors_not_ok as (Hgen & _).
  unfold hwkey_get_derived_key. rewrite (dd_size _ Hd).
  destruct (dd_retriever _ Hd (kdev k)) as (rc & kr & Hr & Hlen).
  apply wp_bind. unfold wp at 1, retrieve_key. unfold retrieved in Hr. rewrite Hr.
  destruct (Z.eqb_spec rc HWKEY_NO_ERROR) as [->|Hrc]; cbn [negb]; [|by apply (derivation_fails _ k)].
  destruct (Hlen eq_refl) as [n Hn]. rewrite Hn.
  destruct (cipher_for n) as [c|] eqn:Hc; [|by apply (derivation_fails _ k)].
  wp_steps. apply wp_dev_call. intros b1 d1 _. wp_cases H1; [by apply (derivation_fails _ k)|].
  apply wp_bind. eapply wp_mono;
    [apply decrypt_derived_spec; [done|done|apply (dd_aligned _ Hd), (cipher_for_cbc n), Hc]|].
  intros rc k' [Hl Hk']. wp_steps. apply wp_dev_call. intros _ d2 _. wp_steps. split; [done|].
  destruct (decide (rc = HWKEY_NO_ERROR)); [|done]. by exists kr, n, c.
Qed.

(** C17. hwkey_get_derived_key on a well-formed slot always returns, with no
    assertion failing and no write outside the buffer: on success the buffer
    holds the slot's data decrypted with the retrieved key and the reported
    length is the plaintext's; on every error (retriever, key size, EVP
    calls, data too short, buffer too small) the reported length is left as
    it was, and so is the buffer when failing library calls write nothing. *)
Theorem hwkey_get_derived_key_correct data kbuf_len k :
  derived_data_ok data → kbuf_len = Z.of_nat (length (kbuf k)) →
  wp (hwkey_get_derived_key data kbuf_len) (λ rc k',
    length (kbuf k') = length (kbuf k) ∧
    if decide (rc = HWKEY_NO_ERROR) then derived_key data k k'
    else klen k' = klen k ∧ (EvpAtomic D → kbuf k' = kbuf k)) k.
Proof. apply get_derived_key_spec. Qed.
End Derived.

(** * Start-up *)

Section Start.
Context {D W : Type} `{!Uapi} `{!HwkeyIface} `{!HwrngDev D} `{!HwkeyProvider D} `{!Kernel W}.
Implicit Types w : world (hwkey_state D) D W.

Lemma hwkey_init_ok : hwkey_ok (D:=D) [] hwkey_init [].
Proof.
  split; try done; try (by vm_compute); apply NoDup_nil_2.
Qed.

Lemma install_and_start_ok rest keys w :
  hwkey_ok rest (loc w) (trace w) → key_slots (loc w) = None →
  opaque_handles (loc w) = [] → keys ≠ [] → Forall slot_ok keys →
  wp (hwkey_install_keys keys;; hwkey_start_service) (λ rc w',
    key_slots (loc w') = Some keys ∧
    if rc =? NO_ERROR
    then ∃ port, hwkey_ok (port :: rest) (loc w') (trace w')
    else hwkey_ok rest (loc w') (trace w')) w.
Proof.
  intros Hok Hnone Hnil Hkeys Htab. pose proof no_error_zero as Hno.
  unfold hwkey_install_keys, hwkey_start_service, port_create. ipc_steps. cbn. rewrite Hnone.
  apply wp_assert; [done|]. ipc_steps. apply wp_assert; [by destruct keys|]. ipc_steps.
  assert (hwkey_ok rest (with_key_slots (Some keys) (loc w)) (trace w)) as Hok'.
  { destruct Hok. split; auto; cbn.
    - by rewrite Hnil.
    - intros slots [= <-]. done. }
  ipc_call rc v E. wp_cases Hrc; ipc_steps.
  { split; [done|]. destruct (Z.eqb_spec rc NO_ERROR); [lia|]. by apply hwkey_ok_trace. }
  unfold set_cookie. ipc_call rc' v' E'.
  assert (hwkey_ok (rc :: rest) (with_key_slots (Some keys) (loc w))
    (SSetCookie rc rc' :: SPortCreate HWKEY_PORT rc :: trace w)) as Hopen.
  { apply hwkey_ok_trace; [done|]. destruct Hok'. split; auto.
    eapply balanced_perm; [|apply balanced_port; [lia|done]]. by rewrite Permutation_middle. }
  wp_cases Hck; ipc_steps.
  - apply wp_close. intros rc2 v2. ipc_steps. split; [done|].
    destruct (Z.eqb_spec rc' NO_ERROR); [lia|]. destruct Hopen. split; auto.
    apply balanced_close. eapply balanced_perm; [|done]. by rewrite <- Permutation_middle.
  - rewrite Z.eqb_refl. split; [done|]. by exists rc.
Qed.

End Start.
