(* ===== verification/HwkeyProvider.v ===== *)
(** The sample's fake key provider, hwcrypto/hwkey_srv_fake_provider.c: its
    key functions, its tables under every build configuration, and the proof
    that it keeps the promises the key service relies on. *)

From S2P Require Import Prelude Ipc HwrngDev Evp Hwkey HwkeyProps HwkeyCorrect.

(** * 1. Constants *)

(** The bytes of a C string literal. *)
Definition str (s : string) : bytes :=
  (λ a, Z.of_nat (Ascii.nat_of_ascii a)) <$> String.list_ascii_of_string s.

(** hwcrypto_consts.json. *)
Definition HWCRYPTO_UNITTEST_APP_UUID : uuid := "ab742471-d6e6-4806-85f6-0555b024f4da"%string.
Definition SECURE_STORAGE_SERVER_APP_UUID : uuid := "cea8706d-6cb4-49f3-b994-29e0e478bd29"%string.
Definition KM_APP_UUID : uuid := "5f902ace-5e5c-4cd8-ae54-87b88c22ddaf"%string.
Definition APPLOADER_APP_UUID : uuid := "081ba88f-f1ee-452e-b5e8-a7e9ef173a97"%string.
Definition SAMPLE_HWAES_APP_UUID : uuid := "6f4a2303-f4f8-431d-82d1-3ec52aebbb89"%string.
Definition HWAES_UNITTEST_APP_UUID : uuid := "ab8a6820-1cc2-44d5-bee0-22b51befa835"%string.
Definition GATEKEEPER_APP_UUID : uuid := "38ba0cdc-df0e-11e4-9869-233fb6ae4795"%string.
Definition SAMPLE_HWBCC_APP_UUID : uuid := "f758d162-3481-4bb4-ab54-5ed41652f44e"%string.
Definition HWBCC_UNITTEST_APP_UUID : uuid := "0e109d31-8bbe-47d6-bb47-e1dd08910e16"%string.

Definition fake_device_key : bytes := str "this is a fake unique device key".

(** RFC 5869, test case 1. *)
Definition IKM : bytes := replicate 22 11.
Definition salt : bytes := seqZ 0 13.
Definition info : bytes := seqZ 240 10.
Definition exp_OKM : bytes :=
  [60; 178; 95; 37; 250; 172; 213; 122; 144; 67; 79;
   100; 208; 54; 47; 42; 45; 45; 10; 144; 207; 26;
   90; 76; 93; 176; 45; 86; 236; 196; 197; 191; 52;
   0; 114; 8; 213; 184; 135; 24; 88; 101].

Definition _unittest_key32 : bytes := str "unittestkeyslotunittestkeyslotun".
Definition _unittest_encrypted_key32 : bytes :=
  [0; 0; 0; 0; 0; 0; 0; 0; 0; 0; 0; 0;
   0; 0; 0; 0; 62; 43; 2; 84; 84; 140; 167; 184;
   163; 250; 245; 208; 188; 29; 64; 17; 172; 104; 187; 240;
   85; 163; 197; 73; 62; 119; 74; 139; 63; 51; 86; 7].

Definition RPMB_SS_AUTH_KEY_SIZE : Z := 32.
Definition RPMB_SS_AUTH_KEY_ID : string := "com.android.trusty.storage_auth.rpmb".
Definition rpmb_salt : bytes :=
  [66; 24; 169; 242; 246; 177; 245; 53; 6; 55; 159;
   186; 204; 26; 201; 54; 244; 131; 4; 212; 241; 101;
   145; 50; 166; 174; 218; 39; 77; 33; 219; 64].

Definition KM_KAK_SIZE : Z := 32.
Definition KM_KAK_ID : string := "com.android.trusty.keymint.kak".
Definition kak_salt : bytes :=
  [112; 196; 124; 250; 44; 177; 238; 220; 165; 223; 188;
   141; 212; 247; 13; 66; 147; 59; 127; 123; 194; 158;
   109; 165; 178; 146; 122; 33; 142; 201; 230; 154].

(** The build's configuration: the unit tests' keys, and for each apploader
    key the content of its file, when one is given, and whether the signing
    key is for unlocked devices only. *)
Record config := Config {
  WITH_HWCRYPTO_UNITTEST : bool;
  APPLOADER_SIGN_PUBLIC_KEY_0_FILE : option bytes;
  APPLOADER_SIGN_KEY_0_UNLOCKED_ONLY : bool;
  APPLOADER_SIGN_PUBLIC_KEY_1_FILE : option bytes;
  APPLOADER_SIGN_KEY_1_UNLOCKED_ONLY : bool;
  APPLOADER_ENCRYPT_KEY_0_FILE : option bytes;
  APPLOADER_ENCRYPT_KEY_1_FILE : option bytes
}.

Definition is_set {A} (o : option A) : bool := match o with Some _ => true | None => false end.
Definition APPLOADER_HAS_SIGNING_KEYS (cfg : config) : bool :=
  is_set (APPLOADER_SIGN_PUBLIC_KEY_0_FILE cfg) || is_set (APPLOADER_SIGN_PUBLIC_KEY_1_FILE cfg).
Definition APPLOADER_HAS_ENCRYPTION_KEYS (cfg : config) : bool :=
  is_set (APPLOADER_ENCRYPT_KEY_0_FILE cfg) || is_set (APPLOADER_ENCRYPT_KEY_1_FILE cfg).

(** * 2. Key functions *)

(** Code outside the repository: the memory representation of a [uuid_t] and
    lib/system_state. *)
Class Platform (D : Type) := {
  uuid_bytes : uuid → bytes;
  system_state_app_loading_unlocked : D → bool * D
}.

Section Functions.
Context {D : Type} `{!HwkeyIface} `{!Evp D} `{!Platform D}.
Abbreviation K := (M (kout D)).

Definition hkdf_self_test (d : D) : bool * D :=
  let '((res, OKM), d) := hkdf (Z.of_nat (length exp_OKM)) IKM salt info d in
  if negb res then (false, d) else
  if negb (bool_decide (OKM = exp_OKM)) then (false, d) else (true, d).

Definition hwkey_self_test (d : D) : bool * D :=
  let '(ok, d) := hkdf_self_test d in if negb ok then (false, d) else (true, d).

Definition fake_derive_key_v1 (u : uuid) (ikm_data : bytes) : K Z :=
  let ikm_len := Z.of_nat (length ikm_data) in
  if ikm_len =? 0 then set_klen 0;; ret HWKEY_ERR_BAD_LEN else
  r ← dev_call (hkdf ikm_len fake_device_key (uuid_bytes u) ikm_data);
  let '(ok, out) := r in
  write_kbuf out;;
  if negb ok then
    set_klen 0;;
    write_kbuf (replicate (Z.to_nat ikm_len) 0);;
    ret HWKEY_ERR_GENERIC
  else
    set_klen ikm_len;;
    ret HWKEY_NO_ERROR.

Definition get_unittest_key32 : key_fn D := λ kbuf_len,
  assert (Z.of_nat (length _unittest_key32) <=? kbuf_len);;
  write_kbuf _unittest_key32;;
  set_klen (Z.of_nat (length _unittest_key32));;
  ret HWKEY_NO_ERROR.

Definition get_unittest_key32_handler : key_fn D := get_unittest_key32.
Definition get_unittest_key32_derived : key_fn D := get_unittest_key32.
Definition get_unittest_key32_opaque : key_fn D := get_unittest_key32.

Definition hwcrypto_unittest_derived_data : hwkey_derived_keyslot_data D :=
  DerivedData _unittest_encrypted_key32 (Some (Z.of_nat (length _unittest_encrypted_key32)))
    get_unittest_key32_derived.

(** [slot->priv] and [data->priv] applied. *)
Definition derived_keyslot_handler (priv : hwkey_derived_keyslot_data D) : key_fn D :=
  hwkey_get_derived_key priv.
Definition get_derived_key_opaque (priv : hwkey_derived_keyslot_data D) : key_fn D :=
  hwkey_get_derived_key priv.

Definition unittest_opaque_handle_data : hwkey_opaque_handle_data D :=
  OpaqueData [HWCRYPTO_UNITTEST_APP_UUID] get_unittest_key32_opaque.
Definition unittest_opaque_handle_data2 : hwkey_opaque_handle_data D :=
  OpaqueData [HWCRYPTO_UNITTEST_APP_UUID] get_unittest_key32_opaque.
Definition unittest_opaque_handle_data_noaccess : hwkey_opaque_handle_data D :=
  OpaqueData [] get_unittest_key32_opaque.
Definition unittest_opaque_derived_data : hwkey_opaque_handle_data D :=
  OpaqueData [HWCRYPTO_UNITTEST_APP_UUID] (get_derived_key_opaque hwcrypto_unittest_derived_data).
Definition hwaes_unittest_opaque_handle_data : hwkey_opaque_handle_data D :=
  OpaqueData [SAMPLE_HWAES_APP_UUID] get_unittest_key32_opaque.

(** Its calls on the context.  No IV is given: the context's is all zero. *)
Definition encrypt_rpmb_salt (kbuf_len : Z) : K Z :=
  init ← dev_call (evp_call EvpInitKey);
  if negb init then ret HWKEY_ERR_GENERIC else
  padding ← dev_call (evp_call EvpPadding);
  if negb padding then ret HWKEY_ERR_GENERIC else
  let min_kbuf_len := RPMB_SS_AUTH_KEY_SIZE + evp_key_length AES_256_CBC in
  if kbuf_len <? min_kbuf_len then ret HWKEY_ERR_GENERIC else
  let iv := replicate (Z.to_nat (evp_iv_length AES_256_CBC)) 0 in
  r ← dev_call (evp_encrypt_update AES_256_CBC fake_device_key iv rpmb_salt);
  let '(ok, out) := r in
  write_kbuf out;;
  if negb ok then ret HWKEY_ERR_GENERIC else
  if negb (Z.of_nat (length out) =? RPMB_SS_AUTH_KEY_SIZE) then ret HWKEY_ERR_GENERIC else
  r ← dev_call (evp_final AES_256_CBC rpmb_salt);
  let '(ok, _) := r in
  if negb ok then ret HWKEY_ERR_GENERIC else
  set_klen RPMB_SS_AUTH_KEY_SIZE;;
  ret HWKEY_NO_ERROR.

Definition get_rpmb_ss_auth_key : key_fn D := λ kbuf_len,
  dev_call (evp_call EvpCtxInit);;
  rc ← encrypt_rpmb_salt kbuf_len;
  dev_call (evp_call EvpCtxCleanup);;
  ret rc.

Definition get_km_kak_key (slot_uuid : uuid) : key_fn D := λ kbuf_len,
  if kbuf_len <? KM_KAK_SIZE then ret HWKEY_ERR_BAD_LEN
  else fake_derive_key_v1 slot_uuid kak_salt.

Definition get_apploader_key (key : bytes) : key_fn D := λ kbuf_len,
  let key_size := Z.of_nat (length key) in
  assert (key_size <=? kbuf_len);;
  write_kbuf key;;
  set_klen key_size;;
  ret HWKEY_NO_ERROR.

Definition get_apploader_sign_key (priv : bytes) : key_fn D := get_apploader_key priv.

Definition get_apploader_sign_unlocked_key (priv : bytes) : key_fn D := λ kbuf_len,
  unlocked ← dev_call system_state_app_loading_unlocked;
  if (unlocked : bool) then get_apploader_key priv kbuf_len else ret HWKEY_ERR_NOT_FOUND.

Definition get_apploader_key_opaque (priv : bytes) : key_fn D := get_apploader_key priv.

Definition apploader_encrypt_key_opaque_handle_data (key : bytes) : hwkey_opaque_handle_data D :=
  OpaqueData [SAMPLE_HWAES_APP_UUID] (get_apploader_key_opaque key).
End Functions.

(** * 3. Tables *)

Section Tables.
Context {D : Type} `{!HwkeyIface} `{!Evp D} `{!Platform D}.

(** An entry under [#if]. *)
Definition entry_if {A} (b : bool) (a : A) : list A := if b then [a] else [].

Definition allowed_clients (cfg : config) : list uuid :=
  [SECURE_STORAGE_SERVER_APP_UUID; KM_APP_UUID; SAMPLE_HWAES_APP_UUID; GATEKEEPER_APP_UUID] ++
  entry_if (APPLOADER_HAS_SIGNING_KEYS cfg || APPLOADER_HAS_ENCRYPTION_KEYS cfg)
    APPLOADER_APP_UUID ++
  [HWCRYPTO_UNITTEST_APP_UUID] ++
  entry_if (WITH_HWCRYPTO_UNITTEST cfg) HWAES_UNITTEST_APP_UUID ++
  [SAMPLE_HWBCC_APP_UUID; HWBCC_UNITTEST_APP_UUID].

Definition fake_client_allowed (cfg : config) (u : uuid) : bool :=
  existsb (λ a, bool_decide (a = u)) (allowed_clients cfg).

Definition sign_slot (id : string) (file : option bytes) (unlocked_only : bool) :
    list (hwkey_keyslot D) :=
  match file with
  | Some key =>
    [KeySlot (str id) APPLOADER_APP_UUID
       (ProviderFn (if unlocked_only then get_apploader_sign_unlocked_key key
                    else get_apploader_sign_key key))]
  | None => []
  end.

Definition encrypt_slot (id : string) (file : option bytes) : list (hwkey_keyslot D) :=
  match file with
  | Some key =>
    [KeySlot (str id) APPLOADER_APP_UUID
       (GetKeyHandle (Some (apploader_encrypt_key_opaque_handle_data key)))]
  | None => []
  end.

Definition unittest_slots : list (hwkey_keyslot D) :=
  [KeySlot (str "com.android.trusty.hwcrypto.unittest.key32") HWCRYPTO_UNITTEST_APP_UUID
     (ProviderFn get_unittest_key32_handler);
   KeySlot (str "com.android.trusty.hwcrypto.unittest.derived_key32") HWCRYPTO_UNITTEST_APP_UUID
     (ProviderFn (derived_keyslot_handler hwcrypto_unittest_derived_data));
   KeySlot (str "com.android.trusty.hwcrypto.unittest.opaque_handle") HWCRYPTO_UNITTEST_APP_UUID
     (GetKeyHandle (Some unittest_opaque_handle_data));
   KeySlot (str "com.android.trusty.hwcrypto.unittest.opaque_handle2") HWCRYPTO_UNITTEST_APP_UUID
     (GetKeyHandle (Some unittest_opaque_handle_data2));
   KeySlot (str "com.android.trusty.hwcrypto.unittest.opaque_handle_noaccess")
     HWCRYPTO_UNITTEST_APP_UUID
     (GetKeyHandle (Some unittest_opaque_handle_data_noaccess));
   KeySlot (str "com.android.trusty.hwcrypto.unittest.opaque_derived") HWCRYPTO_UNITTEST_APP_UUID
     (GetKeyHandle (Some unittest_opaque_derived_data));
   KeySlot (str "com.android.trusty.hwaes.unittest.opaque_handle") HWAES_UNITTEST_APP_UUID
     (GetKeyHandle (Some hwaes_unittest_opaque_handle_data))].

Definition _keys (cfg : config) : list (hwkey_keyslot D) :=
  [KeySlot (str RPMB_SS_AUTH_KEY_ID) SECURE_STORAGE_SERVER_APP_UUID
     (ProviderFn get_rpmb_ss_auth_key);
   KeySlot (str KM_KAK_ID) KM_APP_UUID (ProviderFn (get_km_kak_key KM_APP_UUID))] ++
  sign_slot "com.android.trusty.apploader.sign.key.0"
    (APPLOADER_SIGN_PUBLIC_KEY_0_FILE cfg) (APPLOADER_SIGN_KEY_0_UNLOCKED_ONLY cfg) ++
  sign_slot "com.android.trusty.apploader.sign.key.1"
    (APPLOADER_SIGN_PUBLIC_KEY_1_FILE cfg) (APPLOADER_SIGN_KEY_1_UNLOCKED_ONLY cfg) ++
  encrypt_slot "com.android.trusty.apploader.encrypt.key.0" (APPLOADER_ENCRYPT_KEY_0_FILE cfg) ++
  encrypt_slot "com.android.trusty.apploader.encrypt.key.1" (APPLOADER_ENCRYPT_KEY_1_FILE cfg) ++
  (if WITH_HWCRYPTO_UNITTEST cfg then unittest_slots else []).
End Tables.

(** The functions hwkey_srv.c is linked with. *)
Definition fake_provider (cfg : config) {D} `{!HwkeyIface, !Evp D, !Platform D} :
    HwkeyProvider D := {|
  hwkey_client_allowed := fake_client_allowed cfg;
  derive_key_v1 := fake_derive_key_v1
|}.

Section Init.
Context {D W : Type} `{!Uapi} `{!HwkeyIface} `{!Evp D} `{!Platform D} `{!HwrngDev D} `{!Kernel W}.

(** A failure to start the service is only logged. *)
Definition hwkey_init_srv_provider (cfg : config) : M (world (hwkey_state D) D W) unit :=
  ok ← (λ w, let '(b, d) := hwkey_self_test (dev w) in Ret b (set_dev d w));
  if negb ok then stop Aborted else
  hwkey_install_keys (_keys cfg);;
  hwkey_start_service;;
  ret tt.
End Init.

(** * 4. The provider keeps its promises *)

Lemma overwrite_zeros (n m : nat) (out : bytes) :
  (length out ≤ n)%nat → (n ≤ m)%nat →
  overwrite (replicate n 0) (overwrite out (replicate m 0)) = replicate m 0.
Proof.
  intros Ho Hn. unfold overwrite. rewrite length_replicate, drop_app_ge, drop_replicate by done.
  rewrite drop_replicate, <- replicate_add. f_equal. lia.
Qed.

Section Behaviour.
Context {D : Type} `{!HwkeyIface} `{!Evp D} `{!EvpLaws D} `{!EvpCbc D} `{!Platform D}.
Implicit Types k : kout D.

(** A key function keeps the buffer and reports a length inside it, and, with
    atomic library calls, leaves in a zeroed buffer only what it reports. *)
Definition good_result k k' : Prop :=
  kout_ok k' ∧ (EvpAtomic D → zeroed (kbuf k) → ∃ n, klen k' = Some n ∧
    drop (Z.to_nat n) (kbuf k') = drop (Z.to_nat n) (kbuf k)).
Definition behaves (m : M (kout D) Z) : Prop := ∀ k, kout_ok k → wp m (λ _, good_result k) k.

Lemma behaves_ok m : behaves m → key_fn_ok m.
Proof. intros Hm k Hk. eapply wp_mono; [by apply Hm|]. by intros ? k' [? _]. Qed.

Lemma behaves_contained `{!EvpAtomic D} m : behaves m → contained m.
Proof. intros Hm k Hk Hz. eapply wp_mono; [by apply Hm|]. intros ? k' [_ Hc]. auto. Qed.

Lemma good_kept k d : kout_ok k → good_result k (KOut (kbuf k) (klen k) d).
Proof. intros Hk. split; [exact Hk|]. intros _ _. destruct Hk as [_ (n & Hn & _)]. by exists n. Qed.

Lemma good_written k bs d :
  kout_ok k → Z.of_nat (length bs) ≤ HWKEY_MAX_PAYLOAD_SIZE →
  good_result k (KOut (overwrite bs (kbuf k)) (Some (Z.of_nat (length bs))) d).
Proof.
  intros [Hl _] Hbs. split.
  - split; cbn; [rewrite length_overwrite; lia|]. eexists. split; [done|lia].
  - intros _ _. eexists. split; [done|]. cbn. unfold overwrite.
    by rewrite Nat2Z.id, drop_app_length.
Qed.

Lemma good_partial k out d :
  kout_ok k → Z.of_nat (length out) ≤ HWKEY_MAX_PAYLOAD_SIZE → (EvpAtomic D → out = []) →
  good_result k (KOut (overwrite out (kbuf k)) (klen k) d).
Proof.
  intros Hk Hout Hat. pose proof Hk as [Hl Hn]. split.
  - split; [cbn; rewrite length_overwrite; lia|done].
  - intros HA Hz. rewrite (Hat HA). exact (proj2 (good_kept k d Hk) HA Hz).
Qed.

Lemma behaves_const (bs : bytes) st :
  Z.of_nat (length bs) ≤ HWKEY_MAX_PAYLOAD_SIZE →
  behaves (assert (Z.of_nat (length bs) <=? HWKEY_MAX_PAYLOAD_SIZE);;
           write_kbuf bs;; set_klen (Z.of_nat (length bs));; ret st).
Proof.
  intros Hbs k Hk. pose proof Hk as [Hl _]. wp_steps. apply wp_assert; [lia|].
  wp_steps. apply wp_write_kbuf; [lia|]. unfold set_klen. wp_steps. by apply good_written.
Qed.

Lemma derive_behaves u ikm :
  Z.of_nat (length ikm) ≤ HWKEY_MAX_PAYLOAD_SIZE → behaves (fake_derive_key_v1 u ikm).
Proof.
  intros Hikm k Hk. pose proof Hk as [Hl _]. unfold fake_derive_key_v1. wp_cases H0.
  { unfold set_klen. wp_steps. split.
    - split; [done|]. by exists 0.
    - intros _ _. by exists 0. }
  wp_steps. apply wp_dev_call. intros [ok out] d E.
  assert (0 ≤ Z.of_nat (length ikm)) as Hpos by lia.
  pose proof (hkdf_bound _ _ _ _ _ _ _ _ Hpos E) as Hout.
  wp_steps. apply wp_write_kbuf; [cbn [kbuf]; lia|]. cbn [kbuf klen kdev].
  destruct ok; cbn [negb]; unfold set_klen; wp_steps.
  - pose proof (hkdf_ok _ _ _ _ _ _ _ Hpos E) as ->.
    pose proof (good_written k (hkdf_sha256 (Z.of_nat (length ikm)) fake_device_key
                  (uuid_bytes u) ikm) d Hk) as Hgood.
    rewrite hkdf_sha256_length in Hgood by lia. by apply Hgood.
  - cbn [kbuf klen kdev]. assert (length (replicate (Z.to_nat (Z.of_nat (length ikm))) 0) =
      length ikm) as Hr by (rewrite length_replicate; lia).
    apply wp_write_kbuf; cbn [kbuf]; [rewrite length_overwrite; lia|]. wp_steps.
    cbn [kbuf klen kdev]. split.
    + split; [cbn; rewrite !length_overwrite; rewrite ?length_overwrite; lia|]. by exists 0.
    + intros _ Hz. exists 0. split; [done|]. cbn [kbuf]. f_equal. rewrite Hz.
      apply overwrite_zeros; lia.
Qed.

Lemma km_kak_behaves u : behaves (get_km_kak_key u HWKEY_MAX_PAYLOAD_SIZE).
Proof. by apply derive_behaves. Qed.

Lemma unittest_key_behaves : behaves (get_unittest_key32 HWKEY_MAX_PAYLOAD_SIZE).
Proof. by apply behaves_const. Qed.

Lemma apploader_behaves key :
  Z.of_nat (length key) ≤ HWKEY_MAX_PAYLOAD_SIZE →
  behaves (get_apploader_key key HWKEY_MAX_PAYLOAD_SIZE).
Proof. apply behaves_const. Qed.

Lemma sign_unlocked_behaves key :
  Z.of_nat (length key) ≤ HWKEY_MAX_PAYLOAD_SIZE →
  behaves (get_apploader_sign_unlocked_key key HWKEY_MAX_PAYLOAD_SIZE).
Proof.
  intros Hkey k Hk. unfold get_apploader_sign_unlocked_key. wp_steps. apply wp_dev_call.
  intros [] d _; [|exact (good_kept k _ Hk)].
  exact (apploader_behaves key Hkey (KOut (kbuf k) (klen k) d) Hk).
Qed.

Lemma encrypt_rpmb_behaves : behaves (encrypt_rpmb_salt HWKEY_MAX_PAYLOAD_SIZE).
Proof.
  intros k Hk. pose proof Hk as [Hl _]. unfold encrypt_rpmb_salt.
  wp_steps. apply wp_dev_call. intros b1 d1 _. wp_cases Hb1; [exact (good_kept k _ Hk)|].
  wp_steps. apply wp_dev_call. intros b2 d2 _. wp_cases Hb2; [exact (good_kept k _ Hk)|].
  wp_cases Hroom; [exact (good_kept k _ Hk)|].
  wp_steps. apply wp_dev_call. intros [ok out] d3 E. wp_steps. cbn [kbuf klen kdev] in *.
  pose proof (evp_encrypt_bound _ _ _ _ _ _ _ _ E) as Hout.
  assert (Z.of_nat (length out) ≤ RPMB_SS_AUTH_KEY_SIZE) as Hout' by (change (length rpmb_salt) with 32%nat in Hout; unfold RPMB_SS_AUTH_KEY_SIZE; lia).
  unfold RPMB_SS_AUTH_KEY_SIZE, HWKEY_MAX_PAYLOAD_SIZE in *.
  apply wp_write_kbuf; [cbn [kbuf]; lia|]. cbn [kbuf klen kdev].
  assert (aligned AES_256_CBC rpmb_salt) as Hal.
  { unfold aligned. destruct (evp_cbc_sizes AES_256_CBC) as [_ ->]; [by right|done]. }
  destruct ok; cbn [negb].
  2: { apply (good_partial k out d3); [done|unfold HWKEY_MAX_PAYLOAD_SIZE; lia|].
       intros HA. by eapply evp_encrypt_fail. }
  pose proof (evp_encrypt_ok _ _ _ _ _ _ _ Hal E) as Heq.
  assert (Z.of_nat (length out) = 32) as Hol by (rewrite Heq, aes_encrypt_length; done).
  wp_cases Hlen; [lia|]. wp_steps. apply wp_dev_call. intros [ok n] d4 Ef.
  destruct ok; cbn [negb].
  - unfold set_klen. wp_steps. cbn [kbuf klen kdev]. rewrite <- Hol.
    apply (good_written k out d4); [done|unfold HWKEY_MAX_PAYLOAD_SIZE; lia].
  - apply (good_partial k out d4); [done|unfold HWKEY_MAX_PAYLOAD_SIZE; lia|].
    intros HA. by pose proof (evp_final_succeeds _ _ _ _ _ _ Hal Ef).
Qed.

Lemma rpmb_behaves : behaves (get_rpmb_ss_auth_key HWKEY_MAX_PAYLOAD_SIZE).
Proof.
  intros k Hk. unfold get_rpmb_ss_auth_key. wp_steps. apply wp_dev_call. intros _ d _.
  apply wp_bind. eapply wp_mono; [by apply (encrypt_rpmb_behaves (KOut (kbuf k) (klen k) d))|].
  intros rc k' Hk'. wp_steps. apply wp_dev_call. intros _ d' _. by apply wp_ret.
Qed.
End Behaviour.

(** * 5. The tables *)

Section TablesOk.
Context {D : Type} `{!HwkeyIface} `{!Evp D} `{!EvpLaws D} `{!EvpCbc D} `{!Platform D}.
Implicit Types cfg : config.

Lemma unittest_derived_data_ok : derived_data_ok (D:=D) hwcrypto_unittest_derived_data.
Proof.
  split.
  - done.
  - intros c Hc. destruct (evp_cbc_sizes c Hc) as [Hiv Hbs].
    unfold aligned, derived_ciphertext. by rewrite Hiv, Hbs.
  - intros d. eexists _, _. split; [reflexivity|]. intros _. cbn. by eexists.
Qed.

Lemma derived_behaves (data : hwkey_derived_keyslot_data D) :
  derived_data_ok data → behaves (hwkey_get_derived_key data HWKEY_MAX_PAYLOAD_SIZE).
Proof.
  intros Hd k Hk. pose proof Hk as [Hl Hn].
  eapply wp_mono; [by apply (get_derived_key_spec data _ k Hd)|].
  intros rc [buf len d] [Hbl Hout]. cbn [kbuf klen] in *.
  destruct (decide (rc = HWKEY_NO_ERROR)) as [_|_].
  - destruct Hout as (kr & n & c & _ & _ & _ & Hbuf & Hlen). cbn in Hbuf, Hlen. subst buf len.
    apply (good_written k _ d Hk). unfold overwrite in Hbl. rewrite length_app in Hbl. lia.
  - destruct Hout as [-> Hsame]. split; [split; [cbn; lia|done]|].
    intros HA _. destruct Hn as (m & Hm & _). exists m. split; [done|].
    cbn. by rewrite (Hsame HA).
Qed.

(** A configuration whose key files fit the key buffer. *)
Definition fits (file : option bytes) : Prop :=
  from_option (λ key, Z.of_nat (length key) ≤ HWKEY_MAX_PAYLOAD_SIZE) True file.
Record config_ok cfg : Prop := {
  fits_sign_0 : fits (APPLOADER_SIGN_PUBLIC_KEY_0_FILE cfg);
  fits_sign_1 : fits (APPLOADER_SIGN_PUBLIC_KEY_1_FILE cfg);
  fits_encrypt_0 : fits (APPLOADER_ENCRYPT_KEY_0_FILE cfg);
  fits_encrypt_1 : fits (APPLOADER_ENCRYPT_KEY_1_FILE cfg)
}.

(** The function behind a slot. *)
Definition slot_behaves (s : hwkey_keyslot D) : Prop :=
  match handler s with
  | NoHandler => False
  | GetKeyHandle None => False
  | GetKeyHandle (Some data) => behaves (retriever data HWKEY_MAX_PAYLOAD_SIZE)
  | ProviderFn f => behaves (f HWKEY_MAX_PAYLOAD_SIZE)
  end.

Lemma sign_slot_behaves id file unlocked :
  fits file → Forall slot_behaves (sign_slot (D:=D) id file unlocked).
Proof.
  destruct file as [key|]; [|constructor]. intros Hf. apply Forall_singleton.
  unfold slot_behaves. cbn. destruct unlocked.
  - by apply sign_unlocked_behaves.
  - by apply apploader_behaves.
Qed.

Lemma encrypt_slot_behaves id file :
  fits file → Forall slot_behaves (encrypt_slot (D:=D) id file).
Proof.
  destruct file as [key|]; [|constructor]. intros Hf. apply Forall_singleton.
  by apply apploader_behaves.
Qed.

Lemma keys_behave cfg : config_ok cfg → Forall slot_behaves (_keys (D:=D) cfg).
Proof.
  intros []. unfold _keys. rewrite !Forall_app. split_and!.
  - do 2 (apply Forall_cons_2; [first [exact rpmb_behaves|exact (km_kak_behaves _)]|]).
    apply Forall_nil_2.
  - by apply sign_slot_behaves.
  - by apply sign_slot_behaves.
  - by apply encrypt_slot_behaves.
  - by apply encrypt_slot_behaves.
  - destruct (WITH_HWCRYPTO_UNITTEST cfg); [|constructor]. unfold unittest_slots.
    do 7 (apply Forall_cons_2;
      [first [exact unittest_key_behaves|exact (derived_behaves _ unittest_derived_data_ok)]|]).
    apply Forall_nil_2.
Qed.

Lemma keys_slot_ok cfg : config_ok cfg → Forall slot_ok (_keys (D:=D) cfg).
Proof.
  intros Hcfg. eapply Forall_impl; [by apply keys_behave|]. intros s Hs.
  unfold slot_behaves, slot_ok in *.
  destruct (handler s) as [|[data|]|f]; [done| |done|]; by apply behaves_ok.
Qed.

Lemma keys_contained `{!EvpAtomic D} cfg :
  config_ok cfg → Forall slot_contained (_keys (D:=D) cfg).
Proof.
  intros Hcfg. eapply Forall_impl; [by apply keys_behave|]. intros s Hs.
  unfold slot_behaves, slot_contained in *.
  destruct (handler s) as [|[data|]|f]; [done| |done|]; cbn; by apply behaves_contained.
Qed.

(** The provider discharges the interface of the key service. *)
#[export] Instance fake_provider_laws cfg : @HwkeyProviderLaws D (fake_provider cfg).
Proof. split. intros u ikm Hikm. cbn. by apply behaves_ok, derive_behaves. Qed.
End TablesOk.

(** * 6. Properties of the provider *)

Section Theorems.
Context {D : Type} `{!HwkeyIface} `{!Evp D} `{!EvpLaws D} `{!EvpCbc D} `{!Platform D}.
Implicit Types (cfg : config) (k : kout D).

(** derive_key_v1 derives, for a non-empty input, as many bytes as the
    input is long, by HKDF over the device key with the client's uuid as salt
    and the input as info; an empty input is BAD_LEN, a failure of HKDF
    GENERIC, both with length 0. *)
Theorem derive_key_v1_correct u ikm k :
  Z.of_nat (length ikm) ≤ Z.of_nat (length (kbuf k)) →
  wp (fake_derive_key_v1 u ikm) (λ rc k',
    let n := Z.of_nat (length ikm) in
    length (kbuf k') = length (kbuf k) ∧
    (ikm = [] → rc = HWKEY_ERR_BAD_LEN ∧ klen k' = Some 0 ∧ kbuf k' = kbuf k) ∧
    (ikm ≠ [] →
      (rc = HWKEY_NO_ERROR ∧ klen k' = Some n ∧
       kbuf k' = overwrite (hkdf_sha256 n fake_device_key (uuid_bytes u) ikm) (kbuf k)) ∨
      (rc = HWKEY_ERR_GENERIC ∧ klen k' = Some 0 ∧
       take (length ikm) (kbuf k') = replicate (length ikm) 0))) k.
Proof.
  intros Hl. unfold fake_derive_key_v1. wp_cases Hz.
  { unfold set_klen. wp_steps. split_and!; [done|done|]. intros Hne. destruct ikm; [done|].
    cbn in Hz. lia. }
  assert (ikm ≠ []) as Hne by (by intros ->). assert (0 ≤ Z.of_nat (length ikm)) as Hpos by lia.
  wp_steps. apply wp_dev_call. intros [ok out] d E.
  pose proof (hkdf_bound _ _ _ _ _ _ _ _ Hpos E) as Hout.
  wp_steps. apply wp_write_kbuf; [cbn [kbuf]; lia|]. cbn [kbuf klen kdev].
  assert (length (overwrite out (kbuf k)) = length (kbuf k)) as Hol
    by (apply length_overwrite; lia).
  destruct ok; cbn [negb]; unfold set_klen; wp_steps.
  - cbn [kbuf klen]. split_and!; [done|done|]. intros _. left. split_and!; [done|done|].
    by rewrite (hkdf_ok _ _ _ _ _ _ _ Hpos E).
  - cbn [kbuf klen kdev]. rewrite Nat2Z.id.
    apply wp_write_kbuf; cbn [kbuf]; [rewrite length_replicate; lia|]. wp_steps.
    cbn [kbuf klen]. split_and!; [|done|].
    + by rewrite length_overwrite by (rewrite length_replicate; lia).
    + intros _. right. split_and!; [done|done|].
      rewrite <- (length_replicate (length ikm) 0) at 1. apply take_overwrite.
Qed.

(** A signing key restricted to unlocked devices is released only when
    system_state_app_loading_unlocked says the device is unlocked, and then
    exactly; otherwise the answer is NOT_FOUND and the buffer untouched. *)
Theorem apploader_unlocked_only key kbuf_len k unlocked d :
  system_state_app_loading_unlocked (kdev k) = (unlocked, d) →
  kbuf_len = Z.of_nat (length (kbuf k)) → Z.of_nat (length key) ≤ kbuf_len →
  get_apploader_sign_unlocked_key key kbuf_len k =
  if (unlocked : bool)
  then Ret HWKEY_NO_ERROR (KOut (overwrite key (kbuf k)) (Some (Z.of_nat (length key))) d)
  else Ret HWKEY_ERR_NOT_FOUND (KOut (kbuf k) (klen k) d).
Proof.
  intros E -> Hl. unfold get_apploader_sign_unlocked_key.
  rewrite (bind_run _ _ k unlocked (KOut (kbuf k) (klen k) d)).
  2: { unfold dev_call. by rewrite E. }
  destruct unlocked; [|done]. apply wp_eq. unfold get_apploader_key. wp_steps.
  apply wp_assert; [lia|]. wp_steps. apply wp_write_kbuf; [cbn [kbuf]; lia|].
  unfold set_klen. by wp_steps.
Qed.

Lemma encrypt_rpmb_spec kbuf_len k :
  kbuf_len = Z.of_nat (length (kbuf k)) →
  wp (encrypt_rpmb_salt kbuf_len) (λ rc k',
    length (kbuf k') = length (kbuf k) ∧
    ((rc = HWKEY_NO_ERROR ∧ 64 ≤ kbuf_len ∧ klen k' = Some 32 ∧
      kbuf k' = overwrite (aes_encrypt AES_256_CBC fake_device_key (replicate 16 0) rpmb_salt)
                  (kbuf k)) ∨
     (rc = HWKEY_ERR_GENERIC ∧ klen k' = klen k))) k.
Proof.
  intros ->. unfold encrypt_rpmb_salt. destruct evp_cbc_key_length as [_ Hkl].
  destruct (evp_cbc_sizes AES_256_CBC) as [Hiv Hbs]; [by right|]. rewrite Hkl, Hiv.
  wp_steps. apply wp_dev_call. intros b1 d1 _. wp_cases Hb1; [by split; [|right]|].
  wp_steps. apply wp_dev_call. intros b2 d2 _. wp_cases Hb2; [by split; [|right]|].
  wp_cases Hroom; [by split; [|right]|]. unfold RPMB_SS_AUTH_KEY_SIZE in *.
  wp_steps. apply wp_dev_call. intros [ok out] d3 E. wp_steps. cbn [kbuf klen kdev] in *.
  pose proof (evp_encrypt_bound _ _ _ _ _ _ _ _ E) as Hout.
  change (length rpmb_salt) with 32%nat in Hout.
  assert (length (overwrite out (kbuf k)) = length (kbuf k)) as Hol
    by (apply length_overwrite; lia).
  apply wp_write_kbuf; [cbn [kbuf]; lia|]. cbn [kbuf klen kdev].
  assert (aligned AES_256_CBC rpmb_salt) as Hal by (unfold aligned; by rewrite Hbs).
  destruct ok; cbn [negb]; [|by split; [|right]].
  pose proof (evp_encrypt_ok _ _ _ _ _ _ _ Hal E) as Heq.
  wp_cases Hlen; [by split; [|right]|]. wp_steps. apply wp_dev_call. intros [ok n] d4 _.
  destruct ok; cbn [negb]; [|by split; [|right]]. unfold set_klen. wp_steps.
  split; [done|]. left. split_and!; [done|lia|done|]. by rewrite Heq.
Qed.

(** get_rpmb_ss_auth_key needs room for 64 bytes and then yields the
    32-byte encryption of the RPMB salt under the device key, or
    HWKEY_ERR_GENERIC with the length untouched. *)
Theorem rpmb_key_correct kbuf_len k :
  kbuf_len = Z.of_nat (length (kbuf k)) →
  wp (get_rpmb_ss_auth_key kbuf_len) (λ rc k',
    length (kbuf k') = length (kbuf k) ∧
    ((rc = HWKEY_NO_ERROR ∧ 64 ≤ kbuf_len ∧ klen k' = Some 32 ∧
      kbuf k' = overwrite (aes_encrypt AES_256_CBC fake_device_key (replicate 16 0) rpmb_salt)
                  (kbuf k)) ∨
     (rc = HWKEY_ERR_GENERIC ∧ klen k' = klen k))) k.
Proof.
  intros Hn. unfold get_rpmb_ss_auth_key. wp_steps. apply wp_dev_call. intros _ d _.
  apply wp_bind. eapply wp_mono; [by apply encrypt_rpmb_spec|].
  intros rc k' Hk'. wp_steps. apply wp_dev_call. intros _ d' _. by apply wp_ret.
Qed.

(** Decided by evaluation, one build configuration at a time. *)
Definition slot_consistent cfg (s : hwkey_keyslot D) : bool :=
  fake_client_allowed cfg (slot_uuid s) &&
  match handler s with
  | GetKeyHandle (Some data) => forallb (fake_client_allowed cfg) (allowed_uuids data)
  | _ => true
  end.

Lemma keys_consistent cfg : forallb (slot_consistent cfg) (_keys (D:=D) cfg) = true.
Proof. by destruct cfg as [[] [] [] [] [] [] []]. Qed.

Lemma keys_distinct cfg : bool_decide (NoDup (key_id <$> _keys (D:=D) cfg)) = true.
Proof. destruct cfg as [[] [] ? [] ? [] []]; by vm_compute. Qed.

(** C39. The tables agree, in every build configuration: no two slots have the
    same name, every slot's owner is a client allowed to connect, and so is
    every client allowed to read an opaque key. *)
Theorem fake_tables_consistent cfg :
  NoDup (key_id <$> _keys (D:=D) cfg) ∧
  (∀ s, s ∈ _keys (D:=D) cfg → fake_client_allowed cfg (slot_uuid s) = true) ∧
  (∀ s data u, s ∈ _keys (D:=D) cfg → handler s = GetKeyHandle (Some data) →
     u ∈ allowed_uuids data → fake_client_allowed cfg u = true).
Proof.
  pose proof (keys_consistent cfg) as Hall. rewrite forallb_forall in Hall.
  split; [|split].
  - by eapply bool_decide_eq_true, keys_distinct.
  - intros s Hs%list_elem_of_In. apply Hall in Hs. by apply andb_true_iff in Hs as [? _].
  - intros s data u Hs%list_elem_of_In Hh Hu%list_elem_of_In. apply Hall in Hs.
    apply andb_true_iff in Hs as [_ Hs]. rewrite Hh, forallb_forall in Hs. by apply Hs.
Qed.
End Theorems.

(** * 7. Start-up *)

Section InitTheorem.
Context {D W : Type} `{!Uapi} `{!HwkeyIface} `{!Evp D} `{!EvpLaws D} `{!EvpCbc D}
  `{!Platform D} `{!HwrngDev D} `{!Kernel W}.

Lemma init_provider_ok (cfg : config) rest (w : world (hwkey_state D) D W) :
  config_ok cfg → @hwkey_ok D (fake_provider cfg) rest (loc w) (trace w) →
  key_slots (loc w) = None → opaque_handles (loc w) = [] →
  if (hwkey_self_test (dev w)).1
  then wp (hwkey_init_srv_provider cfg) (λ _ w',
         key_slots (loc w') = Some (_keys cfg) ∧
         ∃ ports, @hwkey_ok D (fake_provider cfg) (ports ++ rest) (loc w') (trace w')) w
  else ∃ w', hwkey_init_srv_provider cfg w = Halt Aborted w'.
Proof.
  intros Hcfg Hok Hnone Hnil. unfold hwkey_init_srv_provider.
  destruct (hwkey_self_test (dev w)) as [ok d] eqn:E. cbn [fst].
  assert ((λ w : world (hwkey_state D) D W, let '(b, d) := hwkey_self_test (dev w) in
    Ret b (set_dev d w)) w = Ret ok (set_dev d w)) as Erun by (by rewrite E).
  destruct ok; [|exists (set_dev d w); by rewrite (bind_run _ _ _ _ _ Erun)].
  apply wp_bind. eapply wp_of_run; [exact Erun|]. cbn [negb].
  pose proof (install_and_start_ok (HwkeyProvider0 := fake_provider cfg) rest (_keys cfg)
    (set_dev d w) Hok Hnone Hnil ltac:(done) (keys_slot_ok cfg Hcfg)) as Hstart.
  apply wp_bind_inv in Hstart. apply wp_bind. eapply wp_mono; [exact Hstart|].
  intros [] w1 Hw1. apply wp_bind. eapply wp_mono; [exact Hw1|].
  intros rc w2 [Hkeys Hrc]. apply wp_ret. split; [exact Hkeys|].
  destruct (rc =? NO_ERROR); [|by exists []]. destruct Hrc as [port ?]. by exists [port].
Qed.

(** hwkey_init_srv_provider stops the application when the HKDF self test
    fails (the library does not reproduce the RFC 5869 output), and otherwise
    installs the table and keeps the service's invariant, whether or not the
    port could be opened. *)
Theorem hwkey_init_srv_provider_correct (cfg : config) rest (w : world (hwkey_state D) D W) :
  config_ok cfg → @hwkey_ok D (fake_provider cfg) rest (loc w) (trace w) →
  key_slots (loc w) = None → opaque_handles (loc w) = [] →
  if (hwkey_self_test (dev w)).1
  then wp (hwkey_init_srv_provider cfg) (λ _ w',
         key_slots (loc w') = Some (_keys cfg) ∧
         ∃ ports, @hwkey_ok D (fake_provider cfg) (ports ++ rest) (loc w') (trace w')) w
  else ∃ w', hwkey_init_srv_provider cfg w = Halt Aborted w'.
Proof. apply init_provider_ok. Qed.
End InitTheorem.
