(* ===== verification/Hwcrypto.v ===== *)
(** The hwcrypto application, hwcrypto/main.c: the three services over one
    device and one kernel, the event dispatch, and the invariant of every
    state the event loop reaches. *)

From S2P Require Import Prelude Ipc HwrngDev Evp Hwrng Keybox Hwkey HwkeyProps.
From S2P Require Import HwkeyCorrect HwkeyProvider.

(** * 1. State *)

Record app_state (D : Type) := AppState {
  app_hwrng : hwrng_state;
  app_hwkey : hwkey_state D;
  app_keybox : keybox_state
}.
Arguments AppState {D}.
Arguments app_hwrng {D}.
Arguments app_hwkey {D}.
Arguments app_keybox {D}.

(** What a handle's cookie points to: the [struct tipc_event_handler] of a
    port or of a channel context, or nothing. *)
Inductive cookie :=
| NoCookie
| HwrngPort
| HwrngChan (p : ptr)
| HwkeyPort
| HwkeyChan (p : ptr)
| KeyboxPort
| KeyboxChan (p : ptr).

#[export] Instance cookie_eq_dec : EqDecision cookie.
Proof. solve_decision. Defined.

(** One answer of [wait_any]: its return code, the event and its cookie. *)
Record wait_answer := WaitAnswer { wait_rc : Z; wait_event : uevent; wait_cookie : cookie }.

Section App.
Context {D W : Type} `{!Uapi} `{!HwrngIface} `{!KeyboxIface} `{!HwkeyIface}
  `{!HwrngDev D} `{!HwrngDevFair D} `{!Evp D} `{!Platform D} `{!Kernel W}.
Abbreviation C := (M (world (app_state D) D W)).

(** A service runs on its own part of the application's state. *)
Definition in_hwrng {A} (m : M (world hwrng_state D W) A) : C A :=
  zoom (λ w, World (app_hwrng (loc w)) (dev w) (env w) (trace w))
       (λ t w, World (AppState (loc t) (app_hwkey (loc w)) (app_keybox (loc w)))
                 (dev t) (env t) (trace t)) m.
Definition in_hwkey {A} (m : M (world (hwkey_state D) D W) A) : C A :=
  zoom (λ w, World (app_hwkey (loc w)) (dev w) (env w) (trace w))
       (λ t w, World (AppState (app_hwrng (loc w)) (loc t) (app_keybox (loc w)))
                 (dev t) (env t) (trace t)) m.
Definition in_keybox {A} (m : M (world keybox_state unit W) A) : C A :=
  zoom (λ w, World (app_keybox (loc w)) tt (env w) (trace w))
       (λ t w, World (AppState (app_hwrng (loc w)) (app_hwkey (loc w)) (loc t))
                 (dev w) (env t) (trace t)) m.

(** * 2. main.c *)

Context (cfg : config).
#[local] Instance provider : HwkeyProvider D := fake_provider cfg.

(** [handler->proc(ev, handler->priv)]; [fr] is the stack the keybox handler
    finds. *)
Definition invoke (fr : keybox_frame) (ev : uevent) (c : cookie) : C unit :=
  match c with
  | NoCookie => close (ev_handle ev);; ret tt
  | HwrngPort => in_hwrng (hwrng_port_handler ev)
  | HwrngChan p => in_hwrng (hwrng_chan_handler ev p)
  | HwkeyPort => in_hwkey (hwkey_port_handler ev)
  | HwkeyChan p => in_hwkey (hwkey_chan_handler token_fuel ev p)
  | KeyboxPort => in_keybox (keybox_port_handler ev)
  | KeyboxChan p => in_keybox (keybox_chan_handler fr ev p)
  end.

Definition dispatch_event (fr : keybox_frame) (ev : uevent) (c : cookie) : C unit :=
  if ev_event ev =? IPC_HANDLE_POLL_NONE then ret tt else invoke fr ev c.

(** The event loop, over the first answers of [wait_any]: [None] when it is
    still running after them, the return code when it has ended. *)
Fixpoint event_loop (fr : keybox_frame) (waits : list wait_answer) : C (option Z) :=
  match waits with
  | [] => ret None
  | WaitAnswer rc ev c :: waits =>
      if rc <? 0 then ret (Some rc) else
      (if rc =? NO_ERROR then dispatch_event fr ev c else ret tt);;
      event_loop fr waits
  end.

Definition init_services : C Z :=
  rc ← in_hwrng hwrng_start_service;
  if negb (rc =? NO_ERROR) then ret rc else
  in_hwkey (hwkey_init_srv_provider cfg);;
  in_keybox keybox_start_service.

Definition hwcrypto_main (fr : keybox_frame) (waits : list wait_answer) : C (option Z) :=
  rc ← init_services;
  if negb (rc =? NO_ERROR) then ret (Some rc) else event_loop fr waits.

Definition app_init : app_state D := AppState hwrng_init hwkey_init keybox_init.

(** * 3. The invariant *)

Definition hwrng_chans (l : app_state D) : list handle := objects chan (ctxs (app_hwrng l)).
Definition hwkey_chans (l : app_state D) : list handle :=
  objects hwkey_chan (hwkey_ctxs (app_hwkey l)).
Definition keybox_chans (l : app_state D) : list handle :=
  objects keybox_chan (keybox_ctxs (app_keybox l)).

(** Each service keeps its invariant, the handles of the others and the
    [ports] being the rest: together they own exactly the open handles. *)
Definition app_ok (ports : list handle) (l : app_state D) (tr : list sysev) : Prop :=
  hwrng_ok (hwkey_chans l ++ keybox_chans l ++ ports) (app_hwrng l) tr ∧
  hwkey_ok (hwrng_chans l ++ keybox_chans l ++ ports) (app_hwkey l) tr ∧
  keybox_ok (hwrng_chans l ++ hwkey_chans l ++ ports) (app_keybox l) tr.

(** An event the kernel may deliver in the state [l], [tr]: the handle is the
    one the cookie was registered for (no cookie: an open handle that no
    context owns).  Whatever flags it carries. *)
Definition event_ok (l : app_state D) (tr : list sysev) (ev : uevent) (c : cookie) : Prop :=
  match c with
  | NoCookie => ∃ ports, app_ok (ev_handle ev :: ports) l tr
  | HwrngPort | HwkeyPort | KeyboxPort => True
  | HwrngChan p => ∃ c, ctxs (app_hwrng l) !! p = Some c ∧ ev_handle ev = chan c
  | HwkeyChan p => ∃ c, hwkey_ctxs (app_hwkey l) !! p = Some c ∧ ev_handle ev = hwkey_chan c
  | KeyboxChan p => ∃ c, keybox_ctxs (app_keybox l) !! p = Some c ∧ ev_handle ev = keybox_chan c
  end.

(** An error the library aborts on. *)
Definition error_event (ev : uevent) (c : cookie) : bool :=
  match c with
  | NoCookie => false
  | HwrngPort | HwkeyPort | KeyboxPort => tipc_port_error (ev_event ev)
  | HwrngChan _ | HwkeyChan _ | KeyboxChan _ => tipc_chan_error (ev_event ev)
  end.

(** A message and a hang-up of a keybox channel. *)
Definition both_event (ev : uevent) (c : cookie) : bool :=
  match c with
  | KeyboxChan _ =>
    has (ev_event ev) IPC_HANDLE_POLL_MSG && has (ev_event ev) IPC_HANDLE_POLL_HUP
  | _ => false
  end.

(** The two ways a handler can stop the application: the library's abort on an
    error event, and keybox_chan_handler's second shutdown of a context, when
    the message that came with a hang-up could not be received or answered. *)
Inductive stops (l : app_state D) (tr : list sysev) (ev : uevent) :
    cookie → halt → list sysev → Prop :=
| StopError c tr' : error_event ev c = true → stops l tr ev c Aborted tr'
| StopTwice p ctx tr' :
    keybox_ctxs (app_keybox l) !! p = Some ctx → shut_down_twice ev ctx tr tr' →
    stops l tr ev (KeyboxChan p) UseAfterFree tr'.

(** One balance for the whole application is enough. *)
Lemma app_ok_intro ports r1 r2 tr1 tr2 (l : app_state D) tr :
  hwrng_ok r1 (app_hwrng l) tr1 → hwkey_ok r2 (app_hwkey l) tr2 →
  balanced tr (hwrng_chans l ++ hwkey_chans l ++ keybox_chans l ++ ports) →
  app_ok ports l tr.
Proof.
  intros [] [] Hb. split_and!.
  - by split.
  - split; auto. eapply balanced_perm; [|exact Hb]. apply Permutation_app_swap_app.
  - unfold keybox_ok. eapply balanced_perm; [|exact Hb].
    rewrite (Permutation_app_swap_app (hwkey_chans l) (keybox_chans l)).
    by rewrite (Permutation_app_swap_app (hwrng_chans l) (keybox_chans l)).
Qed.

Lemma app_balanced ports (l : app_state D) tr :
  app_ok ports l tr →
  balanced tr (hwrng_chans l ++ hwkey_chans l ++ keybox_chans l ++ ports).
Proof. intros (Hrng & _). apply (ok_bal _ _ _ Hrng). Qed.

Lemma app_ok_ports ports ports' (l : app_state D) tr :
  ports ≡ₚ ports' → app_ok ports l tr → app_ok ports' l tr.
Proof.
  intros Hp Hok. pose proof (app_balanced _ _ _ Hok) as Hb. destruct Hok as (Hrng & Hkey & _).
  eapply app_ok_intro; [done..|]. eapply balanced_perm; [|exact Hb]. by rewrite Hp.
Qed.

Lemma perm_middle (k new h b p : list handle) :
  k ++ new ++ h ++ b ++ p ≡ₚ h ++ k ++ b ++ new ++ p.
Proof.
  rewrite (Permutation_app_swap_app new h), (Permutation_app_swap_app new b).
  apply Permutation_app_swap_app.
Qed.

Lemma perm_last (b new h k p : list handle) :
  b ++ new ++ h ++ k ++ p ≡ₚ h ++ k ++ b ++ new ++ p.
Proof.
  rewrite (Permutation_app_swap_app new h), (Permutation_app_swap_app new k).
  by rewrite (Permutation_app_swap_app b h), (Permutation_app_swap_app b k).
Qed.

(** A service's operation that keeps its invariant, up to new handles that
    join the ports, keeps the application's. *)
Section Zoom.
Context {A : Type} (ports : list handle) (f : A → list handle → Prop) (E : halt → Prop).

Definition keeps_app (a : A) (w : world (app_state D) D W) : Prop :=
  ∃ new, f a new ∧ app_ok (new ++ ports) (loc w) (trace w).

Lemma wpx_zoom {S T} (view : S → T) (put : T → S → S) (m : M T A) (Q : A → S → Prop) s :
  wpx m (λ a t, Q a (put t s)) E (view s) → wpx (zoom view put m) Q E s.
Proof. unfold wpx, zoom. by destruct (m (view s)). Qed.

Lemma in_hwrng_ok (m : M (world hwrng_state D W) A)
    (w : world (app_state D) D W) :
  (∀ rest (w0 : world hwrng_state D W), hwrng_ok rest (loc w0) (trace w0) →
     loc w0 = app_hwrng (loc w) →
     wpx m (λ a w', ∃ new, f a new ∧ hwrng_ok (new ++ rest) (loc w') (trace w')) E w0) →
  app_ok ports (loc w) (trace w) →
  wpx (in_hwrng m) (λ a w', keeps_app a w' ∧ app_hwkey (loc w') = app_hwkey (loc w) ∧
    app_keybox (loc w') = app_keybox (loc w)) E w.
Proof.
  intros Hm (Hrng & Hkey & Hbox). apply wpx_zoom. eapply wpx_mono; [by eapply Hm|].
  intros a w' (new & Hf & Hok). split; [|done]. exists new. split; [exact Hf|].
  eapply app_ok_intro; [exact Hok|exact Hkey|].
  eapply balanced_perm; [|exact (ok_bal _ _ _ Hok)]. apply Permutation_app_head.
  rewrite (Permutation_app_swap_app new). apply Permutation_app_head.
  apply Permutation_app_swap_app.
Qed.

Lemma in_hwkey_ok (m : M (world (hwkey_state D) D W) A)
    (w : world (app_state D) D W) :
  (∀ rest (w0 : world (hwkey_state D) D W), hwkey_ok rest (loc w0) (trace w0) →
     loc w0 = app_hwkey (loc w) →
     wpx m (λ a w', ∃ new, f a new ∧ hwkey_ok (new ++ rest) (loc w') (trace w')) E w0) →
  app_ok ports (loc w) (trace w) →
  wpx (in_hwkey m) (λ a w', keeps_app a w' ∧ app_hwrng (loc w') = app_hwrng (loc w) ∧
    app_keybox (loc w') = app_keybox (loc w)) E w.
Proof.
  intros Hm (Hrng & Hkey & Hbox). apply wpx_zoom. eapply wpx_mono; [by eapply Hm|].
  intros a w' (new & Hf & Hok). split; [|done]. exists new. split; [exact Hf|].
  eapply app_ok_intro; [exact Hrng|exact Hok|].
  eapply balanced_perm; [|exact (hk_bal _ _ _ Hok)]. apply perm_middle.
Qed.

Lemma in_keybox_ok (m : M (world keybox_state unit W) A)
    (w : world (app_state D) D W) :
  (∀ rest (w0 : world keybox_state unit W), keybox_ok rest (loc w0) (trace w0) →
     loc w0 = app_keybox (loc w) →
     wpx m (λ a w', ∃ new, f a new ∧ keybox_ok (new ++ rest) (loc w') (trace w')) E w0) →
  app_ok ports (loc w) (trace w) →
  wpx (in_keybox m) (λ a w', keeps_app a w' ∧ app_hwrng (loc w') = app_hwrng (loc w) ∧
    app_hwkey (loc w') = app_hwkey (loc w)) E w.
Proof.
  intros Hm (Hrng & Hkey & Hbox). apply wpx_zoom. eapply wpx_mono; [by eapply Hm|].
  intros a w' (new & Hf & Hok). split; [|done]. exists new. split; [exact Hf|].
  eapply app_ok_intro; [exact Hrng|exact Hkey|]. eapply balanced_perm; [|exact Hok].
  apply perm_last.
Qed.
End Zoom.
End App.

(** * 4. Every reachable state *)

Section Correct.
Context {D W : Type} `{!Uapi} `{!HwrngIface} `{!KeyboxIface} `{!HwkeyIface}
  `{!HwrngDev D} `{!HwrngDevLaws D} `{!HwrngDevFair D} `{!Evp D} `{!EvpLaws D} `{!EvpCbc D}
  `{!Platform D} `{!Kernel W} `{!KernelLaws W}.
Context (cfg : config) (Hcfg : config_ok cfg).
Implicit Types (ports : list handle) (c : cookie).

#[local] Hint Extern 0 (HwkeyProvider D) => exact (provider cfg) : typeclass_instances.
Abbreviation ok := (app_ok (D:=D) cfg).

(** The ports after an event: a handle without a cookie is gone. *)
Definition after_event (ev : uevent) (c : cookie) ports ports' : Prop :=
  match c with
  | NoCookie => if ev_event ev =? IPC_HANDLE_POLL_NONE then ports' = ports
                else ports ≡ₚ ev_handle ev :: ports'
  | _ => ports' = ports
  end.

Lemma in_hwrng_keeps ports (m : M (world hwrng_state D W) unit)
    (w : world (app_state D) D W) :
  (∀ rest (w0 : world hwrng_state D W), hwrng_ok rest (loc w0) (trace w0) →
     loc w0 = app_hwrng (loc w) → wp m (λ _ w', hwrng_ok rest (loc w') (trace w')) w0) →
  ok ports (loc w) (trace w) →
  wp (in_hwrng m) (λ _ w', ok ports (loc w') (trace w')) w.
Proof.
  intros Hm Hok. eapply wpx_mono;
    [apply (in_hwrng_ok cfg ports (λ _ new, new = []) (λ _, False)); [|exact Hok]|].
  - intros rest w0 Hok0 Hl. eapply wpx_wp, wp_mono; [by apply Hm|]. by exists [].
  - by intros _ w' [(new & -> & Hok') _].
Qed.

Lemma in_hwkey_keeps ports (m : M (world (hwkey_state D) D W) unit)
    (w : world (app_state D) D W) :
  (∀ rest (w0 : world (hwkey_state D) D W), hwkey_ok rest (loc w0) (trace w0) →
     loc w0 = app_hwkey (loc w) → wp m (λ _ w', hwkey_ok rest (loc w') (trace w')) w0) →
  ok ports (loc w) (trace w) →
  wp (in_hwkey m) (λ _ w', ok ports (loc w') (trace w')) w.
Proof.
  intros Hm Hok. eapply wpx_mono;
    [apply (in_hwkey_ok cfg ports (λ _ new, new = []) (λ _, False)); [|exact Hok]|].
  - intros rest w0 Hok0 Hl. eapply wpx_wp, wp_mono; [by apply Hm|]. by exists [].
  - by intros _ w' [(new & -> & Hok') _].
Qed.

Lemma in_keybox_keeps ports (m : M (world keybox_state unit W) unit)
    (w : world (app_state D) D W) :
  (∀ rest (w0 : world keybox_state unit W), keybox_ok rest (loc w0) (trace w0) →
     loc w0 = app_keybox (loc w) → wp m (λ _ w', keybox_ok rest (loc w') (trace w')) w0) →
  ok ports (loc w) (trace w) →
  wp (in_keybox m) (λ _ w', ok ports (loc w') (trace w')) w.
Proof.
  intros Hm Hok. eapply wpx_mono;
    [apply (in_keybox_ok cfg ports (λ _ new, new = []) (λ _, False)); [|exact Hok]|].
  - intros rest w0 Hok0 Hl. eapply wpx_wp, wp_mono; [by apply Hm|]. by exists [].
  - by intros _ w' [(new & -> & Hok') _].
Qed.

Lemma ports_determined ports ports' l tr : ok ports l tr → ok ports' l tr → ports ≡ₚ ports'.
Proof.
  intros Hb%app_balanced Hb'%app_balanced. unfold balanced in *. rewrite Hb in Hb'.
  rewrite !app_assoc in Hb'. by apply Permutation_app_inv_l in Hb'.
Qed.

Lemma no_cookie_ok fr ev ports (w : world (app_state D) D W) :
  ok ports (loc w) (trace w) → event_ok cfg (loc w) (trace w) ev NoCookie →
  wp (invoke cfg fr ev NoCookie) (λ _ w', ∃ ports', ports ≡ₚ ev_handle ev :: ports' ∧
    ok ports' (loc w') (trace w')) w.
Proof.
  intros Hok [ports' Hev]. pose proof (ports_determined _ _ _ _ Hok Hev) as Hp.
  apply wp_bind, wp_close. intros rc v. apply wp_ret. exists ports'. split; [done|].
  pose proof (app_balanced _ _ _ _ Hev) as Hb. destruct Hev as (Hrng & Hkey & Hbox).
  eapply app_ok_intro; [exact Hrng|exact Hkey|]. cbn.
  apply balanced_close. eapply balanced_perm; [|exact Hb].
  by rewrite !app_assoc, <- Permutation_middle.
Qed.

Lemma invoke_ok fr ev c ports (w : world (app_state D) D W) :
  frame_ok fr → ok ports (loc w) (trace w) → event_ok cfg (loc w) (trace w) ev c →
  c ≠ NoCookie → error_event ev c = false → both_event ev c = false →
  wp (invoke cfg fr ev c) (λ _ w', ok ports (loc w') (trace w')) w.
Proof.
  intros Hfr Hok Hev Hc Herr Hboth.
  destruct c as [| |p| |p| |p]; [done|..]; cbn [event_ok error_event both_event invoke] in *.
  - apply in_hwrng_keeps; [|done]. intros rest w0 Hok0 _.
    by apply (port_handler_stable rest (hwrng_ok rest)).
  - destruct Hev as (c & Hp & Hh). apply in_hwrng_keeps; [|done].
    intros rest w0 Hok0 Hl. rewrite <- Hl in Hp.
    by eapply (chan_handler_stable rest (hwrng_ok rest)).
  - apply in_hwkey_keeps; [|done]. intros rest w0 Hok0 _. by apply port_handler_ok.
  - destruct Hev as (c & Hp & Hh). apply in_hwkey_keeps; [|done].
    intros rest w0 Hok0 Hl. rewrite <- Hl in Hp.
    eapply chan_handler_ok; try done. apply token_fuel_ready.
  - apply in_keybox_keeps; [|done]. intros rest w0 Hok0 _. by apply keybox_port_stable.
  - destruct Hev as (c & Hp & Hh). apply in_keybox_keeps; [|done].
    intros rest w0 Hok0 Hl. rewrite <- Hl in Hp. by eapply keybox_chan_stable.
Qed.

(** On an error event the library aborts, in every handler. *)
Lemma invoke_error fr ev c (w : world (app_state D) D W) :
  event_ok cfg (loc w) (trace w) ev c → error_event ev c = true →
  ∃ w', invoke cfg fr ev c w = Halt Aborted w'.
Proof.
  intros Hev Herr. destruct c as [| |p| |p| |p]; [done|..]; cbn [event_ok error_event invoke] in *.
  - eexists. unfold in_hwrng, zoom, hwrng_port_handler, tipc_handle_port_errors. by rewrite Herr.
  - destruct Hev as (c & Hp & Hh). eexists. unfold in_hwrng, zoom, hwrng_chan_handler, tipc_handle_chan_errors, deref.
    by rewrite (bind_run _ _ _ _ _ (load_ok ctxs p c (World (app_hwrng (loc w)) (dev w) (env w) (trace w)) Hp)), Hh, Z.eqb_refl, Herr.
  - eexists. unfold in_hwkey, zoom, hwkey_port_handler, tipc_handle_port_errors. by rewrite Herr.
  - destruct Hev as (c & Hp & Hh). eexists. unfold in_hwkey, zoom, hwkey_chan_handler, tipc_handle_chan_errors.
    by rewrite (bind_run _ _ _ _ _ (load_ok hwkey_ctxs p c (World (app_hwkey (loc w)) (dev w) (env w) (trace w)) Hp)), Hh, Z.eqb_refl, Herr.
  - eexists. unfold in_keybox, zoom, keybox_port_handler, tipc_handle_port_errors. by rewrite Herr.
  - destruct Hev as (c & Hp & Hh). eexists. unfold in_keybox, zoom, keybox_chan_handler, tipc_handle_chan_errors.
    by rewrite (bind_run _ _ _ _ _ (load_ok keybox_ctxs p c (World (app_keybox (loc w)) tt (env w) (trace w)) Hp)), Hh, Z.eqb_refl, Herr.
Qed.

Lemma keybox_ok_app ports (l : app_state D) tr r tr' box :
  ok ports l tr → keybox_ok r box tr' →
  r = hwrng_chans l ++ hwkey_chans l ++ ports →
  ok ports (AppState (app_hwrng l) (app_hwkey l) box) tr'.
Proof.
  intros (Hrng & Hkey & _) Hbox ->. eapply app_ok_intro; [exact Hrng|exact Hkey|].
  eapply balanced_perm; [|exact Hbox]. apply (perm_last _ []).
Qed.

(** Every event but the close of a handle without a cookie. *)
Lemma invoke_outcome fr ev c ports (w : world (app_state D) D W) :
  frame_ok fr → ok ports (loc w) (trace w) → event_ok cfg (loc w) (trace w) ev c →
  c ≠ NoCookie →
  match invoke cfg fr ev c w with
  | Ret _ w' => error_event ev c = false ∧ ok ports (loc w') (trace w')
  | Halt h w' => stops (loc w) (trace w) ev c h (trace w')
  end.
Proof.
  intros Hfr Hok Hev Hc. destruct (error_event ev c) eqn:Herr.
  { destruct (invoke_error fr ev c w Hev Herr) as [w' ->]. by apply StopError. }
  destruct (both_event ev c) eqn:Hboth.
  2: { destruct (wp_returns _ _ _ (invoke_ok fr ev c ports w Hfr Hok Hev Hc Herr Hboth))
         as (x & w' & -> & Hok'). done. }
  destruct c as [| |p| |p| |p]; try done. cbn [error_event event_ok invoke] in *.
  destruct Hev as (c & Hp & Hh). pose proof Hok as (_ & _ & Hbox).
  pose proof (keybox_chan_outcomes _ fr ev p c
    (World (app_keybox (loc w)) tt (env w) (trace w)) Hfr Hbox Hp Hh Herr) as Hout.
  unfold in_keybox, zoom. destruct (keybox_chan_handler fr ev p _) as [x w'|h w'].
  - split; [done|]. by eapply keybox_ok_app.
  - destruct Hout as [-> Htwice]. by eapply StopTwice.
Qed.

(** An event that neither signals an error nor two things at once. *)
Definition calm_event (l : app_state D) tr ev c : Prop :=
  event_ok cfg l tr ev c ∧ error_event ev c = false ∧ both_event ev c = false.

Lemma dispatch_outcome fr ev c ports (w : world (app_state D) D W) :
  frame_ok fr → ok ports (loc w) (trace w) → event_ok cfg (loc w) (trace w) ev c →
  match dispatch_event cfg fr ev c w with
  | Ret _ w' => ∃ ports', after_event ev c ports ports' ∧ ok ports' (loc w') (trace w')
  | Halt h w' => stops (loc w) (trace w) ev c h (trace w')
  end.
Proof.
  intros Hfr Hok Hev. unfold dispatch_event, after_event.
  destruct (ev_event ev =? IPC_HANDLE_POLL_NONE); [by destruct c; exists ports|].
  destruct (decide (c = NoCookie)) as [->|Hc].
  { destruct (wp_returns _ _ _ (no_cookie_ok fr ev ports w Hok Hev)) as (x & w' & -> & Hw'). done. }
  pose proof (invoke_outcome fr ev c ports w Hfr Hok Hev Hc) as Hout.
  destruct (invoke cfg fr ev c w) as [x w'|h w']; [|exact Hout]. destruct Hout as [_ Hok'].
  exists ports. by destruct c.
Qed.

Lemma dispatch_ok fr ev c ports (w : world (app_state D) D W) :
  frame_ok fr → ok ports (loc w) (trace w) → calm_event (loc w) (trace w) ev c →
  wp (dispatch_event cfg fr ev c)
    (λ _ w', ∃ ports', after_event ev c ports ports' ∧ ok ports' (loc w') (trace w')) w.
Proof.
  intros Hfr Hok (Hev & Herr & Hboth). pose proof (dispatch_outcome fr ev c ports w Hfr Hok Hev) as Hout.
  unfold wp. destruct (dispatch_event cfg fr ev c w) as [x w'|h w']; [exact Hout|].
  destruct Hout as [c tr' He|p ctx tr' _ (Hm & Hh & _)]; [congruence|]. cbn in Hboth. by rewrite Hm, Hh in Hboth.
Qed.

(** Start-up. *)
Lemma app_init_ok : ok [] app_init [].
Proof.
  split_and!; [apply hwrng_init_ok|apply hwkey_init_ok|by vm_compute].
Qed.

Definition self_test_failed (h : halt) : Prop :=
  h = Aborted ∧ ∃ d : D, (hwkey_self_test d).1 = false.

Lemma provider_start (w : world (app_state D) D W) :
  app_hwkey (loc w) = hwkey_init → ∀ rest (w0 : world (hwkey_state D) D W),
  hwkey_ok rest (loc w0) (trace w0) → loc w0 = app_hwkey (loc w) →
  wpx (hwkey_init_srv_provider cfg) (λ _ w', ∃ new, True ∧
    hwkey_ok (new ++ rest) (loc w') (trace w')) self_test_failed w0.
Proof.
  intros Hinit rest w0 Hok Hl. rewrite Hinit in Hl.
  pose proof (init_provider_ok cfg rest w0 Hcfg Hok ltac:(by rewrite Hl) ltac:(by rewrite Hl)) as Hw.
  destruct (hwkey_self_test (dev w0)).1 eqn:E.
  - apply wpx_wp. eapply wp_mono; [exact Hw|]. intros _ w' (_ & ports & Hok'). by exists ports.
  - destruct Hw as [w' Hw]. unfold wpx. rewrite Hw. split; [done|]. by exists (dev w0).
Qed.

Lemma init_ok (w : world (app_state D) D W) :
  loc w = app_init → trace w = [] →
  wpx (init_services cfg) (λ rc w', ∃ ports, ok ports (loc w') (trace w')) self_test_failed w.
Proof.
  intros Hl Ht. assert (ok [] (loc w) (trace w)) as Hok by (rewrite Hl, Ht; apply app_init_ok).
  apply wpx_bind. eapply wpx_mono; [eapply (in_hwrng_ok cfg [] (λ _ _, True)); [|done]|].
  { intros rest w0 Hok0 _. eapply wpx_wp, wp_mono; [by apply hwrng_start_stable|].
    intros rc w' Hok'. cbn beta in Hok'. destruct (rc =? NO_ERROR); [exists [hwrng_port (loc w')]|exists []];
      (split; [done|exact Hok']). }
  intros rc w1 ((new1 & _ & Hok1) & Hkey & Hbox). destruct (negb (rc =? NO_ERROR)); [by eexists|].
  apply wpx_bind. eapply wpx_mono; [eapply (in_hwkey_ok cfg _ (λ _ _, True)); [|exact Hok1]|].
  { apply provider_start. by rewrite Hkey, Hl. }
  intros _ w2 ((new2 & _ & Hok2) & _ & Hbox2).
  eapply wpx_mono; [eapply (in_keybox_ok cfg _ (λ _ _, True)); [|exact Hok2]|].
  { intros rest w0 Hok0 Hl0. eapply wpx_wp, wp_mono; [apply keybox_start_stable; [|exact Hok0]|].
    - by rewrite Hl0, Hbox2, Hbox, Hl.
    - intros rc2 w' (new & _ & Hok'). by exists new. }
  intros rc2 w3 ((new3 & _ & Hok3) & _). by eexists.
Qed.

(** The states of the application between two calls of [wait_any]. *)
Inductive reachable : world (app_state D) D W → Prop :=
| reach_started w0 w : loc w0 = app_init → trace w0 = [] →
    init_services cfg w0 = Ret NO_ERROR w → reachable w
| reach_environment w d v : reachable w → reachable (World (loc w) d v (trace w))
| reach_event fr ev c w w' : reachable w → frame_ok fr →
    event_ok cfg (loc w) (trace w) ev c → dispatch_event cfg fr ev c w = Ret tt w' →
    reachable w'.

Lemma reachable_ok w : reachable w → ∃ ports, ok ports (loc w) (trace w).
Proof.
  induction 1 as [w0 w Hl Ht Hrun|w d v _ IH|fr ev c w w' _ [ports Hok] Hfr Hev Hrun].
  - pose proof (init_ok w0 Hl Ht) as Hw. unfold wpx in Hw. by rewrite Hrun in Hw.
  - exact IH.
  - pose proof (dispatch_outcome fr ev c ports w Hfr Hok Hev) as Hw.
    rewrite Hrun in Hw. destruct Hw as (ports' & _ & Hok'). by exists ports'.
Qed.

(** C1. In every state the event loop reaches, with the device and the kernel
    in any state and whatever flags its events have carried, all three services
    have their invariants and together own exactly the open handles but the
    ports.  Whatever event the kernel then delivers for one of the handles, its
    handler runs to its end, so that no assertion fails, no memory is misused
    and no loop hangs, with two exceptions: the library aborts on an error
    event; and keybox_chan_handler uses the context it has freed (srv.c:150)
    when a message and a hang-up are signalled together and the message could
    not be received or answered. *)
Theorem hwcrypto_reachable_safe w :
  reachable w →
  (∃ ports, ok ports (loc w) (trace w)) ∧
  ∀ fr ev c, frame_ok fr → event_ok cfg (loc w) (trace w) ev c →
  match dispatch_event cfg fr ev c w with
  | Ret _ w' => reachable w'
  | Halt h w' => stops (loc w) (trace w) ev c h (trace w')
  end.
Proof.
  intros Hw. split; [by apply reachable_ok|]. intros fr ev c Hfr Hev.
  destruct (reachable_ok w Hw) as [ports Hok].
  pose proof (dispatch_outcome fr ev c ports w Hfr Hok Hev) as Hout.
  destruct (dispatch_event cfg fr ev c w) as [[] w'|h w'] eqn:Hrun; [|exact Hout].
  by eapply reach_event.
Qed.

(** init_services of main (the three starts, in order) either leaves every
    invariant holding, whichever start failed, or stops because the HKDF self
    test failed. *)
Theorem hwcrypto_init_services_ok (w : world (app_state D) D W) :
  loc w = app_init → trace w = [] →
  match init_services cfg w with
  | Ret rc w' => ∃ ports, ok ports (loc w') (trace w')
  | Halt h _ => self_test_failed h
  end.
Proof. apply init_ok. Qed.

(** The events of [waits] may be delivered, each in the state the loop is then
    in, and stop no handler. *)
Fixpoint deliverable (fr : keybox_frame) (waits : list wait_answer)
    (w : world (app_state D) D W) : Prop :=
  match waits with
  | [] => True
  | WaitAnswer rc ev c :: waits =>
      if rc <? 0 then True else
      if rc =? NO_ERROR then
        calm_event (loc w) (trace w) ev c ∧
        match dispatch_event cfg fr ev c w with
        | Ret _ w' => deliverable fr waits w'
        | Halt _ _ => True
        end
      else deliverable fr waits w
  end.

(** The event loop of main ends only when wait_any fails, with that error,
    and the invariants hold as long as it runs and when it ends. *)
Theorem hwcrypto_event_loop_safe fr waits ports (w : world (app_state D) D W) :
  frame_ok fr → ok ports (loc w) (trace w) → deliverable fr waits w →
  wp (event_loop cfg fr waits) (λ r w',
    (∃ ports', ok ports' (loc w') (trace w')) ∧
    match r with
    | None => Forall (λ a, 0 ≤ wait_rc a) waits
    | Some rc => rc < 0 ∧ ∃ a, a ∈ waits ∧ wait_rc a = rc
    end) w.
Proof.
  intros Hfr. revert ports w. induction waits as [|[rc ev c] waits IH]; intros ports w Hok Hd.
  { cbn. apply wp_ret. split; [by exists ports|constructor]. }
  cbn [event_loop deliverable] in *. destruct (Z.ltb_spec rc 0) as [Hrc|Hrc].
  { apply wp_ret. split; [by exists ports|]. split; [done|].
    exists (WaitAnswer rc ev c). split; [left|done]. }
  assert (∀ ports' w', ok ports' (loc w') (trace w') → deliverable fr waits w' →
    wp (event_loop cfg fr waits) (λ r w', (∃ ports', ok ports' (loc w') (trace w')) ∧
      match r with
      | None => Forall (λ a, 0 ≤ wait_rc a) (WaitAnswer rc ev c :: waits)
      | Some rc0 => rc0 < 0 ∧ ∃ a, a ∈ WaitAnswer rc ev c :: waits ∧ wait_rc a = rc0
      end) w') as Hrest.
  { intros ports' w' Hok' Hd'. eapply wp_mono; [by eapply IH|].
    intros [r|] w2 [Hports Hr]; split; try done.
    - destruct Hr as (Hneg & a & Ha & Heq). split; [done|]. exists a. split; [by right|done].
    - by constructor. }
  apply wp_bind. destruct (rc =? NO_ERROR); [|apply wp_ret; by eapply Hrest].
  destruct Hd as [Hev Hd]. pose proof (dispatch_ok fr ev c ports w Hfr Hok Hev) as Hw.
  apply wp_returns in Hw as ([] & w' & Hrun & ports' & _ & Hok').
  rewrite Hrun in Hd. eapply wp_of_run; [exact Hrun|]. by eapply Hrest.
Qed.

End Correct.
