(* ===== verification/HwkeyDemo.v ===== *)
(** The theorems on the key service, its provider and the application at
    concrete states: the scripted kernel, the fake random number device, a toy
    cipher, and a client of the unit tests that holds one opaque handle. *)

From S2P Require Import Prelude Ipc HwrngDev Evp Hwrng Keybox Hwkey HwkeyProps.
From S2P Require Import HwkeyCorrect HwkeyProvider Hwcrypto.

Module HwkeyDemo.
#[local] Instance uapi : Uapi := Sim.uapi.
#[local] Instance kernel : Kernel script := Sim.kernel.
#[local] Instance laws : KernelLaws script := Sim.kernel_laws.
#[local] Existing Instances Fake.dev Fake.laws.
#[local] Existing Instances Demo.iface KeyboxDemo.iface.

(** A header of four bytes. *)
#[local] Instance iface : HwkeyIface.
Proof.
  refine {| HWKEY_PORT := "com.android.trusty.hwkey"; HWKEY_GET_KEYSLOT := 0;
            HWKEY_DERIVE := 2; HWKEY_RESP_BIT := 1; HWKEY_KDF_VERSION_BEST := 0;
            HWKEY_KDF_VERSION_1 := 1; HWKEY_NO_ERROR := 0; HWKEY_ERR_GENERIC := 1;
            HWKEY_ERR_NOT_FOUND := 5; HWKEY_ERR_BAD_LEN := 3; HWKEY_ERR_NOT_IMPLEMENTED := 4;
            HWKEY_ERR_ALREADY_EXISTS := 6; sizeof_hwkey_msg := 4;
            hwkey_msg_decode bs :=
              HwkeyMsg (bs !!! 0%nat) (bs !!! 1%nat) (bs !!! 2%nat) (drop 3 bs);
            hwkey_msg_encode m := cmd m :: status m :: arg1 m :: other_fields m |};
    try done; lia.
Defined.

(** The toy cipher with a derivation that passes the self test. *)
Definition demo_hkdf (n : Z) (secret slt inf : bytes) : bytes :=
  if bool_decide ((n, secret, slt, inf) = (42, IKM, salt, info)) then exp_OKM
  else ToyEvp.derive n secret slt inf.

#[local] Instance evp : Evp Z := {|
  evp_call := evp_call (Evp := ToyEvp.toy_evp Z);
  evp_decrypt_update := evp_decrypt_update (Evp := ToyEvp.toy_evp Z);
  evp_encrypt_update := evp_encrypt_update (Evp := ToyEvp.toy_evp Z);
  evp_final := evp_final (Evp := ToyEvp.toy_evp Z);
  evp_iv_length := evp_iv_length (Evp := ToyEvp.toy_evp Z);
  evp_key_length := evp_key_length (Evp := ToyEvp.toy_evp Z);
  evp_block_size := evp_block_size (Evp := ToyEvp.toy_evp Z);
  hkdf n secret slt inf d := ((true, demo_hkdf n secret slt inf), d);
  aes_decrypt := aes_decrypt (Evp := ToyEvp.toy_evp Z);
  aes_encrypt := aes_encrypt (Evp := ToyEvp.toy_evp Z);
  hkdf_sha256 := demo_hkdf
|}.

Lemma length_demo_hkdf n secret slt inf :
  0 ≤ n → Z.of_nat (length (demo_hkdf n secret slt inf)) = n.
Proof.
  intros Hn. unfold demo_hkdf. case_bool_decide as E; [by simplify_eq|].
  exact (hkdf_sha256_length (EvpLaws := ToyEvp.toy_evp_laws Z) n secret slt inf Hn).
Qed.

#[local] Instance evp_laws : EvpLaws Z.
Proof.
  destruct (ToyEvp.toy_evp_laws Z). split; try done.
  - apply length_demo_hkdf.
  - intros n secret slt inf d ok out d' Hn E. injection E as <- <- <-.
    by rewrite length_demo_hkdf.
  - intros n secret slt inf d out d' Hn E. by injection E as <- <-.
Qed.

#[local] Instance evp_cbc : EvpCbc Z.
Proof. destruct (ToyEvp.toy_evp_cbc Z). by split. Qed.
#[local] Instance evp_atomic : EvpAtomic Z.
Proof. destruct (ToyEvp.toy_evp_atomic Z). by split. Qed.

(** The device is unlocked while its counter is even. *)
#[local] Instance platform : Platform Z := {|
  uuid_bytes := str;
  system_state_app_loading_unlocked d := (Z.even d, d)
|}.

(** A build with the unit tests' keys and one signing key. *)
Definition cfg : config := Config true (Some [7; 8; 9]) true None false None None.
Definition provider : HwkeyProvider Z := fake_provider cfg.
#[local] Existing Instance provider.
Lemma cfg_ok : config_ok cfg.
Proof. by split. Qed.

(** Slot 5 is the unit test's opaque slot, slot 6 the second one. *)
Definition tok : bytes := make_token (seqZ 1 34).
Definition tester : hwkey_chan_ctx := HwkeyCtx 100 HWCRYPTO_UNITTEST_APP_UUID.
Definition state : hwkey_state Z :=
  HwkeyState {[1%positive := tester]} [(9%positive, OpaqueNode 5 1 tok)]
    (replicate (Z.to_nat (HWKEY_MAX_PAYLOAD_SIZE + 1)) 170)
    (replicate (Z.to_nat HWKEY_MAX_PAYLOAD_SIZE) 0) (Some (_keys cfg)).
Definition w (s : script) : world (hwkey_state Z) Z script :=
  World state 1 s [SAccept 8 100].

Lemma slot_5 : slot_of state 5 = Some (KeySlot
  (str "com.android.trusty.hwcrypto.unittest.opaque_handle") HWCRYPTO_UNITTEST_APP_UUID
  (GetKeyHandle (Some unittest_opaque_handle_data))).
Proof. done. Qed.

Lemma demo_hwkey_ok s : hwkey_ok [] (loc (w s)) (trace (w s)).
Proof.
  split.
  - unfold balanced, objects. by vm_compute.
  - apply NoDup_singleton.
  - apply NoDup_singleton.
  - apply Forall_singleton. split_and!.
    + exists tester. apply lookup_singleton_eq.
    + eexists _, _. split; [exact slot_5|done].
    + exists (seqZ 1 31). split_and!; [by vm_compute..|].
      apply Forall_forall. intros b Hb%elem_of_seqZ. lia.
  - by vm_compute.
  - by vm_compute.
  - intros slots [= <-]. apply (keys_slot_ok cfg cfg_ok).
  - intros p c Hp. change (({[1%positive := tester]} : gmap ptr hwkey_chan_ctx) !! p = Some c) in Hp.
    apply lookup_singleton_Some in Hp as [<- <-]. by vm_compute.
Qed.

(** * The key service *)

Lemma fake_tables_consistent_witness :
  NoDup (key_id <$> _keys (D:=Z) cfg) ∧
  fake_client_allowed cfg HWAES_UNITTEST_APP_UUID = true ∧
  fake_client_allowed cfg HWCRYPTO_UNITTEST_APP_UUID = true.
Proof.
  destruct (fake_tables_consistent cfg) as (Hid & Howner & Hreader). split_and!.
  - exact Hid.
  - apply (Howner (KeySlot (str "com.android.trusty.hwaes.unittest.opaque_handle")
      HWAES_UNITTEST_APP_UUID (GetKeyHandle (Some hwaes_unittest_opaque_handle_data)))).
    apply (list_elem_of_lookup_2 _ 9). reflexivity.
  - apply (Hreader (KeySlot (str "com.android.trusty.hwcrypto.unittest.opaque_handle2")
      HWCRYPTO_UNITTEST_APP_UUID (GetKeyHandle (Some unittest_opaque_handle_data2)))
      unittest_opaque_handle_data2).
    + apply (list_elem_of_lookup_2 _ 6). reflexivity.
    + reflexivity.
    + apply list_elem_of_here.
Defined.

(** A message for the channel, on a kernel that accepts the answer. *)
Definition says (m : bytes) : script := Script 101 [] [] [m] [].

(** GET_KEYSLOT with the token, and DERIVE version 1 of three bytes. *)
Definition get_key : script := says ([0; 0; 0; 0] ++ tok).
Definition derive_key : script := says [2; 0; 1; 0; 1; 2; 3].

Lemma hwkey_chan_handler_safe_witness :
  wp (hwkey_chan_handler token_fuel (UEvent 100 8) 1)
    (λ _ w', hwkey_ok [] (loc w') (trace w')) (w get_key).
Proof.
  apply (hwkey_chan_handler_safe [] _ _ tester);
    [apply demo_hwkey_ok|apply lookup_singleton_eq|done|done].
Defined.

Lemma hwkey_chan_handle_msg_answers_witness :
  wp (hwkey_chan_handle_msg token_fuel 1) (λ rc w',
    (rc < 0 ∧ ∃ bs, trace w' = SRecv 100 rc bs :: trace (w get_key)) ∨
    ∃ msg, answered tester (msg_hdr msg) rc
             (SRecv 100 (Z.of_nat (length msg)) msg :: trace (w get_key)) (trace w')) (w get_key).
Proof.
  apply (hwkey_chan_handle_msg_answers [] 1 tester);
    [apply demo_hwkey_ok|apply lookup_singleton_eq].
Defined.

(** The unit test asks for its opaque slot by name, then by token. *)
Definition by_name : bytes := str "com.android.trusty.hwcrypto.unittest.opaque_handle" ++ [0].

Lemma hwkey_handle_slots_resolves_witness :
  handle_slots 1 1 by_name (Some (_keys cfg)) 2048 0 (w get_key) =
  match select_slot HWCRYPTO_UNITTEST_APP_UUID by_name (_keys cfg) 0 with
  | Some (j, s) => serve_slot 1 1 j s 2048 0 (w get_key)
  | None =>
    match opaque_lookup (loc (w get_key)) HWCRYPTO_UNITTEST_APP_UUID by_name with
    | Some data => call_key_fn (retriever data 2048) 0 (w get_key)
    | None => Ret (HWKEY_ERR_NOT_FOUND, 0) (w get_key)
    end
  end.
Proof.
  apply (hwkey_handle_slots_resolves 1 [] 1 tester);
    [apply demo_hwkey_ok|apply lookup_singleton_eq].
Defined.

Lemma hwkey_get_key_handle_outcomes_witness :
  wp (fetch_handle token_fuel 1 5 2048 0) (fetch_result 1 5 0 (w get_key)) (w get_key).
Proof.
  eapply (hwkey_get_key_handle_outcomes []);
    [apply demo_hwkey_ok|exact slot_5|done|by vm_compute].
Defined.

Lemma hwkey_opaque_key_access_witness :
  get_opaque_key HWCRYPTO_UNITTEST_APP_UUID tok 2048 0 (w get_key) =
    Ret (HWKEY_ERR_NOT_FOUND, 0) (w get_key) ∨
  ∃ q n s data,
    (q, n) ∈ opaque_handles (loc (w get_key)) ∧
    is_Some (hwkey_ctxs (loc (w get_key)) !! owner n) ∧
    slot_of (loc (w get_key)) (key_slot n) = Some s ∧ handler s = GetKeyHandle (Some data) ∧
    HWCRYPTO_UNITTEST_APP_UUID ∈ allowed_uuids data ∧
    token n = take (Z.to_nat HWKEY_OPAQUE_HANDLE_SIZE) tok ∧
    get_opaque_key HWCRYPTO_UNITTEST_APP_UUID tok 2048 0 (w get_key) =
      call_key_fn (retriever data 2048) 0 (w get_key).
Proof. apply (hwkey_opaque_key_access []), demo_hwkey_ok. Defined.

Lemma hwkey_stale_bytes_irrelevant_witness :
  get_opaque_key HWCRYPTO_UNITTEST_APP_UUID (terminated [1; 2] (replicate 40 170)) 2048 0
    (w get_key) =
  get_opaque_key HWCRYPTO_UNITTEST_APP_UUID (terminated [1; 2] (seqZ 1 40)) 2048 0 (w get_key).
Proof. apply (hwkey_stale_bytes_irrelevant []); [apply demo_hwkey_ok|done|done]. Defined.

Lemma hwkey_ctx_close_revokes_witness :
  wp (hwkey_ctx_close 1) (λ _ w',
    opaque_handles (loc w') =
      filter (λ e, owner e.2 ≠ 1%positive) (opaque_handles (loc (w get_key))) ∧
    hwkey_ctxs (loc w') = delete 1%positive (hwkey_ctxs (loc (w get_key))) ∧
    trace w' = SClose 100 :: trace (w get_key) ∧
    hwkey_ok [] (loc w') (trace w')) (w get_key).
Proof.
  apply (hwkey_ctx_close_revokes [] 1 tester);
    [apply demo_hwkey_ok|apply lookup_singleton_eq].
Defined.

(** A second handle, for slot 6, with another token. *)
Definition tok2 : bytes := seqZ 101 34.

Lemma hwkey_handle_opens_key_witness :
  let l' := with_handles (λ L, L ++ [(10%positive, OpaqueNode 6 1 (make_token tok2))]) state in
  let w' : world (hwkey_state Z) Z script := World l' 1 Sim.quiet [SAccept 8 100] in
  get_opaque_key HWCRYPTO_UNITTEST_APP_UUID (make_token tok2 ++ [0]) 2048 0 w' =
    call_key_fn (get_unittest_key32_opaque 2048) 0 w' ∧
  wp (hwkey_ctx_close 1) (λ _ w2,
    get_opaque_key HWCRYPTO_UNITTEST_APP_UUID (make_token tok2 ++ [0]) 2048 0 w2 =
    Ret (HWKEY_ERR_NOT_FOUND, 0) w2) w'.
Proof.
  eapply (hwkey_handle_opens_key [] 1 tester 6 _ unittest_opaque_handle_data2);
    [apply (demo_hwkey_ok Sim.quiet)|apply lookup_singleton_eq|done|done|left|
     by vm_compute; lia|done| |].
  - cbn. by intros ?%list_elem_of_singleton.
  - cbn. by intros e ->%list_elem_of_singleton.
Defined.

Lemma hwkey_derive_cmd_answers_witness :
  wp (hwkey_handle_derive_key_cmd 1 (HwkeyMsg 2 0 0 [0]) [1; 2; 3]) (λ rc w', ∃ hdr' data,
    trace w' = SSend 100 (hwkey_msg_encode hdr' ++ data) rc :: trace (w derive_key) ∧
    cmd hdr' = 3 ∧ arg1 hdr' = HWKEY_KDF_VERSION_1 ∧ ∃ k n,
      derive_key_v1 HWCRYPTO_UNITTEST_APP_UUID [1; 2; 3]
        (KOut (key_data state) (Some HWKEY_MAX_PAYLOAD_SIZE) 1) = Ret (status hdr') k ∧
      klen k = Some n ∧ data = take (Z.to_nat n) (kbuf k) ∧
      key_data (loc w') = memset0 (Z.to_nat n) (kbuf k)) (w derive_key).
Proof.
  exact (hwkey_derive_cmd_answers [] 1 tester (HwkeyMsg 2 0 0 [0]) [1; 2; 3] (w derive_key)
    (demo_hwkey_ok _) (lookup_singleton_eq _ _) ltac:(by vm_compute)).
Defined.

Lemma hwkey_key_data_wiped_witness :
  wp (hwkey_chan_handle_msg token_fuel 1) (λ _ w', zeroed (key_data (loc w'))) (w get_key).
Proof.
  apply (hwkey_key_data_wiped _ [] 1 tester).
  - apply token_fuel_ready.
  - apply demo_hwkey_ok.
  - apply lookup_singleton_eq.
  - intros i s Hs. pose proof (keys_contained cfg cfg_ok) as Hall.
    change (_keys cfg !! i = Some s) in Hs. exact (Forall_lookup_1 _ _ _ _ Hall Hs).
  - intros u ikm Hikm. apply behaves_contained. by apply derive_behaves.
  - done.
Defined.

(** * The provider *)

Definition out (d : Z) : kout Z := KOut (replicate 2048 0) (Some 0) d.

Lemma unittest_derived_ok : derived_data_ok (D:=Z) hwcrypto_unittest_derived_data.
Proof.
  split; [done|by intros c [->| ->]; vm_compute|].
  intros d. exists HWKEY_NO_ERROR. eexists. split; [by vm_compute|by eexists].
Qed.

Lemma hwkey_get_derived_key_correct_witness :
  wp (hwkey_get_derived_key hwcrypto_unittest_derived_data 2048) (λ rc k',
    length (kbuf k') = 2048%nat ∧
    if decide (rc = HWKEY_NO_ERROR) then derived_key hwcrypto_unittest_derived_data (out 1) k'
    else klen k' = Some 0 ∧ (EvpAtomic Z → kbuf k' = kbuf (out 1))) (out 1).
Proof. apply hwkey_get_derived_key_correct; [apply unittest_derived_ok|done]. Defined.

Lemma derive_key_v1_correct_witness :
  wp (fake_derive_key_v1 KM_APP_UUID [1; 2; 3]) (λ rc k',
    length (kbuf k') = 2048%nat ∧
    ([1; 2; 3] = [] → rc = HWKEY_ERR_BAD_LEN ∧ klen k' = Some 0 ∧ kbuf k' = kbuf (out 1)) ∧
    ([1; 2; 3] ≠ [] →
      (rc = HWKEY_NO_ERROR ∧ klen k' = Some 3 ∧
       kbuf k' = overwrite (hkdf_sha256 3 fake_device_key (uuid_bytes KM_APP_UUID) [1; 2; 3])
                   (kbuf (out 1))) ∨
      (rc = HWKEY_ERR_GENERIC ∧ klen k' = Some 0 ∧
       take 3 (kbuf k') = replicate 3 0))) (out 1).
Proof. apply (derive_key_v1_correct KM_APP_UUID [1; 2; 3] (out 1)). by vm_compute. Defined.

Lemma apploader_unlocked_only_witness :
  get_apploader_sign_unlocked_key [7; 8; 9] 2048 (out 1) = Ret HWKEY_ERR_NOT_FOUND (out 1).
Proof. apply (apploader_unlocked_only [7; 8; 9] 2048 (out 1) false 1); [done|done|by vm_compute]. Defined.

Lemma rpmb_key_correct_witness :
  wp (get_rpmb_ss_auth_key 2048) (λ rc k',
    length (kbuf k') = 2048%nat ∧
    ((rc = HWKEY_NO_ERROR ∧ 64 ≤ 2048 ∧ klen k' = Some 32 ∧
      kbuf k' = overwrite (aes_encrypt AES_256_CBC fake_device_key (replicate 16 0) rpmb_salt)
                  (kbuf (out 1))) ∨
     (rc = HWKEY_ERR_GENERIC ∧ klen k' = Some 0))) (out 1).
Proof. apply (rpmb_key_correct 2048 (out 1)). by vm_compute. Defined.

Lemma hwkey_init_srv_provider_correct_witness :
  wp (hwkey_init_srv_provider cfg) (λ _ w',
    key_slots (loc w') = Some (_keys cfg) ∧
    ∃ ports, hwkey_ok (ports ++ []) (loc w') (trace w')) (World hwkey_init 1 Sim.quiet []).
Proof.
  assert ((hwkey_self_test 1).1 = true) as Htest by by vm_compute.
  pose proof (hwkey_init_srv_provider_correct cfg [] (World hwkey_init 1 Sim.quiet []) cfg_ok
    hwkey_init_ok ltac:(done) ltac:(done)) as Hw.
  cbn [dev] in Hw. rewrite Htest in Hw. exact Hw.
Defined.

(** * The application *)

Definition boot : world (app_state Z) Z script := World app_init 1 Sim.quiet [].
Definition frame : keybox_frame := KeyboxDemo.frame.

(** The state start-up leaves on the scripted kernel: the ports 100 to 102. *)
Definition started : world (app_state Z) Z script :=
  match init_services cfg boot with Ret _ w | Halt _ w => w end.

Lemma starts : init_services cfg boot = Ret NO_ERROR started.
Proof. by vm_compute. Qed.

Lemma started_reachable : reachable cfg started.
Proof. apply (reach_started cfg boot); [done|done|exact starts]. Qed.

Lemma started_ok : app_ok cfg [102; 101; 100] (loc started) (trace started).
Proof.
  destruct (reachable_ok cfg cfg_ok started started_reachable) as [ports Hok].
  eapply app_ok_ports; [|exact Hok]. apply app_balanced in Hok.
  assert (balanced (trace started) [102; 101; 100]) as Hb by by vm_compute.
  unfold balanced in *. rewrite Hb in Hok. symmetry. by apply Permutation_app_inv_l in Hok.
Qed.

Lemma hwcrypto_reachable_safe_witness :
  (∃ ports, app_ok cfg ports (loc started) (trace started)) ∧
  ∀ fr ev c, frame_ok fr → event_ok cfg (loc started) (trace started) ev c →
  match dispatch_event cfg fr ev c started with
  | Ret _ w' => reachable cfg w'
  | Halt h w' => stops (loc started) (trace started) ev c h (trace w')
  end.
Proof. apply (hwcrypto_reachable_safe cfg cfg_ok), started_reachable. Defined.

Lemma hwcrypto_init_services_ok_witness :
  ∃ ports, app_ok cfg ports (loc started) (trace started).
Proof.
  pose proof (hwcrypto_init_services_ok cfg cfg_ok boot eq_refl eq_refl) as Hw.
  rewrite starts in Hw. exact Hw.
Defined.

(** A connection to the hwrng port, then an error of wait_any. *)
Definition waits : list wait_answer :=
  [WaitAnswer 0 (UEvent 100 1) HwrngPort; WaitAnswer (-13) (UEvent (-1) 0) NoCookie].

Lemma hwcrypto_event_loop_safe_witness :
  wp (event_loop cfg frame waits) (λ r w',
    (∃ ports', app_ok cfg ports' (loc w') (trace w')) ∧
    match r with
    | None => Forall (λ a, 0 ≤ wait_rc a) waits
    | Some rc => rc < 0 ∧ ∃ a, a ∈ waits ∧ wait_rc a = rc
    end) started.
Proof.
  apply (hwcrypto_event_loop_safe cfg frame waits [102; 101; 100]);
    [apply KeyboxDemo.frame_sizes|apply started_ok|by vm_compute].
Defined.

End HwkeyDemo.
