(* ===== verification/Watch.v ===== *)
(** A device that remembers whether one of its calls has failed: any device,
    cryptography and platform the services run on, watched from outside.  Used
    to say "unless a library call failed" without asking the service. *)

From S2P Require Import Prelude Ipc HwrngDev Evp Hwkey HwkeyProps HwkeyCorrect HwkeyProvider.

(** * 1. The watched device *)

Record watched (D : Type) := Watched { watched_dev : D; lib_failed : bool }.
Arguments Watched {D}.
Arguments watched_dev {D}.
Arguments lib_failed {D}.

(** A call of the device, [ok] being its answers without an error. *)
Definition watch {D A} (ok : A → bool) (f : D → A * D) (d : watched D) : A * watched D :=
  let '(a, i) := f (watched_dev d) in (a, Watched i (lib_failed d || negb (ok a))).

Lemma watch_inv {D A} (ok : A → bool) (f : D → A * D) d a d' :
  watch ok f d = (a, d') →
  ∃ i, f (watched_dev d) = (a, i) ∧ d' = Watched i (lib_failed d || negb (ok a)).
Proof. unfold watch. destruct (f _) as [b i]. intros [= <- <-]. by exists i. Qed.

(** It behaves as the device does. *)
Section Instances.
Context {D : Type}.

#[export] Instance watched_rng `{!Uapi, !HwrngDev D} : HwrngDev (watched D) := {|
  hwrng_dev_init := watch (λ rc, rc =? NO_ERROR) hwrng_dev_init;
  hwrng_dev_get_rng_data n := watch (λ r, r.1 =? NO_ERROR) (hwrng_dev_get_rng_data n)
|}.

Lemma watched_ready `{!Uapi, !HwrngDev D} fuel d :
  token_ready fuel (watched_dev d) → token_ready (D := watched D) fuel d.
Proof.
  revert d. induction fuel as [|fuel IH]; intros d; [done|]. cbn [token_ready].
  unfold hwrng_dev_get_rng_data at 2. unfold watched_rng, watch.
  destruct (hwrng_dev_get_rng_data _ (watched_dev d)) as [[rc bs] i].
  intros [?|[?|Hr]]; [by left|by right; left|]. right; right. by apply IH.
Qed.

#[export] Instance watched_fair `{!Uapi, !HwrngDev D, !HwrngDevFair D} : HwrngDevFair (watched D).
Proof. refine {| token_fuel := token_fuel (D := D) |}. intros d. apply watched_ready, token_fuel_ready. Defined.

#[export] Instance watched_evp `{!Evp D} : Evp (watched D) := {|
  evp_call op := watch (λ ok, ok) (evp_call op);
  evp_decrypt_update c k iv ct := watch fst (evp_decrypt_update c k iv ct);
  evp_encrypt_update c k iv pt := watch fst (evp_encrypt_update c k iv pt);
  evp_final c input := watch fst (evp_final c input);
  evp_iv_length := evp_iv_length (D := D);
  evp_key_length := evp_key_length (D := D);
  evp_block_size := evp_block_size (D := D);
  hkdf n secret salt info := watch fst (hkdf n secret salt info);
  aes_decrypt := aes_decrypt (D := D);
  aes_encrypt := aes_encrypt (D := D);
  hkdf_sha256 := hkdf_sha256 (D := D)
|}.

#[export] Instance watched_evp_laws `{!Evp D, !EvpLaws D} : EvpLaws (watched D).
Proof.
  destruct (_ : EvpLaws D). split; try done; cbn; unfold aligned; cbn; intros;
    repeat match goal with E : watch _ _ _ = _ |- _ => apply watch_inv in E as (? & ? & _) end; eauto.
Qed.

#[export] Instance watched_cbc `{!Evp D, !EvpCbc D} : EvpCbc (watched D).
Proof. split. intros c Hc. exact (evp_cbc_sizes (D := D) c Hc). Qed.

#[export] Instance watched_platform `{!Platform D} : Platform (watched D) := {|
  uuid_bytes := uuid_bytes (D := D);
  system_state_app_loading_unlocked := watch (λ _, true) system_state_app_loading_unlocked
|}.
End Instances.

(** * 2. Key functions that fail only when a call does *)

Section KeyFunctions.
Context {D : Type} `{!HwkeyIface} `{!Evp D} `{!EvpLaws D} `{!EvpCbc D} `{!Platform D}.
Implicit Types k : kout (watched D).

(** If no call has failed in the end, the answer is not an error. *)
Definition sure (m : M (kout (watched D)) Z) : Prop := ∀ k,
  Z.of_nat (length (kbuf k)) = HWKEY_MAX_PAYLOAD_SIZE →
  wpx m (λ st k', lib_failed (kdev k') = false → st = HWKEY_NO_ERROR) (λ _, True) k.

Lemma wpx_dev_call {A} (f : watched D → A * watched D) (Q : A → kout (watched D) → Prop) E k :
  (∀ a d, f (kdev k) = (a, d) → Q a (KOut (kbuf k) (klen k) d)) → wpx (dev_call f) Q E k.
Proof. intros HQ. unfold wpx, dev_call. destruct (f (kdev k)) as [a d]. by apply HQ. Qed.

Lemma wpx_watched {A} ok (f : D → A * D) (Q : A → kout (watched D) → Prop) E k :
  (∀ a i, f (watched_dev (kdev k)) = (a, i) →
     Q a (KOut (kbuf k) (klen k) (Watched i (lib_failed (kdev k) || negb (ok a))))) →
  wpx (dev_call (watch ok f)) Q E k.
Proof. intros HQ. apply wpx_dev_call. intros a d (i & Ef & ->)%watch_inv. by apply HQ. Qed.

Lemma wpx_write_kbuf bs (Q : unit → kout (watched D) → Prop) k :
  Q tt (KOut (overwrite bs (kbuf k)) (klen k) (kdev k)) → wpx (write_kbuf bs) Q (λ _, True) k.
Proof. intros HQ. unfold wpx, write_kbuf. by destruct (_ <=? _)%nat. Qed.

Lemma sure_const bs : sure (get_apploader_key bs HWKEY_MAX_PAYLOAD_SIZE).
Proof.
  intros k _. unfold get_apploader_key. apply wpx_bind. unfold assert.
  destruct (_ <=? _); [|done]. apply wpx_bind, wpx_write_kbuf. done.
Qed.

Lemma sure_derive u ikm : ikm ≠ [] → sure (fake_derive_key_v1 u ikm).
Proof.
  intros Hne k _. unfold fake_derive_key_v1.
  destruct (Z.eqb_spec (Z.of_nat (length ikm)) 0) as [E|_]; [by destruct ikm|].
  apply wpx_bind, wpx_watched. intros [[] out] i _; apply wpx_bind, wpx_write_kbuf; cbn [negb]; [done|].
  apply wpx_bind. unfold set_klen, modify, wpx at 1. apply wpx_bind, wpx_write_kbuf.
  unfold wpx. cbn. by rewrite orb_true_r.
Qed.
(** A call that must succeed: when it fails, the answer is an error, but then
    a call has failed. *)
Lemma sure_call {B} ok (f : D → bool * D) (m : M (kout (watched D)) B) (n : bool → M (kout (watched D)) B)
    (Q : B → kout (watched D) → Prop) k :
  (∀ i, wpx m (λ b k', lib_failed (kdev k') = false → Q b k') (λ _, True)
     (KOut (kbuf k) (klen k) (Watched i true))) →
  (∀ i, wpx (n true) (λ b k', lib_failed (kdev k') = false → Q b k') (λ _, True)
     (KOut (kbuf k) (klen k) (Watched i (lib_failed (kdev k))))) →
  (∀ b, ok b = b) → (∀ b, b = false → n b = m) →
  wpx (bind (dev_call (watch ok f)) n) (λ b k', lib_failed (kdev k') = false → Q b k') (λ _, True) k.
Proof.
  intros Hbad Hgood Hok Hn. apply wpx_bind, wpx_watched. intros [] i _; rewrite Hok; cbn [negb].
  - rewrite orb_false_r. apply Hgood.
  - rewrite orb_true_r, (Hn false eq_refl). apply Hbad.
Qed.

Lemma sure_decrypt data c key size :
  evp_iv_length (D := D) c < size → size - evp_iv_length (D := D) c ≤ HWKEY_MAX_PAYLOAD_SIZE →
  sure (decrypt_derived data c key size HWKEY_MAX_PAYLOAD_SIZE).
Proof.
  intros Hiv Hsize k _. unfold decrypt_derived.
  apply (sure_call _ _ (ret HWKEY_ERR_GENERIC)); [done| |done|by intros _ ->]. intros i1. cbn [negb].
  change (evp_iv_length (D := watched D) c) with (evp_iv_length (D := D) c).
  rewrite (proj2 (Z.leb_gt _ _)) by done. rewrite (proj2 (Z.ltb_ge _ _)) by done.
  apply (sure_call _ _ (ret HWKEY_ERR_GENERIC)); [done| |done|by intros _ ->]. intros i2.
  apply (sure_call _ _ (ret HWKEY_ERR_GENERIC)); [done| |done|by intros _ ->]. intros i3. cbn [negb].
  apply wpx_bind, wpx_watched. intros [[] out] i4 _; apply wpx_bind, wpx_write_kbuf; cbn [negb fst].
  2: { unfold wpx. cbn. by rewrite orb_true_r. }
  apply wpx_bind. unfold assert. destruct (_ =? _); [|done].
  apply wpx_bind, wpx_watched. intros [[] n] i5 _; cbn [negb fst].
  2: { unfold wpx. cbn. by rewrite !orb_true_r. }
  apply wpx_bind. unfold assert. by destruct (_ =? _).
Qed.

(** The derived key of the unit tests. *)
Lemma sure_derived :
  sure (hwkey_get_derived_key hwcrypto_unittest_derived_data HWKEY_MAX_PAYLOAD_SIZE).
Proof.
  intros k Hk. unfold hwkey_get_derived_key. cbn [encrypted_key_size_ptr hwcrypto_unittest_derived_data].
  assert (retrieve_key get_unittest_key32_derived k =
    Ret (HWKEY_NO_ERROR, _unittest_key32, Some 32) k) as Hret by by destruct k.
  apply wpx_bind. unfold wpx at 1. cbn [derived_retriever hwcrypto_unittest_derived_data].
  rewrite Hret, Z.eqb_refl. cbn [negb]. change (cipher_for 32) with (Some AES_256_CBC). cbv iota beta.
  apply (sure_call _ _ (ret HWKEY_ERR_GENERIC)); [done| |done|by intros _ ->]. intros i. cbn [negb].
  destruct (evp_cbc_sizes (D := D) AES_256_CBC) as [Hiv _]; [by right|].
  apply wpx_bind. eapply wpx_mono; [apply sure_decrypt; [..|done]|].
  - rewrite Hiv. done.
  - rewrite Hiv. done.
  - intros rc k' Hrc. apply wpx_bind, wpx_watched. intros ok i' _. unfold wpx. cbn.
    intros [Hf _]%orb_false_iff. by apply Hrc.
Qed.
End KeyFunctions.
