(* ===== verification/HwkeyTable.v ===== *)
(** What the key service promises about opaque handles, as an abstract table
    of handles, and that the handlers of hwkey_srv.c implement it. *)

From S2P Require Import Prelude Ipc HwrngDev Evp Hwkey HwkeyProps HwkeyCorrect.

(** * 1. The table *)

(** A handle: the client it was given to, its slot, its token. *)
Record entry := Entry { e_owner : ptr; e_slot : nat; e_token : bytes }.

Definition entry_of (e : ptr * opaque_handle_node) : entry :=
  Entry (owner e.2) (key_slot e.2) (token e.2).
Definition table {D} (l : hwkey_state D) : list entry := entry_of <$> opaque_handles l.

(** Closing a client. *)
Definition revoke (p : ptr) (T : list entry) : list entry := filter (λ e, e_owner e ≠ p) T.

Section Table.
Context {D : Type} `{!Uapi} `{!HwkeyIface} `{!HwrngDev D} `{!HwkeyProvider D}.
Context (slots : list (hwkey_keyslot D)).
Implicit Types (T : list entry) (u : uuid) (p : ptr) (d : D).

(** The key that presenting [id] gives the client [u] by the handle [e]. *)
Definition readable u (id : bytes) (e : entry) : option (hwkey_opaque_handle_data D) :=
  match slots !! e_slot e with
  | Some s =>
    match opaque_data s with
    | Some data =>
      if existsb (λ a, bool_decide (a = u)) (allowed_uuids data) &&
         bool_decide (e_token e = take (Z.to_nat HWKEY_OPAQUE_HANDLE_SIZE) id)
      then Some data else None
    | None => None
    end
  | None => None
  end.
Definition find_key u (id : bytes) T : option (hwkey_opaque_handle_data D) :=
  head (omap (readable u id) T).

(** An answer of a key function with the device in [d]: its status, the bytes
    it reports and the device it leaves. *)
Inductive key_answer (f : key_fn D) (d : D) (st : Z) (data : bytes) (d' : D) : Prop :=
| KeyAnswer buf n0 k n :
    Z.of_nat (length buf) = HWKEY_MAX_PAYLOAD_SIZE →
    f HWKEY_MAX_PAYLOAD_SIZE (KOut buf (Some n0) d) = Ret st k → klen k = Some n → kdev k = d' →
    data = take (Z.to_nat n) (kbuf k) → key_answer f d st data d'.

(** What it can answer, on any device. *)
Definition can_answer (f : key_fn D) (st : Z) (data : bytes) : Prop :=
  ∃ d d', key_answer f d st data d'.

(** A request for [id] by the client [p] of identity [u], with the handles [T]
    and the device [d]: the allocations it makes, the status and the data it is
    answered with, the handles and the device afterwards.  A new handle takes
    an allocation that succeeds and a token from the device; only an allocation
    that fails, or a read of the device that fails, keeps it from being made. *)
Inductive table_step u p (id : bytes) T d : list sysev → Z → bytes → list entry → D → Prop :=
| TExists j s o :
    select_slot u id slots 0 = Some (j, s) → handler s = GetKeyHandle o → j ∈ e_slot <$> T →
    table_step u p id T d [] HWKEY_ERR_ALREADY_EXISTS [] T d
| TNew j s o bs d' :
    select_slot u id slots 0 = Some (j, s) → handler s = GetKeyHandle o → j ∉ e_slot <$> T →
    token_draw d NO_ERROR bs d' →
    table_step u p id T d [SAlloc true] HWKEY_NO_ERROR (make_token bs)
      (T ++ [Entry p j (make_token bs)]) d'
| TNoMemory j s o :
    select_slot u id slots 0 = Some (j, s) → handler s = GetKeyHandle o → j ∉ e_slot <$> T →
    table_step u p id T d [SAlloc false] HWKEY_ERR_GENERIC [] T d
| TNoRandom j s o rc bs d' :
    select_slot u id slots 0 = Some (j, s) → handler s = GetKeyHandle o → j ∉ e_slot <$> T →
    token_draw d rc bs d' → rc ≠ NO_ERROR → table_step u p id T d [SAlloc true] (u32 rc) [] T d'
| TSlot j s f st data d' :
    select_slot u id slots 0 = Some (j, s) → handler s = ProviderFn f →
    key_answer f d st data d' → table_step u p id T d [] st data T d'
| TKey o st data d' :
    select_slot u id slots 0 = None → find_key u id T = Some o →
    key_answer (retriever o) d st data d' → table_step u p id T d [] st data T d'
| TNone :
    select_slot u id slots 0 = None → find_key u id T = None →
    table_step u p id T d [] HWKEY_ERR_NOT_FOUND [] T d.

(** A request of the client [u] to derive a key from [ikm] by the version
    [ver] of the derivation: the status, the data and the version answered. *)
Inductive derive_step u (ver : Z) (ikm : bytes) (d : D) : Z → bytes → Z → D → Prop :=
| DeriveV1 st data d' :
    ver = HWKEY_KDF_VERSION_BEST ∨ ver = HWKEY_KDF_VERSION_1 →
    key_answer (λ _, derive_key_v1 u ikm) d st data d' →
    derive_step u ver ikm d st data HWKEY_KDF_VERSION_1 d'
| DeriveUnknown :
    ver ≠ HWKEY_KDF_VERSION_BEST → ver ≠ HWKEY_KDF_VERSION_1 →
    derive_step u ver ikm d HWKEY_ERR_NOT_IMPLEMENTED [] ver d.

(** An answer: the header of the request, as a response with a status, and
    data. *)
Definition response (hdr : hwkey_msg) (st : Z) (data : bytes) : bytes :=
  hwkey_msg_encode (with_cmd (Z.lor (cmd hdr) HWKEY_RESP_BIT) (with_status st hdr)) ++ data.

(** One message of the client [p], from the trace [tr]: not received, a
    request for a key slot, a request for a derivation, or another command. *)
Inductive msg_step (c : hwkey_chan_ctx) p T d (tr : list sysev) :
    list entry → D → list sysev → Z → Prop :=
| MsgError rc bs :
    rc < 0 → msg_step c p T d tr T d (SRecv (hwkey_chan c) rc bs :: tr) rc
| MsgGet msg st data T' d' a rc :
    cmd (msg_hdr msg) = HWKEY_GET_KEYSLOT →
    table_step (hwkey_uuid c) p (msg_payload msg ++ [0]) T d a st data T' d' →
    msg_step c p T d tr T' d'
      (SSend (hwkey_chan c) (response (msg_hdr msg) st data) rc ::
       a ++ SRecv (hwkey_chan c) (Z.of_nat (length msg)) msg :: tr) rc
| MsgDerive msg st data ver d' rc :
    cmd (msg_hdr msg) = HWKEY_DERIVE →
    derive_step (hwkey_uuid c) (arg1 (msg_hdr msg)) (msg_payload msg) d st data ver d' →
    msg_step c p T d tr T d'
      (SSend (hwkey_chan c) (response (with_arg1 ver (msg_hdr msg)) st data) rc ::
       SRecv (hwkey_chan c) (Z.of_nat (length msg)) msg :: tr) rc
| MsgUnknown msg rc :
    cmd (msg_hdr msg) ≠ HWKEY_GET_KEYSLOT → cmd (msg_hdr msg) ≠ HWKEY_DERIVE →
    msg_step c p T d tr T d
      (SSend (hwkey_chan c) (response (msg_hdr msg) HWKEY_ERR_NOT_IMPLEMENTED []) rc ::
       SRecv (hwkey_chan c) (Z.of_nat (length msg)) msg :: tr) rc.

(** One event of the client [p]: nothing, its end, a message, or a message
    after which it is dropped. *)
Inductive client_step (ev : Z) (c : hwkey_chan_ctx) p T d (tr : list sysev) :
    list entry → D → list sysev → Prop :=
| StepIdle :
    has ev IPC_HANDLE_POLL_HUP = false → has ev IPC_HANDLE_POLL_MSG = false →
    client_step ev c p T d tr T d tr
| StepHup :
    has ev IPC_HANDLE_POLL_HUP = true →
    client_step ev c p T d tr (revoke p T) d (SClose (hwkey_chan c) :: tr)
| StepMsg T' d' tr' rc :
    has ev IPC_HANDLE_POLL_HUP = false → has ev IPC_HANDLE_POLL_MSG = true → 0 ≤ rc →
    msg_step c p T d tr T' d' tr' rc → client_step ev c p T d tr T' d' tr'
| StepDropped T' d' tr' rc :
    has ev IPC_HANDLE_POLL_HUP = false → has ev IPC_HANDLE_POLL_MSG = true → rc < 0 →
    msg_step c p T d tr T' d' tr' rc →
    client_step ev c p T d tr (revoke p T') d' (SClose (hwkey_chan c) :: tr').
End Table.

(** * 2. The names a request can have *)

Section Names.
Context {D : Type} `{!HwkeyProvider D}.
Implicit Types l : hwkey_state D.

Lemma cstr_app0 (bs rest : bytes) : cstr (bs ++ 0 :: rest) = cstr (bs ++ [0]).
Proof. induction bs as [|b bs IH]; [done|]. cbn. by rewrite IH. Qed.

(** The request buffer holds the payload, a NUL and old bytes. *)
Lemma terminated_split payload req :
  Z.of_nat (length payload) < Z.of_nat (length req) →
  ∃ rest, terminated payload req = payload ++ 0 :: rest.
Proof.
  intros Hl. unfold terminated, overwrite.
  destruct (drop (length payload) req) as [|r rest] eqn:E.
  { apply (f_equal length) in E. rewrite length_drop in E. cbn in E. lia. }
  exists rest. by rewrite insert_app_r_alt, Nat.sub_diag.
Qed.

Lemma select_slot_cstr u id id' (slots : list (hwkey_keyslot D)) i :
  cstr id = cstr id' → select_slot u id slots i = select_slot u id' slots i.
Proof.
  intros E. revert i. induction slots as [|s slots IH]; intros i; [done|]. cbn.
  unfold serves. rewrite E. by destruct (_ && _); [|apply IH].
Qed.

(** Old bytes never make a token. *)
Lemma token_name payload req t :
  token_ok t → Z.of_nat (length payload) < Z.of_nat (length req) →
  bool_decide (t = take 32 (terminated payload req)) = bool_decide (t = take 32 (payload ++ [0])).
Proof.
  intros Ht Hl. apply bool_decide_ext. rewrite token_compare by done.
  split; [by intros [_ ?]|]. intros E. split; [|done].
  apply (f_equal length) in E. rewrite (token_ok_length _ Ht), length_take, length_app in E.
  cbn [length] in E. lia.
Qed.

Lemma find_key_lookup slots rest u payload req l tr :
  hwkey_ok rest l tr → key_slots l = Some slots →
  Z.of_nat (length payload) < Z.of_nat (length req) →
  find_key slots u (payload ++ [0]) (table l) = opaque_lookup l u (terminated payload req).
Proof.
  intros Hok Hs Hl. unfold find_key, opaque_lookup, table. f_equal.
  pose proof (hk_nodes _ _ _ Hok) as Hn.
  induction Hn as [|[q n] L (_ & _ & Ht) _ IH]; [done|]. cbn [fmap list_fmap omap list_omap snd] in *.
  assert (readable slots u (payload ++ [0]) (entry_of (q, n)) = opens l u (terminated payload req) n)
    as ->; [|by rewrite IH].
  unfold readable, opens, slot_of. rewrite Hs. cbn [entry_of e_slot e_token snd].
  change (Z.to_nat HWKEY_OPAQUE_HANDLE_SIZE) with 32%nat. by rewrite token_name.
Qed.

Lemma in_table j l : j ∈ e_slot <$> table l ↔ is_Some (find_slot j (opaque_handles l)).
Proof.
  unfold table. rewrite <- list_fmap_compose. split.
  - intros (e & -> & He)%list_elem_of_fmap.
    destruct (find_slot _ (opaque_handles l)) eqn:E; [done|].
    by destruct (find_slot_None _ _ E e He).
  - intros [q Hq]. apply find_slot_Some in Hq as (n & Hin & <-).
    apply list_elem_of_fmap. by exists (q, n).
Qed.

Lemma table_revoke p l :
  table (with_handles (filter (λ e, owner e.2 ≠ p)) l) = revoke p (table l).
Proof.
  unfold table, revoke. cbn [with_handles opaque_handles].
  induction (opaque_handles l) as [|e L IH]; [done|]. cbn [fmap list_fmap].
  rewrite !filter_cons. cbn [entry_of e_owner]. case_decide; cbn [fmap list_fmap]; by rewrite IH.
Qed.
End Names.

(** * 3. The service implements it *)

Section Refines.
Context {D W : Type} `{!Uapi} `{!HwkeyIface} `{!HwrngDev D} `{!HwrngDevFair D}
  `{!HwkeyProvider D} `{!HwkeyProviderLaws D} `{!Kernel W} `{!KernelLaws W}.
Implicit Types (w : world (hwkey_state D) D W) (p : ptr) (c : hwkey_chan_ctx)
  (slots : list (hwkey_keyslot D)).

(** What [key_data] answers with. *)
Definition answer (r : Z * Z) w : bytes := take (Z.to_nat r.2) (key_data (loc w)).

Lemma call_answers rest (f : key_fn D) n0 w :
  hwkey_ok rest (loc w) (trace w) → key_fn_ok (f HWKEY_MAX_PAYLOAD_SIZE) →
  0 ≤ n0 ≤ HWKEY_MAX_PAYLOAD_SIZE →
  wp (call_key_fn (f HWKEY_MAX_PAYLOAD_SIZE) n0) (λ r w',
    key_answer f (dev w) r.1 (answer r w') (dev w') ∧ table (loc w') = table (loc w) ∧
    trace w' = trace w) w.
Proof.
  intros Hok Hf Hn0. pose proof (hk_key _ _ _ Hok) as Hk.
  assert (kout_ok (KOut (key_data (loc w)) (Some n0) (dev w))) as Hpre
    by (split; [done|]; by exists n0).
  specialize (Hf _ Hpre). unfold wp, call_key_fn in *.
  destruct (f _ _) as [st k|] eqn:E; [|done]. destruct Hf as [_ (n & Hn & _)].
  split_and!; [|done..]. cbn [fst]. econstructor; [done|exact E|exact Hn|done|].
  unfold answer. cbn. by rewrite Hn.
Qed.

(** Resolving a request is a step of the table. *)
Definition request_served slots p c payload w (r : Z * Z) (w' : world (hwkey_state D) D W) : Prop :=
  ∃ a, trace w' = a ++ trace w ∧
    table_step slots (hwkey_uuid c) p (payload ++ [0]) (table (loc w)) (dev w) a r.1 (answer r w')
      (table (loc w')) (dev w').

Lemma request_step rest p c slots payload req w :
  hwkey_ok rest (loc w) (trace w) → hwkey_ctxs (loc w) !! p = Some c →
  key_slots (loc w) = Some slots → Z.of_nat (length payload) < Z.of_nat (length req) →
  wp (handle_slots token_fuel p (terminated payload req) (Some slots) HWKEY_MAX_PAYLOAD_SIZE 0)
    (request_served slots p c payload w) w.
Proof.
  intros Hok Hp Hs Hl. unfold wp, handle_slots.
  rewrite (handle_slots_loop_run _ _ _ _ _ _ _ _ _ _ Hok Hp). unfold resolve.
  destruct (terminated_split payload req Hl) as [more Hid].
  pose proof (cstr_app0 payload more) as Hc. rewrite <- Hid in Hc.
  rewrite (select_slot_cstr _ _ _ slots 0 Hc).
  rewrite <- (find_key_lookup slots rest (hwkey_uuid c) payload req (loc w) (trace w) Hok Hs Hl).
  destruct (select_slot _ _ _ _) as [[j s]|] eqn:Hsel.
  - pose proof Hsel as Hsel'. apply select_slot_Some in Hsel' as (_ & Hj & Hserves).
    rewrite Nat.sub_0_r in Hj.
    assert (slot_of (loc w) j = Some s) as Hsl by (unfold slot_of; by rewrite Hs).
    pose proof (slot_ok_of _ _ _ _ _ Hok Hsl) as Hsk. unfold slot_ok, serve_slot in *.
    destruct (handler s) as [|[data|]|f] eqn:Hh; rewrite ?Hh in Hsk; [| |done|].
    + unfold serves in Hserves. by rewrite Hh, andb_false_r in Hserves.
    + change (wp (fetch_handle token_fuel p j HWKEY_MAX_PAYLOAD_SIZE 0)
        (request_served slots p c payload w) w).
      eapply wp_mono; [by eapply fetch_handle_spec; [apply token_fuel_ready|..]|].
      assert (find_slot j (opaque_handles (loc w)) = None → j ∉ e_slot <$> table (loc w)) as Hno
        by (intros E Hin; apply in_table in Hin as [q Hq]; congruence).
      intros r w' [q Hf|v Hf|rc bs d v Hf Hd Hrc|q bs d v Hf Hq Hbs].
      * exists []. split; [done|]. eapply TExists; [done|done|]. apply in_table. by rewrite Hf.
      * exists [SAlloc false]. split; [done|]. eapply TNoMemory; [done|done|by apply Hno].
      * exists [SAlloc true]. split; [done|]. eapply TNoRandom; [done|done|by apply Hno|exact Hd|done].
      * exists [SAlloc true]. split; [done|]. pose proof (token_draw_enough _ _ _ Hbs) as Hn.
        assert (answer (HWKEY_NO_ERROR, HWKEY_OPAQUE_HANDLE_SIZE) (World
          (with_key_data (overwrite (make_token bs)) (with_handles
             (λ L, L ++ [(q, OpaqueNode j p (make_token bs))]) (loc w))) d v (SAlloc true :: trace w))
          = make_token bs) as ->.
        { unfold answer. cbn [snd loc with_key_data with_handles key_data].
          apply take_overwrite_Z. by rewrite (token_ok_length _ (make_token_ok bs Hn)). }
        unfold table at 2. cbn [loc with_key_data with_handles opaque_handles].
        rewrite fmap_app. eapply TNew; [done|done|by apply Hno|exact Hbs].
    + change (wp (call_key_fn (f HWKEY_MAX_PAYLOAD_SIZE) 0)
        (request_served slots p c payload w) w).
      eapply wp_mono; [by eapply call_answers|]. intros r w' (Ha & HT & Htr).
      exists []. split; [done|]. rewrite HT. by eapply TSlot.
  - destruct (find_key _ _ _ _) as [data|] eqn:Hf.
    2: { exists []. split; [done|]. by eapply TNone. }
    change (wp (call_key_fn (retriever data HWKEY_MAX_PAYLOAD_SIZE) 0)
        (request_served slots p c payload w) w).
    eapply wp_mono; [eapply call_answers; [done| |done]|].
    { apply (opaque_lookup_ok rest (loc w) (trace w) (hwkey_uuid c) (terminated payload req));
        [done|]. by rewrite <- (find_key_lookup slots rest (hwkey_uuid c) payload req _ _ Hok Hs Hl). }
    intros r w' (Ha & HT & Htr). exists []. split; [done|]. rewrite HT. by eapply TKey.
Qed.

(** The command, from the request buffer as the handler leaves it. *)
Lemma get_keyslot_step rest p c slots hdr payload req w :
  hwkey_ok rest (loc w) (trace w) → hwkey_ctxs (loc w) !! p = Some c →
  key_slots (loc w) = Some slots → Z.of_nat (length payload) < Z.of_nat (length req) →
  wp (hwkey_handle_get_keyslot_cmd token_fuel p hdr (terminated payload req)) (λ rc w',
    ∃ st data a, table_step slots (hwkey_uuid c) p (payload ++ [0]) (table (loc w)) (dev w) a
      st data (table (loc w')) (dev w') ∧
    trace w' = SSend (hwkey_chan c) (response hdr st data) rc :: a ++ trace w) w.
Proof.
  intros Hok Hp Hs Hl. unfold hwkey_handle_get_keyslot_cmd. ipc_steps.
  change ((λ l, Z.of_nat (length (key_data l))) (loc w))
    with (Z.of_nat (length (key_data (loc w)))). rewrite (hk_key _ _ _ Hok), Hs.
  eapply wp_mono; [apply wp_conj; [by eapply request_step|]|].
  { pose proof (handle_slots_resolved token_fuel rest p c (terminated payload req) w
      token_fuel_ready Hok Hp) as Hr. rewrite Hs in Hr. exact Hr. }
  intros [st n] w' [(a & Htr & Hstep) (Hc & _ & _ & Hn & Hok' & _)]. cbn [fst snd] in *.
  eapply (reply_spec rest); [done|by rewrite Hc|done|]. intros rc v _.
  exists st, (take (Z.to_nat n) (key_data (loc w'))), a. split; [exact Hstep|].
  cbn [trace]. by rewrite Htr.
Qed.

(** Deriving a key leaves the table alone. *)
Lemma with_arg1_same hdr : with_arg1 (arg1 hdr) hdr = hdr.
Proof. by destruct hdr. Qed.

Lemma derive_cmd_step rest p c hdr ikm w :
  hwkey_ok rest (loc w) (trace w) → hwkey_ctxs (loc w) !! p = Some c →
  Z.of_nat (length ikm) ≤ HWKEY_MAX_PAYLOAD_SIZE →
  wp (hwkey_handle_derive_key_cmd p hdr ikm) (λ rc w',
    table (loc w') = table (loc w) ∧ ∃ st data ver,
    derive_step (hwkey_uuid c) (arg1 hdr) ikm (dev w) st data ver (dev w') ∧
    trace w' = SSend (hwkey_chan c) (response (with_arg1 ver hdr) st data) rc :: trace w) w.
Proof.
  intros Hok Hp Hikm. unfold hwkey_handle_derive_key_cmd. ipc_steps.
  set (hdr1 := if arg1 hdr =? HWKEY_KDF_VERSION_BEST then _ else _).
  assert (hdr1 = with_arg1 (arg1 hdr1) hdr) as Hhdr
    by (unfold hdr1; destruct (_ =? _); by rewrite ?with_arg1_same).
  change ((λ l, Z.of_nat (length (key_data l))) (loc w))
    with (Z.of_nat (length (key_data (loc w)))). rewrite (hk_key _ _ _ Hok).
  wp_cases Hv.
  - ipc_steps. eapply wp_load; [done|]. apply Z.eqb_eq in Hv. eapply wp_mono.
    { apply wp_conj; [apply (call_key_fn_spec rest); [done|by apply derive_key_v1_ok|done]|].
      eapply (call_answers rest (λ _, derive_key_v1 (hwkey_uuid c) ikm));
        [done|by apply derive_key_v1_ok|done]. }
    intros [st n] w' [((st' & k & _ & _ & ->) & Hn & Hok') (Ha & Htab & _)]. cbn [fst snd] in *.
    eapply (reply_spec rest); [done|done|done|]. intros rc v _. split; [exact Htab|].
    eexists st, _, HWKEY_KDF_VERSION_1. rewrite <- Hv at 2. rewrite <- Hhdr.
    split; [apply DeriveV1; [|exact Ha]|done].
    unfold hdr1 in Hv. destruct (Z.eqb_spec (arg1 hdr) HWKEY_KDF_VERSION_BEST); auto.
  - apply Z.eqb_neq in Hv. apply wp_ret. cbn beta iota.
    eapply (reply_spec rest); [done|done|done|]. intros rc v _. split; [done|].
    exists HWKEY_ERR_NOT_IMPLEMENTED, [], (arg1 hdr1). rewrite <- Hhdr. split; [|done].
    unfold hdr1 in *. destruct (Z.eqb_spec (arg1 hdr) HWKEY_KDF_VERSION_BEST); [done|].
    by apply DeriveUnknown.
Qed.

Lemma chan_handle_msg_step rest p c slots w :
  hwkey_ok rest (loc w) (trace w) → hwkey_ctxs (loc w) !! p = Some c →
  key_slots (loc w) = Some slots →
  wp (hwkey_chan_handle_msg token_fuel p) (λ rc w',
    msg_step slots c p (table (loc w)) (dev w) (trace w) (table (loc w')) (dev w') (trace w') rc) w.
Proof.
  intros Hok Hp Hs. pose proof sizeof_hwkey_msg_range as Hsz.
  unfold hwkey_chan_handle_msg. ipc_steps. eapply wp_load; [done|]. ipc_steps.
  eapply recv_spec; [done| |].
  { intros rc bs v Hrc. wp_cases Hneg; [|lia]. ipc_steps. by apply MsgError. }
  intros msg v Hl Hmax. pose proof (received_ok rest (hwkey_chan c) msg v w Hmax Hok) as Hok1.
  wp_cases Hneg; [lia|]. rewrite u64_small by (unfold HWKEY_MAX_PAYLOAD_SIZE in Hmax; lia).
  rewrite <- Hl. pose proof (hk_req _ _ _ Hok1) as Hlen. pose proof (hk_req _ _ _ Hok) as Hlen0.
  wp_cases Hget; [|wp_cases Hder].
  - ipc_steps. apply terminate_spec; [lia|]. ipc_steps.
    set (req := req_data (loc w)).
    assert (hwkey_ok rest (with_req_data (λ _, terminated (msg_payload msg) req) (loc w))
      (trace (received (hwkey_chan c) msg v w))) as Hok2.
    { apply hwkey_ok_trace; [done|]. apply hwkey_ok_req_data; [|exact Hok].
      unfold terminated. rewrite length_insert, length_overwrite; [exact Hlen0|]. unfold req. lia. }
    eapply wp_mono; [eapply (get_keyslot_step rest p c slots (msg_hdr msg) (msg_payload msg) req);
      [exact Hok2|exact Hp|exact Hs|unfold req; lia]|].
    intros rc w' (st & data & a & Hstep & Htr). rewrite Htr.
    apply (MsgGet _ _ _ _ _ _ msg); [lia|exact Hstep].
  - ipc_steps. set (req := req_data (loc w)).
    assert (take (length (msg_payload msg)) (overwrite (msg_payload msg) req) = msg_payload msg)
      as Hikm by apply take_overwrite.
    rewrite Nat2Z.id. change (req_data (loc (received (hwkey_chan c) msg v w)))
      with (overwrite (msg_payload msg) req). rewrite Hikm.
    eapply wp_mono; [eapply (derive_cmd_step rest p c (msg_hdr msg)); [exact Hok1|exact Hp|done]|].
    intros rc w' (Htab & st & data & ver & Hstep & Htr). ipc_steps. rewrite Htr.
    change (table (with_req_data ?f (loc w'))) with (table (loc w')). rewrite Htab.
    apply Z.eqb_eq in Hder. by eapply MsgDerive.
  - unfold hwkey_send_rsp. apply wp_send. intros rc v' _. apply MsgUnknown; lia.
Qed.

Lemma close_step rest p c w :
  hwkey_ok rest (loc w) (trace w) → hwkey_ctxs (loc w) !! p = Some c →
  wp (hwkey_ctx_close p) (λ _ w', table (loc w') = revoke p (table (loc w)) ∧ dev w' = dev w ∧
    trace w' = SClose (hwkey_chan c) :: trace w) w.
Proof.
  intros Hok Hp. eapply ctx_close_spec; [by eapply hk_ptrs|done|]. intros v.
  split_and!; [|done..]. cbn [loc]. rewrite <- table_revoke. done.
Qed.

Lemma chan_handler_step rest ev p c slots w :
  hwkey_ok rest (loc w) (trace w) → hwkey_ctxs (loc w) !! p = Some c →
  key_slots (loc w) = Some slots → ev_handle ev = hwkey_chan c →
  tipc_chan_error (ev_event ev) = false →
  wp (hwkey_chan_handler token_fuel ev p) (λ _ w',
    client_step slots (ev_event ev) c p (table (loc w)) (dev w) (trace w)
      (table (loc w')) (dev w') (trace w')) w.
Proof.
  intros Hok Hp Hs Hh Herr. unfold hwkey_chan_handler, tipc_handle_chan_errors.
  ipc_steps. eapply wp_load; [done|]. ipc_steps. apply wp_assert; [lia|]. ipc_steps.
  rewrite Herr. ipc_steps. wp_cases Hhup.
  { eapply wp_mono; [by eapply close_step|]. intros _ w' (-> & -> & ->). by apply StepHup. }
  wp_cases Hmsg; [|by ipc_steps; apply StepIdle]. ipc_steps.
  eapply wp_mono; [apply wp_conj; [by eapply chan_handle_msg_step|
    by eapply (chan_handle_msg_ok _ rest p c); [apply token_fuel_ready|..]]|].
  intros rc w' [Hstep (Hc & _ & Hok' & _)]. wp_cases Hrc.
  - eapply wp_mono; [eapply close_step; [done|by rewrite Hc]|]. intros _ w2 (-> & -> & ->).
    eapply StepDropped; [done|done| |exact Hstep]; lia.
  - ipc_steps. eapply StepMsg; [done|done| |exact Hstep]; lia.
Qed.

(** C4. The key service implements the table of opaque handles.  Whatever
    happens on a client's channel, the handler's effect is a step of the
    abstract machine: a request for a slot's handle that no client has
    allocates once, reads the device, and adds one entry under the token read,
    and answers an error without an entry exactly when that allocation or that
    read failed; when a client has it, ALREADY_EXISTS; a request that names a
    token is answered with the key of the first entry that has this token and
    admits the client, and in no other case; a request for a derivation is
    answered by the provider's derivation for the client's uuid; a client that
    goes takes its entries, and only its, with it; and each answer sent is the
    one of the step, for the bytes of the message and the state of the device
    alone.  (On an error event of the channel the library aborts instead.) *)
Theorem hwkey_refines_table rest ev p c slots w :
  hwkey_ok rest (loc w) (trace w) → hwkey_ctxs (loc w) !! p = Some c →
  key_slots (loc w) = Some slots → ev_handle ev = hwkey_chan c →
  tipc_chan_error (ev_event ev) = false →
  wp (hwkey_chan_handler token_fuel ev p) (λ _ w',
    client_step slots (ev_event ev) c p (table (loc w)) (dev w) (trace w)
      (table (loc w')) (dev w') (trace w')) w.
Proof. apply chan_handler_step. Qed.
End Refines.
