(* ===== verification/Hwaes.v ===== *)
(** The AES service, hwaes/main.c: the checks on a request, the key it uses
    (given, or fetched from the key service by its opaque handle) and the
    sequence of cipher calls on the service's one cipher context. *)

From S2P Require Import Prelude Ipc Evp Hwkey.

(** * 1. Interfaces *)

(** interface/hwaes/hwaes.h and hwkey.h. *)
Class HwaesIface := {
  HWAES_NO_ERROR : Z;
  HWAES_ERR_GENERIC : Z;
  HWAES_ERR_INVALID_ARGS : Z;
  HWAES_ERR_IO : Z;
  HWAES_ERR_NOT_IMPLEMENTED : Z;
  HWAES_NO_PADDING : Z;
  HWAES_CBC_MODE : Z;
  HWAES_GCM_MODE : Z;
  HWAES_OPAQUE_HANDLE : Z;
  AES_KEY_MAX_SIZE : Z;
  HWKEY_OPAQUE_HANDLE_MAX_SIZE : Z;
  hwaes_errors_not_ok :
    HWAES_ERR_GENERIC ≠ HWAES_NO_ERROR ∧ HWAES_ERR_INVALID_ARGS ≠ HWAES_NO_ERROR ∧
    HWAES_ERR_IO ≠ HWAES_NO_ERROR ∧ HWAES_ERR_NOT_IMPLEMENTED ≠ HWAES_NO_ERROR;
  aes_key_max_range : 0 ≤ AES_KEY_MAX_SIZE < 2 ^ 31
}.

(** lib/hwaes_server: an argument's length and its data, [None] for NULL; an
    output argument's data are in the state. *)
Record hwaes_arg_in := ArgIn { in_len : Z; in_data : option bytes }.
Record hwaes_arg_out := ArgOut { out_len : Z; out_ptr : bool }.
Record hwaes_aes_op_args := AesOpArgs {
  args_key : hwaes_arg_in;
  args_iv : hwaes_arg_in;
  args_text_in : hwaes_arg_in;
  args_aad : hwaes_arg_in;
  args_tag_in : hwaes_arg_in;
  args_text_out : hwaes_arg_out;
  args_tag_out : hwaes_arg_out;
  args_key_type : Z;
  args_padding : Z;
  args_mode : Z;
  args_encrypt : bool
}.

(** lib/hwkey, the client of the key service: [hwkey_get_keyslot_data] is
    given a C string and the size of the buffer, and answers with the return
    code, what it wrote and the length it reports. *)
Class HwkeyClient (D : Type) := {
  hwkey_open : D → Z * D;
  hwkey_get_keyslot_data : Z → bytes → Z → D → (Z * bytes * Z) * D;
  hwkey_close : Z → D → D
}.

Class HwkeyClientLaws (D : Type) `{Uapi, HwkeyClient D} : Prop := {
  keyslot_data_bound s id n d rc bs klen d' :
    0 ≤ n → hwkey_get_keyslot_data s id n d = ((rc, bs, klen), d') →
    Z.of_nat (length bs) ≤ n;
  keyslot_data_ok s id n d bs klen d' :
    0 ≤ n → hwkey_get_keyslot_data s id n d = ((NO_ERROR, bs, klen), d') →
    klen = Z.of_nat (length bs)
}.

(** BoringSSL's cipher contexts: a context's state is [X].  Lengths are [int];
    the update returns what it wrote, [ctx_get_tag] too. *)
Class EvpCtx (X D : Type) := {
  ctx_new : D → option X * D;
  ctx_reset : X → X;
  ctx_init : bool → cipher → option bytes → option bytes → X → D → (bool * X) * D;
  ctx_set_padding : X → D → (bool * X) * D;
  ctx_aad : Z → bytes → X → D → (bool * X) * D;
  ctx_set_tag : Z → bytes → X → D → (bool * X) * D;
  ctx_update : Z → bytes → X → D → (bool * bytes * X) * D;
  ctx_final : X → D → (bool * X) * D;
  ctx_get_tag : Z → X → D → (bool * bytes * X) * D;
  cipher_iv_length : cipher → Z;
  cipher_block_size : cipher → Z;
  (** [crypt c encrypt key iv text]; an absent IV is left out. *)
  crypt : cipher → bool → bytes → option bytes → bytes → bytes;
  (** [auth_tag c key iv aad plaintext]. *)
  auth_tag : cipher → bytes → option bytes → bytes → bytes → bytes
}.

(** What has been set in a context. *)
Record setup := Setup {
  su_cipher : option (cipher * bool);
  su_key : option bytes;
  su_iv : option bytes;
  su_aad : bytes;
  su_tag : option bytes;
  su_plain : option bytes
}.

Definition is_gcm (c : cipher) : bool :=
  match c with AES_128_GCM | AES_256_GCM => true | _ => false end.

Class EvpCtxLaws (X D : Type) `{!EvpCtx X D} := {
  setup_of : X → setup;
  cipher_block_pos c : 0 < cipher_block_size c;
  crypt_length c e k iv t : length (crypt c e k iv t) = length t;
  ctx_reset_fresh x y : ctx_reset x = ctx_reset y;
  ctx_reset_setup x : setup_of (ctx_reset x) = Setup None None None [] None None;
  (** A call that succeeds sets what it is given. *)
  ctx_init_ok e c k iv x d x' d' :
    ctx_init e c k iv x d = ((true, x'), d') →
    let s := setup_of x in
    setup_of x' = Setup (Some (c, e)) (from_option Some (su_key s) k) (from_option Some (su_iv s) iv)
                    (su_aad s) (su_tag s) (su_plain s);
  ctx_set_padding_ok x d x' d' :
    ctx_set_padding x d = ((true, x'), d') → setup_of x' = setup_of x;
  ctx_aad_ok n bs x d x' d' :
    n = Z.of_nat (length bs) → ctx_aad n bs x d = ((true, x'), d') →
    let s := setup_of x in
    setup_of x' = Setup (su_cipher s) (su_key s) (su_iv s) (su_aad s ++ bs) (su_tag s) (su_plain s);
  ctx_set_tag_ok n bs x d x' d' :
    n = Z.of_nat (length bs) → ctx_set_tag n bs x d = ((true, x'), d') →
    let s := setup_of x in
    setup_of x' = Setup (su_cipher s) (su_key s) (su_iv s) (su_aad s) (Some bs) (su_plain s);
  (** Without padding an update never writes more than it is given, and a whole
      number of blocks is processed at once. *)
  ctx_update_bound n bs x d ok out x' d' :
    n = Z.of_nat (length bs) → ctx_update n bs x d = ((ok, out, x'), d') →
    (length out ≤ length bs)%nat;
  ctx_update_ok n bs x d out x' d' c e k :
    n = Z.of_nat (length bs) → ctx_update n bs x d = ((true, out, x'), d') →
    su_cipher (setup_of x) = Some (c, e) → su_key (setup_of x) = Some k →
    su_plain (setup_of x) = None → Z.of_nat (length bs) mod cipher_block_size c = 0 →
    let s := setup_of x in
    out = crypt c e k (su_iv s) bs ∧
    setup_of x' = Setup (su_cipher s) (su_key s) (su_iv s) (su_aad s) (su_tag s)
                    (Some (if e then bs else out));
  (** Decryption in GCM mode ends well only with the right tag. *)
  ctx_final_ok x d x' d' :
    ctx_final x d = ((true, x'), d') → setup_of x' = setup_of x;
  ctx_final_tag x d x' d' c k p t :
    ctx_final x d = ((true, x'), d') →
    su_cipher (setup_of x) = Some (c, false) → is_gcm c = true →
    su_key (setup_of x) = Some k → su_plain (setup_of x) = Some p →
    su_tag (setup_of x) = Some t →
    t = take (length t) (auth_tag c k (su_iv (setup_of x)) (su_aad (setup_of x)) p);
  ctx_get_tag_bound n x d ok out x' d' :
    0 ≤ n → ctx_get_tag n x d = ((ok, out, x'), d') → Z.of_nat (length out) ≤ n;
  ctx_get_tag_ok n x d out x' d' c k p :
    0 ≤ n → ctx_get_tag n x d = ((true, out, x'), d') →
    su_cipher (setup_of x) = Some (c, true) → su_key (setup_of x) = Some k →
    su_plain (setup_of x) = Some p →
    out = take (Z.to_nat n) (auth_tag c k (su_iv (setup_of x)) (su_aad (setup_of x)) p)
}.

(** * 2. The request *)

(** [text_out] and [tag_out]: the output buffers of the request; [sessions]:
    the calls of hwkey_open that succeeded (true) and of hwkey_close, newest
    first. *)
Record hwaes_state (X D : Type) := HwaesState {
  cipher_ctx : option X;
  text_out : bytes;
  tag_out : bytes;
  sessions : list (bool * Z);
  libs : D
}.
Arguments HwaesState {X D}.
Arguments cipher_ctx {X D}.
Arguments text_out {X D}.
Arguments tag_out {X D}.
Arguments sessions {X D}.
Arguments libs {X D}.

(** [(int)n] of a [size_t]. *)
Definition to_int (n : Z) : Z := (n + 2 ^ 31) mod 2 ^ 32 - 2 ^ 31.

Section Hwaes.
Context {X D : Type} `{!Uapi} `{!HwaesIface} `{!HwkeyClient D} `{!EvpCtx X D}.
Abbreviation C := (M (hwaes_state X D)).

Definition crypt_init : C unit :=
  ctx ← gets cipher_ctx;
  assert (match ctx with None => true | Some _ => false end);;
  (λ s, let '(o, d) := ctx_new (libs s) in
        Ret tt (HwaesState o (text_out s) (tag_out s) (sessions s) d));;
  ctx ← gets cipher_ctx;
  assert (match ctx with None => false | Some _ => true end).

Definition crypt_shutdown : C unit :=
  modify (λ s, HwaesState None (text_out s) (tag_out s) (sessions s) (libs s)).

Definition hwaes_check_arg_helper (len : Z) (data_ptr : bool) : Z :=
  if (len =? 0) || negb data_ptr then HWAES_ERR_INVALID_ARGS else HWAES_NO_ERROR.
Definition hwaes_check_arg_in (arg : hwaes_arg_in) : Z :=
  hwaes_check_arg_helper (in_len arg) (match in_data arg with Some _ => true | None => false end).
Definition hwaes_check_arg_out (arg : hwaes_arg_out) : Z :=
  hwaes_check_arg_helper (out_len arg) (out_ptr arg).

(** The call of hwkey_open, and of hwkey_close. *)
Definition open_session : C Z := λ s,
  let '(rc, d) := hwkey_open (libs s) in
  Ret rc (HwaesState (cipher_ctx s) (text_out s) (tag_out s)
            (if rc <? 0 then sessions s else (true, rc) :: sessions s) d).
Definition close_session (session : Z) : C unit := modify (λ s,
  HwaesState (cipher_ctx s) (text_out s) (tag_out s) ((false, session) :: sessions s)
    (hwkey_close session (libs s))).
Definition lib_call {A} (f : D → A * D) : C A := λ s,
  let '(a, d) := f (libs s) in
  Ret a (HwaesState (cipher_ctx s) (text_out s) (tag_out s) (sessions s) d).

(** Reading through a pointer argument. *)
Definition data_of (arg : hwaes_arg_in) : C bytes :=
  match in_data arg with Some bs => ret bs | None => stop NullDeref end.

(** A call on the cipher context. *)
Definition ctx_call {A} (f : X → D → (A * X) * D) : C A := λ s,
  match cipher_ctx s with
  | None => Halt AssertFailed s
  | Some x => let '((a, x'), d) := f x (libs s) in
      Ret a (HwaesState (Some x') (text_out s) (tag_out s) (sessions s) d)
  end.
Definition write_text_out (bs : bytes) : C unit := λ s,
  if (length bs <=? length (text_out s))%nat
  then Ret tt (HwaesState (cipher_ctx s) (overwrite bs (text_out s)) (tag_out s) (sessions s) (libs s))
  else Halt OutOfBounds s.
Definition write_tag_out (bs : bytes) : C unit := λ s,
  if (length bs <=? length (tag_out s))%nat
  then Ret tt (HwaesState (cipher_ctx s) (text_out s) (overwrite bs (tag_out s)) (sessions s) (libs s))
  else Halt OutOfBounds s.

(** The key's bytes and length, lines 101 to 131, or the error to return. *)
Definition fetch_key (args : hwaes_aes_op_args) : C (Z + (bytes * Z)) :=
  let key := args_key args in
  data ← data_of key;
  if args_key_type args =? HWAES_OPAQUE_HANDLE then
    if HWKEY_OPAQUE_HANDLE_MAX_SIZE <? in_len key then ret (inl HWAES_ERR_INVALID_ARGS) else
    last ← fetch data (in_len key - 1);
    if negb (last =? 0) then ret (inl HWAES_ERR_INVALID_ARGS) else
    rc ← open_session;
    if rc <? 0 then ret (inl HWAES_ERR_GENERIC) else
    let session := rc in
    r ← lib_call (hwkey_get_keyslot_data session (cstr data) AES_KEY_MAX_SIZE);
    let '(rc, key_buffer, key_len) := r in
    close_session session;;
    if negb (rc =? NO_ERROR) then ret (inl HWAES_ERR_IO)
    else ret (inr (overwrite key_buffer (replicate (Z.to_nat AES_KEY_MAX_SIZE) 0), u32 key_len))
  else ret (inr (data, in_len key)).

(** The cipher for the mode and the key's length, lines 133 to 191, or the
    error to return. *)
Definition select_cipher (args : hwaes_aes_op_args) (key_len : Z) : Z + cipher :=
  if args_mode args =? HWAES_CBC_MODE then
    match (if key_len =? 16 then Some AES_128_CBC
           else if key_len =? 32 then Some AES_256_CBC else None) with
    | None => inl HWAES_ERR_INVALID_ARGS
    | Some c =>
      if hwaes_check_arg_in (args_aad args) =? HWAES_NO_ERROR then inl HWAES_ERR_INVALID_ARGS else
      if (hwaes_check_arg_in (args_tag_in args) =? HWAES_NO_ERROR) ||
         (hwaes_check_arg_out (args_tag_out args) =? HWAES_NO_ERROR)
      then inl HWAES_ERR_INVALID_ARGS else inr c
    end
  else if args_mode args =? HWAES_GCM_MODE then
    match (if key_len =? 16 then Some AES_128_GCM
           else if key_len =? 32 then Some AES_256_GCM else None) with
    | None => inl HWAES_ERR_INVALID_ARGS
    | Some c =>
      if args_encrypt args then
        if hwaes_check_arg_in (args_tag_in args) =? HWAES_NO_ERROR then inl HWAES_ERR_INVALID_ARGS
        else if negb (hwaes_check_arg_out (args_tag_out args) =? HWAES_NO_ERROR)
        then inl HWAES_ERR_INVALID_ARGS else inr c
      else
        if negb (hwaes_check_arg_in (args_tag_in args) =? HWAES_NO_ERROR)
        then inl HWAES_ERR_INVALID_ARGS
        else if hwaes_check_arg_out (args_tag_out args) =? HWAES_NO_ERROR
        then inl HWAES_ERR_INVALID_ARGS else inr c
    end
  else inl HWAES_ERR_NOT_IMPLEMENTED.

(** The calls on the context, lines 193 to 277. *)
Definition run_cipher (args : hwaes_aes_op_args) (c : cipher) (key : bytes) : C Z :=
  ctx_call (λ x d, ((tt, ctx_reset x), d));;
  ok ← ctx_call (ctx_init (args_encrypt args) c None None);
  if negb ok then ret HWAES_ERR_GENERIC else
  if negb (in_len (args_text_in args) mod cipher_block_size c =? 0)
  then ret HWAES_ERR_INVALID_ARGS else
  if negb (cipher_iv_length c =? in_len (args_iv args)) then ret HWAES_ERR_INVALID_ARGS else
  ok ← ctx_call (ctx_init (args_encrypt args) c (Some key) (in_data (args_iv args)));
  if negb ok then ret HWAES_ERR_GENERIC else
  ok ← ctx_call ctx_set_padding;
  if negb ok then ret HWAES_ERR_GENERIC else
  ok ← (if hwaes_check_arg_in (args_aad args) =? HWAES_NO_ERROR then
          aad ← data_of (args_aad args);
          ctx_call (ctx_aad (to_int (in_len (args_aad args))) aad)
        else ret true);
  if negb ok then ret HWAES_ERR_GENERIC else
  ok ← (if hwaes_check_arg_in (args_tag_in args) =? HWAES_NO_ERROR then
          tag ← data_of (args_tag_in args);
          ctx_call (ctx_set_tag (to_int (in_len (args_tag_in args))) tag)
        else ret true);
  if negb ok then ret HWAES_ERR_GENERIC else
  text ← data_of (args_text_in args);
  r ← ctx_call (ctx_update (to_int (in_len (args_text_in args))) text);
  let '(ok, out) := r in
  write_text_out out;;
  if negb ok then ret HWAES_ERR_GENERIC else
  assert (Z.of_nat (length out) =? to_int (out_len (args_text_out args)));;
  ok ← ctx_call ctx_final;
  if negb ok then ret HWAES_ERR_GENERIC else
  if hwaes_check_arg_out (args_tag_out args) =? HWAES_NO_ERROR then
    r ← ctx_call (ctx_get_tag (to_int (out_len (args_tag_out args))));
    let '(ok, tag) := r in
    write_tag_out tag;;
    if negb ok then ret HWAES_ERR_GENERIC else ret HWAES_NO_ERROR
  else ret HWAES_NO_ERROR.

Definition hwaes_aes_op (args : hwaes_aes_op_args) : C Z :=
  if negb (args_padding args =? HWAES_NO_PADDING) then ret HWAES_ERR_NOT_IMPLEMENTED else
  let rc := hwaes_check_arg_in (args_key args) in
  if negb (rc =? HWAES_NO_ERROR) then ret rc else
  let rc := hwaes_check_arg_in (args_text_in args) in
  if negb (rc =? HWAES_NO_ERROR) then ret rc else
  let rc := hwaes_check_arg_out (args_text_out args) in
  if negb (rc =? HWAES_NO_ERROR) then ret rc else
  if negb (in_len (args_text_in args) =? out_len (args_text_out args))
  then ret HWAES_ERR_INVALID_ARGS else
  key ← fetch_key args;
  match key with
  | inl rc => ret rc
  | inr (data, key_len) =>
    match select_cipher args key_len with
    | inl rc => ret rc
    | inr c => run_cipher args c (take (Z.to_nat key_len) data)
    end
  end.

(** * 3. main *)

Definition APPLOADER_UUID : uuid := "081ba88f-f1ee-452e-b5e8-a7e9ef173a97"%string.
Definition HWAES_UNITTEST_UUID : uuid := "ab8a6820-1cc2-44d5-bee0-22b51befa835"%string.
Definition hwaes_allowed_clients : list uuid := [APPLOADER_UUID; HWAES_UNITTEST_UUID].

Definition EXIT_SUCCESS : Z := 0.
Definition EXIT_FAILURE : Z := 1.

(** A request with its output buffers, as lib/hwaes_server hands it over. *)
Definition serve_request (r : hwaes_aes_op_args * bytes * bytes) : C Z :=
  let '(args, text, tag) := r in
  modify (λ s, HwaesState (cipher_ctx s) text tag (sessions s) (libs s));;
  hwaes_aes_op args.

(** [hset]: whether the handle set was created; [add]: the answer of
    add_hwaes_service for the allowed clients; [reqs] and [rc]: the requests
    the event loop serves and its return code.  Control falls off the end of
    main after the last check. *)
Definition hwaes_main (hset : bool) (add : list uuid → Z)
    (reqs : list (hwaes_aes_op_args * bytes * bytes)) (rc : Z) : C Z :=
  if negb hset then ret EXIT_FAILURE else
  if negb (add hwaes_allowed_clients =? NO_ERROR) then ret EXIT_FAILURE else
  crypt_init;;
  foldM (λ _ r, serve_request r;; ret tt) tt reqs;;
  crypt_shutdown;;
  if negb (rc =? NO_ERROR) then ret EXIT_FAILURE else ret EXIT_SUCCESS.
End Hwaes.
