(* ===== verification/HwaesCorrect.v ===== *)
(** The correctness of the AES service of Hwaes.v. *)

From S2P Require Import Prelude Ipc Evp Hwkey Hwaes.

Section Arguments.
Context `{!HwaesIface}.

(** An argument whose length is that of its data and fits an [int]. *)
Definition arg_ok (a : hwaes_arg_in) : Prop :=
  0 ≤ in_len a < 2 ^ 31 ∧ ∀ bs, in_data a = Some bs → Z.of_nat (length bs) = in_len a.
Definition arg_out_ok (a : hwaes_arg_out) (buf : bytes) : Prop :=
  0 ≤ out_len a < 2 ^ 31 ∧ (out_ptr a = true → Z.of_nat (length buf) = out_len a).

Record request_ok (args : hwaes_aes_op_args) (tout tag : bytes) : Prop := {
  rq_key : arg_ok (args_key args);
  rq_iv : arg_ok (args_iv args);
  rq_text_in : arg_ok (args_text_in args);
  rq_aad : arg_ok (args_aad args);
  rq_tag_in : arg_ok (args_tag_in args);
  rq_text_out : arg_out_ok (args_text_out args) tout;
  rq_tag_out : arg_out_ok (args_tag_out args) tag
}.

(** The data of an argument that is present. *)
Definition present (a : hwaes_arg_in) : option bytes :=
  match in_data a with Some bs => if in_len a =? 0 then None else Some bs | None => None end.
Definition out_present (a : hwaes_arg_out) : bool := negb (out_len a =? 0) && out_ptr a.

Lemma check_arg_in_present a :
  (hwaes_check_arg_in a =? HWAES_NO_ERROR) = (if present a is Some _ then true else false).
Proof.
  unfold hwaes_check_arg_in, hwaes_check_arg_helper, present.
  destruct hwaes_errors_not_ok as (_ & Hinv & _).
  destruct (in_data a), (in_len a =? 0); cbn; lia.
Qed.

Lemma check_arg_out_present a :
  (hwaes_check_arg_out a =? HWAES_NO_ERROR) = out_present a.
Proof.
  unfold hwaes_check_arg_out, hwaes_check_arg_helper, out_present.
  destruct hwaes_errors_not_ok as (_ & Hinv & _).
  destruct (out_ptr a), (out_len a =? 0); cbn; lia.
Qed.

Lemma present_ok a bs :
  arg_ok a → present a = Some bs → in_data a = Some bs ∧ Z.of_nat (length bs) = in_len a.
Proof.
  intros [_ Hl] Hp. unfold present in Hp. destruct (in_data a) as [b|] eqn:Hd; [|done].
  destruct (in_len a =? 0); [done|]. simplify_eq. auto.
Qed.

Lemma to_int_small n : 0 ≤ n < 2 ^ 31 → to_int n = n.
Proof. intros Hn. unfold to_int. rewrite Z.mod_small by lia. lia. Qed.
End Arguments.

Section Calls.
Context {X D : Type} `{!Uapi} `{!HwaesIface} `{!HwkeyClient D} `{!EvpCtx X D}.
Implicit Types (s : hwaes_state X D) (x : X).

Lemma wp_ctx_call {A} (f : X → D → (A * X) * D) x (Q : A → hwaes_state X D → Prop) s :
  cipher_ctx s = Some x →
  (∀ a x' d, f x (libs s) = ((a, x'), d) →
     Q a (HwaesState (Some x') (text_out s) (tag_out s) (sessions s) d)) →
  wp (ctx_call f) Q s.
Proof.
  intros Hx HQ. unfold wp, ctx_call. rewrite Hx. destruct (f x (libs s)) as [[a x'] d]. auto.
Qed.

Lemma wp_data_of a bs (Q : bytes → hwaes_state X D → Prop) s :
  in_data a = Some bs → Q bs s → wp (data_of a) Q s.
Proof. intros Hd HQ. unfold data_of. by rewrite Hd. Qed.

Lemma wp_write_text_out bs (Q : unit → hwaes_state X D → Prop) s :
  (length bs ≤ length (text_out s))%nat →
  Q tt (HwaesState (cipher_ctx s) (overwrite bs (text_out s)) (tag_out s) (sessions s) (libs s)) →
  wp (write_text_out bs) Q s.
Proof. intros Hl HQ. unfold wp, write_text_out. by rewrite (proj2 (Nat.leb_le _ _)). Qed.

Lemma wp_write_tag_out bs (Q : unit → hwaes_state X D → Prop) s :
  (length bs ≤ length (tag_out s))%nat →
  Q tt (HwaesState (cipher_ctx s) (text_out s) (overwrite bs (tag_out s)) (sessions s) (libs s)) →
  wp (write_tag_out bs) Q s.
Proof. intros Hl HQ. unfold wp, write_tag_out. by rewrite (proj2 (Nat.leb_le _ _)). Qed.
End Calls.

(** * 2. The cipher calls *)

Section Cipher.
Context {X D : Type} `{!Uapi} `{!HwaesIface} `{!HwkeyClient D} `{!EvpCtx X D} `{!EvpCtxLaws X D}.
Implicit Types (s : hwaes_state X D) (x : X) (args : hwaes_aes_op_args).

Definition aad_bytes args : bytes := default [] (present (args_aad args)).

(** The context as the request sets it up, before the text. *)
Definition request_setup args (c : cipher) (key : bytes) : setup :=
  Setup (Some (c, args_encrypt args)) (Some key) (in_data (args_iv args))
    (aad_bytes args) (present (args_tag_in args)) None.

(** What a request that succeeds has produced. *)
Definition request_done args (c : cipher) (key : bytes) s s' : Prop :=
  ∃ text, in_data (args_text_in args) = Some text ∧
  let iv := in_data (args_iv args) in
  let out := crypt c (args_encrypt args) key iv text in
  let plain := if args_encrypt args then text else out in
  let tag := auth_tag c key iv (aad_bytes args) plain in
  text_out s' = out ∧
  (if out_present (args_tag_out args)
   then args_encrypt args = true →
        tag_out s' = overwrite (take (Z.to_nat (out_len (args_tag_out args))) tag) (tag_out s)
   else tag_out s' = tag_out s) ∧
  (is_gcm c = true → args_encrypt args = false → ∀ t, present (args_tag_in args) = Some t →
   t = take (length t) tag).

(** What every request leaves. *)
Definition request_kept s s' : Prop :=
  is_Some (cipher_ctx s') ∧ length (text_out s') = length (text_out s) ∧
  length (tag_out s') = length (tag_out s) ∧ sessions s' = sessions s.

Definition cipher_result args c key s (rc : Z) s' : Prop :=
  request_kept s s' ∧ (rc = HWAES_NO_ERROR → request_done args c key s s').

(** The calls of [run_cipher] from the final one, from the update and from the
    tag on. *)
Definition finish args : M (hwaes_state X D) Z :=
  ok ← ctx_call ctx_final;
  if negb ok then ret HWAES_ERR_GENERIC else
  if hwaes_check_arg_out (args_tag_out args) =? HWAES_NO_ERROR then
    r ← ctx_call (ctx_get_tag (to_int (out_len (args_tag_out args))));
    let '(ok, tag) := r in
    write_tag_out tag;;
    if negb ok then ret HWAES_ERR_GENERIC else ret HWAES_NO_ERROR
  else ret HWAES_NO_ERROR.
Definition update_then args : M (hwaes_state X D) Z :=
  text ← data_of (args_text_in args);
  r ← ctx_call (ctx_update (to_int (in_len (args_text_in args))) text);
  let '(ok, out) := r in
  write_text_out out;;
  if negb ok then ret HWAES_ERR_GENERIC else
  assert (Z.of_nat (length out) =? to_int (out_len (args_text_out args)));;
  finish args.
Definition tag_then args : M (hwaes_state X D) Z :=
  ok ← (if hwaes_check_arg_in (args_tag_in args) =? HWAES_NO_ERROR then
          tag ← data_of (args_tag_in args);
          ctx_call (ctx_set_tag (to_int (in_len (args_tag_in args))) tag)
        else ret true);
  if negb ok then ret HWAES_ERR_GENERIC else update_then args.

Lemma finish_spec args c key s0 s x text :
  request_ok args (text_out s0) (tag_out s0) → request_kept s0 s → tag_out s = tag_out s0 →
  cipher_ctx s = Some x → in_data (args_text_in args) = Some text →
  text_out s = crypt c (args_encrypt args) key (in_data (args_iv args)) text →
  setup_of x = Setup (Some (c, args_encrypt args)) (Some key) (in_data (args_iv args))
    (aad_bytes args) (present (args_tag_in args))
    (Some (if args_encrypt args then text
           else crypt c (args_encrypt args) key (in_data (args_iv args)) text)) →
  wp (finish args) (cipher_result args c key s0) s.
Proof.
  intros Hrq (_ & Hlt & Hlg & Hses) Htag Hx Htext Hout Hsu. unfold finish.
  destruct hwaes_errors_not_ok as (Hgen & _). destruct (rq_tag_out _ _ _ Hrq) as [Hrange Htl].
  wp_steps. eapply wp_ctx_call; [exact Hx|]. intros ok x1 d1 E1. cbn beta.
  assert (∀ x' d tg, length tg = length (tag_out s) → request_kept s0
    (HwaesState (Some x') (text_out s) tg (sessions s) d)) as Hkept
    by (intros x' d tg Hl; split; [by eexists|cbn; by rewrite Hl]).
  destruct ok; cbn [negb]; [|wp_steps; by split; [by apply Hkept|]].
  assert (is_gcm c = true → args_encrypt args = false →
    ∀ t, present (args_tag_in args) = Some t →
    t = take (length t) (auth_tag c key (in_data (args_iv args)) (aad_bytes args)
      (if args_encrypt args then text
       else crypt c (args_encrypt args) key (in_data (args_iv args)) text))) as Hauth.
  { intros Hg He t Ht. pose proof (ctx_final_tag _ _ _ _ c key
      (if args_encrypt args then text
       else crypt c (args_encrypt args) key (in_data (args_iv args)) text) t E1) as Hf.
    rewrite Hsu in Hf. cbn in Hf. rewrite He, Ht in Hf. rewrite He. by apply Hf. }
  apply ctx_final_ok in E1. rewrite Hsu in E1. rewrite check_arg_out_present.
  destruct (out_present (args_tag_out args)) eqn:Hp.
  2: { wp_steps. split; [by apply Hkept|]. intros _. exists text. split; [done|]. cbv zeta.
       rewrite Hp. by split_and!. }
  wp_steps. eapply wp_ctx_call; [done|]. intros [ok tg] x2 d2 E2. cbn beta iota.
  cbn [libs text_out tag_out sessions] in *. apply andb_true_iff in Hp as Hp'.
  destruct Hp' as [_ Hptr]. rewrite to_int_small in E2 by lia.
  pose proof (ctx_get_tag_bound _ _ _ _ _ _ _ (proj1 Hrange) E2) as Hb.
  specialize (Htl Hptr). rewrite <- Htag in Htl.
  wp_steps. apply wp_write_tag_out; [cbn; lia|]. cbn [libs text_out tag_out sessions cipher_ctx].
  assert (length (overwrite tg (tag_out s)) = length (tag_out s)) as Hol
    by (apply length_overwrite; lia).
  destruct ok; cbn [negb]; wp_steps; split; try done; try by apply Hkept.
  intros _. exists text. split; [done|]. cbv zeta. rewrite Hp.
  split_and!; [done| |done]. intros He. cbn. rewrite Htag.
  f_equal. rewrite He in E1. eapply (ctx_get_tag_ok _ _ _ _ _ _ c key) in E2; [|lia|by rewrite E1..].
  rewrite E2, E1, He. done.
Qed.

(** A step on the context that either fails the request or goes on. *)
Lemma ctx_step args c key s0 s x (f : X → D → (bool * X) * D) (k : M (hwaes_state X D) Z) :
  request_kept s0 s → cipher_ctx s = Some x →
  (∀ x' d, f x (libs s) = ((true, x'), d) →
     wp k (cipher_result args c key s0)
       (HwaesState (Some x') (text_out s) (tag_out s) (sessions s) d)) →
  wp (ok ← ctx_call f; if negb ok then ret HWAES_ERR_GENERIC else k)
    (cipher_result args c key s0) s.
Proof.
  intros (_ & Hkept) Hx Hk. destruct hwaes_errors_not_ok as (Hgen & _). apply wp_bind.
  eapply wp_ctx_call; [exact Hx|]. intros ok x' d E. cbn beta.
  destruct ok; cbn [negb]; [by apply Hk|]. apply wp_ret. split; [|done]. by split.
Qed.

(** The same for a step that is made when an argument is present. *)
Lemma arg_step args c key s0 s x a (f : bytes → X → D → (bool * X) * D)
    (k : M (hwaes_state X D) Z) :
  arg_ok a → request_kept s0 s → cipher_ctx s = Some x →
  (∀ bs x' d, present a = Some bs → Z.of_nat (length bs) = in_len a →
     f bs x (libs s) = ((true, x'), d) →
     wp k (cipher_result args c key s0)
       (HwaesState (Some x') (text_out s) (tag_out s) (sessions s) d)) →
  (present a = None → wp k (cipher_result args c key s0) s) →
  wp (ok ← (if hwaes_check_arg_in a =? HWAES_NO_ERROR then bs ← data_of a; ctx_call (f bs)
            else ret true); if negb ok then ret HWAES_ERR_GENERIC else k)
    (cipher_result args c key s0) s.
Proof.
  intros Ha Hkept Hx Hsome Hnone. rewrite check_arg_in_present.
  destruct (present a) as [bs|] eqn:Hp; [|apply wp_bind, wp_ret; by apply Hnone].
  destruct (present_ok _ _ Ha Hp) as [Hd Hl].
  apply wp_bind, wp_bind. eapply wp_data_of; [exact Hd|]. apply wp_bind_inv.
  eapply ctx_step; [exact Hkept|exact Hx|]. intros x' d E. by eapply Hsome.
Qed.

Lemma update_spec args c key s text x' d :
  request_ok args (text_out s) (tag_out s) → in_data (args_text_in args) = Some text →
  out_ptr (args_text_out args) = true →
  in_len (args_text_in args) = out_len (args_text_out args) →
  in_len (args_text_in args) mod cipher_block_size c = 0 →
  setup_of x' = request_setup args c key →
  wp (update_then args) (cipher_result args c key s)
    (HwaesState (Some x') (text_out s) (tag_out s) (sessions s) d).
Proof.
  intros Hrq Htext Hptr Hlen Hblk Hsu.
  destruct hwaes_errors_not_ok as (Hgen & Hinv & _).
  destruct (rq_text_in _ _ _ Hrq) as [Hir Hil]. specialize (Hil _ Htext).
  destruct (rq_text_out _ _ _ Hrq) as [_ Hol]. specialize (Hol Hptr). unfold update_then.
  apply wp_bind. eapply wp_data_of; [exact Htext|]. apply wp_bind.
  eapply wp_ctx_call; [done|]. intros [ok out] x4 d4 E4. cbn beta iota.
  cbn [libs text_out tag_out sessions] in *. rewrite to_int_small in E4 by done.
  pose proof (ctx_update_bound _ _ _ _ _ _ _ _ (eq_sym Hil) E4) as Hb.
  apply wp_bind, wp_write_text_out; [cbn; lia|]. cbn [libs text_out tag_out sessions cipher_ctx].
  assert (length (overwrite out (text_out s)) = length (text_out s)) as Hlo
    by (apply length_overwrite; lia).
  destruct ok; cbn [negb]; [|apply wp_ret; split; [|done]; by split; [eexists|]].
  destruct (ctx_update_ok _ _ _ _ _ _ _ c (args_encrypt args) key (eq_sym Hil) E4) as [Hout Hsu4];
    [by rewrite Hsu..|by rewrite Hil|].
  rewrite Hsu in Hsu4, Hout. cbn in Hsu4, Hout.
  assert (length out = length text) as Hoe by (by rewrite Hout, crypt_length).
  apply wp_bind, wp_assert; [rewrite to_int_small by lia; lia|].
  eapply (finish_spec _ _ _ _ _ x4 text); try done.
  - change (overwrite out (text_out s) = crypt c (args_encrypt args) key (in_data (args_iv args)) text).
    unfold overwrite. rewrite drop_ge, app_nil_r by lia. exact Hout.
  - by rewrite Hsu4, <- Hout.
Qed.

Lemma run_cipher_spec args c key s x text :
  request_ok args (text_out s) (tag_out s) → cipher_ctx s = Some x →
  in_data (args_text_in args) = Some text → out_ptr (args_text_out args) = true →
  in_len (args_text_in args) = out_len (args_text_out args) →
  wp (run_cipher args c key) (cipher_result args c key s) s.
Proof.
  intros Hrq Hx Htext Hptr Hlen.
  destruct hwaes_errors_not_ok as (Hgen & Hinv & _).
  destruct (rq_text_in _ _ _ Hrq) as [Hir Hil]. specialize (Hil _ Htext).
  destruct (rq_text_out _ _ _ Hrq) as [_ Hol]. specialize (Hol Hptr).
  unfold run_cipher. apply wp_bind. eapply wp_ctx_call; [exact Hx|].
  intros [] x0 d0 [= <- <-]. cbn beta.
  eapply (ctx_step args c key s); [by split; [eexists|]|done|]. intros x1 d1 E1.
  cbn [libs text_out tag_out sessions] in *. apply ctx_init_ok in E1.
  rewrite ctx_reset_setup in E1. cbn in E1.
  assert (∀ s', request_kept s s' →
    wp (ret HWAES_ERR_INVALID_ARGS) (cipher_result args c key s) s') as Hbad
    by (intros s' Hs'; apply wp_ret; split; [exact Hs'|done]).
  wp_cases Hblk; [apply Hbad; by split; [eexists|]|].
  wp_cases Hivl; [apply Hbad; by split; [eexists|]|].
  eapply (ctx_step args c key s); [by split; [eexists|]|done|]. intros x2 d2 E2.
  cbn [libs text_out tag_out sessions] in *. apply ctx_init_ok in E2. rewrite E1 in E2. cbn in E2.
  eapply (ctx_step args c key s); [by split; [eexists|]|done|]. intros x3 d3 E3.
  cbn [libs text_out tag_out sessions] in *. apply ctx_set_padding_ok in E3. rewrite E2 in E3.
  assert (∀ x' d, setup_of x' = request_setup args c key →
    wp (update_then args) (cipher_result args c key s)
      (HwaesState (Some x') (text_out s) (tag_out s) (sessions s) d)) as Htail
    by (intros; apply (update_spec _ _ _ _ text); try done; by apply Z.eqb_eq, negb_false_iff).
  assert (∀ x' d aad, setup_of x' = Setup (Some (c, args_encrypt args)) (Some key)
      (in_data (args_iv args)) aad None None → aad = aad_bytes args →
    wp (tag_then args) (cipher_result args c key s)
      (HwaesState (Some x') (text_out s) (tag_out s) (sessions s) d)) as Htag.
  { intros x' d aad Hsu ->.
    eapply (arg_step args c key s _ x' _ (λ t, ctx_set_tag (to_int (in_len (args_tag_in args))) t));
      [by eapply rq_tag_in|by split; [eexists|]|done| |]; cbn [libs text_out tag_out sessions].
    - intros t x5 d5 Ht Htl E5. rewrite to_int_small in E5 by apply (rq_tag_in _ _ _ Hrq).
      apply ctx_set_tag_ok in E5; [|done]. apply Htail. unfold request_setup.
      by rewrite E5, Hsu, Ht.
    - intros Ht. apply Htail. unfold request_setup. by rewrite Hsu, Ht. }
  assert (from_option Some None (in_data (args_iv args)) = in_data (args_iv args)) as Hiv
    by (by destruct (in_data (args_iv args))).
  rewrite Hiv in E3.
  eapply (arg_step args c key s _ x3 _ (λ aad, ctx_aad (to_int (in_len (args_aad args))) aad));
    [by eapply rq_aad|by split; [eexists|]|done| |]; cbn [libs text_out tag_out sessions].
  - intros bs x4 d4 Hp Hl E4. rewrite to_int_small in E4 by apply (rq_aad _ _ _ Hrq).
    apply ctx_aad_ok in E4; [|done]. rewrite E3 in E4. cbn in E4.
    eapply Htag; [exact E4|]. unfold aad_bytes. by rewrite Hp.
  - intros Hp. eapply Htag; [exact E3|]. unfold aad_bytes. by rewrite Hp.
Qed.
End Cipher.

(** * 3. The whole request *)

Section Request.
Context {X D : Type} `{!Uapi} `{!HwaesIface} `{!HwkeyClient D} `{!HwkeyClientLaws D}
  `{!EvpCtx X D} `{!EvpCtxLaws X D}.
Implicit Types (s : hwaes_state X D) (x : X) (args : hwaes_aes_op_args).

(** The key of a request: the one it gives, or the one the key service
    returned for the handle it gives. *)
Definition key_used args (key : bytes) : Prop :=
  ∃ data, in_data (args_key args) = Some data ∧
  if args_key_type args =? HWAES_OPAQUE_HANDLE
  then ∃ session klen (d d' : D),
    hwkey_get_keyslot_data session (cstr data) AES_KEY_MAX_SIZE d = ((NO_ERROR, key, klen), d')
  else key = data.

(** No session, or one that was opened and closed again. *)
Definition session_closed s s' : Prop :=
  sessions s' = sessions s ∨ ∃ h, sessions s' = (false, h) :: (true, h) :: sessions s.

Definition fetched args s (r : Z + (bytes * Z)) s' : Prop :=
  cipher_ctx s' = cipher_ctx s ∧ text_out s' = text_out s ∧ tag_out s' = tag_out s ∧
  session_closed s s' ∧
  match r with
  | inl rc => rc ≠ HWAES_NO_ERROR
  | inr (data, len) => ∃ key, key_used args key ∧ len = Z.of_nat (length key) ∧
      take (Z.to_nat len) data = key
  end.

Lemma fetch_key_spec args s data :
  arg_ok (args_key args) → present (args_key args) = Some data →
  wp (fetch_key args) (fetched args s) s.
Proof.
  intros Ha Hp. destruct (present_ok _ _ Ha Hp) as [Hd Hl].
  destruct hwaes_errors_not_ok as (Hgen & Hinv & Hio & _). pose proof aes_key_max_range as Hmax.
  assert (∀ rc, rc ≠ HWAES_NO_ERROR → fetched args s (inl rc) s) as Herr
    by (intros; split_and!; try done; by left).
  unfold fetch_key. apply wp_bind. eapply wp_data_of; [exact Hd|]. wp_cases Htype.
  2: { apply wp_ret. split_and!; try done; [by left|]. exists data. split_and!; try done.
       - exists data. by rewrite Htype.
       - rewrite <- Hl, Nat2Z.id. apply take_ge. lia. }
  wp_cases Hlong; [by apply wp_ret, Herr|].
  assert (0 < in_len (args_key args)) as Hpos.
  { unfold present in Hp. rewrite Hd in Hp. destruct (Z.eqb_spec (in_len (args_key args)) 0);
      [done|lia]. }
  assert (is_Some (data !! Z.to_nat (in_len (args_key args) - 1))) as [b Hb]
    by (apply lookup_lt_is_Some; lia).
  apply wp_bind. eapply wp_fetch; [lia|exact Hb|]. wp_cases Hterm; [by apply wp_ret, Herr|].
  apply wp_bind. unfold wp at 1, open_session. destruct (hwkey_open (libs s)) as [session d1].
  wp_cases Hopen; [rewrite Hopen; apply wp_ret; split_and!; try done; by left|].
  rewrite Hopen. wp_steps. unfold wp at 1, lib_call. cbn [libs].
  destruct (hwkey_get_keyslot_data session (cstr data) AES_KEY_MAX_SIZE d1)
    as [[[rc bs] klen] d2] eqn:E. unfold close_session. wp_steps.
  wp_cases Hrc; apply wp_ret; split_and!; try done; try (right; by exists session).
  apply negb_false_iff, Z.eqb_eq in Hrc. subst rc.
  pose proof (keyslot_data_bound _ _ _ _ _ _ _ _ (proj1 Hmax) E) as Hb1.
  pose proof (keyslot_data_ok _ _ _ _ _ _ _ (proj1 Hmax) E) as Hb2.
  assert (u32 klen = Z.of_nat (length bs)) as Hk by (rewrite u32_small; lia).
  exists bs. split_and!; [|done|by rewrite Hk, Nat2Z.id, take_overwrite].
  exists data. split; [done|]. rewrite Htype. by exists session, klen, d1, d2.
Qed.

(** The checks before a key is needed. *)
Definition request_error args : option Z :=
  if negb (args_padding args =? HWAES_NO_PADDING) then Some HWAES_ERR_NOT_IMPLEMENTED else
  match present (args_key args), present (args_text_in args) with
  | Some _, Some _ =>
    if negb (out_present (args_text_out args)) ||
       negb (in_len (args_text_in args) =? out_len (args_text_out args))
    then Some HWAES_ERR_INVALID_ARGS else None
  | _, _ => Some HWAES_ERR_INVALID_ARGS
  end.

Lemma check_arg_in_value a :
  hwaes_check_arg_in a = if present a is Some _ then HWAES_NO_ERROR else HWAES_ERR_INVALID_ARGS.
Proof.
  unfold hwaes_check_arg_in, hwaes_check_arg_helper, present.
  by destruct (in_data a), (in_len a =? 0).
Qed.

Lemma check_arg_out_value a :
  hwaes_check_arg_out a = if out_present a then HWAES_NO_ERROR else HWAES_ERR_INVALID_ARGS.
Proof.
  unfold hwaes_check_arg_out, hwaes_check_arg_helper, out_present.
  by destruct (out_ptr a), (out_len a =? 0).
Qed.

(** The request after the checks. *)
Definition checked_op args : M (hwaes_state X D) Z :=
  key ← fetch_key args;
  match key with
  | inl rc => ret rc
  | inr (data, key_len) =>
    match select_cipher args key_len with
    | inl rc => ret rc
    | inr c => run_cipher args c (take (Z.to_nat key_len) data)
    end
  end.

Lemma hwaes_op_checks args :
  hwaes_aes_op (X:=X) (D:=D) args =
  match request_error args with Some rc => ret rc | None => checked_op args end.
Proof.
  unfold hwaes_aes_op, request_error. rewrite !check_arg_in_value, check_arg_out_value.
  destruct hwaes_errors_not_ok as (_ & Hinv & _).
  destruct (negb (args_padding args =? HWAES_NO_PADDING)); [done|].
  destruct (present (args_key args)); rewrite ?Z.eqb_refl; cbn [negb];
    [|by rewrite (proj2 (Z.eqb_neq _ _) Hinv)].
  destruct (present (args_text_in args)); rewrite ?Z.eqb_refl; cbn [negb];
    [|by rewrite (proj2 (Z.eqb_neq _ _) Hinv)].
  destruct (out_present (args_text_out args)); rewrite ?Z.eqb_refl; cbn [negb orb];
    [|by rewrite (proj2 (Z.eqb_neq _ _) Hinv)].
  by destruct (in_len (args_text_in args) =? out_len (args_text_out args)).
Qed.

Lemma select_cipher_error args n rc :
  select_cipher args n = inl rc → rc = HWAES_ERR_INVALID_ARGS ∨ rc = HWAES_ERR_NOT_IMPLEMENTED.
Proof. unfold select_cipher. repeat case_match; intros; simplify_eq; auto. Qed.

Lemma hwaes_aes_op_spec args s x :
  request_ok args (text_out s) (tag_out s) → cipher_ctx s = Some x →
  wp (hwaes_aes_op args) (λ rc s',
    is_Some (cipher_ctx s') ∧ length (text_out s') = length (text_out s) ∧
    length (tag_out s') = length (tag_out s) ∧ session_closed s s' ∧
    (rc = HWAES_NO_ERROR → ∃ key c, key_used args key ∧
       select_cipher args (Z.of_nat (length key)) = inr c ∧ request_done args c key s s')) s.
Proof.
  intros Hrq Hx. rewrite hwaes_op_checks.
  destruct hwaes_errors_not_ok as (_ & Hinv & _ & Himp).
  assert (∀ rc s', cipher_ctx s' = cipher_ctx s → text_out s' = text_out s →
    tag_out s' = tag_out s → session_closed s s' → rc ≠ HWAES_NO_ERROR →
    is_Some (cipher_ctx s') ∧ length (text_out s') = length (text_out s) ∧
    length (tag_out s') = length (tag_out s) ∧ session_closed s s' ∧
    (rc = HWAES_NO_ERROR → ∃ key c, key_used args key ∧
       select_cipher args (Z.of_nat (length key)) = inr c ∧ request_done args c key s s')) as Hfail
    by (intros rc s' -> -> -> Hs Hrc; split_and!; try done; by exists x).
  destruct (request_error args) as [rc|] eqn:Herr.
  { apply wp_ret. apply Hfail; [done..|by left|]. unfold request_error in Herr.
    repeat case_match; by simplify_eq. }
  unfold request_error in Herr. destruct (negb (args_padding args =? _)); [done|].
  destruct (present (args_key args)) as [data|] eqn:Hkey; [|done].
  destruct (present (args_text_in args)) as [text|] eqn:Htext; [|done].
  destruct (out_present (args_text_out args)) eqn:Hout; [|done].
  destruct (Z.eqb_spec (in_len (args_text_in args)) (out_len (args_text_out args))) as [Hlen|];
    [|done].
  destruct (present_ok _ _ (rq_text_in _ _ _ Hrq) Htext) as [Htd _].
  apply andb_true_iff in Hout as [_ Hptr].
  apply wp_bind. eapply wp_mono; [eapply fetch_key_spec; [by eapply rq_key|exact Hkey]|].
  intros [rc|[bs n]] s1 (Hc & Ht & Hg & Hses & Hr); [by apply wp_ret, Hfail|].
  destruct Hr as (key & Hused & -> & Htake).
  destruct (select_cipher args _) as [rc|c] eqn:Hsel.
  { apply wp_ret, Hfail; try done. by destruct (select_cipher_error _ _ _ Hsel) as [-> | ->]. }
  rewrite Htake. eapply wp_mono; [eapply (run_cipher_spec args c key s1 x text); try done|].
  - by rewrite Ht, Hg.
  - by rewrite Hc.
  - intros rc s2 ((Hx2 & Hlt & Hlg & Hse) & Hdone). split_and!; try done.
    + by rewrite Hlt, Ht.
    + by rewrite Hlg, Hg.
    + unfold session_closed in *. by rewrite Hse.
    + intros Hrc. exists key, c. split_and!; try done. unfold request_done in *.
      by rewrite Hg in Hdone; apply Hdone.
Qed.

(** C10. hwaes_aes_op on a well-formed request (lengths that match the data and
    fit an int) always returns: no assertion fails, no write leaves its
    buffer, and a session opened to the key service is closed again.  When it
    returns NO_ERROR the output is the cipher, chosen by the mode and the
    key's length, of the input under the key given or fetched and the IV; in
    GCM mode an encryption also delivers the tag over the AAD and the
    plaintext, and a decryption has checked the tag given against it. *)
Theorem hwaes_aes_op_correct args s x :
  request_ok args (text_out s) (tag_out s) → cipher_ctx s = Some x →
  wp (hwaes_aes_op args) (λ rc s',
    is_Some (cipher_ctx s') ∧ length (text_out s') = length (text_out s) ∧
    length (tag_out s') = length (tag_out s) ∧ session_closed s s' ∧
    (rc = HWAES_NO_ERROR → ∃ key c, key_used args key ∧
       select_cipher args (Z.of_nat (length key)) = inr c ∧ request_done args c key s s')) s.
Proof. apply hwaes_aes_op_spec. Qed.

(** The error of a request that is refused on its arguments alone: the checks,
    the form of an opaque handle, and the choice of the cipher for a key that
    is given. *)
Definition refused args : option Z :=
  match request_error args with
  | Some rc => Some rc
  | None =>
    let key := args_key args in
    if args_key_type args =? HWAES_OPAQUE_HANDLE then
      if (HWKEY_OPAQUE_HANDLE_MAX_SIZE <? in_len key) ||
         negb (bool_decide (last (default [] (in_data key)) = Some 0))
      then Some HWAES_ERR_INVALID_ARGS else None
    else match select_cipher args (in_len key) with inl rc => Some rc | inr _ => None end
  end.

Lemma fetch_last {S} (l : bytes) b (s : S) :
  last l = Some b → fetch l (Z.of_nat (length l) - 1) s = Ret b s.
Proof.
  intros Hl. rewrite last_lookup in Hl. unfold fetch.
  assert (length l ≠ 0)%nat by (intros E; apply nil_length_inv in E; by subst).
  replace (Z.to_nat (Z.of_nat (length l) - 1)) with (Nat.pred (length l)) by lia.
  rewrite Hl. by destruct (Z.leb_spec 0 (Z.of_nat (length l) - 1)); [|lia].
Qed.

(** A request refused on its arguments is answered with the error of the
    first check it fails (NOT_IMPLEMENTED for the padding or the mode,
    INVALID_ARGS otherwise) and has no effect: no session is opened, the
    cipher context and the output buffers are as they were. *)
Theorem hwaes_aes_op_refuses args s rc :
  arg_ok (args_key args) → refused args = Some rc →
  rc ≠ HWAES_NO_ERROR ∧ hwaes_aes_op args s = Ret rc s.
Proof.
  intros Ha Href. rewrite hwaes_op_checks. unfold refused in Href.
  destruct hwaes_errors_not_ok as (_ & Hinv & _ & Himp).
  destruct (request_error args) as [rc'|] eqn:Herr.
  { simplify_eq. split; [|done]. unfold request_error in Herr. repeat case_match; by simplify_eq. }
  unfold request_error in Herr. destruct (negb (args_padding args =? _)); [done|].
  destruct (present (args_key args)) as [data|] eqn:Hkey; [|done].
  destruct (present_ok _ _ Ha Hkey) as [Hd Hl]. unfold checked_op, fetch_key, data_of.
  rewrite Hd in *. destruct (args_key_type args =? HWAES_OPAQUE_HANDLE).
  - destruct (HWKEY_OPAQUE_HANDLE_MAX_SIZE <? in_len (args_key args)) eqn:Hlong; cbn in Href;
      [by simplify_eq|]. case_bool_decide as Hlast; [done|]. cbn in Href. simplify_eq.
    split; [done|]. unfold bind. cbn. rewrite <- Hl.
    destruct (last data) as [b|] eqn:Hb.
    + rewrite (fetch_last _ _ _ Hb). destruct (Z.eqb_spec b 0); [by subst|done].
    + apply last_None in Hb. subst. unfold present in Hkey. rewrite Hd in Hkey.
      cbn in Hl. by rewrite <- Hl in Hkey.
  - destruct (select_cipher args _) as [rc'|] eqn:Hsel; [|done]. simplify_eq.
    split; [by destruct (select_cipher_error _ _ _ Hsel) as [-> | ->]|].
    unfold bind. cbn. by rewrite Hsel.
Qed.

(** The state with another cipher context. *)
Definition with_ctx (x : X) s : hwaes_state X D :=
  HwaesState (Some x) (text_out s) (tag_out s) (sessions s) (libs s).

(** Two runs agree but for the context they leave. *)
Definition same_answer {A} (o1 o2 : outcome (hwaes_state X D) A) : Prop :=
  match o1, o2 with
  | Ret a1 s1, Ret a2 s2 => a1 = a2 ∧ text_out s1 = text_out s2 ∧ tag_out s1 = tag_out s2 ∧
      sessions s1 = sessions s2 ∧ libs s1 = libs s2
  | Halt h1 _, Halt h2 _ => h1 = h2
  | _, _ => False
  end.

Lemma same_answer_refl {A} (o : outcome (hwaes_state X D) A) : same_answer o o.
Proof. by destruct o. Qed.

(** Fetching the key does not look at the context. *)
Lemma fetch_key_ctx args x y s :
  match fetch_key args (with_ctx x s), fetch_key args (with_ctx y s) with
  | Ret k1 s1, Ret k2 s2 => k1 = k2 ∧ ∃ s', s1 = with_ctx x s' ∧ s2 = with_ctx y s'
  | Halt h1 _, Halt h2 _ => h1 = h2
  | _, _ => False
  end.
Proof.
  unfold fetch_key, data_of, bind. destruct (in_data (args_key args)) as [data|]; [|done]. cbn.
  destruct (args_key_type args =? HWAES_OPAQUE_HANDLE); [|by split; [|exists s]].
  destruct (HWKEY_OPAQUE_HANDLE_MAX_SIZE <? in_len (args_key args)); [by split; [|exists s]|].
  unfold fetch. destruct (data !! _) as [b|]; [|done]. destruct (0 <=? _); [|done]. cbn.
  destruct (negb (b =? 0)); [by split; [|exists s]|]. unfold open_session, lib_call. cbn.
  destruct (hwkey_open (libs s)) as [rc d1]. destruct (rc <? 0).
  { split; [done|]. by exists (HwaesState None (text_out s) (tag_out s) (sessions s) d1). }
  cbn. destruct (hwkey_get_keyslot_data rc (cstr data) AES_KEY_MAX_SIZE d1) as [[[r bs] klen] d2].
  cbn. destruct (negb (r =? NO_ERROR)); (split; [done|]);
    by exists (HwaesState None (text_out s) (tag_out s) ((false, rc) :: (true, rc) :: sessions s)
            (hwkey_close rc d2)).
Qed.

(** C21. What earlier requests left in the cipher context does not matter: with
    any two contexts a request has the same result, output, tag, session
    calls and effect on the libraries, since it resets the context first. *)
Theorem hwaes_aes_op_context_irrelevant args x y s :
  same_answer (hwaes_aes_op args (with_ctx x s)) (hwaes_aes_op args (with_ctx y s)).
Proof.
  rewrite !hwaes_op_checks. destruct (request_error args) as [rc|]; [done|].
  unfold checked_op, bind. pose proof (fetch_key_ctx args x y s) as Hk.
  destruct (fetch_key args (with_ctx x s)) as [[rc|[bs n]] s1|];
    destruct (fetch_key args (with_ctx y s)) as [k2 s2|]; try done;
    destruct Hk as (<- & s' & -> & ->); [done|].
  destruct (select_cipher args n) as [rc|c]; [done|].
  unfold run_cipher, bind at 1 3. unfold ctx_call at 1 2. cbn [cipher_ctx with_ctx libs].
  rewrite (ctx_reset_fresh x y). apply same_answer_refl.
Qed.

Lemma select_cipher_mode args1 args2 n c1 c2 :
  args_mode args1 = args_mode args2 → select_cipher args1 n = inr c1 →
  select_cipher args2 n = inr c2 → c1 = c2.
Proof.
  intros Hm. unfold select_cipher. rewrite Hm.
  destruct (n =? 16), (n =? 32); repeat case_match; intros; by simplify_eq.
Qed.

(** [dec] asks for the decryption of [ct] with what [enc] encrypts with. *)
Record decrypts (dec enc : hwaes_aes_op_args) (ct : bytes) : Prop := {
  de_key : args_key dec = args_key enc;
  de_iv : args_iv dec = args_iv enc;
  de_mode : args_mode dec = args_mode enc;
  de_plain_key : args_key_type enc ≠ HWAES_OPAQUE_HANDLE ∧
    args_key_type dec = args_key_type enc;
  de_direction : args_encrypt enc = true ∧ args_encrypt dec = false;
  de_text : in_data (args_text_in dec) = Some ct
}.

(** C32. Decryption undoes encryption: when a text was encrypted and the output
    is decrypted with the same key, IV and mode, by any later request on any
    context, a success of both yields the text (the cipher's decryption being
    the inverse of its encryption).  The key is in the request, not an opaque
    handle. *)
Theorem hwaes_roundtrip enc dec s1 x1 s1' s2 x2 s2' :
  (∀ c k iv t, crypt c false k iv (crypt c true k iv t) = t) →
  request_ok enc (text_out s1) (tag_out s1) → cipher_ctx s1 = Some x1 →
  request_ok dec (text_out s2) (tag_out s2) → cipher_ctx s2 = Some x2 →
  hwaes_aes_op enc s1 = Ret HWAES_NO_ERROR s1' → decrypts dec enc (text_out s1') →
  hwaes_aes_op dec s2 = Ret HWAES_NO_ERROR s2' →
  in_data (args_text_in enc) = Some (text_out s2').
Proof.
  intros Hinv Hrq1 Hx1 Hrq2 Hx2 Hrun1 [Hkey Hiv Hmode [Hplain Htype] [He Hd] Htext] Hrun2.
  pose proof (hwaes_aes_op_spec enc s1 x1 Hrq1 Hx1) as Hw1. unfold wp in Hw1. rewrite Hrun1 in Hw1.
  pose proof (hwaes_aes_op_spec dec s2 x2 Hrq2 Hx2) as Hw2. unfold wp in Hw2. rewrite Hrun2 in Hw2.
  destruct Hw1 as (_ & _ & _ & _ & Hok1), Hw2 as (_ & _ & _ & _ & Hok2).
  destruct (Hok1 eq_refl) as (k1 & c1 & (data1 & Hk1 & Hu1) & Hc1 & text & Ht & Ho1 & _).
  destruct (Hok2 eq_refl) as (k2 & c2 & (data2 & Hk2 & Hu2) & Hc2 & ct & Hct & Ho2 & _).
  rewrite Htype in Hu2. apply Z.eqb_neq in Hplain. rewrite Hplain in Hu1, Hu2.
  rewrite Hkey in Hk2. simplify_eq.
  rewrite (select_cipher_mode enc dec _ c1 c2) in * by done.
  rewrite Ho2, Ho1, He, Hd, Hiv, Hinv. exact Ht.
Qed.

(** Every session opened is closed before the next is opened. *)
Fixpoint all_closed (l : list (bool * Z)) : Prop :=
  match l with
  | [] => True
  | (false, h) :: (true, h') :: l => h = h' ∧ all_closed l
  | _ => False
  end.

Lemma serve_requests_ok reqs s :
  Forall (λ r, request_ok r.1.1 r.1.2 r.2) reqs → is_Some (cipher_ctx s) →
  all_closed (sessions s) →
  wp (foldM (λ _ r, serve_request r;; ret tt) tt reqs)
    (λ _ s', is_Some (cipher_ctx s') ∧ all_closed (sessions s')) s.
Proof.
  intros Hall Hx Hs. eapply wp_mono; [apply (wp_foldM _ (λ reqs (_ : unit) s,
    Forall (λ r, request_ok r.1.1 r.1.2 r.2) reqs ∧
    is_Some (cipher_ctx s) ∧ all_closed (sessions s))); [|done]|by intros [] s' (_ & ?)].
  intros [[args t] g] reqs' [] s' (Hreqs & [x Hx'] & Hs').
  apply Forall_cons in Hreqs as [Hrq Hreqs]. apply wp_bind. unfold serve_request. wp_steps.
  eapply wp_mono; [by eapply (hwaes_aes_op_spec args _ x)|].
  intros rc s2 (Hx2 & _ & _ & Hses & _). wp_steps. split_and!; try done.
  unfold session_closed in Hses. cbn in Hses. by destruct Hses as [-> | [h ->]].
Qed.

(** main, over any requests the event loop serves, ends with EXIT_FAILURE
    when a set-up step or the loop fails and with EXIT_SUCCESS otherwise; it
    then has no cipher context left and no open session, and it stops early
    only if no cipher context can be allocated. *)
Theorem hwaes_main_safe hset add reqs rc s :
  Forall (λ r, request_ok r.1.1 r.1.2 r.2) reqs → cipher_ctx s = None → all_closed (sessions s) →
  match hwaes_main hset add reqs rc s with
  | Ret code s' => cipher_ctx s' = None ∧ all_closed (sessions s') ∧
      code = (if hset && (add hwaes_allowed_clients =? NO_ERROR) && (rc =? NO_ERROR)
              then EXIT_SUCCESS else EXIT_FAILURE)
  | Halt h _ => h = AssertFailed ∧ (ctx_new (libs s)).1 = None
  end.
Proof.
  intros Hall Hx Hs. pose proof (serve_requests_ok reqs) as Hloop. unfold hwaes_main.
  set (loop := foldM _ tt reqs) in *. clearbody loop.
  destruct hset; cbn [negb andb]; [|done].
  destruct (add hwaes_allowed_clients =? NO_ERROR); cbn [negb andb]; [|done].
  unfold crypt_init, bind, gets. rewrite Hx. cbn.
  destruct (ctx_new (libs s)) as [[x|] d] eqn:Hnew; [|done]. cbn.
  pose proof (Hloop (HwaesState (Some x) (text_out s) (tag_out s) (sessions s) d)
    Hall ltac:(by eexists) Hs) as Hw.
  apply wp_returns in Hw as ([] & s' & -> & _ & Hs'). cbn.
  by destruct (rc =? NO_ERROR).
Qed.
End Request.
