(* ===== verification/HwaesDemo.v ===== *)
(** The theorems on the AES service at concrete requests, with a toy cipher
    context and a key service that knows one handle. *)

From S2P Require Import Prelude Ipc Evp Hwkey Hwaes HwaesCorrect.

Module HwaesDemo.
#[local] Instance uapi : Uapi := Sim.uapi.
#[local] Instance iface : HwaesIface.
Proof.
  refine {| HWAES_NO_ERROR := 0; HWAES_ERR_GENERIC := 1; HWAES_ERR_INVALID_ARGS := 2;
            HWAES_ERR_IO := 3; HWAES_ERR_NOT_IMPLEMENTED := 5; HWAES_NO_PADDING := 0;
            HWAES_CBC_MODE := 0; HWAES_GCM_MODE := 1; HWAES_OPAQUE_HANDLE := 1;
            AES_KEY_MAX_SIZE := 32; HWKEY_OPAQUE_HANDLE_MAX_SIZE := 128 |}; lia.
Defined.

(** The key service's client: session 40, and the key of the handle 5 6. *)
Definition opaque_key : bytes := seqZ 1 16.
#[local] Instance client : HwkeyClient unit := {|
  hwkey_open d := (40, d);
  hwkey_get_keyslot_data _ id n d :=
    (if bool_decide (id = [5; 6]) && (16 <=? n) then (0, opaque_key, 16) else (-2, [], 0), d);
  hwkey_close _ d := d
|}.
#[local] Instance client_laws : HwkeyClientLaws unit.
Proof.
  split; cbn; [intros s id n d rc bs klen d' Hn E|intros s id n d bs klen d' Hn E];
    (destruct (bool_decide (id = [5; 6])), (Z.leb_spec 16 n);
    cbn in E; unfold opaque_key in E; simplify_eq; cbn; try done; lia).
Qed.

(** A context is what was set in it. *)
Definition toy_crypt (c : cipher) (e : bool) (k : bytes) (iv : option bytes) (t : bytes) : bytes :=
  ToyEvp.crypt k (default [] iv) t.
Definition toy_tag (c : cipher) (k : bytes) (iv : option bytes) (aad t : bytes) : bytes :=
  replicate 16 (u8 (ToyEvp.key_byte k (default [] iv) + foldr Z.add 0 (aad ++ t))).

#[local] Arguments toy_tag : simpl never.

Definition toy_update (bs : bytes) (s : setup) : bool * bytes * setup :=
  match su_cipher s, su_key s with
  | Some (c, e), Some k =>
    let out := toy_crypt c e k (su_iv s) bs in
    (true, out, Setup (su_cipher s) (su_key s) (su_iv s) (su_aad s) (su_tag s)
                  (Some (if e then bs else out)))
  | _, _ => (false, [], s)
  end.

Definition toy_final (s : setup) : bool :=
  match su_cipher s, su_key s, su_plain s, su_tag s with
  | Some (c, false), Some k, Some p, Some t =>
    if is_gcm c then bool_decide (t = take (length t) (toy_tag c k (su_iv s) (su_aad s) p)) else true
  | _, _, _, _ => true
  end.

Definition toy_get_tag (n : Z) (s : setup) : bool * bytes :=
  match su_cipher s, su_key s, su_plain s with
  | Some (c, true), Some k, Some p =>
    (true, take (Z.to_nat n) (toy_tag c k (su_iv s) (su_aad s) p))
  | _, _, _ => (false, [])
  end.

#[local] Instance ctx : EvpCtx setup unit := {|
  ctx_new d := (Some (Setup None None None [] None None), d);
  ctx_reset _ := Setup None None None [] None None;
  ctx_init e c k iv s d :=
    ((true, Setup (Some (c, e)) (from_option Some (su_key s) k) (from_option Some (su_iv s) iv)
              (su_aad s) (su_tag s) (su_plain s)), d);
  ctx_set_padding s d := ((true, s), d);
  ctx_aad _ bs s d :=
    ((true, Setup (su_cipher s) (su_key s) (su_iv s) (su_aad s ++ bs) (su_tag s) (su_plain s)), d);
  ctx_set_tag _ bs s d :=
    ((true, Setup (su_cipher s) (su_key s) (su_iv s) (su_aad s) (Some bs) (su_plain s)), d);
  ctx_update _ bs s d := (toy_update bs s, d);
  ctx_final s d := ((toy_final s, s), d);
  ctx_get_tag n s d := ((toy_get_tag n s, s), d);
  cipher_iv_length c := match c with AES_128_CBC | AES_256_CBC => 16 | _ => 12 end;
  cipher_block_size c := match c with AES_128_CBC | AES_256_CBC => 16 | _ => 1 end;
  crypt := toy_crypt;
  auth_tag := toy_tag
|}.

#[local] Instance ctx_laws : EvpCtxLaws setup unit.
Proof.
  refine {| setup_of s := s |}; cbn; intros *; try done; try (intros; by simplify_eq).
  - by destruct c.
  - unfold toy_crypt, ToyEvp.crypt. by rewrite length_fmap.
  - intros _ E. unfold toy_update in E. destruct (su_cipher x) as [[c e]|], (su_key x) as [k|];
      simplify_eq; cbn; try lia. unfold toy_crypt, ToyEvp.crypt. by rewrite length_fmap.
  - intros _ E Hc Hk _ _. unfold toy_update in E. rewrite Hc, Hk in E.
    injection E as <- <- _. by rewrite Hc, Hk.
  - intros E Hc Hg Hk Hp Ht. unfold toy_final in E. rewrite Hc, Hk, Hp, Ht, Hg in E.
    injection E as Hb _. by apply bool_decide_eq_true in Hb.
  - intros Hn E. unfold toy_get_tag in E.
    destruct (su_cipher x) as [[c []]|], (su_key x), (su_plain x); simplify_eq; cbn; try lia.
    rewrite length_take. lia.
  - intros Hn E Hc Hk Hp. unfold toy_get_tag in E. rewrite Hc, Hk, Hp in E. by simplify_eq.
Defined.

(** GCM with a given key, and with the key behind a handle. *)
Definition in_bytes (bs : bytes) : hwaes_arg_in := ArgIn (Z.of_nat (length bs)) (Some bs).
Definition none : hwaes_arg_in := ArgIn 0 None.
Definition text : bytes := [1; 2; 3; 4; 5].
Definition iv : bytes := seqZ 0 12.
Definition seal : hwaes_aes_op_args :=
  AesOpArgs (in_bytes opaque_key) (in_bytes iv) (in_bytes text) (in_bytes [9; 9]) none
    (ArgOut 5 true) (ArgOut 16 true) 0 0 1 true.
Definition seal_opaque : hwaes_aes_op_args :=
  AesOpArgs (in_bytes [5; 6; 0]) (in_bytes iv) (in_bytes text) (in_bytes [9; 9]) none
    (ArgOut 5 true) (ArgOut 16 true) 1 0 1 true.
Definition blank : hwaes_state setup unit :=
  HwaesState (Some (Setup None None None [] None None)) (replicate 5 0) (replicate 16 0) [] tt.

Lemma in_bytes_ok bs : Z.of_nat (length bs) < 2 ^ 31 → arg_ok (in_bytes bs).
Proof. intros Hl. split; cbn [in_len in_data in_bytes]; [lia|]. intros b [= <-]. done. Qed.
Lemma none_ok : arg_ok none.
Proof. by split; cbn; [lia|]. Qed.

Lemma seal_ok k ty t g :
  Z.of_nat (length k) < 2 ^ 31 → length t = 5%nat → length g = 16%nat →
  request_ok (AesOpArgs (in_bytes k) (in_bytes iv) (in_bytes text) (in_bytes [9; 9]) none
    (ArgOut 5 true) (ArgOut 16 true) ty 0 1 true) t g.
Proof.
  intros Hk Ht Hg. split; try (by apply in_bytes_ok); try apply none_ok;
    (split; cbn [args_text_out args_tag_out out_len]; [lia|]; intros _; cbn; lia).
Qed.

Definition sealed : hwaes_state setup unit :=
  match hwaes_aes_op seal blank with Ret _ s | Halt _ s => s end.

Example seal_runs : hwaes_aes_op seal blank = Ret HWAES_NO_ERROR sealed.
Proof. by vm_compute. Qed.
Example seal_opaque_agrees :
  match hwaes_aes_op seal_opaque blank with
  | Ret rc s => rc = HWAES_NO_ERROR ∧ text_out s = text_out sealed ∧
      sessions s = [(false, 40); (true, 40)]
  | Halt _ _ => False
  end.
Proof. by vm_compute. Qed.

Lemma hwaes_aes_op_correct_witness :
  wp (hwaes_aes_op seal_opaque) (λ rc s',
    is_Some (cipher_ctx s') ∧ length (text_out s') = 5%nat ∧ length (tag_out s') = 16%nat ∧
    session_closed blank s' ∧
    (rc = HWAES_NO_ERROR → ∃ key c, key_used (D:=unit) seal_opaque key ∧
       select_cipher seal_opaque (Z.of_nat (length key)) = inr c ∧
       request_done seal_opaque c key blank s')) blank.
Proof. eapply (hwaes_aes_op_correct seal_opaque blank); [by apply seal_ok|done]. Defined.

(** ECB is not a mode the service knows. *)
Definition bad_mode : hwaes_aes_op_args :=
  AesOpArgs (in_bytes opaque_key) (in_bytes iv) (in_bytes text) none none
    (ArgOut 5 true) (ArgOut 0 false) 0 0 7 true.
Lemma hwaes_aes_op_refuses_witness :
  HWAES_ERR_NOT_IMPLEMENTED ≠ HWAES_NO_ERROR ∧
  hwaes_aes_op bad_mode blank = Ret HWAES_ERR_NOT_IMPLEMENTED blank.
Proof.
  apply (hwaes_aes_op_refuses bad_mode blank); [|done].
  by apply in_bytes_ok.
Defined.

(** The request that opens what [seal] sealed, with its tag. *)
Definition unseal : hwaes_aes_op_args :=
  AesOpArgs (in_bytes opaque_key) (in_bytes iv) (in_bytes (text_out sealed)) (in_bytes [9; 9])
    (in_bytes (tag_out sealed)) (ArgOut 5 true) (ArgOut 0 false) 0 0 1 false.
Definition later : hwaes_state setup unit :=
  HwaesState (cipher_ctx sealed) (replicate 5 0) [] [] tt.
Definition unsealed : hwaes_state setup unit :=
  match hwaes_aes_op unseal later with Ret _ s | Halt _ s => s end.

Lemma toy_crypt_inverse c k ivo t : toy_crypt c false k ivo (toy_crypt c true k ivo t) = t.
Proof.
  unfold toy_crypt, ToyEvp.crypt. rewrite <- list_fmap_compose. rewrite <- (list_fmap_id t) at 2.
  apply list_fmap_ext. intros i b _. cbn. by rewrite Z.lxor_assoc, Z.lxor_nilpotent, Z.lxor_0_r.
Qed.

Lemma hwaes_roundtrip_witness : in_data (args_text_in seal) = Some (text_out unsealed).
Proof.
  eapply (hwaes_roundtrip seal unseal blank _ sealed later _ unsealed).
  - apply toy_crypt_inverse.
  - by apply seal_ok.
  - done.
  - split; try (by apply in_bytes_ok); try apply none_ok; (split; cbn; [lia|done]).
  - done.
  - exact seal_runs.
  - split; try done; split; done.
  - by vm_compute.
Defined.

Lemma hwaes_main_safe_witness :
  match hwaes_main true (λ _, 0) [(seal, replicate 5 0, replicate 16 0)] (-1)
          (HwaesState (X:=setup) None [] [] [] tt) with
  | Ret code s' => cipher_ctx s' = None ∧ all_closed (sessions s') ∧
      code = (if true && (0 =? NO_ERROR) && (-1 =? NO_ERROR) then EXIT_SUCCESS else EXIT_FAILURE)
  | Halt h _ => h = AssertFailed ∧ (ctx_new (X:=setup) tt).1 = None
  end.
Proof.
  apply (hwaes_main_safe true (λ _, 0) [(seal, replicate 5 0, replicate 16 0)] (-1)
           (HwaesState (X:=setup) None [] [] [] tt)); [|done|done].
  apply Forall_singleton. by apply seal_ok.
Defined.
End HwaesDemo.
