(* ===== verification/Swspi.v ===== *)
(** The software SPI driver and its server, spi/swspi-srv: sequences of
    requests that are queued in the device and executed when the sequence is
    committed, on simulated buses. *)

From S2P Require Import Prelude Ipc.

(** * 1. State *)

(** What the [exec] pointer of an entry points to. *)
Inductive spi_exec := ExecSetClk | ExecCsAssert | ExecCsDeassert | ExecXfer | ExecDelay.

Record spi_seq_entry := SeqEntry { exec : option spi_exec; priv : option ptr }.

(** What [priv] points to: [struct spi_req_xfer_args] or a [uint64_t]. *)
Inductive spi_priv :=
| XferArgs (tx rx : option ptr) (len : Z)
| DelayArg (delay_ns : Z).

Record spi_bus_ctx := SpiBus { owner : option ptr; num_devs : Z }.

Record spi_dev_ctx := SpiDev {
  bus : ptr;
  cmds : option (list spi_seq_entry);
  num_cmds : Z;
  curr_cmd : Z;
  loopback : bool
}.

(** The devices and buses, the arguments of queued requests, the clients'
    buffers, and the delays slept, latest first. *)
Record spi_state := SpiState {
  devs : gmap ptr spi_dev_ctx;
  buses : gmap ptr spi_bus_ctx;
  privs : gmap ptr spi_priv;
  bufs : gmap ptr bytes;
  slept : list Z
}.

Definition with_devs (f : gmap ptr spi_dev_ctx → gmap ptr spi_dev_ctx) (l : spi_state) :=
  SpiState (f (devs l)) (buses l) (privs l) (bufs l) (slept l).
Definition with_buses (f : gmap ptr spi_bus_ctx → gmap ptr spi_bus_ctx) (l : spi_state) :=
  SpiState (devs l) (f (buses l)) (privs l) (bufs l) (slept l).
Definition with_privs (f : gmap ptr spi_priv → gmap ptr spi_priv) (l : spi_state) :=
  SpiState (devs l) (buses l) (f (privs l)) (bufs l) (slept l).
Definition with_bufs (f : gmap ptr bytes → gmap ptr bytes) (l : spi_state) :=
  SpiState (devs l) (buses l) (privs l) (f (bufs l)) (slept l).
Definition with_slept (f : list Z → list Z) (l : spi_state) :=
  SpiState (devs l) (buses l) (privs l) (bufs l) (f (slept l)).

(** The sequence fields of a device. *)
Definition with_seq (s : option (list spi_seq_entry)) (n c : Z) (d : spi_dev_ctx) : spi_dev_ctx :=
  SpiDev (bus d) s n c (loopback d).

(** The C library's generator: its state after [srand], and [rand]. *)
Class Rand (R : Type) := {
  srand : Z → R;
  rand : R → Z * R;
  rand_nonneg r : 0 ≤ (rand r).1
}.

(** * 2. The simulated device *)

(** Rotates the digest right by a bit, then adds the byte. *)
Definition digest_step (d b : Z) : Z :=
  u8 (Z.lxor (u8 (Z.lor (Z.shiftr d 1) (Z.shiftl (Z.land d 1) 7))) b).
Definition digest (buf : bytes) : Z := foldl digest_step 0 buf.

Fixpoint rand_fill {R} `{!Rand R} (n : nat) (r : R) : bytes :=
  match n with
  | O => []
  | S n => let '(z, r) := rand r in u8 (z mod 255) :: rand_fill n r
  end.
Definition rand_buf {R} `{!Rand R} (sz seed : Z) : bytes :=
  rand_fill (Z.to_nat sz) (srand (R:=R) seed).

Section Driver.
Context {R W : Type} `{!Uapi} `{!Rand R} `{!Kernel W}.
Abbreviation C := (M (world spi_state unit W)).

Definition spi_is_bus_shared (dev : ptr) : C bool :=
  d ← load devs dev;
  b ← load buses (bus d);
  ret (1 <? num_devs b).

Definition seq_active (d : spi_dev_ctx) : bool :=
  match cmds d with Some _ => true | None => false end.
Definition spi_dev_seq_active (dev : ptr) : C bool :=
  d ← load devs dev; ret (seq_active d).

(** The first [n] bytes of a buffer, and a write to its start. *)
Definition read_buf (p : ptr) (n : Z) : C bytes :=
  bs ← load bufs p;
  if n <=? Z.of_nat (length bs) then ret (take (Z.to_nat n) bs) else stop OutOfBounds.
Definition write_buf (p : ptr) (data : bytes) : C unit :=
  bs ← load bufs p;
  if (length data <=? length bs)%nat then mod_loc (with_bufs <[p := overwrite data bs]>)
  else stop OutOfBounds.

Definition spi_req_exec_cs_assert (dev : ptr) : C unit :=
  d ← load devs dev;
  b ← load buses (bus d);
  assert (bool_decide (owner b = None));;
  mod_loc (with_buses <[bus d := SpiBus (Some dev) (num_devs b)]>).

Definition spi_req_exec_cs_deassert (dev : ptr) : C unit :=
  d ← load devs dev;
  b ← load buses (bus d);
  assert (bool_decide (owner b = Some dev));;
  mod_loc (with_buses <[bus d := SpiBus None (num_devs b)]>).

(** [spi_req_exec_xfer] after its arguments are read. *)
Definition do_xfer (dev : ptr) (tx rx : option ptr) (len : Z) : C unit :=
  d ← load devs dev;
  if loopback d then
    match rx with
    | Some rx =>
      match tx with
      | Some tx => data ← read_buf tx len; write_buf rx data
      | None => write_buf rx (replicate (Z.to_nat len) 0)
      end
    | None => ret tt
    end
  else
    seed ← match tx with
           | Some tx => data ← read_buf tx len; ret (digest data)
           | None => ret 0
           end;
    match rx with
    | Some rx => write_buf rx (rand_buf (R:=R) len seed)
    | None => ret tt
    end.

(** Reading through the [priv] pointer. *)
Definition load_priv (p : option ptr) : C spi_priv :=
  match p with Some p => load privs p | None => stop NullDeref end.

Definition spi_req_exec_xfer (dev : ptr) (p : option ptr) : C unit :=
  a ← load_priv p;
  match a with
  | XferArgs tx rx len => do_xfer dev tx rx len
  | DelayArg _ => stop OutOfBounds
  end.

Definition trusty_nanosleep (ns : Z) : C unit := mod_loc (with_slept (cons ns)).
Definition spi_req_exec_delay (p : option ptr) : C unit :=
  a ← load_priv p;
  match a with
  | DelayArg ns => trusty_nanosleep ns
  | XferArgs _ _ _ => stop OutOfBounds
  end.

(** [dev->cmds[i].exec(dev, priv)]. *)
Definition run_entry (dev : ptr) (e : spi_seq_entry) : C unit :=
  match exec e with
  | None => stop NullDeref
  | Some ExecSetClk => ret tt
  | Some ExecCsAssert => spi_req_exec_cs_assert dev
  | Some ExecCsDeassert => spi_req_exec_cs_deassert dev
  | Some ExecXfer => spi_req_exec_xfer dev (priv e)
  | Some ExecDelay => spi_req_exec_delay (priv e)
  end.

(** * 3. Requests *)

(** [dev->cmds[i]]. *)
Definition entry_at (dev : ptr) (i : Z) : C spi_seq_entry :=
  d ← load devs dev;
  match cmds d with None => stop NullDeref | Some l => fetch l i end.

(** Fills [dev->cmds[dev->curr_cmd]] and advances. *)
Definition put_cmd (dev : ptr) (f : spi_exec) (p : option ptr) : C unit :=
  d ← load devs dev;
  e ← entry_at dev (curr_cmd d);
  let e' := SeqEntry (Some f) (match p with Some _ => p | None => priv e end) in
  mod_loc (with_devs <[dev := with_seq (insert (Z.to_nat (curr_cmd d)) e' <$> cmds d)
                                (num_cmds d) (u64 (curr_cmd d + 1)) d]>).

(** The asserts at the start of a request. *)
Definition check_room (dev : ptr) : C unit :=
  d ← load devs dev;
  assert (seq_active d);;
  assert (curr_cmd d <? num_cmds d).

Definition spi_req_set_clk (dev : ptr) : C Z :=
  put_cmd dev ExecSetClk None;; ret NO_ERROR.

Definition spi_req_cs_assert (dev : ptr) : C Z :=
  check_room dev;; put_cmd dev ExecCsAssert None;; ret NO_ERROR.

Definition spi_req_cs_deassert (dev : ptr) : C Z :=
  check_room dev;; put_cmd dev ExecCsDeassert None;; ret NO_ERROR.

(** [malloc] of the arguments. *)
Definition new_priv (a : spi_priv) : C ptr :=
  p ← get_loc (λ l, new_ptr (privs l));
  mod_loc (with_privs <[p := a]>);;
  ret p.

Definition spi_req_xfer (dev : ptr) (tx rx : option ptr) (len : Z) : C Z :=
  check_room dev;;
  ok ← alloc_ok;
  if negb ok then ret ERR_NO_MEMORY else
  p ← new_priv (XferArgs tx rx len);
  put_cmd dev ExecXfer (Some p);;
  ret NO_ERROR.

Definition spi_req_delay (dev : ptr) (delay_ns : Z) : C Z :=
  ok ← alloc_ok;
  if negb ok then ret ERR_NO_MEMORY else
  p ← new_priv (DelayArg delay_ns);
  put_cmd dev ExecDelay (Some p);;
  ret NO_ERROR.

(** * 4. Sequences *)

Definition spi_seq_begin (dev : ptr) (n : Z) : C Z :=
  active ← spi_dev_seq_active dev;
  assert (negb active);;
  ok ← alloc_ok;
  if negb ok then ret ERR_NO_MEMORY else
  d ← load devs dev;
  mod_loc (with_devs <[dev := with_seq (Some (replicate (Z.to_nat n) (SeqEntry None None)))
                                n (curr_cmd d) d]>);;
  ret NO_ERROR.

(** [free]: the object must be live. *)
Definition free_priv (p : ptr) : C unit :=
  load privs p;; mod_loc (with_privs (delete p)).

Definition free_entry (dev : ptr) (_ : unit) (i : Z) : C unit :=
  e ← entry_at dev i;
  match priv e with Some p => free_priv p | None => ret tt end.

Definition spi_seq_free (dev : ptr) : C unit :=
  d ← load devs dev;
  foldM (free_entry dev) tt (seqZ 0 (num_cmds d));;
  d ← load devs dev;
  mod_loc (with_devs <[dev := with_seq None 0 0 d]>).

Definition commit_entry (dev : ptr) (_ : unit) (i : Z) : C unit :=
  e ← entry_at dev i; run_entry dev e.

Definition spi_seq_commit (dev : ptr) : C Z :=
  d ← load devs dev;
  assert (seq_active d);;
  assert (curr_cmd d =? num_cmds d);;
  foldM (commit_entry dev) tt (seqZ 0 (num_cmds d));;
  spi_seq_free dev;;
  ret NO_ERROR.

Definition spi_seq_abort (dev : ptr) : C unit :=
  active ← spi_dev_seq_active dev;
  assert active;;
  spi_seq_free dev.
End Driver.

(** * 5. The server *)

(** swspi-srv.c: the first bus pretends to be shared; the loopback device is
    built in under WITH_SW_SPI_LOOPBACK. *)
Definition test_bus : ptr := 1%positive.
Definition loopback_bus : ptr := 2%positive.
Definition test_dev : ptr := 3%positive.
Definition loopback_dev : ptr := 4%positive.

Definition swspi_init (with_loopback : bool) : spi_state :=
  let devs := {[test_dev := SpiDev test_bus None 0 0 false]} in
  let buses := {[test_bus := SpiBus None 2]} in
  if with_loopback
  then SpiState (<[loopback_dev := SpiDev loopback_bus None 0 0 true]> devs)
         (<[loopback_bus := SpiBus None 1]> buses) ∅ ∅ []
  else SpiState devs buses ∅ ∅ [].

(** * 6. What a sequence does *)

Inductive spi_cmd :=
| SetClk
| CsAssert
| CsDeassert
| Xfer (tx rx : option ptr) (len : Z)
| Delay (delay_ns : Z).

Section Protocol.
Context {R W : Type} `{!Uapi} `{!Rand R} `{!Kernel W}.
Abbreviation C := (M (world spi_state unit W)).

(** The effect of a command when it is executed at once. *)
Definition exec_cmd (dev : ptr) (c : spi_cmd) : C unit :=
  match c with
  | SetClk => ret tt
  | CsAssert => spi_req_exec_cs_assert dev
  | CsDeassert => spi_req_exec_cs_deassert dev
  | Xfer tx rx len => do_xfer (R:=R) dev tx rx len
  | Delay ns => trusty_nanosleep ns
  end.
Definition exec_cmds (dev : ptr) (cs : list spi_cmd) : C unit :=
  foldM (λ _ c, exec_cmd dev c) tt cs.

(** The request of a command. *)
Definition request (dev : ptr) (c : spi_cmd) : C Z :=
  match c with
  | SetClk => spi_req_set_clk dev
  | CsAssert => spi_req_cs_assert dev
  | CsDeassert => spi_req_cs_deassert dev
  | Xfer tx rx len => spi_req_xfer dev tx rx len
  | Delay ns => spi_req_delay dev ns
  end.
Fixpoint requests (dev : ptr) (cs : list spi_cmd) : C Z :=
  match cs with
  | [] => ret NO_ERROR
  | c :: cs => rc ← request dev c;
      if negb (rc =? NO_ERROR) then ret rc else requests dev cs
  end.

(** The driver's protocol: begin a sequence, make the requests, commit it, or
    abort it after an error. *)
Definition batch (dev : ptr) (cs : list spi_cmd) : C Z :=
  rc ← spi_seq_begin dev (Z.of_nat (length cs));
  if negb (rc =? NO_ERROR) then ret rc else
  rc ← requests dev cs;
  if negb (rc =? NO_ERROR) then spi_seq_abort dev;; ret rc
  else spi_seq_commit (R:=R) dev.
End Protocol.
