(* ===== verification/SwspiCorrect.v ===== *)
(** The correctness of the software SPI driver of Swspi.v. *)

From S2P Require Import Prelude Ipc Swspi.

(** * 1. Queued sequences *)

(** The entry that requesting [c] leaves. *)
Definition entry_for (m : gmap ptr spi_priv) (e : spi_seq_entry) (c : spi_cmd) : Prop :=
  match c with
  | SetClk => e = SeqEntry (Some ExecSetClk) None
  | CsAssert => e = SeqEntry (Some ExecCsAssert) None
  | CsDeassert => e = SeqEntry (Some ExecCsDeassert) None
  | Xfer tx rx len => ∃ p, e = SeqEntry (Some ExecXfer) (Some p) ∧
      m !! p = Some (XferArgs tx rx len)
  | Delay ns => ∃ p, e = SeqEntry (Some ExecDelay) (Some p) ∧ m !! p = Some (DelayArg ns)
  end.

(** The arguments of the entries [es] are the objects of [m] that are not in
    [base], each belonging to one entry. *)
Record queue_ok (base m : gmap ptr spi_priv) (es : list spi_seq_entry) (cs : list spi_cmd) :
    Prop := {
  qu_entries : Forall2 (entry_for m) es cs;
  qu_nodup : NoDup (omap priv es);
  qu_new p : p ∈ omap priv es → base !! p = None ∧ is_Some (m !! p);
  qu_old p : p ∉ omap priv es → m !! p = base !! p
}.

Lemma queue_ok_nil base : queue_ok base base [] [].
Proof. split; [done|constructor|by intros p ?%elem_of_nil|done]. Qed.

(** A request without arguments, and one with. *)
Lemma queue_ok_plain base m es cs f c :
  queue_ok base m es cs → entry_for m (SeqEntry (Some f) None) c →
  queue_ok base m (es ++ [SeqEntry (Some f) None]) (cs ++ [c]).
Proof.
  intros [] Hc. assert (omap priv (es ++ [SeqEntry (Some f) None]) = omap priv es) as E
    by (rewrite omap_app; cbn; apply app_nil_r).
  split; rewrite ?E; try done. by apply Forall2_app; [|constructor].
Qed.

Lemma entry_for_insert m p a e c :
  m !! p = None → entry_for m e c → entry_for (<[p := a]> m) e c.
Proof.
  intros Hp. destruct c; cbn; auto; intros (q & He & Hq); exists q; (split; [done|]);
    by rewrite lookup_insert_ne by congruence.
Qed.

Lemma queue_ok_alloc base m es cs f c p a :
  queue_ok base m es cs → m !! p = None →
  entry_for (<[p := a]> m) (SeqEntry (Some f) (Some p)) c →
  queue_ok base (<[p := a]> m) (es ++ [SeqEntry (Some f) (Some p)]) (cs ++ [c]).
Proof.
  intros Hq Hp Hc. destruct Hq as [He Hnd Hnew Hold].
  assert (omap priv (es ++ [SeqEntry (Some f) (Some p)]) = omap priv es ++ [p]) as E
    by by rewrite omap_app.
  assert (p ∉ omap priv es) as Hnotin.
  { intros Hin. destruct (Hnew _ Hin) as [_ [x Hx]]. by rewrite Hp in Hx. }
  split; rewrite ?E.
  - apply Forall2_app; [|by constructor]. eapply Forall2_impl; [exact He|].
    intros e c'. by apply entry_for_insert.
  - apply NoDup_app. split_and!; [done|by intros q Hq ->%list_elem_of_singleton|apply NoDup_singleton].
  - intros q [Hq| ->%list_elem_of_singleton]%elem_of_app.
    + destruct (Hnew _ Hq) as [Hb [x Hx]]. split; [done|].
      rewrite lookup_insert_ne by congruence. by exists x.
    + rewrite lookup_insert_eq. split; [|by eexists]. by rewrite <- (Hold p).
  - intros q [Hq Hne]%not_elem_of_app. rewrite lookup_insert_ne; [by apply Hold|].
    intros ->. apply Hne. by apply list_elem_of_singleton.
Qed.

Section Queue.
Context {R W : Type} `{!Uapi} `{!Rand R} `{!Kernel W}.
Implicit Types (w : world spi_state unit W) (l base : spi_state) (dev : ptr) (d : spi_dev_ctx).

(** The device's sequence of [n] entries, the first of which are [es]. *)
Definition filled (n : nat) (es : list spi_seq_entry) d : spi_dev_ctx :=
  with_seq (Some (es ++ replicate (n - length es) (SeqEntry None None))) (Z.of_nat n)
    (Z.of_nat (length es)) d.

(** While a sequence is made, only the device's sequence and the arguments
    differ from the state [base] before it. *)
Record queued dev d base n es cs l : Prop := {
  qd_dev : devs base !! dev = Some d;
  qd_devs : devs l = <[dev := filled n es d]> (devs base);
  qd_rest : buses l = buses base ∧ bufs l = bufs base ∧ slept l = slept base;
  qd_queue : queue_ok (privs base) (privs l) es cs;
  qd_len : (length es ≤ n)%nat ∧ Z.of_nat n < 2 ^ 64
}.

Lemma queued_lookup dev d base n es cs l :
  queued dev d base n es cs l → devs l !! dev = Some (filled n es d).
Proof. intros []. by rewrite qd_devs0, lookup_insert_eq. Qed.

Lemma filled_entry n es i :
  (length es ≤ i < n)%nat →
  (es ++ replicate (n - length es) (SeqEntry None None)) !! i = Some (SeqEntry None None).
Proof. intros Hi. rewrite lookup_app_r by lia. apply lookup_replicate_2. lia. Qed.

Lemma insert_filled n es e :
  (length es < n)%nat →
  insert (length es) e (es ++ replicate (n - length es) (SeqEntry None None)) =
  (es ++ [e]) ++ replicate (n - length (es ++ [e])) (SeqEntry None None).
Proof.
  intros Hn. rewrite insert_app_r_alt, Nat.sub_diag by lia.
  replace (n - length es)%nat with (S (n - length (es ++ [e]))) by (rewrite length_app; cbn; lia).
  cbn. by rewrite <- app_assoc.
Qed.

(** [put_cmd] on a sequence with room, the arguments being in place. *)
Lemma put_cmd_spec dev d base n es cs c f p m l0 (Q : unit → world spi_state unit W → Prop) w :
  queued dev d base n es cs l0 → loc w = with_privs (λ _, m) l0 → (length es < n)%nat →
  queue_ok (privs base) m (es ++ [SeqEntry (Some f) p]) (cs ++ [c]) →
  (∀ l, queued dev d base n (es ++ [SeqEntry (Some f) p]) (cs ++ [c]) l →
     Q tt (set_loc l w)) →
  wp (put_cmd dev f p) Q w.
Proof.
  intros Hq Hl Hlt Hok HQ. pose proof (queued_lookup _ _ _ _ _ _ _ Hq) as Hd.
  destruct Hq as [Hdev Hdevs Hrest _ [_ Hn]].
  assert (devs (loc w) !! dev = Some (filled n es d)) as Hd' by (by rewrite Hl).
  clear Hd. rename Hd' into Hd.
  unfold put_cmd, entry_at. apply wp_bind. eapply wp_load; [exact Hd|]. apply wp_bind, wp_bind.
  eapply wp_load; [exact Hd|]. cbn [cmds curr_cmd num_cmds filled with_seq].
  eapply wp_fetch; [lia|rewrite Nat2Z.id; apply filled_entry; lia|]. cbn [priv].
  apply wp_mod_loc, HQ. rewrite Nat2Z.id, u64_small by lia.
  assert (match p with Some _ => p | None => None end = p) as -> by by destruct p.
  split; try done.
  - cbn [devs with_devs]. rewrite Hl. cbn [devs with_privs]. rewrite Hdevs, insert_insert_eq. f_equal. unfold filled, with_seq.
    cbn [bus loopback fmap option_fmap option_map]. rewrite insert_filled by lia.
    rewrite length_app. cbn. do 2 f_equal. lia.
  - by rewrite Hl.
  - by rewrite Hl.
  - rewrite length_app. cbn. lia.
Qed.

Lemma with_privs_same l : l = with_privs (λ _, privs l) l.
Proof. by destruct l. Qed.

(** A request adds its command, or fails for want of memory and adds nothing. *)
Definition requested dev d base n es cs c (rc : Z) w' : Prop :=
  (rc = NO_ERROR ∧ ∃ e, queued dev d base n (es ++ [e]) (cs ++ [c]) (loc w')) ∨
  (rc = ERR_NO_MEMORY ∧ queued dev d base n es cs (loc w')).

Lemma request_spec dev d base n es cs c w :
  queued dev d base n es cs (loc w) → (length es < n)%nat →
  wp (request dev c) (requested dev d base n es cs c) w.
Proof.
  intros Hq Hlt. pose proof (queued_lookup _ _ _ _ _ _ _ Hq) as Hd.
  assert (∀ (k : M (world spi_state unit W) Z), wp k (requested dev d base n es cs c) w →
    wp (check_room dev;; k) (requested dev d base n es cs c) w) as Hroom.
  { intros k Hk. apply wp_bind. unfold check_room. apply wp_bind. eapply wp_load; [exact Hd|].
    apply wp_bind, wp_assert; [done|]. apply wp_assert; [cbn; lia|exact Hk]. }
  assert (∀ f, entry_for (privs (loc w)) (SeqEntry (Some f) None) c →
    wp (put_cmd dev f None;; ret NO_ERROR) (requested dev d base n es cs c) w) as Hplain.
  { intros f Hf. apply wp_bind. eapply put_cmd_spec; [exact Hq|apply with_privs_same|done| |].
    - apply queue_ok_plain; [by eapply qd_queue|exact Hf].
    - intros l Hl. apply wp_ret. left. split; [done|]. by eexists. }
  assert (∀ f a, (∀ p, entry_for (<[p := a]> (privs (loc w))) (SeqEntry (Some f) (Some p)) c) →
    wp (ok ← alloc_ok; if negb ok then ret ERR_NO_MEMORY else
        p ← new_priv a; put_cmd dev f (Some p);; ret NO_ERROR)
      (requested dev d base n es cs c) w) as Halloc.
  { intros f a Hf. apply wp_bind. unfold alloc_ok. ipc_call ok v E. destruct ok; cbn [negb].
    2: { apply wp_ret. right. by split. }
    unfold new_priv. ipc_steps. set (p := new_ptr (privs (loc w))).
    eapply (put_cmd_spec dev d base n es cs c f (Some p) (<[p := a]> (privs (loc w))) (loc w));
      [exact Hq|done|done| |].
    - apply queue_ok_alloc; [by eapply qd_queue|apply new_ptr_fresh|apply Hf].
    - intros l Hl. ipc_steps. left. split; [done|]. by eexists. }
  destruct c; cbn [request].
  - by apply Hplain.
  - by apply Hroom, Hplain.
  - by apply Hroom, Hplain.
  - apply Hroom, Halloc. intros p. exists p. by rewrite lookup_insert_eq.
  - apply Halloc. intros p. exists p. by rewrite lookup_insert_eq.
Qed.

Lemma requests_spec dev d base n cs' es cs w :
  queued dev d base n es cs (loc w) → (length es + length cs' ≤ n)%nat →
  wp (requests dev cs') (λ rc w', ∃ es' cs2, queued dev d base n es' cs2 (loc w') ∧
    ((rc = NO_ERROR ∧ cs2 = cs ++ cs') ∨ rc = ERR_NO_MEMORY)) w.
Proof.
  revert es cs w. induction cs' as [|c cs' IH]; intros es cs w Hq Hn.
  { apply wp_ret. exists es, cs. split; [done|]. left. by rewrite app_nil_r. }
  pose proof no_error_zero. pose proof err_no_memory_neg. cbn in Hn. cbn [requests].
  apply wp_bind. eapply wp_mono; [apply (request_spec dev d base n es cs c); [done|lia]|].
  intros rc w1 [[-> [e Hq1]]|[-> Hq1]].
  - rewrite Z.eqb_refl. cbn [negb]. eapply wp_mono; [eapply IH; [exact Hq1|]|].
    + rewrite length_app. cbn. lia.
    + intros rc w2 (es' & cs2 & Hq2 & Hrc). exists es', cs2. split; [done|].
      by rewrite <- app_assoc in Hrc.
  - wp_cases Hz; [|lia]. apply wp_ret. exists es, cs. split; [done|]. by right.
Qed.
End Queue.

(** * 2. Freeing and executing *)

Section Run.
Context {R W : Type} `{!Uapi} `{!Rand R} `{!Kernel W}.
Implicit Types (w : world spi_state unit W) (l base : spi_state) (dev : ptr) (d : spi_dev_ctx).

Lemma wp_entry_at dev d L i e (Q : spi_seq_entry → world spi_state unit W → Prop) w :
  devs (loc w) !! dev = Some d → cmds d = Some L → 0 ≤ i → L !! Z.to_nat i = Some e →
  Q e w → wp (entry_at dev i) Q w.
Proof.
  intros Hd HL Hi He HQ. unfold entry_at. apply wp_bind. eapply wp_load; [exact Hd|].
  rewrite HL. by eapply wp_fetch.
Qed.

(** Freeing the arguments of the entries from a position on. *)
Lemma free_loop dev d pre suf w :
  devs (loc w) !! dev = Some d → cmds d = Some (pre ++ suf) → NoDup (omap priv suf) →
  (∀ p, p ∈ omap priv suf → is_Some (privs (loc w) !! p)) →
  wp (foldM (free_entry dev) tt (seqZ (Z.of_nat (length pre)) (Z.of_nat (length suf))))
    (λ _ w', ∃ m, loc w' = with_privs (λ _, m) (loc w) ∧
       ∀ q, m !! q = if decide (q ∈ omap priv suf) then None else privs (loc w) !! q) w.
Proof.
  revert pre w. induction suf as [|e suf IH]; intros pre w Hd HL Hnd Hlive.
  { apply wp_ret. exists (privs (loc w)). split; [by destruct (loc w)|]. intros q. cbn.
    by destruct (decide (q ∈ [])) as [?%elem_of_nil|]. }
  rewrite seqZ_cons by (cbn; lia). cbn [foldM]. apply wp_bind. unfold free_entry at 1.
  apply wp_bind. eapply (wp_entry_at _ _ _ _ e); [exact Hd|exact HL|lia| |].
  { rewrite Nat2Z.id, lookup_app_r, Nat.sub_diag by lia. done. }
  assert (Z.succ (Z.of_nat (length pre)) = Z.of_nat (length (pre ++ [e]))) as Hs
    by (rewrite length_app; cbn; lia).
  assert (Z.pred (Z.of_nat (length (e :: suf))) = Z.of_nat (length suf)) as Hp by (cbn; lia).
  rewrite Hs, Hp. assert (pre ++ e :: suf = (pre ++ [e]) ++ suf) as HL' by by rewrite <- app_assoc.
  rewrite HL' in HL. cbn [omap list_omap] in *. destruct (priv e) as [p|] eqn:Hpe.
  - apply NoDup_cons in Hnd as [Hnotin Hnd]. destruct (Hlive p) as [a Ha]; [by left|].
    unfold free_priv. apply wp_bind. eapply wp_load; [exact Ha|]. apply wp_mod_loc.
    eapply wp_mono; [eapply (IH (pre ++ [e])); [exact Hd|exact HL|exact Hnd|]|].
    + intros q Hq. cbn. rewrite lookup_delete_ne by (intros ->; done). apply Hlive. by right.
    + intros _ w' (m & Hl & Hm). exists m. split; [by rewrite Hl|]. intros q. rewrite Hm. cbn.
      destruct (decide (q ∈ omap priv suf)) as [Hq|Hq].
      * by rewrite decide_True by by right.
      * destruct (decide (q = p)) as [->|Hne].
        -- rewrite lookup_delete_eq, decide_True by by left. done.
        -- rewrite lookup_delete_ne by done. rewrite decide_False; [done|].
           by intros [?|?]%elem_of_cons.
  - apply wp_ret. by eapply (IH (pre ++ [e])).
Qed.

(** A device without a sequence. *)
Definition idle d : Prop := d = with_seq None 0 0 d.

Lemma seq_free_spec dev d base n es cs w :
  idle d → queued dev d base n es cs (loc w) →
  wp (spi_seq_free dev) (λ _ w', loc w' = base) w.
Proof.
  intros Hidle Hq. pose proof (queued_lookup _ _ _ _ _ _ _ Hq) as Hd.
  destruct Hq as [Hdev Hdevs (Hb & Hf & Hs) [_ Hnd Hnew Hold] [Hn _]].
  set (L := es ++ replicate (n - length es) (SeqEntry None None)).
  assert (omap priv L = omap priv es) as HoL.
  { unfold L. rewrite omap_app. replace (omap priv (replicate _ _)) with (@nil ptr);
      [by rewrite app_nil_r|]. by induction (n - length es)%nat. }
  assert (length L = n) as HlL by (unfold L; rewrite length_app, length_replicate; lia).
  unfold spi_seq_free. apply wp_bind. eapply wp_load; [exact Hd|]. apply wp_bind.
  cbn [num_cmds filled with_seq]. rewrite <- HlL.
  eapply wp_mono; [apply (free_loop dev (filled n es d) [] L); [exact Hd|done|by rewrite HoL|]|].
  { intros p Hp. rewrite HoL in Hp. by apply Hnew. }
  intros _ w' (m & Hl & Hm). rewrite HoL in Hm. apply wp_bind.
  eapply wp_load; [rewrite Hl; exact Hd|]. apply wp_mod_loc.
  assert (m = privs base) as ->.
  { apply map_eq. intros q. rewrite Hm. destruct (decide (q ∈ omap priv es)) as [Hq|Hq];
      [by destruct (Hnew q Hq)|by apply Hold]. }
  cbn [loc set_loc]. rewrite Hl. unfold with_devs, with_privs. cbn [devs buses privs bufs slept].
  rewrite Hdevs, insert_insert_eq, Hb, Hf, Hs.
  change (with_seq None 0 0 (filled n es d)) with (with_seq None 0 0 d).
  rewrite <- Hidle, insert_id by done. by destruct base.
Qed.

(** The part of the state that executing a command changes. *)
Definition updated (b : gmap ptr spi_bus_ctx) (f : gmap ptr bytes) (s : list Z) l : spi_state :=
  SpiState (devs l) b (privs l) f s.

(** Two states that show an executed command the same. *)
Definition alike dev l0 l : Prop :=
  (∃ d0 d, devs l0 !! dev = Some d0 ∧ devs l !! dev = Some d ∧ bus d0 = bus d ∧
     loopback d0 = loopback d) ∧
  buses l0 = buses l ∧ bufs l0 = bufs l ∧ slept l0 = slept l.

(** Run in two such states, [m] does the same. *)
Definition parallel {A} dev (m : M (world spi_state unit W) A) : Prop := ∀ w0 w,
  alike dev (loc w0) (loc w) →
  match m w0, m w with
  | Ret a0 w0', Ret a w' => a0 = a ∧ ∃ b f s,
      loc w0' = updated b f s (loc w0) ∧ loc w' = updated b f s (loc w)
  | Halt h0 _, Halt h _ => h0 = h
  | _, _ => False
  end.

Lemma alike_updated dev b f s l0 l :
  alike dev l0 l → alike dev (updated b f s l0) (updated b f s l).
Proof. intros [Hd _]. by split. Qed.

Lemma updated_same l : l = updated (buses l) (bufs l) (slept l) l.
Proof. by destruct l. Qed.

Lemma parallel_ret {A} dev (a : A) : parallel dev (ret a).
Proof.
  intros w0 w (_ & Hb & Hf & Hs). split; [done|]. exists (buses (loc w)), (bufs (loc w)), (slept (loc w)).
  split; [|apply updated_same]. rewrite <- Hb, <- Hf, <- Hs. apply updated_same.
Qed.

Lemma parallel_stop {A} dev h : parallel dev (stop h : M (world spi_state unit W) A).
Proof. by intros w0 w _. Qed.

Lemma parallel_bind {A B} dev (m : M (world spi_state unit W) A) (k : A → M _ B) :
  parallel dev m → (∀ a, parallel dev (k a)) → parallel dev (bind m k).
Proof.
  intros Hm Hk w0 w Hal. unfold bind. specialize (Hm w0 w Hal).
  destruct (m w0) as [a0 w0'|], (m w) as [a w'|]; try done.
  destruct Hm as (-> & b & f & s & E0 & E).
  specialize (Hk a w0' w'). rewrite E0, E in Hk. specialize (Hk (alike_updated _ _ _ _ _ _ Hal)).
  destruct (k a w0') as [c0 w0''|], (k a w') as [c w''|]; done.
Qed.

Lemma parallel_if {A} dev (b : bool) (m1 m2 : M (world spi_state unit W) A) :
  parallel dev m1 → parallel dev m2 → parallel dev (if b then m1 else m2).
Proof. by destruct b. Qed.

Lemma parallel_assert dev (b : bool) : parallel dev (assert (S:=world spi_state unit W) b).
Proof. destruct b; [apply parallel_ret|apply parallel_stop]. Qed.

(** Reading a field of the state that both show. *)
Lemma parallel_load {V} dev (f : spi_state → gmap ptr V) p :
  (∀ l0 l, alike dev l0 l → f l0 = f l) →
  parallel dev (load (L:=spi_state) (D:=unit) (W:=W) f p).
Proof.
  intros Hf w0 w Hal. unfold load, bind, get_loc, gets. cbn. rewrite (Hf _ _ Hal).
  destruct (f (loc w) !! p) as [v|]; [exact (parallel_ret dev v w0 w Hal)|done].
Qed.

Lemma parallel_load_dev {A} dev (k : spi_dev_ctx → M (world spi_state unit W) A) :
  (∀ d0 d, bus d0 = bus d → loopback d0 = loopback d → k d0 = k d) →
  (∀ d, parallel dev (k d)) → parallel dev (d ← load devs dev; k d).
Proof.
  intros Hsame Hk w0 w Hal. pose proof Hal as ((d0 & d & Hd0 & Hd & Hb & Hl) & _).
  rewrite !(bind_run _ _ _ _ _ (load_ok _ _ _ _ Hd0)), !(bind_run _ _ _ _ _ (load_ok _ _ _ _ Hd)).
  rewrite (Hsame _ _ Hb Hl). by apply Hk.
Qed.

(** A write to buses, buffers or sleeps. *)
Lemma parallel_write dev (g : spi_state → spi_state) :
  (∀ l0 l, alike dev l0 l → ∃ b f s, g l0 = updated b f s l0 ∧ g l = updated b f s l) →
  parallel dev (mod_loc (L:=spi_state) (D:=unit) (W:=W) g).
Proof. intros Hg w0 w Hal. split; [done|]. by apply Hg. Qed.

Lemma alike_fields dev l0 l :
  alike dev l0 l → buses l0 = buses l ∧ bufs l0 = bufs l ∧ slept l0 = slept l.
Proof. by intros [_ ?]. Qed.

Lemma parallel_bufs dev g : parallel dev (mod_loc (with_bufs g)).
Proof.
  apply parallel_write. intros l0 l (Hb & Hf & Hs)%alike_fields.
  exists (buses l), (g (bufs l)), (slept l). split; [|by destruct l].
  unfold with_bufs, updated. by rewrite Hb, Hf, Hs.
Qed.

Lemma parallel_buses dev g : parallel dev (mod_loc (with_buses g)).
Proof.
  apply parallel_write. intros l0 l (Hb & Hf & Hs)%alike_fields.
  exists (g (buses l)), (bufs l), (slept l). split; [|by destruct l].
  unfold with_buses, updated. by rewrite Hb, Hf, Hs.
Qed.

Lemma parallel_slept dev g : parallel dev (mod_loc (with_slept g)).
Proof.
  apply parallel_write. intros l0 l (Hb & Hf & Hs)%alike_fields.
  exists (buses l), (bufs l), (g (slept l)). split; [|by destruct l].
  unfold with_slept, updated. by rewrite Hb, Hf, Hs.
Qed.

Lemma parallel_read_buf dev p n : parallel dev (read_buf p n).
Proof.
  apply parallel_bind; [apply parallel_load; by intros ?? (_ & ? & _)%alike_fields|].
  intros bs. apply parallel_if; [apply parallel_ret|apply parallel_stop].
Qed.

Lemma parallel_write_buf dev p data : parallel dev (write_buf p data).
Proof.
  apply parallel_bind; [apply parallel_load; by intros ?? (_ & ? & _)%alike_fields|].
  intros bs. apply parallel_if; [apply parallel_bufs|apply parallel_stop].
Qed.

Lemma exec_cmd_parallel dev c : parallel dev (exec_cmd (R:=R) dev c).
Proof.
  assert (∀ b, parallel dev (load (L:=spi_state) (D:=unit) (W:=W) buses b)) as Hbus
    by (intros b; apply parallel_load; by intros ?? (? & _)%alike_fields).
  destruct c as [| | |tx rx len|ns]; cbn [exec_cmd].
  - apply parallel_ret.
  - apply parallel_load_dev; [by intros d0 d -> _|]. intros d. apply parallel_bind; [apply Hbus|].
    intros b. apply parallel_bind; [apply parallel_assert|]. intros _. apply parallel_buses.
  - apply parallel_load_dev; [by intros d0 d -> _|]. intros d. apply parallel_bind; [apply Hbus|].
    intros b. apply parallel_bind; [apply parallel_assert|]. intros _. apply parallel_buses.
  - apply parallel_load_dev; [by intros d0 d _ ->|]. intros d. apply parallel_if.
    + destruct rx as [rx|]; [|apply parallel_ret]. destruct tx as [tx|]; [|apply parallel_write_buf].
      apply parallel_bind; [apply parallel_read_buf|]. intros data. apply parallel_write_buf.
    + apply parallel_bind.
      * destruct tx as [tx|]; [|apply parallel_ret].
        apply parallel_bind; [apply parallel_read_buf|]. intros data. apply parallel_ret.
      * intros seed. destruct rx as [rx|]; [apply parallel_write_buf|apply parallel_ret].
  - apply parallel_slept.
Qed.

(** Executing the entry of a command executes the command. *)
Lemma run_entry_cmd dev e c w :
  entry_for (privs (loc w)) e c → run_entry (R:=R) dev e w = exec_cmd (R:=R) dev c w.
Proof.
  destruct c; cbn [entry_for]; try (by intros ->).
  - intros (p & -> & Hp). cbn. unfold spi_req_exec_xfer. cbn [load_priv priv].
    by rewrite (bind_run _ _ _ _ _ (load_ok _ _ _ _ Hp)).
  - intros (p & -> & Hp). cbn. unfold spi_req_exec_delay. cbn [load_priv priv].
    by rewrite (bind_run _ _ _ _ _ (load_ok _ _ _ _ Hp)).
Qed.

Lemma queued_alike dev d base n es cs l : queued dev d base n es cs l → alike dev base l.
Proof.
  intros Hq. pose proof (queued_lookup _ _ _ _ _ _ _ Hq) as Hd.
  destruct Hq as [Hdev _ (Hb & Hf & Hs) _ _]. split; [|done]. by exists d, (filled n es d).
Qed.

Lemma queued_updated dev d base n es cs l b f s :
  queued dev d base n es cs l →
  queued dev d (updated b f s base) n es cs (updated b f s l).
Proof. by intros []. Qed.

(** Two runs that stop in the same way, or return in such states. *)
Definition agree {A B} (P : world spi_state unit W → world spi_state unit W → Prop)
    (o0 : outcome (world spi_state unit W) A) (o : outcome (world spi_state unit W) B) : Prop :=
  match o0, o with
  | Ret _ w0, Ret _ w => P w0 w
  | Halt h0 _, Halt h _ => h0 = h
  | _, _ => False
  end.

(** Committing the entries from a position on executes the commands from
    there, one by one. *)
Lemma commit_loop dev d n es cs pre suf cpre csuf w0 w :
  es = pre ++ suf → cs = cpre ++ csuf → length pre = length cpre → n = length es →
  queued dev d (loc w0) n es cs (loc w) →
  agree (λ w0' w', queued dev d (loc w0') n es cs (loc w'))
    (foldM (λ _ c, exec_cmd (R:=R) dev c) tt csuf w0)
    (foldM (commit_entry (R:=R) dev) tt
       (seqZ (Z.of_nat (length pre)) (Z.of_nat (length suf))) w).
Proof.
  revert pre cpre csuf w0 w. induction suf as [|e suf IH]; intros pre cpre csuf w0 w Hes Hcs Hl Hn Hq.
  - assert (csuf = []) as ->; [|exact Hq].
    pose proof (Forall2_length _ _ _ (qu_entries _ _ _ _ (qd_queue _ _ _ _ _ _ _ Hq))) as Hlen.
    rewrite Hes, Hcs, !length_app in Hlen. cbn in Hlen.
    apply nil_length_inv. lia.
  - pose proof (qu_entries _ _ _ _ (qd_queue _ _ _ _ _ _ _ Hq)) as Hall.
    assert (∃ c csuf', csuf = c :: csuf' ∧ entry_for (privs (loc w)) e c) as (c & csuf' & -> & Hc).
    { rewrite Hes, Hcs in Hall. apply Forall2_app_inv in Hall as [_ Hall]; [|done].
      inversion Hall; subst. by eexists _, _. }
    pose proof (queued_lookup _ _ _ _ _ _ _ Hq) as Hd.
    rewrite seqZ_cons by (cbn; lia). cbn [foldM].
    assert (entry_at dev (Z.of_nat (length pre)) w = Ret e w) as Hat.
    { apply wp_eq. eapply wp_entry_at; [exact Hd|done|lia| |done]. cbn [cmds filled with_seq].
      rewrite Nat2Z.id, Hes, lookup_app_l by (rewrite length_app; cbn; lia).
      by rewrite lookup_app_r, Nat.sub_diag by lia. }
    assert (commit_entry (R:=R) dev tt (Z.of_nat (length pre)) w = exec_cmd dev c w) as Hcommit
      by (unfold commit_entry; by rewrite (bind_run _ _ _ _ _ Hat), (run_entry_cmd dev e c w Hc)).
    pose proof (exec_cmd_parallel dev c w0 w (queued_alike _ _ _ _ _ _ _ Hq)) as Hstep.
    destruct (exec_cmd dev c w0) as [[] w0'|] eqn:E1, (exec_cmd dev c w) as [[] w'|]; try done.
    2: { by rewrite (bind_halt _ _ _ _ _ E1), (bind_halt _ _ _ _ _ Hcommit). }
    rewrite (bind_run _ _ _ _ _ E1), (bind_run _ _ _ _ _ Hcommit).
    destruct Hstep as (_ & b & f & s & E0 & E).
    assert (Z.succ (Z.of_nat (length pre)) = Z.of_nat (length (pre ++ [e]))) as Hs
      by (rewrite length_app; cbn; lia).
    assert (Z.pred (Z.of_nat (length (e :: suf))) = Z.of_nat (length suf)) as Hp by (cbn; lia).
    rewrite Hs, Hp. apply (IH (pre ++ [e]) (cpre ++ [c]) csuf' w0' w').
    + by rewrite Hes, <- app_assoc.
    + by rewrite Hcs, <- app_assoc.
    + rewrite !length_app. cbn. lia.
    + done.
    + rewrite E0, E. by apply queued_updated.
Qed.
End Run.

(** * 3. Sequences *)

Section Sequences.
Context {R W : Type} `{!Uapi} `{!Rand R} `{!Kernel W}.
Implicit Types (w : world spi_state unit W) (l base : spi_state) (dev : ptr) (d : spi_dev_ctx).

Lemma seq_begin_spec dev d n w :
  devs (loc w) !! dev = Some d → idle d → Z.of_nat n < 2 ^ 64 →
  wp (spi_seq_begin dev (Z.of_nat n)) (λ rc w',
    (rc = NO_ERROR ∧ queued dev d (loc w) n [] [] (loc w')) ∨
    (rc = ERR_NO_MEMORY ∧ loc w' = loc w)) w.
Proof.
  intros Hd Hidle Hn. unfold spi_seq_begin, spi_dev_seq_active. apply wp_bind, wp_bind.
  eapply wp_load; [exact Hd|]. apply wp_ret, wp_bind.
  apply wp_assert; [rewrite Hidle; done|]. apply wp_bind. unfold alloc_ok. ipc_call ok v E.
  destruct ok; cbn [negb]; [|apply wp_ret; by right]. apply wp_bind. eapply wp_load; [exact Hd|].
  apply wp_bind, wp_mod_loc, wp_ret. left. split; [done|]. cbn [loc set_loc logged].
  split; try done; [|apply queue_ok_nil|split; cbn; lia].
  cbn [devs with_devs]. f_equal. unfold filled. cbn [app length]. rewrite Nat2Z.id, Nat.sub_0_r.
  by rewrite Hidle.
Qed.

Lemma abort_spec dev d base n es cs w :
  idle d → queued dev d base n es cs (loc w) →
  wp (spi_seq_abort dev) (λ _ w', loc w' = base) w.
Proof.
  intros Hidle Hq. unfold spi_seq_abort, spi_dev_seq_active. apply wp_bind, wp_bind.
  eapply wp_load; [by eapply queued_lookup|]. apply wp_ret, wp_bind, wp_assert; [done|].
  by eapply seq_free_spec.
Qed.

(** What [batch] may do, given what executing the commands at once does. *)
Definition batch_result (cs : list spi_cmd) dev w (o : outcome (world spi_state unit W) Z) : Prop :=
  match o with
  | Ret rc w1 => (rc = ERR_NO_MEMORY ∧ loc w1 = loc w) ∨
      (rc = NO_ERROR ∧ ∃ w2, exec_cmds (R:=R) dev cs w = Ret tt w2 ∧ loc w1 = loc w2)
  | Halt h _ => ∃ w2, exec_cmds (R:=R) dev cs w = Halt h w2
  end.

Lemma commit_spec dev d es cs w0 w :
  idle d → queued dev d (loc w0) (length cs) es cs (loc w) →
  batch_result cs dev w0 (spi_seq_commit (R:=R) dev w).
Proof.
  intros Hidle Hq. pose proof (queued_lookup _ _ _ _ _ _ _ Hq) as Hd.
  pose proof (Forall2_length _ _ _ (qu_entries _ _ _ _ (qd_queue _ _ _ _ _ _ _ Hq))) as Hlen.
  unfold spi_seq_commit. rewrite (bind_run _ _ _ _ _ (load_ok _ _ _ _ Hd)).
  rewrite (bind_run _ _ _ tt w) by done.
  rewrite (bind_run _ _ _ tt w)
    by (unfold assert; cbn [curr_cmd num_cmds filled with_seq]; by rewrite Hlen, Z.eqb_refl).
  pose proof (commit_loop dev d (length cs) es cs [] es [] cs w0 w eq_refl eq_refl eq_refl
    ltac:(by rewrite Hlen) Hq) as Hloop.
  cbn [num_cmds filled with_seq length] in *. rewrite Hlen in Hloop. unfold exec_cmds.
  unfold batch_result, exec_cmds.
  destruct (foldM (λ _ c, exec_cmd dev c) tt cs w0) as [[] w0'|h0 w0'];
    destruct (foldM (commit_entry dev) tt _ w) as [[] w'|h w'] eqn:E; cbn in Hloop; try done.
  - rewrite (bind_run _ _ _ _ _ E).
    pose proof (seq_free_spec dev d (loc w0') _ es cs w' Hidle Hloop) as Hfree.
    apply wp_returns in Hfree as ([] & w1 & E1 & Hl1). rewrite (bind_run _ _ _ _ _ E1).
    right. split; [done|]. by exists w0'.
  - rewrite (bind_halt _ _ _ _ _ E). subst. by exists w0'.
Qed.

Lemma batch_refines dev d cs w :
  devs (loc w) !! dev = Some d → idle d → Z.of_nat (length cs) < 2 ^ 64 →
  batch_result cs dev w (batch (R:=R) dev cs w).
Proof.
  intros Hd Hidle Hn. pose proof no_error_zero as Hz. pose proof err_no_memory_neg as Hneg.
  assert (negb (ERR_NO_MEMORY =? NO_ERROR) = true) as Hne by lia.
  unfold batch. pose proof (seq_begin_spec dev d (length cs) w Hd Hidle Hn) as Hb.
  apply wp_returns in Hb as (rc & w1 & E1 & Hb). rewrite (bind_run _ _ _ _ _ E1).
  destruct Hb as [[-> Hq]|[-> Hl]]; [|rewrite Hne; by left].
  rewrite Z.eqb_refl. cbn [negb].
  pose proof (requests_spec dev d (loc w) (length cs) cs [] [] w1 Hq ltac:(cbn; lia)) as Hr.
  apply wp_returns in Hr as (rc & w2 & E2 & es & cs2 & Hq2 & Hrc). rewrite (bind_run _ _ _ _ _ E2).
  destruct Hrc as [[-> Hcs]| ->].
  - rewrite Z.eqb_refl. cbn in Hcs |- *. subst cs2. by apply (commit_spec dev d es).
  - rewrite Hne. pose proof (abort_spec dev d (loc w) _ es cs2 w2 Hidle Hq2) as Ha.
    apply wp_returns in Ha as ([] & w3 & E3 & Hl3). rewrite (bind_run _ _ _ _ _ E3).
    left. by split.
Qed.

(** C8. A sequence does what its commands do: begun on an idle device, filled
    by any commands and committed, it leaves exactly the state that executing
    the commands one after the other leaves (the bus, the buffers, the
    delays), or stops where they stop; when memory runs out at any point it
    is aborted and leaves no trace.  Either way the device is idle again and
    every argument that was allocated has been freed. *)
Theorem spi_sequence_refines dev d cs w :
  devs (loc w) !! dev = Some d → idle d → Z.of_nat (length cs) < 2 ^ 64 →
  batch_result cs dev w (batch (R:=R) dev cs w).
Proof. apply batch_refines. Qed.
End Sequences.

(** * 4. The bus *)

(** Chip select is asserted before it is deasserted, and deasserted at the
    end. *)
Fixpoint bracketed (asserted : bool) (cs : list spi_cmd) : bool :=
  match cs with
  | [] => negb asserted
  | CsAssert :: cs => negb asserted && bracketed true cs
  | CsDeassert :: cs => asserted && bracketed false cs
  | _ :: cs => bracketed asserted cs
  end.

Definition buf_ok (sizes : ptr → option nat) (p : option ptr) (len : Z) : Prop :=
  match p with
  | Some p => ∃ n, sizes p = Some n ∧ len ≤ Z.of_nat n
  | None => True
  end.
Definition buffers_ok (sizes : ptr → option nat) (c : spi_cmd) : Prop :=
  match c with
  | Xfer tx rx len => 0 ≤ len ∧ buf_ok sizes tx len ∧ buf_ok sizes rx len
  | _ => True
  end.
Definition sizes_of (l : spi_state) (p : ptr) : option nat := length <$> bufs l !! p.

(** Between sequences every device is idle on a bus that exists, and every
    bus is free. *)
Record spi_ready (l : spi_state) : Prop := {
  rd_devs p d : devs l !! p = Some d → idle d ∧ is_Some (buses l !! bus d);
  rd_buses p b : buses l !! p = Some b → owner b = None
}.

Section Bus.
Context {R W : Type} `{!Uapi} `{!Rand R} `{!Kernel W}.
Implicit Types (w : world spi_state unit W) (l : spi_state) (dev : ptr) (d : spi_dev_ctx).

(** While [dev] executes its commands: the other buses are free, and [dev] owns
    its own when it has asserted chip select. *)
Record running dev d (asserted : bool) (l0 l : spi_state) : Prop := {
  rn_dev : devs l !! dev = Some d;
  rn_same : devs l = devs l0 ∧ privs l = privs l0 ∧ ∀ p, sizes_of l p = sizes_of l0 p;
  rn_bus : ∃ b, buses l !! bus d = Some b ∧ owner b = if asserted then Some dev else None;
  rn_rest p b : buses l !! p = Some b → p ≠ bus d → owner b = None;
  rn_dom p : is_Some (buses l0 !! p) → is_Some (buses l !! p)
}.

Lemma running_buses dev d (a a' : bool) l0 l b :
  running dev d a l0 l → owner b = (if a' then Some dev else None) →
  running dev d a' l0 (with_buses <[bus d := b]> l).
Proof.
  intros [Hd Hs Hb Hr Hdom] Ho. split; try done; cbn [buses with_buses].
  - exists b. by rewrite lookup_insert_eq.
  - intros p b' Hp Hne. rewrite lookup_insert_ne in Hp by done. by eapply Hr.
  - intros p Hp. destruct (decide (p = bus d)) as [->|].
    + by rewrite lookup_insert_eq.
    + rewrite lookup_insert_ne by done. by apply Hdom.
Qed.

Lemma running_buf dev d a l0 l p bs bs' :
  running dev d a l0 l → bufs l !! p = Some bs → length bs' = length bs →
  running dev d a l0 (with_bufs <[p := bs']> l).
Proof.
  intros [Hd (Hdv & Hp & Hs) Hb Hr Hdom] Hbs Hlen. split; try done. split_and!; try done.
  intros q. rewrite <- Hs. unfold sizes_of. cbn. destruct (decide (q = p)) as [->|].
  - rewrite lookup_insert_eq, Hbs. cbn. by rewrite Hlen.
  - by rewrite lookup_insert_ne.
Qed.

Lemma wp_read_buf dev d a l0 p n len (Q : bytes → world spi_state unit W → Prop) w :
  running dev d a l0 (loc w) → sizes_of l0 p = Some n → len ≤ Z.of_nat n → 0 ≤ len →
  (∀ bs, Z.of_nat (length bs) = len → Q bs w) → wp (read_buf p len) Q w.
Proof.
  intros Hr Hn Hle Hpos HQ. destruct (rn_same _ _ _ _ _ Hr) as (_ & _ & Hs).
  rewrite <- Hs in Hn. unfold sizes_of in Hn. destruct (bufs (loc w) !! p) as [bs|] eqn:Hp; [|done].
  cbn in Hn. simplify_eq. unfold read_buf. apply wp_bind. eapply wp_load; [exact Hp|].
  wp_cases Hc; [|lia]. apply wp_ret, HQ. rewrite length_take. lia.
Qed.

Lemma wp_write_buf dev d a l0 p n data w :
  running dev d a l0 (loc w) → sizes_of l0 p = Some n → (length data ≤ n)%nat →
  wp (write_buf p data) (λ _ w', running dev d a l0 (loc w')) w.
Proof.
  intros Hr Hn Hle. destruct (rn_same _ _ _ _ _ Hr) as (_ & _ & Hs).
  pose proof Hn as Hn'. rewrite <- Hs in Hn. unfold sizes_of in Hn.
  destruct (bufs (loc w) !! p) as [bs|] eqn:Hp; [|done]. cbn in Hn. simplify_eq.
  unfold write_buf. apply wp_bind. eapply wp_load; [exact Hp|]. wp_cases Hc; [|lia].
  apply wp_mod_loc. eapply running_buf; [done|done|]. apply length_overwrite. lia.
Qed.

Lemma length_rand_fill n (r : R) : length (rand_fill n r) = n.
Proof.
  revert r. induction n as [|n IH]; intros r; cbn; [done|]. destruct (rand r) as [z r'].
  cbn. by rewrite IH.
Qed.

(** The step of a command, from and to whether chip select is asserted. *)
Definition after_cmd (c : spi_cmd) (a : bool) : bool :=
  match c with CsAssert => true | CsDeassert => false | _ => a end.
Definition cmd_allowed (c : spi_cmd) (a : bool) : bool :=
  match c with CsAssert => negb a | CsDeassert => a | _ => true end.

Lemma bracketed_cons a c cs :
  bracketed a (c :: cs) = cmd_allowed c a && bracketed (after_cmd c a) cs.
Proof. by destruct c, a. Qed.

Lemma exec_cmd_running dev d a l0 c w :
  running dev d a l0 (loc w) → cmd_allowed c a = true → buffers_ok (sizes_of l0) c →
  wp (exec_cmd (R:=R) dev c) (λ _ w', running dev d (after_cmd c a) l0 (loc w')) w.
Proof.
  intros Hr Hc Hb. pose proof (rn_dev _ _ _ _ _ Hr) as Hd.
  destruct (rn_bus _ _ _ _ _ Hr) as (b & Hbus & Ho).
  destruct c as [| | |tx rx len|ns]; cbn [exec_cmd after_cmd cmd_allowed buffers_ok] in *.
  - by apply wp_ret.
  - apply wp_bind. eapply wp_load; [exact Hd|]. apply wp_bind. eapply wp_load; [exact Hbus|].
    apply wp_bind, wp_assert; [rewrite Ho; by destruct a|]. apply wp_mod_loc.
    by eapply running_buses.
  - apply wp_bind. eapply wp_load; [exact Hd|]. apply wp_bind. eapply wp_load; [exact Hbus|].
    apply wp_bind, wp_assert; [by rewrite Ho, Hc, bool_decide_true|]. apply wp_mod_loc.
    by eapply running_buses.
  - destruct Hb as (Hlen & Htx & Hrx). apply wp_bind. eapply wp_load; [exact Hd|].
    wp_cases Hloop.
    + destruct rx as [rx|]; [|by apply wp_ret]. destruct Hrx as (n & Hn & Hle).
      destruct tx as [tx|].
      * destruct Htx as (n' & Hn' & Hle'). apply wp_bind.
        eapply wp_read_buf; [done..|]. intros bs Hbs. eapply wp_write_buf; [done..|lia].
      * eapply wp_write_buf; [done..|]. rewrite length_replicate. lia.
    + assert (∀ seed, wp (match rx with
        | Some rx => write_buf rx (rand_buf (R:=R) len seed) | None => ret tt end)
        (λ _ w', running dev d a l0 (loc w')) w) as Hseed.
      { intros seed. destruct rx as [rx|]; [|by apply wp_ret]. destruct Hrx as (n & Hn & Hle).
        eapply wp_write_buf; [done..|]. unfold rand_buf. rewrite length_rand_fill. lia. }
      apply wp_bind. destruct tx as [tx|]; [|apply wp_ret; apply Hseed].
      destruct Htx as (n' & Hn' & Hle'). apply wp_bind. eapply wp_read_buf; [done..|].
      intros bs _. apply wp_ret, Hseed.
  - apply wp_mod_loc. by destruct Hr.
Qed.

Lemma exec_cmds_running dev d cs a l0 w :
  running dev d a l0 (loc w) → bracketed a cs = true → Forall (buffers_ok (sizes_of l0)) cs →
  wp (exec_cmds (R:=R) dev cs) (λ _ w', running dev d false l0 (loc w')) w.
Proof.
  revert a w. induction cs as [|c cs IH]; intros a w Hr Hbr Hb.
  { apply wp_ret. cbn in Hbr. by destruct a. }
  rewrite bracketed_cons in Hbr. apply andb_true_iff in Hbr as [Hc Hbr].
  apply Forall_cons in Hb as [Hbc Hb]. apply wp_bind.
  eapply wp_mono; [by eapply exec_cmd_running|]. intros [] w' Hr'. by eapply IH.
Qed.

(** C20. Sequences in which chip select is asserted and deasserted in pairs
    never trip the bus assertions, whichever devices they are for and in
    whatever order they are run: from a state with idle devices and free
    buses, with the buffers large enough, such a batch always returns, to
    such a state, with every buffer of the size it had. *)
Theorem spi_batch_safe dev cs w :
  spi_ready (loc w) → is_Some (devs (loc w) !! dev) → Z.of_nat (length cs) < 2 ^ 64 →
  bracketed false cs = true → Forall (buffers_ok (sizes_of (loc w))) cs →
  wp (batch (R:=R) dev cs) (λ rc w',
    (rc = NO_ERROR ∨ rc = ERR_NO_MEMORY) ∧ spi_ready (loc w') ∧
    devs (loc w') = devs (loc w) ∧ ∀ p, sizes_of (loc w') p = sizes_of (loc w) p) w.
Proof.
  intros Hrd [d Hd] Hn Hbr Hb. destruct (rd_devs _ Hrd _ _ Hd) as [Hidle [b Hbus]].
  assert (running dev d false (loc w) (loc w)) as Hrun.
  { split; try done; [|intros p b' Hp _; by eapply rd_buses].
    exists b. split; [done|]. by eapply rd_buses. }
  pose proof (exec_cmds_running dev d cs false (loc w) w Hrun Hbr Hb) as Hex.
  apply wp_returns in Hex as ([] & w2 & E & [Hd2 (Hdv & Hpr & Hs) Hb2 Hr2 Hdom]).
  pose proof (batch_refines (R:=R) dev d cs w Hd Hidle Hn) as Href. unfold wp, batch_result in *.
  destruct (batch dev cs w) as [rc w1|h w1]; [|by destruct Href as [? Href]; rewrite E in Href].
  destruct Href as [[-> ->]|(-> & w2' & E' & ->)]; [by split; [right|]|].
  rewrite E in E'. simplify_eq. split; [by left|]. split_and!; try done. split.
  - intros p d' Hp. rewrite Hdv in Hp. destruct (rd_devs _ Hrd _ _ Hp) as [Hi Hbd].
    split; [done|]. by apply Hdom.
  - intros p b' Hp. destruct (decide (p = bus d)) as [->|Hne]; [|by eapply Hr2].
    destruct Hb2 as (b2 & Hb2 & Ho). by rewrite Hb2 in Hp; simplify_eq.
Qed.
End Bus.

(** * 5. The digest *)

Section Digest.
#[local] Arguments digest_step : simpl never.

Definition rotr (d : Z) : Z := u8 (Z.lor (Z.shiftr d 1) (Z.shiftl (Z.land d 1) 7)).
Definition rotl (d : Z) : Z := u8 (Z.lor (Z.shiftl d 1) (Z.shiftr d 7)).

(** Checked for every byte. *)
Lemma rotl_rotr d : is_byte d → rotl (rotr d) = d.
Proof.
  intros Hd. assert (forallb (λ d, rotl (rotr d) =? d) (seqZ 0 256) = true) as Hall by by vm_compute.
  rewrite forallb_forall in Hall. apply Z.eqb_eq, Hall, list_elem_of_In, elem_of_seqZ.
  unfold is_byte in Hd. lia.
Qed.

Lemma u8_byte z : is_byte (u8 z).
Proof. unfold is_byte, u8. pose proof (Z.mod_pos_bound z (2 ^ 8) eq_refl). lia. Qed.

Lemma lxor_is_byte a b : is_byte a → is_byte b → is_byte (Z.lxor a b).
Proof.
  unfold is_byte. intros Ha Hb. split; [by apply Z.lxor_nonneg; lia|].
  destruct (Z.eq_dec (Z.lxor a b) 0) as [->|Hne]; [lia|].
  assert (0 < Z.lxor a b) by (assert (0 ≤ Z.lxor a b) by (apply Z.lxor_nonneg; lia); lia).
  apply (Z.log2_lt_pow2 _ 8); [done|]. pose proof (Z.log2_lxor a b ltac:(lia) ltac:(lia)).
  assert (∀ x, 0 ≤ x < 256 → Z.log2 x < 8) as Hlog.
  { intros x Hx. destruct (Z.eq_dec x 0) as [->|]; [done|]. apply Z.log2_lt_pow2; lia. }
  pose proof (Hlog a Ha). pose proof (Hlog b Hb). lia.
Qed.

Lemma digest_step_eq d b : is_byte d → is_byte b → digest_step d b = Z.lxor (rotr d) b.
Proof.
  intros Hd Hb. unfold digest_step. fold (rotr d).
  assert (is_byte (Z.lxor (rotr d) b)) as Hx by (apply lxor_is_byte; [apply u8_byte|done]).
  unfold is_byte in Hx. apply Z.mod_small. lia.
Qed.

Lemma digest_step_inj d d' b :
  is_byte d → is_byte d' → is_byte b → digest_step d b = digest_step d' b → d = d'.
Proof.
  intros Hd Hd' Hb. rewrite !digest_step_eq by done. intros E.
  rewrite <- (rotl_rotr d), <- (rotl_rotr d') by done. f_equal.
  apply (f_equal (Z.lxor b)) in E. rewrite !(Z.lxor_comm _ b), <- !Z.lxor_assoc in E.
  by rewrite Z.lxor_nilpotent, !Z.lxor_0_l in E.
Qed.

Lemma digest_from_inj d d' bs :
  is_byte d → is_byte d' → Forall is_byte bs →
  foldl digest_step d bs = foldl digest_step d' bs → d = d'.
Proof.
  intros Hd Hd' Hbs. revert d d' Hd Hd'. induction Hbs as [|b bs Hb _ IH]; intros d d' Hd Hd' E;
    [done|]. cbn in E. apply IH in E; [|apply u8_byte..]. exact (digest_step_inj d d' b Hd Hd' Hb E).
Qed.

Lemma digest_from_byte d bs : is_byte d → is_byte (foldl digest_step d bs).
Proof. revert d. induction bs as [|b bs IH]; intros d Hd; [done|]. apply IH, u8_byte. Qed.

(** The digest the test device answers to notices every change of a single
    byte of the data sent: it differs, and is always a byte, so it is the
    seed srand is given. *)
Theorem digest_detects (buf : bytes) (i : nat) (b c : Z) :
  Forall is_byte buf → buf !! i = Some b → is_byte c → c ≠ b →
  is_byte (digest buf) ∧ digest (<[i := c]> buf) ≠ digest buf.
Proof.
  intros Hbuf Hi Hc Hne. split; [by apply digest_from_byte|].
  rewrite (insert_take_drop _ _ _ (lookup_lt_Some _ _ _ Hi)).
  rewrite <- (take_drop_middle _ _ _ Hi) at 3. unfold digest. rewrite !foldl_app. cbn. intros E.
  set (d := foldl digest_step 0 (take i buf)) in *.
  assert (is_byte d) as Hd by by apply digest_from_byte.
  assert (is_byte b) as Hb by by eapply Forall_lookup_1.
  apply digest_from_inj in E; [|apply u8_byte..|by apply Forall_drop].
  rewrite !digest_step_eq in E by done. apply (f_equal (Z.lxor (rotr d))) in E.
  rewrite <- !Z.lxor_assoc, Z.lxor_nilpotent, !Z.lxor_0_l in E. done.
Qed.
End Digest.

(** * 6. Transfers, and requests that are not checked *)

Section Transfer.
Context {R W : Type} `{!Uapi} `{!Rand R} `{!Kernel W}.
Implicit Types (w : world spi_state unit W) (dev : ptr) (d : spi_dev_ctx).

Lemma xfer_run dev d tx rx len sent bs w :
  devs (loc w) !! dev = Some d → 0 ≤ len ≤ Z.of_nat (length bs) →
  bufs (loc w) !! rx = Some bs →
  match tx with
  | Some p => ∃ data, bufs (loc w) !! p = Some data ∧ len ≤ Z.of_nat (length data) ∧
      sent = Some (take (Z.to_nat len) data)
  | None => sent = None
  end →
  exec_cmd (R:=R) dev (Xfer tx (Some rx) len) w =
  Ret tt (set_loc (with_bufs <[rx := overwrite
    (if loopback d then default (replicate (Z.to_nat len) 0) sent
     else rand_buf (R:=R) len (from_option digest 0 sent)) bs]> (loc w)) w).
Proof.
  intros Hd [Hlen Hle] Hrx Htx. apply wp_eq. apply wp_bind. eapply wp_load; [exact Hd|].
  assert (∀ data, (length data ≤ length bs)%nat → wp (write_buf rx data) (λ a t, a = tt ∧
    t = set_loc (with_bufs <[rx := overwrite data bs]> (loc w)) w) w) as Hwrite.
  { intros data Hdata. apply wp_bind. eapply wp_load; [exact Hrx|]. wp_cases Hc; [|lia].
    by apply wp_mod_loc. }
  assert (∀ p data (Q : bytes → world spi_state unit W → Prop), bufs (loc w) !! p = Some data →
    len ≤ Z.of_nat (length data) → Q (take (Z.to_nat len) data) w → wp (read_buf p len) Q w) as Hread.
  { intros p data Q Hp Hl HQ. apply wp_bind. eapply wp_load; [exact Hp|].
    wp_cases Hc; [by apply wp_ret|lia]. }
  destruct (loopback d); destruct tx as [p|].
  - destruct Htx as (data & Hp & Hl & ->). apply wp_bind. eapply Hread; [done..|].
    apply (Hwrite (take (Z.to_nat len) data)). rewrite length_take. lia.
  - subst. apply (Hwrite (replicate (Z.to_nat len) 0)). rewrite length_replicate. lia.
  - destruct Htx as (data & Hp & Hl & ->). apply wp_bind, wp_bind. eapply Hread; [done..|].
    apply wp_ret, Hwrite. unfold rand_buf. rewrite length_rand_fill. lia.
  - subst. apply wp_bind, wp_ret, Hwrite. unfold rand_buf. rewrite length_rand_fill. lia.
Qed.

(** What a transfer delivers: the loopback device returns the bytes it is
    sent, and zeros when it is sent none; the test device returns the random
    sequence seeded with the digest of what it is sent, or with 0.  Only the
    first [len] bytes of the receive buffer change. *)
Theorem spi_xfer_delivers dev d tx rx len sent bs w :
  devs (loc w) !! dev = Some d → 0 ≤ len ≤ Z.of_nat (length bs) →
  bufs (loc w) !! rx = Some bs →
  match tx with
  | Some p => ∃ data, bufs (loc w) !! p = Some data ∧ len ≤ Z.of_nat (length data) ∧
      sent = Some (take (Z.to_nat len) data)
  | None => sent = None
  end →
  exec_cmd (R:=R) dev (Xfer tx (Some rx) len) w =
  Ret tt (set_loc (with_bufs <[rx := overwrite
    (if loopback d then default (replicate (Z.to_nat len) 0) sent
     else rand_buf (R:=R) len (from_option digest 0 sent)) bs]> (loc w)) w).
Proof. apply xfer_run. Qed.

(** [spi_req_set_clk] and [spi_req_delay] do not check, as the other requests
    do, that a sequence is active and has room: on an idle device they write
    through the null array, and on a full sequence past its end. *)
Theorem spi_req_set_clk_unchecked dev d w :
  devs (loc w) !! dev = Some d →
  (cmds d = None → spi_req_set_clk dev w = Halt NullDeref w) ∧
  (∀ l, cmds d = Some l → curr_cmd d = Z.of_nat (length l) →
   spi_req_set_clk dev w = Halt OutOfBounds w).
Proof.
  intros Hd. unfold spi_req_set_clk, put_cmd, entry_at.
  split; [intros Hc|intros l Hc Hcur]; apply bind_halt;
    rewrite (bind_run _ _ _ _ _ (load_ok _ _ _ _ Hd)); apply bind_halt;
    rewrite (bind_run _ _ _ _ _ (load_ok _ _ _ _ Hd)), Hc; [done|].
  unfold fetch. by rewrite Hcur, Nat2Z.id, lookup_ge_None_2 by lia.
Qed.
End Transfer.
