(* ===== verification/SwspiTest.v ===== *)
(** The test of the SPI driver, spi/swspi-test/swspi-test.c, over the client
    library it calls. *)

From S2P Require Import Prelude Ipc Checks Swspi SwspiCorrect.

(** * 1. The client library *)

(** The pointer variables a transfer is added with: [&tx] and [&rx], one of
    them, [&tx] twice, or none. *)
Inductive xfer_vars := TxRx | TxOnly | RxOnly | SameVar | NoVars.

Class SpiErrors := {
  ERR_BAD_HANDLE : Z;
  ERR_OUT_OF_RANGE : Z;
  ERR_TOO_BIG : Z;
  ERR_BAD_STATE : Z
}.

(** lib/spi/client: requests are added to a sequence, which [spi_exec_cmds] has
    the server execute; transfers are from and to buffers shared with the
    server.  [k_driver]: the driver at the other end; [k_added]: the requests
    added since the sequence was last emptied. *)
Class SpiClient (K W : Type) := {
  k_driver : W → world spi_state unit K;
  k_added : W → list spi_cmd;
  k_dev_open : string → Z → Z → W → Z * W;
  k_clear_cmds : W → unit * W;
  (** With a null [clk_hz], and with one that is given; what it points to. *)
  k_add_set_clk : Z → W → Z * W;
  k_add_set_clk_out : Z → W → (Z * option ptr) * W;
  k_clk_hz : ptr → W → Z;
  k_add_cs_assert : W → Z * W;
  k_add_cs_deassert : W → Z * W;
  (** [spi_add_cs_assert_cmd(NULL)]. *)
  k_add_cs_assert_null : W → Z * W;
  k_add_delay : Z → W → Z * W;
  (** The pointers the call writes to the variables for [tx] and [rx], if any. *)
  k_add_xfer : xfer_vars → Z → W → (Z * option ptr * option ptr) * W;
  (** The index it writes to [failed], if any. *)
  k_exec_cmds : W → (Z * option Z) * W;
  (** The shared buffers: [None] outside them. *)
  k_shm_read : ptr → Z → W → option bytes;
  k_shm_write : ptr → bytes → W → option W;
  (** The time [trusty_gettime] leaves in its variable. *)
  k_time : W → Z * W
}.

Section ClientLaws.
Context (R K W : Type) `{!Uapi} `{!Rand R} `{!Kernel K} `{!SpiClient K W} (dev : ptr).

(** The same buffers, of the same sizes, and the device as it was. *)
Record same_view (v v' : W) : Prop := {
  same_buffers p : sizes_of (loc (k_driver v')) p = sizes_of (loc (k_driver v)) p;
  same_device : devs (loc (k_driver v')) !! dev = devs (loc (k_driver v)) !! dev
}.

(** A request that was accepted is added, and nothing else changes. *)
Definition adds (c : spi_cmd) (v v' : W) : Prop :=
  k_added v' = k_added v ++ [c] ∧ k_driver v' = k_driver v.

(** The buffers of the requests added. *)
Definition lent (cs : list spi_cmd) : list ptr :=
  flat_map (λ c, match c with
                 | Xfer tx rx _ => option_list tx ++ option_list rx
                 | _ => []
                 end) cs.

(** A transfer that was accepted has buffers of its own. *)
Definition adds_xfer (vars : xfer_vars) (n : Z) (v : W) (tx rx : option ptr) (v' : W) : Prop :=
  match vars with
  | TxRx => ∃ t r bt br, tx = Some t ∧ rx = Some r ∧ t ≠ r ∧
      ¬ t ∈ lent (k_added v) ∧ ¬ r ∈ lent (k_added v) ∧
      Z.of_nat (length bt) = n ∧ Z.of_nat (length br) = n ∧
      k_added v' = k_added v ++ [Xfer (Some t) (Some r) n] ∧
      k_driver v' = set_loc (with_bufs (λ m, <[t := bt]> (<[r := br]> m)) (loc (k_driver v)))
                      (k_driver v)
  | RxOnly => ∃ r br, rx = Some r ∧ ¬ r ∈ lent (k_added v) ∧ Z.of_nat (length br) = n ∧
      k_added v' = k_added v ++ [Xfer None (Some r) n] ∧
      k_driver v' = set_loc (with_bufs <[r := br]> (loc (k_driver v))) (k_driver v)
  | TxOnly | SameVar | NoVars => devs (loc (k_driver v')) !! dev = devs (loc (k_driver v)) !! dev
  end.

(** What the library promises about the device [dev] that was opened; whatever
    becomes of a sequence, the device is idle after it. *)
Class SpiClientLaws : Prop := {
  dev_open_ok name n sz v rc v' : k_dev_open name n sz v = (rc, v') → same_view v v';
  clear_cmds_ok v u v' : k_clear_cmds v = (u, v') → same_view v v' ∧ k_added v' = [];
  add_set_clk_ok hz v rc v' : k_add_set_clk hz v = (rc, v') →
    same_view v v' ∧ (rc = 0 → adds SetClk v v');
  add_set_clk_out_ok hz v rc p v' : k_add_set_clk_out hz v = ((rc, p), v') →
    same_view v v' ∧ (rc = 0 → adds SetClk v v');
  add_cs_assert_ok v rc v' : k_add_cs_assert v = (rc, v') →
    same_view v v' ∧ (rc = 0 → adds CsAssert v v');
  add_cs_deassert_ok v rc v' : k_add_cs_deassert v = (rc, v') →
    same_view v v' ∧ (rc = 0 → adds CsDeassert v v');
  add_cs_assert_null_ok v rc v' : k_add_cs_assert_null v = (rc, v') → same_view v v';
  add_delay_ok ns v rc v' : k_add_delay ns v = (rc, v') →
    same_view v v' ∧ (rc = 0 → adds (Delay ns) v v');
  add_xfer_ok vars n v rc tx rx v' : 0 ≤ n → k_add_xfer vars n v = ((rc, tx, rx), v') →
    if rc =? 0 then adds_xfer vars n v tx rx v' else tx = None ∧ rx = None ∧ same_view v v';
  exec_cmds_ok v rc failed v' : k_exec_cmds v = ((rc, failed), v') →
    same_view v v' ∧
    (rc = 0 → k_added v' = [] ∧ ∃ w', batch (R:=R) dev (k_added v) (k_driver v) = Ret NO_ERROR w' ∧
                    loc (k_driver v') = loc w');
  shm_read_ok p n v bs : 0 ≤ n ≤ Z.of_nat (length bs) →
    bufs (loc (k_driver v)) !! p = Some bs → k_shm_read p n v = Some (take (Z.to_nat n) bs);
  shm_write_ok p data v bs : (length data ≤ length bs)%nat →
    bufs (loc (k_driver v)) !! p = Some bs → ∃ v', k_shm_write p data v = Some v' ∧
      k_added v' = k_added v ∧
      k_driver v' = set_loc (with_bufs <[p := overwrite data bs]> (loc (k_driver v))) (k_driver v);
  time_ok v t v' : k_time v = (t, v') → 0 ≤ t < 2 ^ 63 ∧ same_view v v'
}.
End ClientLaws.

(** * 2. The data of the test *)

Definition TXRX_SIZE : Z := 1024 * 1024.
Definition CLK_SPEED : Z := 1000000.
Definition MAX_NUM_CMDS : Z := 32.
Definition MAX_TOTAL_PAYLOAD : Z := 1024 * 1024.
Definition SPI_DEV_COUNT : Z := 2.

(** The test's own [digest] and [rand_buf]. *)
Definition test_digest (buf : bytes) : Z :=
  foldl (λ d b, u8 (Z.lxor (u8 (Z.lor (Z.shiftr d 1) (Z.shiftl (Z.land d 1) 7))) b)) 0 buf.
Fixpoint test_rand_fill {R} `{!Rand R} (sz : nat) (r : R) : bytes :=
  match sz with
  | O => []
  | S sz => let z := rand r in u8 (z.1 mod 255) :: test_rand_fill sz z.2
  end.
Definition test_rand_buf {R} `{!Rand R} (sz : Z) (seed : Z) : bytes :=
  test_rand_fill (Z.to_nat sz) (srand (R:=R) seed).

(** [memcmp] of two buffers of the same length. *)
Fixpoint memcmp (a b : bytes) : Z :=
  match a, b with
  | x :: a, y :: b => if x =? y then memcmp a b else x - y
  | _, _ => 0
  end.

(** [struct spi_test_dev]. *)
Record spi_test_dev := TestDev { test_name : string; initialized : bool; test_loopback : bool }.

(** The static buffer [result], the array [devs], and the checks that failed,
    latest first. *)
Record test_state := TestState {
  result : bytes;
  test_devs : list spi_test_dev;
  failures : list check
}.
Definition with_failure (c : check) (l : test_state) : test_state :=
  TestState (result l) (test_devs l) (c :: failures l).
Definition with_result (f : bytes → bytes) (l : test_state) : test_state :=
  TestState (f (result l)) (test_devs l) (failures l).
Definition with_test_devs (f : list spi_test_dev → list spi_test_dev) (l : test_state) : test_state :=
  TestState (result l) (f (test_devs l)) (failures l).

(** * 3. A transfer and its check *)

Section Test.
Context {R K W : Type} `{!Uapi} `{!SpiErrors} `{!Rand R} `{!SpiClient K W}.
Abbreviation C := (M (world test_state unit W)).

(** The EXPECT macros: a failed check does not end the test. *)
Definition expect (c : check) (b : bool) : C unit :=
  if b then ret tt else mod_loc (with_failure c).
Definition expect_ok (what : string) (rc : Z) : C unit := expect (Answer what) (rc =? 0).

(** A call of the library and [EXPECT_EQ(rc, 0)]. *)
Definition checked (what : string) (op : W → Z * W) : C unit :=
  rc ← env_call op; expect_ok what rc.
Definition add_xfer (vars : xfer_vars) (len : Z) : C (option ptr * option ptr) :=
  r ← env_call (k_add_xfer vars len);
  let '(rc, tx, rx) := r in
  expect_ok "spi_add_data_xfer_cmd" rc;;
  ret (tx, rx).
Definition exec_cmds_checked : C unit :=
  r ← env_call k_exec_cmds;
  expect_ok "spi_exec_cmds" r.1.

(** Accesses through a pointer to a shared buffer. *)
Definition shm_read (p : option ptr) (n : Z) : C bytes :=
  match p with
  | None => stop NullDeref
  | Some p =>
    o ← env_call (λ v, (k_shm_read p n v, v));
    match o with Some bs => ret bs | None => stop OutOfBounds end
  end.
Definition shm_write (p : option ptr) (data : bytes) : C unit :=
  match p with
  | None => stop NullDeref
  | Some p =>
    ok ← env_call (λ v, match k_shm_write p data v with
                        | Some v' => (true, v') | None => (false, v) end);
    if (ok : bool) then ret tt else stop OutOfBounds
  end.

(** A write to the start of [result]. *)
Definition write_result (data : bytes) : C unit :=
  l ← get_loc result;
  if (length data <=? length l)%nat then mod_loc (with_result (overwrite data))
  else stop OutOfBounds.

Definition exec_xfer (test_dev : spi_test_dev) (len : Z) : C Z :=
  checked "spi_add_set_clk_cmd" (k_add_set_clk CLK_SPEED);;
  checked "spi_add_cs_assert_cmd" k_add_cs_assert;;
  p ← add_xfer TxRx len;
  let '(tx, rx) := p in
  checked "spi_add_cs_deassert_cmd" k_add_cs_deassert;;
  let tx_seed := u8 (len mod 255) in
  shm_write tx (test_rand_buf (R:=R) len tx_seed);;
  (if test_loopback test_dev then
     data ← shm_read tx len; write_result data
   else
     data ← shm_read tx len;
     let rx_seed := test_digest data in
     write_result (test_rand_buf (R:=R) len rx_seed));;
  exec_cmds_checked;;
  res ← get_loc result;
  data ← shm_read rx len;
  ret (memcmp (take (Z.to_nat len) res) data).

(** * 4. The fixture *)

(** On [devs[idx]]. *)
Definition spi_dev_init_once (idx : Z) : C Z :=
  l ← get_loc test_devs;
  test_dev ← fetch l idx;
  if initialized test_dev then ret 0 else
  rc ← env_call (k_dev_open (test_name test_dev) MAX_NUM_CMDS MAX_TOTAL_PAYLOAD);
  (if rc =? NO_ERROR then
     mod_loc (with_test_devs <[Z.to_nat idx := TestDev (test_name test_dev) true
                                                 (test_loopback test_dev)]>)
   else ret tt);;
  ret rc.

(** TEST_F_SETUP: [_state->test_dev], unless the test is aborted. *)
Definition swspi_setup (idx : Z) : C (option spi_test_dev) :=
  assert ((0 <=? idx) && (idx <? SPI_DEV_COUNT));;
  rc ← spi_dev_init_once idx;
  if rc =? 0 then
    l ← get_loc test_devs;
    test_dev ← fetch l idx;
    env_call k_clear_cmds;;
    ret (Some test_dev)
  else mod_loc (with_failure (Answer "spi_dev_init_once"));; ret None.

(** * 5. Requests *)

Definition expect_pointer (what : string) (p : option ptr) : C unit :=
  expect (Answer what) (bool_decide (p ≠ None)).

(** Every pointer variable is [NULL] before each call. *)
Definition add_cmd : C unit :=
  checked "spi_add_cs_assert_cmd" k_add_cs_assert;;
  p ← add_xfer TxRx 1;
  expect_pointer "tx" p.1;;
  expect_pointer "rx" p.2;;
  p ← add_xfer TxOnly 1;
  expect_pointer "tx" p.1;;
  p ← add_xfer RxOnly 1;
  expect_pointer "rx" p.2;;
  p ← add_xfer SameVar 1;
  expect_pointer "tx" p.1;;
  add_xfer NoVars 0;;
  checked "spi_add_cs_deassert_cmd" k_add_cs_deassert;;
  checked "spi_add_set_clk_cmd" (k_add_set_clk CLK_SPEED);;
  r ← env_call (k_add_set_clk_out CLK_SPEED);
  expect_ok "spi_add_set_clk_cmd" r.1.

Definition add_cmd_null : C unit :=
  rc ← env_call k_add_cs_assert_null;
  expect (Answer "NULL device") (rc =? ERR_BAD_HANDLE).

(** The loop over [i < MAX_NUM_CMDS] by steps of two. *)
Fixpoint add_pairs (n : nat) : C unit :=
  match n with
  | O => ret tt
  | S n =>
    checked "spi_add_cs_assert_cmd" k_add_cs_assert;;
    checked "spi_add_cs_deassert_cmd" k_add_cs_deassert;;
    add_pairs n
  end.
Definition add_cmd_out_of_bounds : C unit :=
  add_pairs (Z.to_nat (MAX_NUM_CMDS / 2));;
  rc ← env_call k_add_cs_assert;
  expect (Answer "ERR_OUT_OF_RANGE") (rc =? ERR_OUT_OF_RANGE).

(** [EXPECT_EQ(failed, i)], of a variable that is not initialised. *)
Definition expect_failed (i : Z) (failed : option Z) : C unit :=
  match failed with
  | None => stop UninitRead
  | Some j => expect (Answer "failed") (j =? i)
  end.

Definition add_xfer_too_big : C unit :=
  checked "spi_add_cs_assert_cmd" k_add_cs_assert;;
  r ← env_call (k_add_xfer TxRx (MAX_TOTAL_PAYLOAD + 1));
  let '(rc, _, _) := r in
  expect (Answer "ERR_TOO_BIG") (rc =? ERR_TOO_BIG);;
  rc ← env_call k_add_cs_deassert;
  expect (Answer "spi_add_cs_deassert_cmd") (rc <? 0);;
  r ← env_call k_exec_cmds;
  expect (Answer "ERR_BAD_STATE") (r.1 =? ERR_BAD_STATE);;
  expect_failed 1 r.2.

Definition cs_double_assert : C unit :=
  checked "spi_add_cs_assert_cmd" k_add_cs_assert;;
  checked "spi_add_cs_assert_cmd" k_add_cs_assert;;
  r ← env_call k_exec_cmds;
  expect (Answer "spi_exec_cmds") (r.1 <? 0);;
  expect_failed 1 r.2.

Definition cs_already_deasserted : C unit :=
  checked "spi_add_cs_deassert_cmd" k_add_cs_deassert;;
  r ← env_call k_exec_cmds;
  expect (Answer "spi_exec_cmds") (r.1 <? 0);;
  expect_failed 0 r.2.

Definition cs_shared_bus (test_dev : spi_test_dev) : C unit :=
  if test_loopback test_dev then ret tt else
  checked "spi_add_cs_assert_cmd" k_add_cs_assert;;
  r ← env_call k_exec_cmds;
  expect (Answer "spi_exec_cmds") (r.1 <? 0).

Definition set_clk : C unit :=
  r ← env_call (k_add_set_clk_out CLK_SPEED);
  let '(rc, clk_hz) := r in
  expect_ok "spi_add_set_clk_cmd" rc;;
  exec_cmds_checked;;
  match clk_hz with
  | None => stop NullDeref
  | Some p =>
    hz ← env_call (λ v, (k_clk_hz p v, v));
    expect (Answer "*clk_hz") (hz <=? CLK_SPEED)
  end.

(** The difference of two [int64_t] is compared with a [uint64_t]. *)
Definition delay : C unit :=
  let delay_ns := 1000000000 in
  checked "spi_add_cs_assert_cmd" k_add_cs_assert;;
  checked "spi_add_delay_cmd" (k_add_delay delay_ns);;
  checked "spi_add_cs_deassert_cmd" k_add_cs_deassert;;
  start_ns ← env_call k_time;
  r ← env_call k_exec_cmds;
  end_ns ← env_call k_time;
  expect_ok "spi_exec_cmds" r.1;;
  elapsed ← int64 (end_ns - start_ns);
  expect (Answer "elapsed") (delay_ns <=? u64 elapsed).

(** * 6. Transfers *)

(** [EXPECT_EQ(exec_xfer(test_dev, len), 0)]. *)
Definition expect_xfer (test_dev : spi_test_dev) (len : Z) : C unit :=
  rc ← exec_xfer test_dev len;
  expect (Data "exec_xfer") (rc =? 0).

Definition single_data_xfer (test_dev : spi_test_dev) : C unit := expect_xfer test_dev 1.

Definition short_single_data_xfer (test_dev : spi_test_dev) : C unit :=
  let max_size := 10 in
  foldM (λ _ i, expect_xfer test_dev i) tt (seqZ 1 max_size).

Definition long_single_data_xfer (test_dev : spi_test_dev) : C unit :=
  expect_xfer test_dev 256;;
  expect_xfer test_dev 512;;
  expect_xfer test_dev 1024.

Definition very_large_data_xfer (test_dev : spi_test_dev) : C unit :=
  expect_xfer test_dev MAX_TOTAL_PAYLOAD.

(** A pointer variable that is not initialised. *)
Definition var (p : option ptr) : C (option ptr) :=
  match p with Some _ => ret p | None => stop UninitRead end.

(** [EXPECT_EQ(memcmp(expected, rx, n), 0)]. *)
Definition expect_bytes (expected : bytes) (rx : option ptr) (n : Z) : C unit :=
  rx ← var rx;
  data ← shm_read rx n;
  expect (Data "memcmp") (memcmp expected data =? 0).

Definition multi_segment_xfer (test_dev : spi_test_dev) : C unit :=
  let sz0 := 128 in
  let sz1 := 64 in
  checked "spi_add_cs_assert_cmd" k_add_cs_assert;;
  p ← add_xfer TxRx sz0;
  let '(tx0, rx0) := p in
  p ← add_xfer TxRx sz1;
  let '(tx1, rx1) := p in
  checked "spi_add_cs_deassert_cmd" k_add_cs_deassert;;
  tx0 ← var tx0;
  shm_write tx0 (test_rand_buf (R:=R) sz0 0);;
  tx1 ← var tx1;
  shm_write tx1 (test_rand_buf (R:=R) sz1 1);;
  data0 ← shm_read tx0 sz0;
  let expected0 := test_rand_buf (R:=R) sz0 (test_digest data0) in
  data1 ← shm_read tx1 sz1;
  let expected1 := test_rand_buf (R:=R) sz1 (test_digest data1) in
  exec_cmds_checked;;
  if test_loopback test_dev then
    sent ← shm_read tx0 sz0;
    expect_bytes sent rx0 sz0;;
    sent ← shm_read tx1 sz1;
    expect_bytes sent rx1 sz1
  else
    expect_bytes expected0 rx0 sz0;;
    expect_bytes expected1 rx1 sz1.

Definition unidir_recv (test_dev : spi_test_dev) : C unit :=
  let sz := 128 in
  let expected := test_rand_buf (R:=R) sz 0 in
  checked "spi_add_cs_assert_cmd" k_add_cs_assert;;
  p ← add_xfer RxOnly sz;
  checked "spi_add_cs_deassert_cmd" k_add_cs_deassert;;
  exec_cmds_checked;;
  if negb (test_loopback test_dev) then expect_bytes expected p.2 sz else ret tt.

(** * 7. The suite *)

Definition swspi_tests : list (spi_test_dev → C unit) :=
  [λ _, add_cmd; λ _, add_cmd_null; λ _, add_cmd_out_of_bounds; λ _, add_xfer_too_big;
   λ _, cs_double_assert; λ _, cs_already_deasserted; cs_shared_bus; λ _, set_clk; λ _, delay;
   single_data_xfer; short_single_data_xfer; long_single_data_xfer; very_large_data_xfer;
   multi_segment_xfer; unidir_recv].

(** A test on [devs[idx]]; the framework skips the body of a test whose set-up
    was aborted. *)
Definition run_swspi_test (idx : Z) (test : spi_test_dev → C unit) : C unit :=
  o ← swspi_setup idx;
  match o with Some test_dev => test test_dev | None => ret tt end.
End Test.
