(* ===== verification/SwspiTestCorrect.v ===== *)
(** What the tests of swspi-test.c establish: whatever a test finds wrong, the
    first thing it finds is an answer of the library, and never the bytes
    received: these are what the driver delivers. *)

From S2P Require Import Prelude Ipc Checks Swspi SwspiCorrect SwspiTest.

(** * 1. What the driver does with a sequence *)

Lemma test_rand_buf_eq {R} `{!Rand R} n seed : test_rand_buf (R:=R) n seed = rand_buf (R:=R) n seed.
Proof.
  unfold test_rand_buf, rand_buf. generalize (srand (R:=R) seed).
  induction (Z.to_nat n) as [|k IH]; intros r; cbn; [done|]. destruct (rand r) as [z r'].
  cbn. by rewrite IH.
Qed.

Lemma length_test_rand_buf {R} `{!Rand R} n seed :
  length (test_rand_buf (R:=R) n seed) = Z.to_nat n.
Proof. rewrite test_rand_buf_eq. apply length_rand_fill. Qed.

Lemma memcmp_refl bs : memcmp bs bs = 0.
Proof. induction bs as [|b bs IH]; cbn; [done|]. by rewrite Z.eqb_refl. Qed.

Lemma overwrite_all {A} (data bs : list A) : length data = length bs → overwrite data bs = data.
Proof. intros Hl. unfold overwrite. by rewrite drop_ge, app_nil_r by lia. Qed.

(** What a transfer of [n] bytes brings back when [sent] was transmitted. *)
Definition expected {R} `{!Rand R} (loop : bool) (n : nat) (sent : option bytes) : bytes :=
  if loop then default (replicate n 0) sent
  else rand_buf (R:=R) (Z.of_nat n) (from_option digest 0 sent).

Lemma length_expected {R} `{!Rand R} loop n sent :
  (∀ data, sent = Some data → length data = n) → length (expected (R:=R) loop n sent) = n.
Proof.
  intros Hs. unfold expected. destruct loop.
  - destruct sent as [data|]; [by apply Hs|]. apply length_replicate.
  - unfold rand_buf. rewrite length_rand_fill. lia.
Qed.

Section Bus.
Context {R K : Type} `{!Uapi} `{!Rand R} `{!Kernel K}.
Implicit Types (w : world spi_state unit K) (dev : ptr).

(** Requests other than transfers. *)
Definition plain (c : spi_cmd) : Prop := match c with Xfer _ _ _ => False | _ => True end.

Lemma plain_view dev c w w' : plain c → exec_cmd (R:=R) dev c w = Ret tt w' →
  bufs (loc w') = bufs (loc w) ∧ devs (loc w') = devs (loc w).
Proof.
  destruct c; intros Hc; [by intros [= <-]| | |done|by intros [= <-]]; cbn;
    unfold spi_req_exec_cs_assert, spi_req_exec_cs_deassert, load, get_loc, gets, mod_loc, modify,
      bind, assert, ret, stop; cbn;
    (destruct (devs (loc w) !! dev) as [d|]; [|done]); cbn;
    (destruct (buses (loc w) !! bus d) as [b|]; [|done]); cbn;
    (destruct (bool_decide _); [|done]); by intros [= <-].
Qed.

Lemma exec_cons dev c cs w w' :
  exec_cmds (R:=R) dev (c :: cs) w = Ret tt w' →
  ∃ w1, exec_cmd (R:=R) dev c w = Ret tt w1 ∧ exec_cmds (R:=R) dev cs w1 = Ret tt w'.
Proof.
  unfold exec_cmds. cbn [foldM]. unfold bind. destruct (exec_cmd dev c w) as [[] w1|]; [|done].
  by exists w1.
Qed.

Lemma exec_plain dev c cs w w' : plain c → exec_cmds (R:=R) dev (c :: cs) w = Ret tt w' →
  ∃ w1, bufs (loc w1) = bufs (loc w) ∧ devs (loc w1) = devs (loc w) ∧
        exec_cmds (R:=R) dev cs w1 = Ret tt w'.
Proof.
  intros Hc (w1 & E & Hrun)%exec_cons. destruct (plain_view _ _ _ _ Hc E) as [Hb Hd].
  by exists w1.
Qed.

Lemma exec_transfer dev d tx r n sent cs w w' :
  devs (loc w) !! dev = Some d → sizes_of (loc w) r = Some n →
  match tx with
  | Some t => ∃ data, bufs (loc w) !! t = Some data ∧ length data = n ∧ sent = Some data
  | None => sent = None
  end →
  exec_cmds (R:=R) dev (Xfer tx (Some r) (Z.of_nat n) :: cs) w = Ret tt w' →
  ∃ w1, bufs (loc w1) = <[r := expected (R:=R) (loopback d) n sent]> (bufs (loc w)) ∧
        devs (loc w1) = devs (loc w) ∧ exec_cmds (R:=R) dev cs w1 = Ret tt w'.
Proof.
  intros Hd Hr Htx (w1 & E & Hrun)%exec_cons. unfold sizes_of in Hr.
  destruct (bufs (loc w) !! r) as [bs|] eqn:Hbs; [|done]. cbn in Hr. simplify_eq.
  rewrite (xfer_run dev d tx r _ sent bs) in E; [|done|lia|done|].
  - injection E as <-. eexists. split_and!; [| |exact Hrun]; [|done]. cbn. f_equal.
    rewrite Nat2Z.id, overwrite_all; [done|].
    change (length (expected (R:=R) (loopback d) (length bs) sent) = length bs).
    apply length_expected. intros data ->. destruct tx as [t|]; [|done].
    by destruct Htx as (? & _ & ? & [= ->]).
  - destruct tx as [t|]; [|done]. destruct Htx as (data & Ht & Hl & ->). exists data.
    split_and!; [done|lia|]. by rewrite take_ge by lia.
Qed.

(** The sequence of [exec_xfer]. *)
Definition xfer_cmds (t r : ptr) (n : nat) : list spi_cmd :=
  [SetClk; CsAssert; Xfer (Some t) (Some r) (Z.of_nat n); CsDeassert].

Lemma xfer_cmds_deliver dev d t r n data w w' :
  devs (loc w) !! dev = Some d → bufs (loc w) !! t = Some data → length data = n →
  sizes_of (loc w) r = Some n → exec_cmds (R:=R) dev (xfer_cmds t r n) w = Ret tt w' →
  bufs (loc w') !! r = Some (expected (R:=R) (loopback d) n (Some data)).
Proof.
  intros Hd Ht Hl Hr (w1 & Hb1 & Hd1 & Hrun)%exec_plain; [|done].
  apply exec_plain in Hrun as (w2 & Hb2 & Hd2 & Hrun); [|done].
  apply (exec_transfer dev d (Some t) r n (Some data)) in Hrun as (w3 & Hb3 & _ & Hrun).
  - apply exec_plain in Hrun as (w4 & Hb4 & _ & [= <-]); [|done].
    rewrite Hb4, Hb3. apply lookup_insert_eq.
  - by rewrite Hd2, Hd1.
  - unfold sizes_of in *. by rewrite Hb2, Hb1.
  - exists data. by rewrite Hb2, Hb1.
Qed.

(** That of [multi_segment_xfer]. *)
Definition segments (t0 r0 t1 r1 : ptr) (n0 n1 : nat) : list spi_cmd :=
  [CsAssert; Xfer (Some t0) (Some r0) (Z.of_nat n0); Xfer (Some t1) (Some r1) (Z.of_nat n1);
   CsDeassert].

Lemma segments_deliver dev d t0 r0 t1 r1 n0 n1 d0 d1 w w' :
  NoDup [t0; r0; t1; r1] → devs (loc w) !! dev = Some d →
  bufs (loc w) !! t0 = Some d0 → length d0 = n0 → sizes_of (loc w) r0 = Some n0 →
  bufs (loc w) !! t1 = Some d1 → length d1 = n1 → sizes_of (loc w) r1 = Some n1 →
  exec_cmds (R:=R) dev (segments t0 r0 t1 r1 n0 n1) w = Ret tt w' →
  bufs (loc w') !! t0 = Some d0 ∧ bufs (loc w') !! t1 = Some d1 ∧
  bufs (loc w') !! r0 = Some (expected (R:=R) (loopback d) n0 (Some d0)) ∧
  bufs (loc w') !! r1 = Some (expected (R:=R) (loopback d) n1 (Some d1)).
Proof.
  intros Hnd Hd Ht0 Hl0 Hr0 Ht1 Hl1 Hr1 (w1 & Hb1 & Hd1 & Hrun)%exec_plain; [|done].
  rewrite !NoDup_cons, !not_elem_of_cons in Hnd. destruct Hnd as ((?&?&?&_) & (?&?&_) & (?&_) & _).
  apply (exec_transfer dev d (Some t0) r0 n0 (Some d0)) in Hrun as (w2 & Hb2 & Hd2 & Hrun).
  - apply (exec_transfer dev d (Some t1) r1 n1 (Some d1)) in Hrun as (w3 & Hb3 & _ & Hrun).
    + apply exec_plain in Hrun as (w4 & Hb4 & _ & [= <-]); [|done].
      rewrite Hb4, Hb3, Hb2, Hb1. simplify_map_eq. done.
    + by rewrite Hd2, Hd1.
    + unfold sizes_of in *. rewrite Hb2, Hb1. by rewrite lookup_insert_ne.
    + exists d1. rewrite Hb2, Hb1. by rewrite lookup_insert_ne.
  - by rewrite Hd1.
  - unfold sizes_of in *. by rewrite Hb1.
  - exists d0. by rewrite Hb1.
Qed.

(** That of [unidir_recv]. *)
Lemma receive_delivers dev d r n w w' :
  devs (loc w) !! dev = Some d → sizes_of (loc w) r = Some n →
  exec_cmds (R:=R) dev [CsAssert; Xfer None (Some r) (Z.of_nat n); CsDeassert] w = Ret tt w' →
  bufs (loc w') !! r = Some (expected (R:=R) (loopback d) n None).
Proof.
  intros Hd Hr (w1 & Hb1 & Hd1 & Hrun)%exec_plain; [|done].
  apply (exec_transfer dev d None r n None) in Hrun as (w2 & Hb2 & _ & Hrun).
  - apply exec_plain in Hrun as (w3 & Hb3 & _ & [= <-]); [|done].
    rewrite Hb3, Hb2. apply lookup_insert_eq.
  - by rewrite Hd1.
  - unfold sizes_of in *. by rewrite Hb1.
  - done.
Qed.
End Bus.

(** * 2. The steps of a test *)

Create HintDb spi_test discriminated.

Section Steps.
Context {R K W : Type} `{!Uapi} `{!SpiErrors} `{!Rand R} `{!Kernel K} `{!SpiClient K W}.
Context (sdev : ptr) `{!SpiClientLaws R K W sdev}.
Implicit Types (w : world test_state unit W) (ps : list (ptr * nat)).
Abbreviation C := (M (world test_state unit W)).

Definition sizes w (p : ptr) : option nat := sizes_of (loc (k_driver (env w))) p.
Definition spi_device w : option spi_dev_ctx := devs (loc (k_driver (env w))) !! sdev.

(** What every step of a test begun in [w0] keeps. *)
Record kept w0 w : Prop := {
  kept_blames : blames (failures (loc w0)) (failures (loc w));
  kept_result : length (result (loc w)) = length (result (loc w0));
  kept_devs : test_loopback <$> test_devs (loc w) = test_loopback <$> test_devs (loc w0);
  kept_device : spi_device w = spi_device w0
}.

(** Where a test is: unless a check failed since [w0], the requests [cs] were
    added and the driver is in state [dv]; the buffers [ps] have their sizes. *)
Record at_point (cs : list spi_cmd) (dv : spi_state) ps w0 w : Prop := {
  at_kept : kept w0 w;
  at_added : failures (loc w) = failures (loc w0) →
    k_added (env w) = cs ∧ loc (k_driver (env w)) = dv;
  at_bufs : Forall (λ p, sizes w p.1 = Some p.2) ps
}.

Lemma kept_refl w : kept w w.
Proof. split; [by left|done..]. Qed.

Lemma kept_env w0 w v' tr : kept w0 w → same_view K W sdev (env w) v' →
  kept w0 (World (loc w) (dev w) v' tr).
Proof. intros [] [_ Hd]. split; try done. by etrans. Qed.

Lemma kept_trans w0 w w' : kept w0 w → kept w w' → kept w0 w'.
Proof. intros [] []. split; [by eapply blames_trans|by etrans..]. Qed.

(** Any moment of a test may be taken as its beginning. *)
Lemma at_here cs dv ps w0 w :
  at_point cs dv ps w0 w → at_point (k_added (env w)) (loc (k_driver (env w))) ps w w.
Proof. intros [_ _ Hb]. split; [apply kept_refl|done|done]. Qed.

Lemma kept_failure w0 w c : kept w0 w → blames (failures (loc w0)) (c :: failures (loc w)) →
  kept w0 (set_loc (with_failure c (loc w)) w).
Proof. by intros [] ?; split. Qed.

Lemma wp_expect c b (Q : unit → world test_state unit W → Prop) w :
  (b = true → Q tt w) → (b = false → Q tt (set_loc (with_failure c (loc w)) w)) →
  wp (expect c b) Q w.
Proof. intros H1 H2. apply wp_if; intros Hb; [by apply wp_ret, H1|by apply wp_mod_loc, H2]. Qed.

(** After a failed check of an answer, nothing is known of the requests. *)
Lemma at_failure cs dv cs' dv' ps w0 w what :
  at_point cs dv ps w0 w → at_point cs' dv' ps w0 (set_loc (with_failure (Answer what) (loc w)) w).
Proof.
  intros [Hk _ Hb]. split; [|cbn|done].
  - apply kept_failure; [done|]. by apply blames_answer, kept_blames.
  - intros Hf. by apply blames_grows in Hf; [|apply kept_blames].
Qed.

Lemma wp_expect_ok what rc (Q : unit → world test_state unit W → Prop) w :
  (rc = 0 → Q tt w) → (rc ≠ 0 → Q tt (set_loc (with_failure (Answer what) (loc w)) w)) →
  wp (expect_ok what rc) Q w.
Proof. intros H1 H2. apply wp_expect; intros Hb; [apply H1|apply H2]; lia. Qed.

Lemma sizes_same w v' tr p : same_view K W sdev (env w) v' →
  sizes (World (loc w) (dev w) v' tr) p = sizes w p.
Proof. intros [Hs _]. apply Hs. Qed.

Lemma at_env cs dv cs' dv' ps w0 w v' tr :
  at_point cs dv ps w0 w → same_view K W sdev (env w) v' →
  (k_added (env w) = cs → loc (k_driver (env w)) = dv → k_added v' = cs' ∧ loc (k_driver v') = dv') →
  at_point cs' dv' ps w0 (World (loc w) (dev w) v' tr).
Proof.
  intros [Hk Ha Hb] Hs Hadd. split; [by apply kept_env|cbn|].
  - intros Hf. destruct (Ha Hf). by apply Hadd.
  - eapply Forall_impl; [exact Hb|]. intros p Hp. by rewrite sizes_same.
Qed.

(** A request that is only added. *)
Lemma checked_step what (op : W → Z * W) c cs dv ps w0 w (Q : unit → world test_state unit W → Prop) :
  (∀ v rc v', op v = (rc, v') → same_view K W sdev v v' ∧ (rc = 0 → adds K W c v v')) →
  at_point cs dv ps w0 w →
  (∀ w', at_point (cs ++ [c]) dv ps w0 w' → Q tt w') →
  wp (checked what op) Q w.
Proof.
  intros Hop Hat HQ. apply wp_bind, wp_env_call. intros rc v' E.
  destruct (Hop _ _ _ E) as [Hs Hadd]. apply wp_expect_ok; intros Hrc; apply HQ.
  - eapply at_env; [done..|]. intros <- <-. by destruct (Hadd Hrc) as [-> ->].
  - by eapply at_failure, (at_env cs dv (k_added v') (loc (k_driver v'))).
Qed.

(** A transfer was refused since. *)
Definition refused w0 w : Prop :=
  failed_since (Answer "spi_add_data_xfer_cmd") (failures (loc w0)) (failures (loc w)).

Lemma refused_later w0 w w' : refused w0 w → kept w w' → refused w0 w'.
Proof. intros Hr []. by eapply failed_later. Qed.

(** A transfer: refused, it leaves its variables unset. *)
Lemma add_txrx_step (n : nat) cs dv ps w0 w (Q : option ptr * option ptr → world test_state unit W → Prop) :
  at_point cs dv ps w0 w → Forall (λ p, p.1 ∈ lent (k_added (env w))) ps →
  (∀ w', at_point cs dv ps w0 w' → refused w0 w' → Q (None, None) w') →
  (∀ t r bt br w', NoDup (t :: r :: ps.*1) →
     at_point (cs ++ [Xfer (Some t) (Some r) (Z.of_nat n)])
       (with_bufs (λ m, <[t := bt]> (<[r := br]> m)) dv) ((t, n) :: (r, n) :: ps) w0 w' →
     Forall (λ p, p.1 ∈ lent (k_added (env w'))) ((t, n) :: (r, n) :: ps) →
     Q (Some t, Some r) w') →
  NoDup ps.*1 → wp (add_xfer TxRx (Z.of_nat n)) Q w.
Proof.
  intros Hat Hlent Hno Hyes Hnd. pose proof Hat as [Hk Ha Hb].
  apply wp_bind, wp_env_call. intros [[rc tx] rx] v' E.
  pose proof (add_xfer_ok R K W sdev _ _ _ _ _ _ _ (Nat2Z.is_nonneg n) E) as Hx.
  destruct (Z.eqb_spec rc 0) as [->|Hne].
  2: { destruct Hx as (-> & -> & Hs). apply wp_bind, wp_expect_ok; [done|]. intros _.
    apply wp_ret, Hno; [|by apply failed_now, Hk].
    by eapply at_failure, (at_env cs dv (k_added v') (loc (k_driver v'))). }
  destruct Hx as (t & r & bt & br & -> & -> & Htr & Ht & Hr & Hbt & Hbr & Hadd & Hdrv).
  apply wp_bind, wp_expect_ok; [intros _|done].
  assert (∀ q, q ∉ lent (k_added (env w)) → q ∉ ps.*1) as Hfresh.
  { intros q Hq (p & -> & Hp)%list_elem_of_fmap. by apply Hq, (proj1 (Forall_forall _ _) Hlent). }
  apply wp_ret, (Hyes t r bt br).
  - rewrite !NoDup_cons, not_elem_of_cons. auto.
  - split; cbn [failures loc env].
    + destruct Hk. split; try done. unfold spi_device in *. cbn. by rewrite Hdrv.
    + intros Hf. destruct (Ha Hf) as [<- <-]. by rewrite Hadd, Hdrv.
    + assert (∀ q k, q ≠ t → q ≠ r → sizes w q = Some k →
        sizes (World (loc w) (dev w) v' (trace w)) q = Some k) as Hother.
      { intros q k ?? Hq. unfold sizes, sizes_of in *. cbn. rewrite Hdrv. cbn.
        by rewrite !lookup_insert_ne. }
      repeat apply Forall_cons_2; [| |].
      * unfold sizes, sizes_of. cbn. rewrite Hdrv. cbn. rewrite lookup_insert_eq. cbn. f_equal. lia.
      * unfold sizes, sizes_of. cbn. rewrite Hdrv. cbn.
        rewrite lookup_insert_ne, lookup_insert_eq by done. cbn. f_equal. lia.
      * rewrite Forall_forall in Hb |- *. intros p Hp. apply Hother; [| |by apply Hb];
          intros Hq; [apply (Hfresh t Ht)|apply (Hfresh r Hr)]; rewrite <- Hq;
          by apply list_elem_of_fmap_2.
  - cbn [env]. rewrite Hadd. unfold lent. rewrite flat_map_app. cbn.
    repeat apply Forall_cons_2; cbn; [apply elem_of_app; right; by left|apply elem_of_app; right; right; by left|].
    eapply Forall_impl; [exact Hlent|]. cbn. intros q Hq. rewrite elem_of_app. by left.
Qed.

Lemma add_rx_step (n : nat) cs dv w0 w (Q : option ptr * option ptr → world test_state unit W → Prop) :
  at_point cs dv [] w0 w →
  (∀ tx w', at_point cs dv [] w0 w' → refused w0 w' → Q (tx, None) w') →
  (∀ tx r br w',
     at_point (cs ++ [Xfer None (Some r) (Z.of_nat n)]) (with_bufs <[r := br]> dv) [(r, n)] w0 w' →
     Q (tx, Some r) w') →
  wp (add_xfer RxOnly (Z.of_nat n)) Q w.
Proof.
  intros Hat Hno Hyes. pose proof Hat as [Hk Ha Hb]. apply wp_bind, wp_env_call. intros [[rc tx] rx] v' E.
  pose proof (add_xfer_ok R K W sdev _ _ _ _ _ _ _ (Nat2Z.is_nonneg n) E) as Hx.
  destruct (Z.eqb_spec rc 0) as [->|Hne].
  2: { destruct Hx as (-> & -> & Hs). apply wp_bind, wp_expect_ok; [done|]. intros _.
    apply wp_ret, Hno; [|by apply failed_now, Hk].
    by eapply at_failure, (at_env cs dv (k_added v') (loc (k_driver v'))). }
  destruct Hx as (r & br & -> & Hr & Hbr & Hadd & Hdrv).
  apply wp_bind, wp_expect_ok; [intros _|done]. apply wp_ret, (Hyes tx r br).
  split; cbn [failures loc env].
  - destruct Hk. split; try done. unfold spi_device in *. cbn. by rewrite Hdrv.
  - intros Hf. destruct (Ha Hf) as [<- <-]. by rewrite Hadd, Hdrv.
  - apply Forall_cons_2; [|done]. unfold sizes, sizes_of. cbn. rewrite Hdrv. cbn.
    rewrite lookup_insert_eq. cbn. f_equal. lia.
Qed.

(** The tests' writes to shared buffers, what they read there, and the writes
    to their own buffer. *)
Lemma shm_write_step p n data cs dv ps w0 w (Q : unit → world test_state unit W → Prop) :
  at_point cs dv ps w0 w → (p, n) ∈ ps → length data = n →
  (∀ w', at_point cs (with_bufs <[p := data]> dv) ps w0 w' → Q tt w') →
  wp (shm_write (Some p) data) Q w.
Proof.
  intros [Hk Ha Hb] Hp Hl HQ. rewrite Forall_forall in Hb. pose proof (Hb _ Hp) as Hsz.
  unfold sizes, sizes_of in Hsz. cbn in Hsz.
  destruct (bufs (loc (k_driver (env w))) !! p) as [bs|] eqn:Hbs; [|done]. cbn in Hsz. simplify_eq.
  destruct (shm_write_ok R K W sdev p data (env w) bs ltac:(lia) Hbs) as (v' & Hv & Hadd & Hdrv).
  rewrite overwrite_all in Hdrv by done. apply wp_bind, wp_env_call. intros ok v. rewrite Hv.
  intros [= <- <-]. apply wp_ret, HQ. split; cbn [failures loc env].
  - destruct Hk. split; try done. unfold spi_device in *. cbn. by rewrite Hdrv.
  - intros Hf. destruct (Ha Hf) as [<- <-]. by rewrite Hadd, Hdrv.
  - apply Forall_forall. intros q Hq. specialize (Hb _ Hq). unfold sizes, sizes_of in *. cbn.
    rewrite Hdrv. cbn. destruct (decide (q.1 = p)) as [Eq|]; [|by rewrite lookup_insert_ne].
    rewrite Eq in *. rewrite lookup_insert_eq. rewrite Hbs in Hb. cbn in *. congruence.
Qed.

Lemma shm_read_step p n cs dv ps w0 w (Q : bytes → world test_state unit W → Prop) :
  at_point cs dv ps w0 w → (p, n) ∈ ps →
  (∀ bs, length bs = n → (failures (loc w) = failures (loc w0) → bufs dv !! p = Some bs) → Q bs w) →
  wp (shm_read (Some p) (Z.of_nat n)) Q w.
Proof.
  intros [Hk Ha Hb] Hp HQ. pose proof (proj1 (Forall_forall _ _) Hb _ Hp) as Hsz.
  unfold sizes, sizes_of in Hsz. cbn in Hsz.
  destruct (bufs (loc (k_driver (env w))) !! p) as [bs|] eqn:Hbs; [|done]. cbn in Hsz. simplify_eq.
  apply wp_bind, wp_env_call. intros o v.
  rewrite (shm_read_ok R K W sdev p _ (env w) bs) by (lia || done). intros [= <- <-].
  rewrite Nat2Z.id, take_ge by lia. apply wp_ret. destruct w. apply HQ; [done|].
  intros Hf. by destruct (Ha Hf) as [_ <-].
Qed.

Lemma write_result_step data cs dv ps w0 w (Q : unit → world test_state unit W → Prop) :
  at_point cs dv ps w0 w → (length data ≤ length (result (loc w0)))%nat →
  (∀ w', at_point cs dv ps w0 w' → failures (loc w') = failures (loc w) →
     take (length data) (result (loc w')) = data → Q tt w') →
  wp (write_result data) Q w.
Proof.
  intros [[] Ha Hb] Hl HQ. apply wp_bind, wp_get_loc. wp_cases Hc; [|lia]. apply wp_mod_loc, HQ;
    [|done|cbn; apply take_overwrite]. split; [|done|done]. split; try done. cbn.
  rewrite length_overwrite; lia.
Qed.

(** The execution of the requests, and its check. *)
Lemma exec_step d cs dv ps w0 w (Q : unit → world test_state unit W → Prop) :
  at_point cs dv ps w0 w → spi_device w0 = Some d → idle d → Z.of_nat (length cs) < 2 ^ 64 →
  (∀ dv' w', at_point [] dv' ps w0 w' → result (loc w') = result (loc w) →
     (failures (loc w') = failures (loc w0) → failures (loc w) = failures (loc w0) ∧
        ∃ s s' : world spi_state unit K, loc s = dv ∧ devs (loc s) !! sdev = Some d ∧
                exec_cmds (R:=R) sdev cs s = Ret tt s' ∧ loc s' = dv') → Q tt w') →
  wp exec_cmds_checked Q w.
Proof.
  intros Hat Hd Hidle Hn HQ. pose proof Hat as [Hk Ha Hb].
  apply wp_bind, wp_env_call. intros [rc failed] v' E.
  destruct (exec_cmds_ok R K W sdev _ _ _ _ E) as [Hs Hok]. apply wp_expect_ok; intros Hrc.
  - destruct (Hok Hrc) as (Hadded & w1 & Hbatch & Hw1).
    apply (HQ (loc (k_driver v'))); cbn [loc failures]; [|done|].
    + by eapply at_env; [done..|].
    + intros Hf. destruct (Ha Hf) as [Hcs Hdv]. split; [done|]. rewrite Hcs in Hbatch.
      assert (devs (loc (k_driver (env w))) !! sdev = Some d) as Hd' by (rewrite <- Hd; apply Hk).
      pose proof (batch_refines (R:=R) sdev d cs (k_driver (env w)) Hd' Hidle Hn) as Href.
      rewrite Hbatch in Href. destruct Href as [[Hz _]|(_ & w2 & Hx & Hl)].
      { pose proof err_no_memory_neg. pose proof no_error_zero. lia. }
      exists (k_driver (env w)), w2. by rewrite Hw1.
  - apply (HQ dv).
    + by eapply at_failure, (at_env cs dv (k_added v') (loc (k_driver v'))).
    + done.
    + intros Hf. cbn in Hf. by apply blames_grows in Hf; [|apply Hk].
Qed.

(** * 3. The tests of the library's answers *)

(** The ways a test begun in [w0] can stop: never; at a buffer that a transfer
    the library refused left unset; at the index of the failed request, or at
    the clock rate, which the library did not write. *)
Abbreviation stops := (world test_state unit W → halt → world test_state unit W → Prop).

Definition never : stops := λ _ _ _, False.
Definition no_buffer (how : halt) : stops := λ w0 h w, h = how ∧ refused w0 w.
Definition no_index : stops := λ _ h w, h = UninitRead ∧
  ∃ v rc, k_exec_cmds v = ((rc, None), env w).
Definition no_rate : stops := λ _ h w, h = NullDeref ∧
  ∃ v rc v' r, k_add_set_clk_out CLK_SPEED v = ((rc, None), v') ∧ k_exec_cmds v' = (r, env w).

Definition halts (X : stops) w0 (h : halt) w : Prop := kept w0 w ∧ X w0 h w.

Definition preserves (I : world test_state unit W → world test_state unit W → Prop) (X : stops)
    {A} (m : C A) : Prop :=
  ∀ w0 w, I w0 w → wph m (λ _, I w0) (halts X w0) w.

Section Preserves.
Context (I : world test_state unit W → world test_state unit W → Prop) (X : stops).

Lemma preserves_ret {A} (a : A) : preserves I X (ret a).
Proof. by intros w0 w HI. Qed.

Lemma preserves_bind {A B} (m : C A) (f : A → C B) :
  preserves I X m → (∀ a, preserves I X (f a)) → preserves I X (bind m f).
Proof.
  intros Hm Hf w0 w HI. apply wph_bind. eapply wph_ret; [by apply Hm|]. intros a w' HI'.
  by apply Hf.
Qed.

Lemma preserves_if {A} (b : bool) (m1 m2 : C A) :
  preserves I X m1 → preserves I X m2 → preserves I X (if b then m1 else m2).
Proof. by destruct b. Qed.
End Preserves.

Lemma halts_refused how w0 w w' :
  kept w0 w → refused w0 w → kept w w' → halts (no_buffer how) w0 how w'.
Proof. intros ???. split; [by eapply kept_trans|]. split; [done|by eapply refused_later]. Qed.

(** Steps that keep what a step keeps, before the use of such a buffer. *)
Lemma wph_refused {A} how (m : C A) w0 w (Q : A → world test_state unit W → Prop) :
  preserves kept never m → kept w0 w → refused w0 w →
  (∀ a w', kept w0 w' → refused w0 w' → Q a w') → wph m Q (halts (no_buffer how) w0) w.
Proof.
  intros Hm Hk Hr HQ. eapply wph_mono; [by apply Hm, kept_refl| |by intros ?? [_ []]].
  intros a w' Hk'. apply HQ; [by eapply kept_trans|by eapply refused_later].
Qed.

(** The tests of the answers of the library. *)
Lemma wp_blame what b w0 w (Q : unit → world test_state unit W → Prop) :
  kept w0 w → (∀ w', kept w0 w' → env w' = env w → Q tt w') → wp (expect (Answer what) b) Q w.
Proof.
  intros Hk HQ. apply wp_expect; intros _; apply HQ; [done..| |done].
  apply kept_failure; [done|]. by apply blames_answer, Hk.
Qed.

Section Kept.
Context (X : stops).

Lemma kept_env_call {A} (op : W → A * W) :
  (∀ v a v', op v = (a, v') → devs (loc (k_driver v')) !! sdev = devs (loc (k_driver v)) !! sdev) →
  preserves kept X (env_call op).
Proof.
  intros Hop w0 w []. apply wph_wp, wp_env_call. intros a v' E. split; try done.
  unfold spi_device in *. cbn. by rewrite (Hop _ _ _ E).
Qed.

Lemma kept_expect what b : preserves kept X (expect (Answer what) b).
Proof.
  intros w0 w Hk. apply wph_wp. by eapply wp_blame.
Qed.

Lemma kept_checked what op :
  (∀ v rc v', op v = (rc, v') → same_view K W sdev v v') → preserves kept X (checked what op).
Proof.
  intros Hop. apply preserves_bind; [|intros rc; apply kept_expect].
  apply kept_env_call. intros v rc v' E. by apply (same_device K W sdev), (Hop _ rc).
Qed.

Lemma add_xfer_device vars n v r v' : 0 ≤ n → k_add_xfer vars n v = (r, v') →
  devs (loc (k_driver v')) !! sdev = devs (loc (k_driver v)) !! sdev.
Proof.
  intros Hn. destruct r as [[rc tx] rx]. intros E.
  pose proof (add_xfer_ok R K W sdev _ _ _ _ _ _ _ Hn E) as Hx.
  destruct (rc =? 0); [|by destruct Hx as (_ & _ & [_ ?])].
  destruct vars; cbn in Hx; try done.
  - destruct Hx as (?&?&?&?&_&_&_&_&_&_&_&_& ->). done.
  - destruct Hx as (?&?&_&_&_&_& ->). done.
Qed.

Lemma kept_add_xfer vars n : 0 ≤ n → preserves kept X (add_xfer vars n).
Proof.
  intros Hn. apply preserves_bind; [apply kept_env_call; intros v r v'; by apply add_xfer_device|].
  intros [[rc tx] rx]. apply preserves_bind; [apply kept_expect|]. intros _. apply preserves_ret.
Qed.

Lemma kept_exec : preserves kept X (env_call k_exec_cmds).
Proof.
  apply kept_env_call. intros v [rc failed] v' E.
  by apply (exec_cmds_ok R K W sdev _ _ _ _ E).
Qed.

Lemma kept_exec_checked : preserves kept X exec_cmds_checked.
Proof. apply preserves_bind; [apply kept_exec|intros r; apply kept_expect]. Qed.

Lemma kept_set_clk_out hz : preserves kept X (env_call (k_add_set_clk_out hz)).
Proof.
  apply kept_env_call. intros v [rc p] v' E. by apply (add_set_clk_out_ok R K W sdev _ _ _ _ _ E).
Qed.

(** Calls that answer with a status. *)
Lemma assert_same v rc v' : k_add_cs_assert v = (rc, v') → same_view K W sdev v v'.
Proof. intros E. by apply (add_cs_assert_ok R K W sdev _ _ _ E). Qed.
Lemma deassert_same v rc v' : k_add_cs_deassert v = (rc, v') → same_view K W sdev v v'.
Proof. intros E. by apply (add_cs_deassert_ok R K W sdev _ _ _ E). Qed.
Lemma set_clk_same hz v rc v' : k_add_set_clk hz v = (rc, v') → same_view K W sdev v v'.
Proof. intros E. by apply (add_set_clk_ok R K W sdev _ _ _ _ E). Qed.
Lemma delay_same ns v rc v' : k_add_delay ns v = (rc, v') → same_view K W sdev v v'.
Proof. intros E. by apply (add_delay_ok R K W sdev _ _ _ _ E). Qed.

Lemma kept_status (op : W → Z * W) :
  (∀ v rc v', op v = (rc, v') → same_view K W sdev v v') → preserves kept X (env_call op).
Proof. intros Hop. apply kept_env_call. intros v rc v' E. by apply (same_device K W sdev), (Hop _ rc). Qed.

End Kept.

#[local] Hint Resolve kept_expect kept_exec kept_set_clk_out kept_checked
  kept_status preserves_ret assert_same deassert_same set_clk_same delay_same
  add_cs_assert_null_ok : spi_test.
Ltac kept_steps :=
  repeat first
    [ solve [eauto 3 with spi_test]
    | apply kept_add_xfer; lia
    | apply preserves_bind; [|intros ?]
    | apply preserves_if
    | progress cbn beta iota zeta ].

Lemma kept_add_cmd : preserves kept never add_cmd.
Proof. unfold add_cmd, expect_pointer, expect_ok. kept_steps. Qed.

Lemma kept_add_cmd_null : preserves kept never add_cmd_null.
Proof. unfold add_cmd_null. kept_steps. Qed.

Lemma kept_out_of_bounds : preserves kept never add_cmd_out_of_bounds.
Proof.
  unfold add_cmd_out_of_bounds. generalize (Z.to_nat (MAX_NUM_CMDS / 2)). intros n.
  apply preserves_bind; [|intros _; kept_steps]. induction n; cbn; kept_steps.
Qed.

(** The execution of a sequence that should be refused, and the index of the
    request at fault. *)
Lemma expect_index_keeps what (b : Z → bool) i :
  preserves kept no_index
    (r ← env_call k_exec_cmds; expect (Answer what) (b r.1);; expect_failed i r.2).
Proof.
  intros w0 w Hk. apply wph_bind, wph_wp, wp_env_call. intros [rc failed] v' E.
  destruct (exec_cmds_ok R K W sdev _ _ _ _ E) as [Hs _].
  apply wph_bind, wph_wp. eapply wp_blame; [by apply kept_env|]. intros w1 Hk1 Hw1.
  destruct failed as [j|]; [by apply kept_expect|]. split; [done|]. split; [done|].
  exists (env w), rc. by rewrite Hw1.
Qed.

Lemma kept_too_big : preserves kept no_index add_xfer_too_big.
Proof.
  unfold add_xfer_too_big. apply preserves_bind; [kept_steps|intros _].
  apply preserves_bind; [|intros [[rc tx] rx]].
  - apply kept_env_call. intros v r v'. by apply add_xfer_device.
  - apply preserves_bind; [kept_steps|intros _]. apply preserves_bind; [kept_steps|intros ?].
    apply preserves_bind; [kept_steps|intros _]. apply (expect_index_keeps _ (λ z, z =? ERR_BAD_STATE)).
Qed.

Lemma kept_double_assert : preserves kept no_index cs_double_assert.
Proof.
  do 2 (apply preserves_bind; [kept_steps|intros _]). apply (expect_index_keeps _ (λ z, z <? 0)).
Qed.

Lemma kept_already_deasserted : preserves kept no_index cs_already_deasserted.
Proof.
  apply preserves_bind; [kept_steps|intros _]. apply (expect_index_keeps _ (λ z, z <? 0)).
Qed.

Lemma kept_shared_bus td : preserves kept never (cs_shared_bus td).
Proof. unfold cs_shared_bus. kept_steps. Qed.

Lemma kept_set_clk : preserves kept no_rate set_clk.
Proof.
  intros w0 w Hk. apply wph_bind, wph_wp, wp_env_call. intros [rc p] v' E.
  pose proof (add_set_clk_out_ok R K W sdev _ _ _ _ _ E) as [Hs _].
  apply wph_bind, wph_wp. eapply wp_blame; [by apply kept_env|]. intros w1 Hk1 Hw1.
  apply wph_bind, wph_wp, wp_bind, wp_env_call. intros [rc1 failed] v1 E1.
  pose proof (exec_cmds_ok R K W sdev _ _ _ _ E1) as [Hs1 _].
  eapply wp_blame; [by apply kept_env|]. intros w2 Hk2 Hw2. destruct p as [p|].
  - refine (preserves_bind kept no_rate _ _ _ _ w0 w2 Hk2); [|kept_steps].
    apply kept_env_call. by intros v hz v'' [= _ <-].
  - split; [done|]. split; [done|]. exists (env w), rc, v', (rc1, failed). split; [done|].
    rewrite Hw2. by rewrite Hw1 in E1.
Qed.

Lemma time_step w0 w (Q : Z → world test_state unit W → Prop) :
  kept w0 w → (∀ t w', 0 ≤ t < 2 ^ 63 → kept w0 w' → Q t w') → wp (env_call k_time) Q w.
Proof.
  intros Hk HQ. apply wp_env_call. intros t v' E. destruct (time_ok R K W sdev _ _ _ E) as [Ht Hs].
  by apply HQ; [|apply kept_env].
Qed.

Lemma kept_delay : preserves kept never delay.
Proof.
  unfold delay, expect_ok. do 3 (apply preserves_bind; [kept_steps|intros _]).
  intros w0 w Hk. apply wph_bind, wph_wp. apply (time_step w0); [done|]. intros t1 w1 Ht1 Hk1.
  apply wph_bind. eapply wph_ret; [by apply kept_exec|]. intros r w2 Hk2. cbn beta.
  apply wph_bind, wph_wp. apply (time_step w0); [done|]. intros t2 w3 Ht2 Hk3.
  apply wph_bind. eapply wph_ret; [by apply kept_expect|]. intros [] w4 Hk4. cbn beta.
  unfold int64. replace (is_int64 (t2 - t1)) with true by (unfold is_int64; lia).
  apply wph_bind, wph_wp, wp_ret. by apply kept_expect.
Qed.

(** * 4. The tests of transfers *)

(** The device a test is given is that of the driver, and [result] is as large
    as the largest transfer. *)
Definition xfer_ready td w : Prop := ∃ d, spi_device w = Some d ∧ idle d ∧
  test_loopback td = loopback d ∧ Z.of_nat (length (result (loc w))) = TXRX_SIZE.

(** Between transfers no request is left. *)
Definition emptied td w0 w : Prop :=
  xfer_ready td w0 ∧ kept w0 w ∧ (failures (loc w) = failures (loc w0) → k_added (env w) = []).

Lemma emptied_at td w0 w : emptied td w0 w → at_point [] (loc (k_driver (env w))) [] w0 w.
Proof. intros (_ & Hk & Ha). split; [done| |done]. intros Hf. by rewrite Ha. Qed.

Lemma at_emptied td dv ps w0 w : xfer_ready td w0 → at_point [] dv ps w0 w → emptied td w0 w.
Proof. intros Hr [Hk Ha _]. split_and!; [done|done|]. intros Hf. by apply Ha. Qed.

(** A comparison that succeeds unless a check has failed. *)
Lemma expect_data what b cs dv ps w0 w :
  at_point cs dv ps w0 w → (failures (loc w) = failures (loc w0) → b = true) →
  wp (expect (Data what) b) (λ _ w', at_point cs dv ps w0 w' ∧
    (failures (loc w') = failures (loc w0) → failures (loc w) = failures (loc w0))) w.
Proof.
  intros Hat Hb. pose proof Hat as [Hk Ha Hbufs]. apply wp_expect; [done|]. intros ->.
  assert (failures (loc w) ≠ failures (loc w0)) as Hne by (intros Hf; by specialize (Hb Hf)).
  assert (Data what :: failures (loc w) ≠ failures (loc w0)) as Hne'
    by (apply blames_grows, Hk).
  split; [|done]. split; [|done|done].
  apply kept_failure; [done|]. apply blames_more; [apply Hk|done].
Qed.

Lemma emptied_expect_data td what b w0 w :
  emptied td w0 w → (failures (loc w) = failures (loc w0) → b = true) →
  wp (expect (Data what) b) (λ _ w', emptied td w0 w') w.
Proof.
  intros He Hb. eapply wp_mono; [by eapply expect_data; [apply (emptied_at td)|]|].
  intros [] w' [Hat _]. apply (at_emptied td (loc (k_driver (env w))) [] w0 w'); [apply He|done].
Qed.

(** Between the requests of a transfer and their execution: the transmit buffer
    is filled, and [result] gets what should come back. *)
Lemma fill_step (loop : bool) t data cs dv n ps w0 w E
    (k : C Z) (Qk : Z → world test_state unit W → Prop) :
  at_point cs dv ps w0 w → (t, n) ∈ ps → length data = n → (n ≤ length (result (loc w0)))%nat →
  (∀ w', at_point cs (with_bufs <[t := data]> dv) ps w0 w' →
     (failures (loc w') = failures (loc w0) →
      take n (result (loc w')) = expected (R:=R) loop n (Some data)) → wph k Qk E w') →
  wph (shm_write (Some t) data;;
       (if loop then
          got ← shm_read (Some t) (Z.of_nat n); write_result got
        else
          got ← shm_read (Some t) (Z.of_nat n);
          write_result (test_rand_buf (R:=R) (Z.of_nat n) (test_digest got)));;
       k) Qk E w.
Proof.
  intros Hat Ht Hl Hres HQ. apply wph_bind, wph_wp. eapply shm_write_step; [exact Hat|exact Ht|done|].
  intros w1 Hat1. apply wph_bind, wph_wp.
  destruct loop; apply wp_bind; (eapply shm_read_step; [exact Hat1|exact Ht|]);
    intros bs Hbs Hbuf; (eapply write_result_step; [exact Hat1|..]).
  - lia.
  - intros w2 Hat2 Hf2 Htk. apply HQ; [done|]. intros Hf. rewrite Hf2 in Hf.
    specialize (Hbuf Hf). cbn in Hbuf. rewrite lookup_insert_eq in Hbuf. by simplify_eq.
  - rewrite length_test_rand_buf. lia.
  - intros w2 Hat2 Hf2 Htk. apply HQ; [done|]. intros Hf. rewrite Hf2 in Hf.
    specialize (Hbuf Hf). cbn in Hbuf. rewrite lookup_insert_eq in Hbuf. simplify_eq.
    rewrite length_test_rand_buf, Nat2Z.id, test_rand_buf_eq in Htk. exact Htk.
Qed.

Lemma at_size cs dv ps w0 w p n : at_point cs dv ps w0 w → (p, n) ∈ ps →
  failures (loc w) = failures (loc w0) → sizes_of dv p = Some n.
Proof.
  intros [_ Ha Hb] Hp Hf. destruct (Ha Hf) as [_ <-].
  by pose proof (proj1 (Forall_forall _ _) Hb _ Hp).
Qed.

Lemma wp_var p (Q : option ptr → world test_state unit W → Prop) w :
  Q (Some p) w → wp (var (Some p)) Q w.
Proof. done. Qed.

Lemma exec_xfer_spec td n w0 w :
  emptied td w0 w → Z.of_nat n ≤ TXRX_SIZE →
  wph (exec_xfer (R:=R) td (Z.of_nat n))
    (λ res w', emptied td w0 w' ∧ (failures (loc w') = failures (loc w0) → res = 0)) (halts (no_buffer NullDeref) w0) w.
Proof.
  intros He Hn. pose proof He as (Hr & _ & _). pose proof Hr as (d & Hd & Hidle & Hloop & Hres).
  unfold exec_xfer. rewrite Hloop. pose proof (emptied_at _ _ _ He) as Hat. clear He.
  apply wph_bind, wph_wp. eapply checked_step; [apply (add_set_clk_ok R K W sdev)|exact Hat|].
  clear Hat. intros w1 Hat. apply wph_bind, wph_wp.
  eapply checked_step; [apply (add_cs_assert_ok R K W sdev)|exact Hat|].
  clear Hat. intros w2 Hat. apply wph_bind, wph_wp. apply (add_txrx_step n _ _ _ _ _ _ Hat);
    [done| | |apply NoDup_nil_2].
  { intros w3 [Hk _ _] Href. apply wph_bind, wph_refused; [kept_steps|done..|].
    intros _ w4 Hk4 Href4. by apply wph_bind. }
  clear Hat. intros t r bt br w3 Hnd Hat _. apply wph_bind, wph_wp.
  eapply checked_step; [apply (add_cs_deassert_ok R K W sdev)|exact Hat|].
  clear Hat. intros w4 Hat. set (data := test_rand_buf _ _).
  assert (length data = n) as Hdl by (unfold data; rewrite length_test_rand_buf; lia).
  eapply (fill_step (loopback d) t data _ _ n); [exact Hat|by left|done|lia|].
  clear Hat. intros w5 Hat Hexp. apply wph_bind, wph_wp.
  eapply (exec_step d); [exact Hat|done|done|done|]. intros dv' w6 Hat6 Hsame Hx.
  apply wph_wp, wp_bind, wp_get_loc, wp_bind.
  eapply (shm_read_step r n); [exact Hat6|by right; left|]. intros bs Hbs Hbuf. apply wp_ret.
  split; [by eapply at_emptied|]. intros Hf. specialize (Hbuf Hf).
  destruct (Hx Hf) as (Hf5 & s & s' & Hs & Hsd & Hrun & Hs'). rewrite Hsame, Nat2Z.id, Hexp by done.
  pose proof (at_size _ _ _ _ _ r n Hat ltac:(by right; left) Hf5) as Hrs.
  rewrite <- Hs', (xfer_cmds_deliver sdev d t r n data s s' Hsd) in Hbuf; [|..|exact Hrun].
  - simplify_eq. apply memcmp_refl.
  - rewrite Hs. cbn. apply lookup_insert_eq.
  - done.
  - by rewrite Hs.
Qed.

Lemma expect_xfer_emptied td n : 0 ≤ n ≤ TXRX_SIZE → preserves (emptied td) (no_buffer NullDeref) (expect_xfer (R:=R) td n).
Proof.
  intros Hn w0 w He. rewrite <- (Z2Nat.id n) by lia. apply wph_bind.
  eapply wph_ret; [by apply exec_xfer_spec; [|lia]|]. intros res w' [He' Hres]. apply wph_wp.
  apply emptied_expect_data; [done|]. intros Hf. by rewrite Hres.
Qed.

Lemma single_emptied td : preserves (emptied td) (no_buffer NullDeref) (single_data_xfer (R:=R) td).
Proof. by apply expect_xfer_emptied. Qed.

Lemma foldM_emptied td l : Forall (λ n, 0 ≤ n ≤ TXRX_SIZE) l →
  preserves (emptied td) (no_buffer NullDeref) (foldM (λ _ n, expect_xfer (R:=R) td n) tt l).
Proof.
  induction 1 as [|n l Hn Hl IH]; cbn; [apply preserves_ret|].
  apply preserves_bind; [by apply expect_xfer_emptied|]. by intros [].
Qed.

Lemma short_emptied td : preserves (emptied td) (no_buffer NullDeref) (short_single_data_xfer (R:=R) td).
Proof.
  apply foldM_emptied, Forall_forall. intros n [Hn1 Hn2]%elem_of_seqZ. unfold TXRX_SIZE. lia.
Qed.

Lemma long_emptied td : preserves (emptied td) (no_buffer NullDeref) (long_single_data_xfer (R:=R) td).
Proof.
  apply preserves_bind; [by apply expect_xfer_emptied|intros _].
  apply preserves_bind; [by apply expect_xfer_emptied|intros _]. by apply expect_xfer_emptied.
Qed.

Lemma very_large_emptied td : preserves (emptied td) (no_buffer NullDeref) (very_large_data_xfer (R:=R) td).
Proof. by apply expect_xfer_emptied. Qed.

(** The comparison of a received buffer. *)
Lemma expect_bytes_step bs r n cs dv ps w0 w :
  at_point cs dv ps w0 w → (r, n) ∈ ps →
  (failures (loc w) = failures (loc w0) → bufs dv !! r = Some bs) →
  wp (expect_bytes bs (Some r) (Z.of_nat n)) (λ _ w', at_point cs dv ps w0 w' ∧
    (failures (loc w') = failures (loc w0) → failures (loc w) = failures (loc w0))) w.
Proof.
  intros Hat Hr Hbs. apply wp_bind, wp_var, wp_bind. eapply shm_read_step; [exact Hat|exact Hr|].
  intros got _ Hgot. eapply expect_data; [exact Hat|]. intros Hf.
  specialize (Hbs Hf). specialize (Hgot Hf). simplify_eq. by rewrite memcmp_refl.
Qed.

Lemma unidir_emptied td : preserves (emptied td) (no_buffer UninitRead) (unidir_recv (R:=R) td).
Proof.
  intros w0 w He. pose proof He as (Hr & _ & _). pose proof Hr as (d & Hd & Hidle & Hloop & Hres).
  unfold unidir_recv. rewrite Hloop. pose proof (emptied_at _ _ _ He) as Hat. clear He.
  apply wph_bind, wph_wp. eapply checked_step; [apply (add_cs_assert_ok R K W sdev)|exact Hat|].
  clear Hat. intros w1 Hat. apply wph_bind, wph_wp. apply (add_rx_step 128 _ _ _ _ _ Hat).
  - clear Hat. intros tx w2 Hat Href. destruct (loopback d).
    + apply wph_bind, wph_wp. eapply checked_step; [apply (add_cs_deassert_ok R K W sdev)|exact Hat|].
      clear Hat. intros w3 Hat. apply wph_bind, wph_wp.
      eapply (exec_step d); [exact Hat|done|done|done|]. intros dv' w4 Hat4 _ _. by eapply at_emptied.
    + destruct Hat as [Hk _ _]. apply wph_bind, wph_refused; [kept_steps|done..|].
      intros _ w3 Hk3 Href3. apply wph_bind, wph_refused; [apply kept_exec_checked|done..|].
      by intros _ w4 Hk4 Href4.
  - clear Hat. intros tx r br w2 Hat. apply wph_bind, wph_wp.
    eapply checked_step; [apply (add_cs_deassert_ok R K W sdev)|exact Hat|].
    clear Hat. intros w3 Hat. apply wph_bind, wph_wp.
    eapply (exec_step d); [exact Hat|done|done|done|]. intros dv' w4 Hat4 _ Hx.
    destruct (loopback d) eqn:Hlp; [by eapply at_emptied|]. apply wph_wp.
    eapply wp_mono; [eapply (expect_bytes_step _ r 128); [exact Hat4|by left|]|].
    + intros Hf. destruct (Hx Hf) as (Hf3 & s & s' & Hs & Hsd & Hrun & <-).
      rewrite (receive_delivers sdev d r 128 s s' Hsd); [|rewrite Hs|exact Hrun].
      * by rewrite Hlp, test_rand_buf_eq.
      * apply (at_size _ _ _ _ _ r 128 Hat); [by left|done].
    + intros [] w5 [Hat5 _]. by eapply at_emptied.
Qed.

(** The execution of two segments, and what comes back. *)
Lemma segments_step d t0 r0 t1 r1 (n0 n1 : nat) d0 d1 dv w0 w :
  let ps := [(t1, n1); (r1, n1); (t0, n0); (r0, n0)] in
  at_point (segments t0 r0 t1 r1 n0 n1) dv ps w0 w → NoDup ps.*1 →
  spi_device w0 = Some d → idle d → length d0 = n0 → length d1 = n1 →
  (failures (loc w) = failures (loc w0) → bufs dv !! t0 = Some d0) →
  (failures (loc w) = failures (loc w0) → bufs dv !! t1 = Some d1) →
  wp (exec_cmds_checked;;
      if loopback d then
        sent ← shm_read (Some t0) (Z.of_nat n0);
        expect_bytes sent (Some r0) (Z.of_nat n0);;
        sent ← shm_read (Some t1) (Z.of_nat n1);
        expect_bytes sent (Some r1) (Z.of_nat n1)
      else
        expect_bytes (test_rand_buf (R:=R) (Z.of_nat n0) (test_digest d0)) (Some r0) (Z.of_nat n0);;
        expect_bytes (test_rand_buf (R:=R) (Z.of_nat n1) (test_digest d1)) (Some r1) (Z.of_nat n1))
    (λ _ w', ∃ dv', at_point [] dv' ps w0 w') w.
Proof.
  intros ps.
  assert ((t0, n0) ∈ ps ∧ (r0, n0) ∈ ps ∧ (t1, n1) ∈ ps ∧ (r1, n1) ∈ ps) as (Ht0 & Hr0 & Ht1 & Hr1)
    by (unfold ps; set_solver).
  intros Hat Hnd Hd Hidle Hl0 Hl1 Hd0 Hd1. apply wp_bind.
  eapply (exec_step d); [exact Hat|done|done|done|]. intros dv' w1 Hat1 _ Hx.
  assert (failures (loc w1) = failures (loc w0) →
    bufs dv' !! t0 = Some d0 ∧ bufs dv' !! t1 = Some d1 ∧
    bufs dv' !! r0 = Some (expected (R:=R) (loopback d) n0 (Some d0)) ∧
    bufs dv' !! r1 = Some (expected (R:=R) (loopback d) n1 (Some d1))) as Hgot.
  { intros Hf. destruct (Hx Hf) as (Hf0 & s & s' & Hs & Hsd & Hrun & <-).
    apply (segments_deliver sdev d t0 r0 t1 r1 n0 n1 d0 d1 s s'); rewrite ?Hs; auto.
    - rewrite (Permutation_app_comm [t0; r0] [t1; r1] : [t0; r0; t1; r1] ≡ₚ [t1; r1; t0; r0]).
      exact Hnd.
    - by rewrite <- Hs.
    - by apply (at_size _ _ _ _ _ _ _ Hat).
    - by apply (at_size _ _ _ _ _ _ _ Hat). }
  destruct (loopback d); cbn [expected default from_option] in Hgot.
  - apply wp_bind. eapply shm_read_step; [exact Hat1|exact Ht0|]. intros b0 _ Hb0. apply wp_bind.
    eapply wp_mono; [eapply expect_bytes_step; [exact Hat1|exact Hr0|]|].
    { intros Hf. specialize (Hb0 Hf). destruct (Hgot Hf) as (? & ? & ? & ?). by simplify_eq. }
    intros [] w2 [Hat2 Hf2]. apply wp_bind. eapply shm_read_step; [exact Hat2|exact Ht1|].
    intros b1 _ Hb1. eapply wp_mono; [eapply expect_bytes_step; [exact Hat2|exact Hr1|]|].
    { intros Hf. specialize (Hb1 Hf). destruct (Hgot (Hf2 Hf)) as (? & ? & ? & ?). by simplify_eq. }
    intros [] w3 [Hat3 _]. by eexists.
  - apply wp_bind. eapply wp_mono; [eapply expect_bytes_step; [exact Hat1|exact Hr0|]|].
    { intros Hf. destruct (Hgot Hf) as (_ & _ & -> & _). by rewrite test_rand_buf_eq. }
    intros [] w2 [Hat2 Hf2]. eapply wp_mono; [eapply expect_bytes_step; [exact Hat2|exact Hr1|]|].
    { intros Hf. destruct (Hgot (Hf2 Hf)) as (_ & _ & _ & ->). by rewrite test_rand_buf_eq. }
    intros [] w3 [Hat3 _]. by eexists.
Qed.

Lemma multi_emptied td : preserves (emptied td) (no_buffer UninitRead) (multi_segment_xfer (R:=R) td).
Proof.
  intros w0 w He. pose proof He as (Hr & _ & _). pose proof Hr as (d & Hd & Hidle & Hloop & Hres).
  unfold multi_segment_xfer. rewrite Hloop. pose proof (emptied_at _ _ _ He) as Hat. clear He.
  apply wph_bind, wph_wp. eapply checked_step; [apply (add_cs_assert_ok R K W sdev)|exact Hat|].
  clear Hat. intros w1 Hat. apply wph_bind, wph_wp.
  apply (add_txrx_step 128 _ _ _ _ _ _ Hat); [done| | |apply NoDup_nil_2].
  { intros w2 [Hk _ _] Href. apply wph_bind, wph_refused; [by apply kept_add_xfer|done..|].
    intros [tx1 rx1] w3 Hk3 Href3. apply wph_bind, wph_refused; [kept_steps|done..|].
    intros _ w4 Hk4 Href4. by apply wph_bind. }
  clear Hat. intros t0 r0 bt0 br0 w2 Hnd Hat Hlent. apply wph_bind, wph_wp.
  apply (add_txrx_step 64 _ _ _ _ _ _ Hat Hlent); [| |exact Hnd].
  { clear Hat. intros w3 Hat Href. pose proof (at_kept _ _ _ _ _ Hat) as Hk. apply at_here in Hat.
    apply wph_bind, wph_wp.
    eapply checked_step; [apply (add_cs_deassert_ok R K W sdev)|exact Hat|].
    clear Hat. intros w4 Hat. apply wph_bind, wph_wp, wp_var, wph_bind, wph_wp.
    eapply (shm_write_step t0 128); [exact Hat|by left|apply length_test_rand_buf|].
    intros w5 [Hk5 _ _]. apply wph_bind. by apply (halts_refused _ w0 w3). }
  clear Hat Hlent Hnd. intros t1 r1 bt1 br1 w3 Hnd Hat _. apply wph_bind, wph_wp.
  eapply checked_step; [apply (add_cs_deassert_ok R K W sdev)|exact Hat|].
  clear Hat. intros w4 Hat. apply wph_bind, wph_wp, wp_var, wph_bind, wph_wp.
  eapply (shm_write_step t0 128); [exact Hat|by right; right; left|apply length_test_rand_buf|].
  clear Hat. intros w5 Hat. apply wph_bind, wph_wp, wp_var, wph_bind, wph_wp.
  eapply (shm_write_step t1 64); [exact Hat|by left|apply length_test_rand_buf|].
  clear Hat. intros w6 Hat. apply wph_bind, wph_wp.
  eapply (shm_read_step t0 128); [exact Hat|by right; right; left|]. intros d0 Hl0 Hd0.
  apply wph_bind, wph_wp.
  eapply (shm_read_step t1 64); [exact Hat|by left|]. intros d1 Hl1 Hd1.
  eapply wph_wp, wp_mono; [by apply (segments_step d t0 r0 t1 r1 128 64 d0 d1 _ _ _ Hat Hnd)|].
  intros [] w7 [dv' Hat7]. by eapply at_emptied.
Qed.

(** * 5. The suite *)

(** The test device of the index is the driver's device, which is idle. *)
Definition swspi_ready (idx : Z) w : Prop := 0 ≤ idx < SPI_DEV_COUNT ∧
  ∃ td, test_devs (loc w) !! Z.to_nat idx = Some td ∧ xfer_ready td w.

Lemma kept_ready idx w0 w : kept w0 w → swspi_ready idx w0 → swspi_ready idx w.
Proof.
  intros [_ Hr Ht Hd] (Hidx & td & Htd & d & Hdev & Hidle & Hloop & Hres). split; [done|].
  assert ((test_loopback <$> test_devs (loc w)) !! Z.to_nat idx = Some (test_loopback td)) as Hl
    by (by rewrite Ht, list_lookup_fmap, Htd).
  rewrite list_lookup_fmap, fmap_Some in Hl. destruct Hl as (td' & Htd' & Heq).
  exists td'. split; [done|]. exists d. rewrite Hd, Hr, <- Heq. done.
Qed.

Lemma setup_spec idx w : swspi_ready idx w →
  wp (swspi_setup idx) (λ o w', match o with
    | Some td => emptied td w w'
    | None => kept w w'
    end) w.
Proof.
  intros (Hidx & td & Htd & Hr). unfold swspi_setup. apply wp_bind, wp_assert; [lia|].
  assert (∀ td' w', kept w w' → test_loopback td' = test_loopback td →
    test_devs (loc w') !! Z.to_nat idx = Some td' →
    wp (l ← get_loc test_devs; test_dev ← fetch l idx; env_call k_clear_cmds;; ret (Some test_dev))
      (λ o w', match o with Some td => emptied td w w' | None => kept w w' end) w') as Hclear.
  { intros td' w' Hk Hl Htd'. apply wp_bind, wp_get_loc, wp_bind.
    eapply wp_fetch; [lia|exact Htd'|]. apply wp_bind, wp_env_call. intros u v' E.
    destruct (clear_cmds_ok R K W sdev _ _ _ E) as [Hs Hadded]. apply wp_ret.
    split_and!; [|by apply kept_env|done]. destruct Hr as (d & ? & ? & ? & ?).
    exists d. by rewrite Hl. }
  unfold spi_dev_init_once. apply wp_bind, wp_bind, wp_get_loc, wp_bind.
  eapply wp_fetch; [lia|exact Htd|]. destruct (initialized td).
  { apply wp_ret. cbn [Z.eqb]. apply (Hclear td); [apply kept_refl|done|done]. }
  apply wp_bind, wp_env_call. intros rc v' E. pose proof (dev_open_ok R K W sdev _ _ _ _ _ _ E) as Hs.
  pose proof no_error_zero as Hz. apply wp_bind. destruct (Z.eqb_spec rc NO_ERROR) as [->|Hne].
  - apply wp_mod_loc, wp_ret. rewrite Hz. cbn [Z.eqb].
    apply (Hclear (TestDev (test_name td) true (test_loopback td))).
    + destruct (kept_env _ _ _ (trace w) (kept_refl w) Hs). split; [done|done|cbn|done].
      rewrite list_fmap_insert. apply list_insert_id. by rewrite list_lookup_fmap, Htd.
    + done.
    + cbn. rewrite list_lookup_insert_eq; [done|]. by eapply lookup_lt_Some.
  - apply wp_ret, wp_ret. destruct (Z.eqb_spec rc 0) as [->|]; [by rewrite Hz in Hne|].
    apply wp_bind, wp_mod_loc, wp_ret. pose proof (kept_env _ _ _ (trace w) (kept_refl w) Hs) as Hk.
    apply kept_failure; [exact Hk|]. by apply blames_answer, Hk.
Qed.

(** A test that keeps what a step keeps, or that leaves no request between its
    transfers. *)
Definition well_behaved (X : stops) (test : spi_test_dev → C unit) : Prop :=
  (∀ td, preserves kept X (test td)) ∨ (∀ td, preserves (emptied td) X (test td)).

Lemma run_test_spec idx test X w : swspi_ready idx w → well_behaved X test →
  wph (run_swspi_test idx test) (λ _ w', kept w w') (halts X w) w.
Proof.
  intros Hr Htest. apply wph_bind. eapply wph_ret; [by apply wph_wp, setup_spec|].
  intros [td|] w1 Hw1; [|by apply wph_wp, wp_ret]. destruct Htest as [Ht|Ht].
  - apply Ht, Hw1.
  - eapply wph_ret; [by apply (Ht td w w1)|]. intros [] w2 (_ & Hk & _). exact Hk.
Qed.

#[local] Hint Resolve kept_add_cmd kept_add_cmd_null kept_out_of_bounds kept_too_big
  kept_double_assert kept_already_deasserted kept_shared_bus kept_set_clk kept_delay
  single_emptied short_emptied long_emptied very_large_emptied multi_emptied unidir_emptied
  : spi_test.

(** How each test of the suite can stop, in their order. *)
Definition swspi_stops : list stops :=
  [never (* add_cmd *); never (* add_cmd_null *); never (* add_cmd_out_of_bounds *);
   no_index (* add_xfer_too_big *); no_index (* cs_double_assert *);
   no_index (* cs_already_deasserted *); never (* cs_shared_bus *); no_rate (* set_clk *);
   never (* delay *); no_buffer NullDeref (* single_data_xfer *);
   no_buffer NullDeref (* short_single_data_xfer *); no_buffer NullDeref (* long_single_data_xfer *);
   no_buffer NullDeref (* very_large_data_xfer *); no_buffer UninitRead (* multi_segment_xfer *);
   no_buffer UninitRead (* unidir_recv *)].

Lemma tests_behave : Forall2 well_behaved swspi_stops (swspi_tests (R:=R)).
Proof.
  repeat apply Forall2_cons_2; [.. |apply Forall2_nil_2].
  all: first [by left; intros td; eauto 2 with spi_test|by right; intros td; eauto 2 with spi_test].
Qed.

(** C9. swspi-test.c on the driver: every test of the suite, run on either
    device over a client library that has the server execute the requests it
    is given (SpiClientLaws), ends, or stops in the one way the list
    swspi_stops gives for it.  The transfers in one segment stop only at the
    null buffer, those in two segments and the receive-only one only at the
    uninitialised buffer, that is left by an earlier call of
    spi_add_data_xfer_cmd whose answer failed its check; add_xfer_too_big and
    the two tests of a misplaced chip select stop only at [failed], when
    spi_exec_cmds did not write it; set_clk only at [*clk_hz], when
    spi_add_set_clk_cmd did not write the pointer; the other five never stop.
    Whether the test ends or stops, if checks failed, the first one that did
    is of an answer of the library, and never of the bytes received: for
    transfers of any of the tested lengths, in one or two segments, or
    receive-only, the bytes that come back are those the test expects.  No
    access leaves a buffer, and the device is ready for the next test. *)
Theorem swspi_tests_blame i test stop idx w :
  swspi_tests (R:=R) !! i = Some test → swspi_stops !! i = Some stop → swspi_ready idx w →
  wph (run_swspi_test idx test)
    (λ _ w', blames (failures (loc w)) (failures (loc w')) ∧ swspi_ready idx w')
    (λ h w', blames (failures (loc w)) (failures (loc w')) ∧ stop w h w') w.
Proof.
  intros Ht Hs Hr. pose proof (Forall2_lookup_lr _ _ _ _ _ _ tests_behave Hs Ht) as Hb.
  eapply wph_mono; [by apply run_test_spec| |].
  - intros [] w' Hk. split; [apply Hk|by eapply kept_ready].
  - intros h w' [Hk Hx]. split; [apply Hk|done].
Qed.
End Steps.
