(* ===== verification/SwspiDemo.v ===== *)
(** The theorems on the SPI driver at concrete states: the server's devices, a
    linear generator for rand, clients' buffers of four bytes, and the test on a
    client library that calls the driver directly. *)

From S2P Require Import Prelude Ipc Checks Swspi SwspiCorrect SwspiTest SwspiTestCorrect.

Module SwspiDemo.
#[local] Instance uapi : Uapi := Sim.uapi.
#[local] Instance kernel : Kernel script := Sim.kernel.
#[local] Instance lcg : Rand Z.
Proof.
  refine {| srand s := s; rand r := (Z.abs (r * 1103515245 + 12345) mod 32768, r + 1) |}.
  intros r. cbn. apply Z.mod_pos_bound. lia.
Defined.

Definition tx : ptr := 10%positive.
Definition rx : ptr := 11%positive.
Definition state : spi_state :=
  SpiState (devs (swspi_init true)) (buses (swspi_init true)) ∅
    {[tx := [1; 2; 3; 4]; rx := [0; 0; 0; 0]]} [].
Definition w (s : script) : world spi_state unit script := World state () s [].

(** The loopback device echoes three bytes between two delays. *)
Definition echo : list spi_cmd :=
  [SetClk; CsAssert; Delay 5; Xfer (Some tx) (Some rx) 3; Delay 7; CsDeassert].

Example echo_runs :
  match batch (R:=Z) loopback_dev echo (w Sim.quiet) with
  | Ret rc w' => rc = NO_ERROR ∧ bufs (loc w') !! rx = Some [1; 2; 3; 0] ∧
      slept (loc w') = [7; 5]
  | Halt _ _ => False
  end.
Proof. by vm_compute. Qed.

(** The fourth allocation of the sequence fails. *)
Definition no_memory : script := Script 1 [] [] [] [true; true; true; false].

Lemma spi_sequence_refines_witness :
  batch_result (R:=Z) echo loopback_dev (w no_memory)
    (batch (R:=Z) loopback_dev echo (w no_memory)).
Proof.
  apply (spi_sequence_refines _ (SpiDev loopback_bus None 0 0 true)); [done|done|done].
Defined.

Lemma state_ready : spi_ready state.
Proof.
  split.
  - intros p d Hp. cbn in Hp. apply lookup_insert_Some in Hp as [[<- <-]|[_ Hp]].
    + by split; [|eexists].
    + apply lookup_singleton_Some in Hp as [<- <-]. by split; [|eexists].
  - intros p b Hp. cbn in Hp. apply lookup_insert_Some in Hp as [[<- <-]|[_ Hp]]; [done|].
    by apply lookup_singleton_Some in Hp as [<- <-].
Qed.

Lemma spi_batch_safe_witness :
  wp (batch (R:=Z) loopback_dev echo) (λ rc w',
    (rc = NO_ERROR ∨ rc = ERR_NO_MEMORY) ∧ spi_ready (loc w') ∧
    devs (loc w') = devs state ∧ ∀ p, sizes_of (loc w') p = sizes_of state p) (w Sim.quiet).
Proof.
  apply spi_batch_safe; [apply state_ready|by eexists|done|done|].
  repeat (apply Forall_cons_2; [try done|]); [|apply Forall_nil_2].
  split_and!; [done|by exists 4%nat|by exists 4%nat].
Defined.

Lemma digest_detects_witness :
  is_byte (digest [1; 2; 3; 4]) ∧ digest (<[1%nat := 7]> [1; 2; 3; 4]) ≠ digest [1; 2; 3; 4].
Proof.
  apply (digest_detects [1; 2; 3; 4] 1 2 7); [|done|done|done].
  repeat (apply Forall_cons_2; [done|]). apply Forall_nil_2.
Defined.

Lemma spi_xfer_delivers_witness :
  exec_cmd (R:=Z) test_dev (Xfer (Some tx) (Some rx) 3) (w Sim.quiet) =
  Ret tt (set_loc (with_bufs <[rx := overwrite (rand_buf (R:=Z) 3 (digest [1; 2; 3]))
    [0; 0; 0; 0]]> state) (w Sim.quiet)).
Proof.
  apply (spi_xfer_delivers test_dev (SpiDev test_bus None 0 0 false) (Some tx) rx 3
           (Some [1; 2; 3]) [0; 0; 0; 0] (w Sim.quiet)); [done|done|done|].
  by exists [1; 2; 3; 4].
Defined.

(** A client library in the server's process: it refuses what does not fit,
    and everything after that; it validates sequences as the server's library
    does, so that a failed one is not executed at all. *)
#[local] Instance errors : SpiErrors := {|
  ERR_BAD_HANDLE := -32; ERR_OUT_OF_RANGE := -24; ERR_TOO_BIG := -15; ERR_BAD_STATE := -7 |}.
#[local] Instance spi_exec_eq : EqDecision spi_exec.
Proof. solve_decision. Defined.
#[local] Instance spi_entry_eq : EqDecision spi_seq_entry.
Proof. solve_decision. Defined.
#[local] Instance spi_dev_eq : EqDecision spi_dev_ctx.
Proof. solve_decision. Defined.

Record direct := Direct {
  server : world spi_state unit script;
  queue : list spi_cmd;
  refused : option Z
}.
Definition full (v : direct) : bool := MAX_NUM_CMDS <=? Z.of_nat (length (queue v)).
Definition refuse (v : direct) : direct :=
  Direct (server v) (queue v) (Some (Z.of_nat (length (queue v)))).
Definition add (c : spi_cmd) (v : direct) : Z * direct :=
  if refused v is Some _ then (ERR_BAD_STATE, v)
  else if full v then (ERR_OUT_OF_RANGE, refuse v)
  else (0, Direct (server v) (queue v ++ [c]) None).
Definition new_buf (bs : gmap ptr bytes) (cs : list spi_cmd) : ptr :=
  fresh (dom bs ∪ list_to_set (lent cs) : gset ptr).
Definition zero_buf (n : Z) : bytes := replicate (Z.to_nat n) 0.
Definition with_server_bufs (f : gmap ptr bytes → gmap ptr bytes) (v : direct) :=
  set_loc (with_bufs f (loc (server v))) (server v).
Definition add_transfer (vars : xfer_vars) (n : Z) (v : direct) :
    (Z * option ptr * option ptr) * direct :=
  if refused v is Some _ then (ERR_BAD_STATE, None, None, v)
  else if full v then (ERR_OUT_OF_RANGE, None, None, refuse v)
  else if MAX_TOTAL_PAYLOAD <? n then (ERR_TOO_BIG, None, None, refuse v)
  else
    let r := new_buf (bufs (loc (server v))) (queue v) in
    let t := new_buf (<[r := zero_buf n]> (bufs (loc (server v)))) (queue v) in
    match vars with
    | TxRx => (0, Some t, Some r,
        Direct (with_server_bufs (λ m, <[t := zero_buf n]> (<[r := zero_buf n]> m)) v)
               (queue v ++ [Xfer (Some t) (Some r) n]) None)
    | RxOnly => (0, None, Some r,
        Direct (with_server_bufs <[r := zero_buf n]> v) (queue v ++ [Xfer None (Some r) n]) None)
    | TxOnly => (0, Some t, None,
        Direct (with_server_bufs <[t := zero_buf n]> v) (queue v ++ [Xfer (Some t) None n]) None)
    | SameVar => (0, Some t, None,
        Direct (with_server_bufs <[t := zero_buf n]> v) (queue v ++ [Xfer (Some t) (Some t) n]) None)
    | NoVars => (0, None, None, Direct (server v) (queue v ++ [Xfer None None n]) None)
    end.

(** The first command that stops, and whether the chip select is released. *)
Fixpoint first_stop (sdev : ptr) (i : Z) (cs : list spi_cmd) (s : world spi_state unit script) : option Z :=
  match cs with
  | [] => None
  | c :: cs => match exec_cmd (R:=Z) sdev c s with
               | Ret _ s' => first_stop sdev (i + 1) cs s'
               | Halt _ _ => Some i
               end
  end.
Definition released (l : spi_state) : bool :=
  bool_decide (map_Forall (λ _ b, owner b = None) (buses l)).
Definition exec_direct (sdev : ptr) (v : direct) : (Z * option Z) * direct :=
  match refused v with
  | Some i => (ERR_BAD_STATE, Some i, v)
  | None =>
    match batch (R:=Z) sdev (queue v) (server v) with
    | Ret rc w =>
      if (rc =? NO_ERROR) && released (loc w) &&
         bool_decide (length <$> bufs (loc w) = length <$> bufs (loc (server v))) &&
         bool_decide (devs (loc w) !! sdev = devs (loc (server v)) !! sdev)
      then (0, None, Direct w [] None)
      else (-1, Some (Z.of_nat (length (queue v)) - 1), v)
    | Halt _ _ => (-1, first_stop sdev 0 (queue v) (server v), v)
    end
  end.

Definition client (sdev : ptr) : SpiClient script direct := {|
  k_driver := server; k_added := queue;
  k_dev_open _ _ _ v := (0, v);
  k_clear_cmds v := (tt, Direct (server v) [] None);
  k_add_set_clk _ := add SetClk;
  k_add_set_clk_out _ v := let '(rc, v) := add SetClk v in ((rc, Some 1%positive), v);
  k_clk_hz _ _ := 500000;
  k_add_cs_assert := add CsAssert;
  k_add_cs_deassert := add CsDeassert;
  k_add_cs_assert_null v := (ERR_BAD_HANDLE, v);
  k_add_delay ns := add (Delay ns);
  k_add_xfer := add_transfer;
  k_exec_cmds := exec_direct sdev;
  k_shm_read p n v :=
    match bufs (loc (server v)) !! p with
    | Some bs => if n <=? Z.of_nat (length bs) then Some (take (Z.to_nat n) bs) else None
    | None => None
    end;
  k_shm_write p data v :=
    match bufs (loc (server v)) !! p with
    | Some bs => if (length data <=? length bs)%nat
        then Some (Direct (with_server_bufs <[p := overwrite data bs]> v) (queue v) (refused v))
        else None
    | None => None
    end;
  k_time v := (foldr Z.add 0 (slept (loc (server v))) mod 2 ^ 63, v)
|}.

Section Laws.
Context (sdev : ptr).
#[local] Instance here : SpiClient script direct := client sdev.

Lemma same_server v v' : server v' = server v → same_view script direct sdev v v'.
Proof. intros E. split; cbn; by rewrite E. Qed.

Lemma add_ok c v rc v' : add c v = (rc, v') →
  same_view script direct sdev v v' ∧ (rc = 0 → adds script direct c v v').
Proof.
  unfold add. destruct (refused v); [by intros [= <- <-]; split; [apply same_server|]|].
  destruct (full v); intros [= <- <-]; (split; [by apply same_server|]); done.
Qed.

Lemma new_buf_fresh bs cs : bs !! new_buf bs cs = None ∧ new_buf bs cs ∉ lent cs.
Proof.
  pose proof (is_fresh (dom bs ∪ list_to_set (lent cs) : gset ptr)) as Hf.
  change (fresh _) with (new_buf bs cs) in Hf. rewrite not_elem_of_union in Hf.
  destruct Hf as [H1 H2]. split; [by apply (not_elem_of_dom (D:=gset ptr))|].
  by rewrite elem_of_list_to_set in H2.
Qed.

Lemma sizes_eq (l l' : spi_state) :
  length <$> bufs l' = length <$> bufs l → ∀ p, sizes_of l' p = sizes_of l p.
Proof. intros E p. unfold sizes_of. by rewrite <- !lookup_fmap, E. Qed.

Lemma length_zero_buf n : 0 ≤ n → Z.of_nat (length (zero_buf n)) = n.
Proof. intros Hn. unfold zero_buf. rewrite length_replicate. lia. Qed.

Lemma add_transfer_ok vars n v rc tx rx v' : 0 ≤ n → add_transfer vars n v = ((rc, tx, rx), v') →
  if rc =? 0 then adds_xfer script direct sdev vars n v tx rx v'
  else tx = None ∧ rx = None ∧ same_view script direct sdev v v'.
Proof.
  intros Hn. unfold add_transfer. destruct (refused v).
  { intros [= <- <- <- <-]. by split_and!; [..|apply same_server]. }
  destruct (full v); [intros [= <- <- <- <-]; by split_and!; [..|apply same_server]|].
  destruct (_ <? n); [intros [= <- <- <- <-]; by split_and!; [..|apply same_server]|].
  set (r := new_buf (bufs (loc (server v))) (queue v)).
  set (t := new_buf (<[r := zero_buf n]> _) (queue v)).
  pose proof (new_buf_fresh (bufs (loc (server v))) (queue v)) as [_ Hr].
  pose proof (new_buf_fresh (<[r := zero_buf n]> (bufs (loc (server v)))) (queue v)) as [Ht1 Ht].
  destruct vars; intros [= <- <- <- <-]; cbn [Z.eqb adds_xfer]; [|done| |done|done].
  - exists t, r, (zero_buf n), (zero_buf n). split_and!; try done; try by apply length_zero_buf.
    intros Htr. fold t in Ht1. by rewrite Htr, lookup_insert_eq in Ht1.
  - exists r, (zero_buf n). split_and!; try done. by apply length_zero_buf.
Qed.

Lemma exec_direct_ok v rc failed v' : exec_direct sdev v = ((rc, failed), v') →
  same_view script direct sdev v v' ∧
  (rc = 0 → queue v' = [] ∧ ∃ w', batch (R:=Z) sdev (queue v) (server v) = Ret NO_ERROR w' ∧
                  loc (server v') = loc w').
Proof.
  unfold exec_direct. destruct (refused v); [by intros [= <- _ <-]; split; [apply same_server|]|].
  destruct (batch sdev (queue v) (server v)) as [rc0 w|h w] eqn:E;
    [|by intros [= <- _ <-]; split; [apply same_server|]].
  destruct ((rc0 =? NO_ERROR) && _ && _ && _) eqn:Hc;
    [|by intros [= <- _ <-]; split; [apply same_server|]].
  rewrite !andb_true_iff, !bool_decide_eq_true, Z.eqb_eq in Hc. destruct Hc as [[[-> _] Hs] Hd].
  intros [= <- _ <-]. split; [split; [intros p; by apply sizes_eq|done]|]. intros _.
  split; [done|]. by exists w.
Qed.

#[local] Instance client_laws : SpiClientLaws Z script direct sdev.
Proof.
  split.
  - intros name n sz v rc v' [= _ <-]. by apply same_server.
  - intros v u v' [= _ <-]. by split; [apply same_server|].
  - intros hz v rc v'. apply add_ok.
  - intros hz v rc p v'. cbn. destruct (add SetClk v) as [rc0 v0] eqn:E.
    intros [= <- _ <-]. by apply add_ok.
  - intros v rc v'. apply add_ok.
  - intros v rc v'. apply add_ok.
  - intros v rc v' [= _ <-]. by apply same_server.
  - intros ns v rc v'. apply add_ok.
  - apply add_transfer_ok.
  - apply exec_direct_ok.
  - intros p n v bs Hn Hp. cbn in *. rewrite Hp. by rewrite (proj2 (Z.leb_le _ _)) by lia.
  - intros p data v bs Hl Hp. cbn in *. rewrite Hp, (proj2 (Nat.leb_le _ _)) by done. by eexists.
  - intros v t v' [= <- <-]. split; [apply Z.mod_pos_bound; lia|by apply same_server].
Qed.
End Laws.
#[local] Existing Instance client_laws.

(** The two devices of the test, over [swspi_init]. *)
Definition tester (buf : bytes) : world test_state unit direct :=
  World (TestState buf [TestDev "test" false false; TestDev "loopback" false true] []) ()
    (Direct (World (swspi_init true) () Sim.quiet []) [] None) [].

(** All the tests but the largest: no check fails, on either device. *)
Definition run_all (idx : Z) (sdev : ptr) : bool :=
  match foldM (λ _ test, run_swspi_test (SpiClient0:=client sdev) idx test) tt
          (delete 12%nat (swspi_tests (R:=Z) (SpiClient0:=client sdev)))
          (tester (replicate 1024 0)) with
  | Ret _ w => bool_decide (length (failures (loc w)) = 0%nat)
  | Halt _ _ => false
  end.
Example suite_passes : run_all 0 test_dev && run_all 1 loopback_dev = true.
Proof. by vm_compute. Qed.

Definition loop_test : spi_test_dev := TestDev "loopback" false true.

(** [multi_segment_xfer], the fourteenth test, on the loopback device. *)
Lemma swspi_tests_blame_witness :
  ∃ test w, test = multi_segment_xfer (R:=Z) (SpiClient0:=client loopback_dev) ∧
  wph (run_swspi_test (SpiClient0:=client loopback_dev) 1 test)
    (λ _ w', blames (failures (loc w)) (failures (loc w')) ∧
             swspi_ready (SpiClient0:=client loopback_dev) loopback_dev 1 w')
    (λ h w', blames (failures (loc w)) (failures (loc w')) ∧ no_buffer UninitRead w h w') w.
Proof.
  assert (Z.of_nat (length (replicate (Z.to_nat TXRX_SIZE) 0)) = TXRX_SIZE) as Hbuf
    by (rewrite length_replicate; by apply Z2Nat.id).
  revert Hbuf. generalize (replicate (Z.to_nat TXRX_SIZE) 0). intros buf Hbuf.
  exists (multi_segment_xfer (R:=Z) (SpiClient0:=client loopback_dev)), (tester buf). split; [done|].
  apply (swspi_tests_blame (SpiClient0:=client loopback_dev) loopback_dev 13%nat); [done|done|].
  split; [done|]. exists loop_test. split; [done|]. by exists (SpiDev loopback_bus None 0 0 true).
Defined.
End SwspiDemo.
