(* ===== verification/AppMgmt.v ===== *)
(** The test servers of app-mgmt-test (port-start-srv, port-waiter-srv,
    boot-start-srv, never-start-srv, port-start-fail-srv, restart-srv) and the
    application of userscs-test: programs that own ports, handle sets and
    channels, and differ in when they give them back. *)

From S2P Require Import Prelude Ipc.

(** * 1. Interfaces *)

(** include/app_mgmt_port_consts.json and include/app_mgmt_test.h. *)
Definition SHUTDOWN_PORT : string := "com.android.trusty.appmgmt.portstartsrv.shutdown".
Definition CTRL_PORT : string := "com.android.trusty.appmgmt.portstartsrv.ctrl".
Definition START_PORT : string := "com.android.trusty.appmgmt.portstartsrv".
Definition START_FAIL_PORT : string := "com.android.trusty.appmgmt.portstartfailsrv".
Definition RESTART_PORT : string := "com.android.trusty.appmgmt.restartsrv".
Definition NEVER_START_PORT : string := "com.android.trusty.appmgmt.neverstartsrv".
Definition BOOT_START_PORT : string := "com.android.trusty.appmgmt.bootstartsrv".
Definition PORT_WAITER_PORT : string := "com.android.trusty.appmgmt.portwaitersrv".

Definition MAX_CMD_LEN : Z := 1.
Definition CMD_NOP : Z := 0.
Definition CMD_CLOSE_PORT : Z := 1.
Definition CMD_EXIT : Z := 2.
Definition CMD_OPEN_PORT : Z := 3.
Definition RSP_OK : Z := 0.
Definition RSP_CMD_FAILED : Z := 1.
Definition RSP_INVALID_CMD : Z := 2.

(** The calls of trusty_ipc.h that the services do not make.  [k_wait]
    answers with its return code and the event it filled in. *)
Class PortKernel (W : Type) := {
  IPC_CONNECT_WAIT_FOR_PORT : Z;
  INFINITE_TIME : Z;
  k_connect : string → Z → W → Z * W;
  k_wait : handle → Z → W → (Z * uevent) * W;
  k_handle_set_create : W → Z * W;
  k_handle_set_add : handle → handle → W → Z * W
}.

(** Handle sets are objects like others, and 0 is none of them. *)
Class PortKernelLaws (W : Type) `{PortKernel W} : Prop := {
  handle_set_nonzero e rc e' : k_handle_set_create e = (rc, e') → rc ≠ 0
}.

Section PortCalls.
Context {L D W : Type} `{!PortKernel W}.
Abbreviation C := (M (world L D W)).

Definition connect (name : string) (flags : Z) : C Z :=
  syscall (k_connect name flags) (SConnect name).
Definition wait (h : handle) (timeout : Z) : C (Z * uevent) :=
  syscall (k_wait h timeout) (λ r, SWait h r.1).
Definition handle_set_create : C Z := syscall k_handle_set_create SHandleSetCreate.
Definition handle_set_add (hset h : handle) : C Z :=
  syscall (k_handle_set_add hset h) (SHandleSetAdd hset h).
End PortCalls.

Section Servers.
Context {W : Type} `{!Uapi} `{!Kernel W} `{!PortKernel W}.
Abbreviation C := (M (world unit unit W)).

(** * 2. port-start-srv *)

(** The server is done when the first component is [true]; the second is
    [*start_port] afterwards. *)
Definition handle_cmd (cmd : Z) (channel start_port : handle) : C (bool * handle) :=
  r ← (if cmd =? CMD_NOP then ret (RSP_OK, false, start_port)
       else if cmd =? CMD_CLOSE_PORT then
         rc ← close start_port;
         if negb (rc =? NO_ERROR) then ret (RSP_CMD_FAILED, true, start_port)
         else ret (RSP_OK, false, start_port)
       else if cmd =? CMD_OPEN_PORT then
         rc ← port_create START_PORT 1 MAX_CMD_LEN IPC_PORT_ALLOW_TA_CONNECT;
         if rc <? 0 then ret (RSP_CMD_FAILED, true, start_port) else ret (RSP_OK, false, rc)
       else if cmd =? CMD_EXIT then ret (RSP_OK, true, start_port)
       else ret (RSP_INVALID_CMD, true, start_port));
  let '(rsp, done, start_port) := r in
  rc ← tipc_send channel [rsp];
  ret (if rc <? 0 then true else done, start_port).

Definition prepare_port (port_name : string) (hset : handle) : C Z :=
  assert (negb (hset =? 0));;
  rc ← port_create port_name 1 MAX_CMD_LEN IPC_PORT_ALLOW_TA_CONNECT;
  if rc <? 0 then ret rc else
  let port := rc in
  rc ← handle_set_add hset port;
  if rc <? 0 then close port;; ret rc else ret port.

(** [while (!done)], for at most [n] rounds: [None] when it is still running
    after them, or else [rc] and [start_port] when it has ended. *)
Fixpoint cmd_loop (n : nat) (mixed_hset shutdown_port channel start_port : handle) :
    C (option (Z * handle)) :=
  match n with
  | O => ret None
  | S n =>
    r ← wait mixed_hset INFINITE_TIME;
    let '(rc, uevt) := r in
    if rc <? 0 then ret (Some (rc, start_port)) else
    if ev_handle uevt =? shutdown_port then ret (Some (rc, start_port)) else
    if negb (has (ev_event uevt) IPC_HANDLE_POLL_MSG) then ret (Some (rc, start_port)) else
    r ← tipc_recv channel 1 1;
    let '(rc, bs) := r in
    if rc <? 0 then ret (Some (rc, start_port)) else
    match bs with
    | [] => stop UninitRead
    | cmd :: _ =>
      r ← handle_cmd cmd channel start_port;
      let '(done, start_port) := r in
      if (done : bool) then ret (Some (0, start_port))
      else cmd_loop n mixed_hset shutdown_port channel start_port
    end
  end.

(** A label of the error path: once the code above it has ended, [h] is
    closed. *)
Definition closing {A} (h : handle) (m : C (option A)) : C (option A) :=
  r ← m;
  match r with
  | None => ret None
  | Some a => close h;; ret (Some a)
  end.

(** The same, for the handle that [start_port] is by then. *)
Definition closing_start_port (m : C (option (Z * handle))) : C (option Z) :=
  r ← m;
  match r with
  | None => ret None
  | Some (rc, start_port) => close start_port;; ret (Some rc)
  end.

Definition serve_channel (n : nat) (mixed_hset shutdown_port start_port channel : handle) :
    C (option (Z * handle)) :=
  rc ← handle_set_add mixed_hset channel;
  if rc <? 0 then ret (Some (rc, start_port)) else
  cmd_loop n mixed_hset shutdown_port channel start_port.

Definition accept_and_serve (n : nat) (port_hset mixed_hset shutdown_port start_port : handle) :
    C (option (Z * handle)) :=
  r ← wait port_hset INFINITE_TIME;
  let '(rc, uevt) := r in
  if negb (rc =? NO_ERROR) || negb (has (ev_event uevt) IPC_HANDLE_POLL_READY)
  then ret (Some (rc, start_port)) else
  r ← accept (ev_handle uevt);
  let '(rc, _) := r in
  if rc <? 0 then ret (Some (rc, start_port)) else
  closing rc (serve_channel n mixed_hset shutdown_port start_port rc).

Definition port_start_main (n : nat) : C (option Z) :=
  rc ← handle_set_create;
  if rc <? 0 then ret (Some rc) else
  let port_hset := rc in
  closing port_hset (
    rc ← prepare_port START_PORT port_hset;
    if rc <? 0 then ret (Some rc) else
    let start_port := rc in
    closing_start_port (
      rc ← prepare_port CTRL_PORT port_hset;
      if rc <? 0 then ret (Some (rc, start_port)) else
      closing rc (
        rc ← handle_set_create;
        if rc <? 0 then ret (Some (rc, start_port)) else
        let mixed_hset := rc in
        closing mixed_hset (
          rc ← prepare_port SHUTDOWN_PORT mixed_hset;
          if rc <? 0 then ret (Some (rc, start_port)) else
          closing rc (accept_and_serve n port_hset mixed_hset rc start_port))))).

(** * 3. port-waiter-srv *)

(** [m], and then the close of [h] on its way out. *)
Definition then_close (h : handle) (m : C Z) : C Z := rc ← m; close h;; ret rc.

(** From the exit command to the client's answer. *)
Definition forward_exit (shandle chandle : handle) : C Z :=
  rc ← tipc_send shandle [CMD_EXIT];
  if negb (rc =? 1) then ret rc else
  r ← wait shandle INFINITE_TIME;
  let '(rc, uevt) := r in
  if negb (rc =? NO_ERROR) || negb (has (ev_event uevt) IPC_HANDLE_POLL_MSG) then ret rc else
  r ← tipc_recv shandle 1 1;
  let '(rc, bs) := r in
  if negb (rc =? 1) then ret rc else
  match bs with
  | [] => stop UninitRead
  | rsp :: _ =>
    rc ← tipc_send chandle [rsp];
    if negb (rc =? 1) then ret rc else ret 0
  end.

Definition port_waiter_main : C Z :=
  rc ← connect START_PORT IPC_CONNECT_WAIT_FOR_PORT;
  if rc <? 0 then ret rc else
  let shandle := rc in
  then_close shandle (
    rc ← port_create PORT_WAITER_PORT 1 1 IPC_PORT_ALLOW_TA_CONNECT;
    if rc <? 0 then ret rc else
    let phandle := rc in
    then_close phandle (
      r ← wait phandle INFINITE_TIME;
      let '(rc, uevt) := r in
      if negb (rc =? NO_ERROR) || negb (has (ev_event uevt) IPC_HANDLE_POLL_READY) then ret rc else
      r ← accept (ev_handle uevt);
      let '(rc, _) := r in
      if rc =? ERR_CHANNEL_CLOSED then ret rc else
      if rc <? 0 then ret rc else
      then_close rc (forward_exit shandle rc))).

(** * 4. boot-start-srv *)

(** [while (true)], for at most [n] rounds. *)
Fixpoint boot_start_loop (n : nat) (phandle : handle) : C (option Z) :=
  match n with
  | O => ret None
  | S n =>
    r ← wait phandle INFINITE_TIME;
    let '(rc, uevt) := r in
    if negb (rc =? NO_ERROR) || negb (has (ev_event uevt) IPC_HANDLE_POLL_READY)
    then ret (Some rc) else
    r ← accept (ev_handle uevt);
    let '(rc, _) := r in
    if rc =? ERR_CHANNEL_CLOSED then boot_start_loop n phandle else
    if rc <? 0 then ret (Some rc) else
    rc ← close rc;
    if rc <? 0 then ret (Some rc) else boot_start_loop n phandle
  end.

Definition boot_start_main (n : nat) : C (option Z) :=
  rc ← port_create BOOT_START_PORT 1 1 IPC_PORT_ALLOW_TA_CONNECT;
  if rc <? 0 then ret (Some rc) else boot_start_loop n rc.

(** * 5. never-start-srv and port-start-fail-srv *)

(** The two programs differ in the name of the port.  The channel they close
    is the return code of [wait]. *)
Definition never_start_main (port_name : string) : C Z :=
  rc ← port_create port_name 1 1 IPC_PORT_ALLOW_TA_CONNECT;
  if rc <? 0 then ret rc else
  let phandle := rc in
  r ← wait phandle (-1);
  let '(rc, uevt) := r in
  if negb (rc =? NO_ERROR) || negb (has (ev_event uevt) IPC_HANDLE_POLL_READY) then ret rc else
  let chandle := rc in
  rc ← close chandle;
  if rc <? 0 then ret rc else ret 0.
Definition port_start_fail_main : C Z := never_start_main START_FAIL_PORT.

(** * 6. restart-srv, and the application of userscs-test *)

Definition restart_main : C Z :=
  rc ← port_create RESTART_PORT 1 1 IPC_PORT_ALLOW_TA_CONNECT;
  if rc <? 0 then ret rc else
  r ← wait rc INFINITE_TIME;
  let '(rc, uevt) := r in
  if negb (rc =? NO_ERROR) || negb (has (ev_event uevt) IPC_HANDLE_POLL_READY) then ret rc
  else ret 0.

(** Built in several variants, which differ in the name of the port. *)
Definition scs_test_main (port_name : string) : C Z :=
  rc ← port_create port_name 1 1 IPC_PORT_ALLOW_TA_CONNECT;
  if rc <? 0 then ret rc else
  wait rc INFINITE_TIME;;
  ret 1.
End Servers.
