(* ===== verification/AppMgmtCorrect.v ===== *)
(** The correctness of the servers of AppMgmt.v: what each command does, and
    that handles are given back. *)

From S2P Require Import Prelude Ipc AppMgmt.

(** * 1. Commands *)

(** What a command does: the calls it makes (newest first), the response, whether
    the server is then done, and its start port. *)
Inductive cmd_effect (cmd : Z) (sp : handle) : list sysev → Z → bool → handle → Prop :=
| EffNop : cmd = CMD_NOP → cmd_effect cmd sp [] RSP_OK false sp
| EffClose : cmd = CMD_CLOSE_PORT → cmd_effect cmd sp [SClose sp] RSP_OK false sp
| EffCloseFailed : cmd = CMD_CLOSE_PORT → cmd_effect cmd sp [SClose sp] RSP_CMD_FAILED true sp
| EffOpen rc : cmd = CMD_OPEN_PORT → 0 ≤ rc →
    cmd_effect cmd sp [SPortCreate START_PORT rc] RSP_OK false rc
| EffOpenFailed rc : cmd = CMD_OPEN_PORT → rc < 0 →
    cmd_effect cmd sp [SPortCreate START_PORT rc] RSP_CMD_FAILED true sp
| EffExit : cmd = CMD_EXIT → cmd_effect cmd sp [] RSP_OK true sp
| EffInvalid : cmd ∉ [CMD_NOP; CMD_CLOSE_PORT; CMD_EXIT; CMD_OPEN_PORT] →
    cmd_effect cmd sp [] RSP_INVALID_CMD true sp.

(** * 2. What the client did to the start port *)

(** The commands received, newest first. *)
Definition received (tr : list sysev) : list Z :=
  omap (λ e, match e with
             | SRecv _ rc (c :: _) => if 0 <=? rc then Some c else None
             | _ => None
             end) tr.

(** Whether the start port is open after some commands: [None] when one of
    them closes a closed port or opens an open one. *)
Definition port_step (c : Z) (o : option bool) : option bool :=
  match o with
  | None => None
  | Some b =>
    if c =? CMD_CLOSE_PORT then if b then Some false else None
    else if c =? CMD_OPEN_PORT then if b then None else Some true
    else Some b
  end.
Definition port_after (cmds : list Z) : option bool := foldr port_step (Some true) cmds.

(** A port_create of the start port that failed. *)
Definition open_failed (tr : list sysev) : Prop :=
  ∃ rc, rc < 0 ∧ SPortCreate START_PORT rc ∈ tr.

(** A call that receives nothing. *)
Definition silent (e : sysev) : bool := match e with SRecv _ _ _ => false | _ => true end.

Lemma received_silent e tr : silent e = true → received (e :: tr) = received tr.
Proof. by destruct e. Qed.

Lemma open_failed_cons e tr : open_failed tr → open_failed (e :: tr).
Proof. intros (rc & Hrc & Hin). exists rc. split; [done|by right]. Qed.

(** An account [I l tr] of the handles [l] that a trace holds: calls that move
    no handle keep it, and it follows the ones that obtain or close one. *)
Class Ledger (I : list handle → list sysev → Prop) : Prop := {
  ledger_neutral e l tr : neutral e = true → silent e = true → I l tr → I l (e :: tr);
  ledger_open e h l tr : opened [e] = [h] → closed [e] = [] → silent e = true →
    I l tr → I (h :: l) (e :: tr);
  ledger_close h l tr : I (h :: l) tr → I l (SClose h :: tr)
}.

(** The handles [sp] of the start port and [rest] are held, as the commands
    received have it; the second form is that of a server that is done. *)
Definition port_held (sp : handle) (rest : list handle) (tr : list sysev) : Prop :=
  0 ≤ sp ∧ ∀ o : bool, port_after (received tr) = Some o →
    balanced tr ((if o then [sp] else []) ++ rest).
Definition port_done (sp : handle) (rest : list handle) (tr : list sysev) : Prop :=
  0 ≤ sp ∧ ∀ o : bool, port_after (received tr) = Some o →
    balanced tr ((if o then [sp] else []) ++ rest) ∨ (o = true ∧ open_failed tr ∧ balanced tr rest).

Lemma balanced_opening e h l tr :
  opened [e] = [h] → closed [e] = [] → balanced tr l → balanced (e :: tr) (h :: l).
Proof.
  intros Ho Hc Hb. unfold balanced. change (e :: tr) with ([e] ++ tr). unfold opened, closed in *.
  rewrite !omap_app, Ho, Hc. cbn [app]. rewrite Hb. by rewrite <- Permutation_middle.
Qed.

#[export] Instance balanced_ledger : Ledger (λ l tr, balanced tr l).
Proof.
  split; intros; [by apply balanced_neutral|by apply balanced_opening|by apply balanced_close].
Qed.

(** Before any command. *)
#[export] Instance quiet_ledger : Ledger (λ l tr, balanced tr l ∧ received tr = []).
Proof.
  split.
  - intros e l tr Hn Hs [Hb Hr]. rewrite received_silent by done. by split; [apply balanced_neutral|].
  - intros e h l tr Ho Hc Hs [Hb Hr]. rewrite received_silent by done.
    by split; [apply balanced_opening|].
  - intros h l tr [Hb Hr]. by split; [apply balanced_close|].
Qed.

Section Held.
Implicit Types (sp : handle) (rest : list handle) (tr : list sysev).

Lemma held_done sp rest tr : port_held sp rest tr → port_done sp rest tr.
Proof. intros [Hsp Hb]. split; [done|]. auto. Qed.

#[export] Instance port_done_ledger sp : Ledger (port_done sp).
Proof.
  split.
  - intros e l tr Hn Hs [Hsp Hb]. split; [done|]. rewrite received_silent by done. intros o Ho.
    destruct (Hb o Ho) as [?|(-> & ? & ?)]; [left; by apply balanced_neutral|].
    right. split_and!; [done|by apply open_failed_cons|by apply balanced_neutral].
  - intros e h l tr Ho Hc Hs [Hsp Hb]. split; [done|]. rewrite received_silent by done.
    intros o E. destruct (Hb o E) as [?|(-> & ? & ?)].
    + left. eapply balanced_perm; [apply Permutation_middle|]. by apply balanced_opening.
    + right. split_and!; [done|by apply open_failed_cons|by apply balanced_opening].
  - intros h l tr [Hsp Hb]. split; [done|]. rewrite received_silent by done. intros o E.
    destruct (Hb o E) as [Hx|(-> & ? & ?)].
    + left. apply balanced_close. eapply balanced_perm; [|exact Hx].
      symmetry. apply Permutation_middle.
    + right. split_and!; [done|by apply open_failed_cons|by apply balanced_close].
Qed.

#[export] Instance port_held_ledger sp : Ledger (port_held sp).
Proof.
  split.
  - intros e l tr Hn Hs [Hsp Hb]. split; [done|]. rewrite received_silent by done. intros o Ho.
    by apply balanced_neutral, Hb.
  - intros e h l tr Ho Hc Hs [Hsp Hb]. split; [done|]. rewrite received_silent by done.
    intros o E. eapply balanced_perm; [apply Permutation_middle|]. by apply balanced_opening, Hb.
  - intros h l tr [Hsp Hb]. split; [done|]. rewrite received_silent by done. intros o E.
    apply balanced_close. eapply balanced_perm; [|by apply Hb]. symmetry. apply Permutation_middle.
Qed.
End Held.

(** What a call that obtains a handle when it succeeds adds to an account. *)
Definition gains (I : list handle → list sysev → Prop) (l : list handle) (rc : Z)
    (tr : list sysev) : Prop := if rc <? 0 then I l tr else I (rc :: l) tr.

Lemma ledger_gains I `{!Ledger I} e rc l tr :
  (∃ s, e = SConnect s rc ∨ e = SPortCreate s rc) ∨
    (∃ p, e = SAccept p rc) ∨ e = SHandleSetCreate rc →
  I l tr → gains I l rc (e :: tr).
Proof.
  intros He Hi. unfold gains.
  assert (neutral e = (rc <? 0) ∧ silent e = true ∧ closed [e] = [] ∧
    opened [e] = if 0 <=? rc then [rc] else []) as (Hn & Hs & Hc & Ho).
  { destruct He as [(s & [->| ->])|[(p & ->)| ->]]; cbn; by destruct (0 <=? rc). }
  destruct (Z.ltb_spec rc 0).
  - by apply ledger_neutral.
  - apply ledger_open; [|done..]. by rewrite (proj2 (Z.leb_le _ _)) in Ho.
Qed.

(** * 3. port-start-srv *)

Section Start.
Context {W : Type} `{!Uapi} `{!Kernel W} `{!KernelLaws W} `{!PortKernel W} `{!PortKernelLaws W}.
Implicit Types w : world unit unit W.

Lemma handle_cmd_spec cmd channel sp w :
  wp (handle_cmd cmd channel sp) (λ r w', ∃ evs rsp done n,
    cmd_effect cmd sp evs rsp done r.2 ∧ trace w' = SSend channel [rsp] n :: evs ++ trace w ∧
    r.1 = done || (n <? 0)) w.
Proof.
  assert (∀ evs rsp (done : bool) sp' w', trace w' = evs ++ trace w →
    cmd_effect cmd sp evs rsp done sp' →
    wp (rc ← tipc_send channel [rsp]; ret (if rc <? 0 then true else done, sp')) (λ r w',
      ∃ evs rsp done n, cmd_effect cmd sp evs rsp done r.2 ∧
        trace w' = SSend channel [rsp] n :: evs ++ trace w ∧ r.1 = done || (n <? 0)) w') as Hsend.
  { intros evs rsp d sp' w' Ht He. apply wp_bind, wp_send. intros n v _. apply wp_ret.
    exists evs, rsp, d, n. split_and!; [done|cbn; by rewrite Ht|]. by destruct d, (n <? 0). }
  unfold handle_cmd. apply wp_bind.
  destruct (Z.eqb_spec cmd CMD_NOP); [apply wp_ret; by apply (Hsend []), EffNop|].
  destruct (Z.eqb_spec cmd CMD_CLOSE_PORT).
  { apply wp_bind, wp_close. intros rc v. wp_cases Hc; apply wp_ret.
    - by apply (Hsend [SClose sp]), EffCloseFailed.
    - by apply (Hsend [SClose sp]), EffClose. }
  destruct (Z.eqb_spec cmd CMD_OPEN_PORT).
  { apply wp_bind. ipc_call rc v E. wp_cases Hc; apply wp_ret.
    - apply (Hsend [SPortCreate START_PORT rc]), EffOpenFailed; [done|done|lia].
    - apply (Hsend [SPortCreate START_PORT rc]), EffOpen; [done|done|lia]. }
  destruct (Z.eqb_spec cmd CMD_EXIT); [apply wp_ret; by apply (Hsend []), EffExit|].
  apply wp_ret. apply (Hsend []), EffInvalid; [done|]. rewrite !not_elem_of_cons. set_solver.
Qed.
Lemma port_step_other cmd o :
  cmd ≠ CMD_CLOSE_PORT → cmd ≠ CMD_OPEN_PORT → port_step cmd o = o.
Proof.
  intros H1 H2. unfold port_step. rewrite (proj2 (Z.eqb_neq _ _) H1), (proj2 (Z.eqb_neq _ _) H2).
  by destruct o.
Qed.

(** A command received and its effect: a server that goes on still holds its
    port as the commands have it. *)
Lemma effect_held ch rc cmd bs sp rest tr evs rsp done sp' :
  0 ≤ rc → port_held sp rest tr → cmd_effect cmd sp evs rsp done sp' →
  let tr' := evs ++ SRecv ch rc (cmd :: bs) :: tr in
  if done then port_done sp' rest tr' else port_held sp' rest tr'.
Proof.
  intros Hrc [Hsp Hb] He tr'.
  assert (received tr' = cmd :: received tr) as Hr.
  { unfold tr'. destruct He; cbn [app]; rewrite ?received_silent by done; cbn;
      by rewrite (proj2 (Z.leb_le _ _)). }
  assert (∀ o, port_after (received tr) = Some o →
    balanced (SRecv ch rc (cmd :: bs) :: tr) ((if o then [sp] else []) ++ rest)) as Hb' by
    (intros o Ho; by apply balanced_neutral, Hb).
  assert (cmd ≠ CMD_CLOSE_PORT → cmd ≠ CMD_OPEN_PORT → evs = [] → sp' = sp →
    port_held sp' rest tr') as Hsame.
  { intros H1 H2 -> ->. split; [done|]. rewrite Hr. cbn. by rewrite port_step_other. }
  destruct He as [->| ->| ->|rc' -> Hrc'|rc' -> Hrc'| ->|Hin].
  - by apply Hsame.
  - split; [done|]. rewrite Hr. cbn. fold (port_after (received tr)). intros o Ho.
    destruct (port_after (received tr)) as [[]|]; cbn in Ho; simplify_eq. by apply balanced_close, (Hb' true).
  - split; [done|]. rewrite Hr. cbn. fold (port_after (received tr)). intros o Ho.
    destruct (port_after (received tr)) as [[]|]; cbn in Ho; simplify_eq. left. by apply balanced_close, (Hb' true).
  - split; [done|]. rewrite Hr. cbn. fold (port_after (received tr)). intros o Ho.
    destruct (port_after (received tr)) as [[]|]; cbn in Ho; simplify_eq.
    by apply balanced_port, (Hb' false).
  - split; [done|]. rewrite Hr. cbn. fold (port_after (received tr)). intros o Ho.
    destruct (port_after (received tr)) as [[]|]; cbn in Ho; simplify_eq. right. split_and!; [done| |].
    + exists rc'. split; [done|]. by left.
    + apply balanced_neutral; [cbn; lia|]. by apply (Hb' false).
  - by apply held_done, Hsame.
  - apply held_done, Hsame; [| |done|done]; intros ->; apply Hin; set_solver.
Qed.

(** The loop, however long it is observed. *)
Lemma cmd_loop_spec n mixed shutdown channel rest : ∀ sp w,
  port_held sp rest (trace w) →
  wp (cmd_loop n mixed shutdown channel sp) (λ r w',
    match r with
    | None => ∃ sp', port_held sp' rest (trace w')
    | Some (_, sp') => port_done sp' rest (trace w')
    end) w.
Proof.
  induction n as [|n IH]; intros sp w Hw; cbn [cmd_loop]; [apply wp_ret; by exists sp|].
  apply wp_bind. ipc_call r v E. destruct r as [rc uevt]. cbn [fst].
  set (w1 := logged _ _ _). assert (port_held sp rest (trace w1)) as Hw1 by by apply ledger_neutral.
  wp_cases H1; [by apply wp_ret, held_done|]. wp_cases H2; [by apply wp_ret, held_done|].
  wp_cases H3; [by apply wp_ret, held_done|].
  apply wp_bind. ipc_call r2 v2 E2. destruct r2 as [rc2 bs]. cbn [fst snd]. wp_cases H4.
  { apply wp_ret, held_done. destruct Hw1 as [Hsp Hb]. split; [done|]. intros o. cbn.
    rewrite (proj2 (Z.leb_gt _ _)) by lia. intros Ho.
    destruct bs; by apply balanced_neutral, Hb. }
  destruct (k_recv_ok _ _ _ _ _ _ _ E2) as ([Hlo _] & Hl & _); [lia|].
  destruct bs as [|cmd bs]; [cbn in Hl; lia|].
  apply wp_bind. eapply wp_mono; [apply handle_cmd_spec|].
  intros [d sp'] w3 (evs & rsp & done & m & He & Ht & Hd). cbn [fst snd] in *.
  pose proof (effect_held channel rc2 cmd bs sp rest _ evs rsp done sp' ltac:(lia) Hw1 He) as Hx.
  cbn zeta in Hx. change (trace (logged (SRecv channel rc2 (cmd :: bs)) v2 w1))
    with (SRecv channel rc2 (cmd :: bs) :: trace w1) in Ht.
  destruct d.
  - apply wp_ret. rewrite Ht. apply ledger_neutral; [done|done|].
    destruct done; [done|by apply held_done].
  - destruct done; [done|]. apply IH. rewrite Ht. by apply ledger_neutral.
Qed.
(** The labels of the error paths. *)
Lemma wp_closing {A} h (m : M (world unit unit W) (option A)) Q w :
  wp m (λ r w', match r with
                | None => Q None w'
                | Some a => ∀ v, Q (Some a) (logged (SClose h) v w')
                end) w → wp (closing h m) Q w.
Proof.
  intros Hm. unfold closing. apply wp_bind. eapply wp_mono; [exact Hm|]. cbn beta.
  intros [a|] w' HQ; [|by apply wp_ret]. apply wp_bind, wp_close. intros _ v. by apply wp_ret.
Qed.

(** A part of main that, once it has ended, leaves [rest] and the start port. *)
Definition leaves (rest : list handle) (r : option (Z * handle)) (w : world unit unit W) : Prop :=
  match r with None => True | Some (_, sp) => port_done sp rest (trace w) end.

Lemma closing_leaves h m rest w : wp m (leaves (h :: rest)) w → wp (closing h m) (leaves rest) w.
Proof.
  intros Hm. apply wp_closing. eapply wp_mono; [exact Hm|]. intros [[rc sp]|] w' Hl; [|done].
  intros v. by apply ledger_close.
Qed.

Lemma ret_leaves rc sp rest w :
  port_held sp rest (trace w) → wp (ret (Some (rc, sp))) (leaves rest) w.
Proof. intros Hw. by apply wp_ret, held_done. Qed.

Lemma prepare_port_spec I `{!Ledger I} l name hset w :
  hset ≠ 0 → I l (trace w) →
  wp (prepare_port name hset) (λ rc w', gains I l rc (trace w')) w.
Proof.
  intros Hh Hi. unfold prepare_port. apply wp_bind, wp_assert; [lia|].
  apply wp_bind. ipc_call rc v E. apply (ledger_gains I (SPortCreate name rc) rc) in Hi; [|eauto].
  unfold gains in Hi. wp_cases H1; rewrite H1 in Hi.
  { apply wp_ret. unfold gains. by rewrite H1. }
  apply wp_bind. ipc_call rc2 v2 E2. wp_cases H2.
  - apply wp_bind, wp_close. intros _ v3. apply wp_ret. unfold gains. rewrite H2.
    by apply ledger_close, ledger_neutral.
  - apply wp_ret. unfold gains. rewrite H1. by apply ledger_neutral.
Qed.

Lemma accept_and_serve_spec n port_hset mixed shutdown sp rest w :
  port_held sp rest (trace w) →
  wp (accept_and_serve n port_hset mixed shutdown sp) (leaves rest) w.
Proof.
  intros Hw. unfold accept_and_serve. apply wp_bind. ipc_call r v E. destruct r as [rc uevt].
  cbn [fst]. assert (port_held sp rest (trace (logged (SWait port_hset rc) v w))) as Hw1
    by by apply ledger_neutral.
  wp_cases H1; [by apply ret_leaves|].
  apply wp_bind. ipc_call r2 v2 E2. destruct r2 as [rc2 u]. cbn [fst].
  apply (ledger_gains _ (SAccept (ev_handle uevt) rc2) rc2) in Hw1; [|eauto].
  unfold gains in Hw1. wp_cases H2; rewrite H2 in Hw1; [by apply ret_leaves|].
  apply closing_leaves. unfold serve_channel. apply wp_bind. ipc_call rc3 v3 E3.
  assert (port_held sp (rc2 :: rest) (SHandleSetAdd mixed rc2 rc3 :: SAccept (ev_handle uevt) rc2 ::
    trace (logged (SWait port_hset rc) v w))) as Hw3 by by apply ledger_neutral.
  wp_cases H3; [by apply ret_leaves|].
  eapply wp_mono; [by apply cmd_loop_spec|]. by intros [[rc4 sp']|] w' Hw'.
Qed.

(** From the start port on. *)
Lemma start_port_spec n port_hset sp w :
  port_hset ≠ 0 → port_held sp [port_hset] (trace w) →
  wp (rc ← prepare_port CTRL_PORT port_hset;
      if rc <? 0 then ret (Some (rc, sp)) else
      closing rc (
        rc ← handle_set_create;
        if rc <? 0 then ret (Some (rc, sp)) else
        closing rc (
          shutdown ← prepare_port SHUTDOWN_PORT rc;
          if shutdown <? 0 then ret (Some (shutdown, sp)) else
          closing shutdown (accept_and_serve n port_hset rc shutdown sp))))
    (leaves [port_hset]) w.
Proof.
  intros Hh Hw. apply wp_bind. eapply wp_mono; [by apply (prepare_port_spec (port_held sp))|].
  intros ctrl w1 Hw1. unfold gains in Hw1. wp_cases H1; rewrite H1 in Hw1; [by apply ret_leaves|].
  apply closing_leaves, wp_bind. ipc_call mixed v E.
  apply (ledger_gains _ (SHandleSetCreate mixed) mixed) in Hw1; [|eauto].
  unfold gains in Hw1. wp_cases H2; rewrite H2 in Hw1; [by apply ret_leaves|].
  apply closing_leaves, wp_bind.
  eapply wp_mono; [apply (prepare_port_spec (port_held sp)); [by eapply handle_set_nonzero|exact Hw1]|].
  intros sd w2 Hw2. unfold gains in Hw2. wp_cases H3; rewrite H3 in Hw2; [by apply ret_leaves|].
  by apply closing_leaves, accept_and_serve_spec.
Qed.

(** The handles of port-start-srv when main has ended. *)
Lemma port_start_main_spec n w :
  trace w = [] →
  wp (port_start_main n) (λ r w', r ≠ None →
    let twice := ∃ h, closed (trace w') ≡ₚ h :: opened (trace w') in
    match port_after (received (trace w')) with
    | Some true => balanced (trace w') [] ∨ (open_failed (trace w') ∧ twice)
    | Some false => twice
    | None => True
    end) w.
Proof.
  intros Ht. unfold port_start_main. apply wp_bind. ipc_call hset v E.
  assert (balanced (trace w) [] ∧ received (trace w) = []) as Hi
    by (rewrite Ht; split; [apply Permutation_refl|done]).
  apply (ledger_gains (λ l tr, balanced tr l ∧ received tr = []) (SHandleSetCreate hset) hset) in Hi; [|eauto].
  unfold gains in Hi. wp_cases H1; rewrite H1 in Hi.
  { apply wp_ret. intros _. cbn [trace logged]. destruct Hi as [Hb ->]. by left. }
  apply handle_set_nonzero in E. apply wp_closing, wp_bind.
  eapply wp_mono; [by apply (prepare_port_spec (λ l tr, balanced tr l ∧ received tr = []))|].
  intros sp w1 Hw1. unfold gains in Hw1. wp_cases H2; rewrite H2 in Hw1; destruct Hw1 as [Hb Hr].
  { apply wp_ret. intros v1 _. cbn [trace logged]. rewrite received_silent, Hr by done.
    left. by apply balanced_close. }
  unfold closing_start_port. apply wp_bind.
  eapply wp_mono; [apply start_port_spec; [done|]|].
  { split; [lia|]. rewrite Hr. intros o [= <-]. exact Hb. }
  intros [[rc sp']|] w2 Hw2; [|by apply wp_ret].
  apply wp_bind, wp_close. intros _ v2. apply wp_ret. cbn beta iota. intros v3 _.
  cbn [trace logged].
  rewrite !received_silent by done. destruct Hw2 as [Hsp Hw2].
  assert (∀ tr, 0 ≤ sp' → balanced tr [hset] →
    ∃ h, closed (SClose hset :: SClose sp' :: tr) ≡ₚ h :: opened (SClose hset :: SClose sp' :: tr))
    as Htwice.
  { intros tr _ Hx. exists sp'. pose proof (balanced_nonneg _ _ _ Hx). cbn.
    rewrite !(proj2 (Z.leb_le _ _)) by done. fold (closed tr) (opened tr). rewrite Hx.
    rewrite <- Permutation_middle, app_nil_r. apply perm_swap. }
  destruct (port_after (received (trace w2))) as [[]|]; [| |done].
  2: { destruct (Hw2 false eq_refl) as [Hx|(? & _)]; [by apply Htwice|done]. }
  destruct (Hw2 true eq_refl) as [Hx|(_ & Hf & Hx)].
  - left. by apply balanced_close, balanced_close.
  - right. split; [by do 2 apply open_failed_cons|by apply Htwice].
Qed.

(** C24. port-start-srv, for every behaviour of the kernel and of its clients:
    main never trips its assertions and, when it ends, it has closed every
    handle it obtained exactly once (handle sets, ports, the channel, and
    each start port that CMD_OPEN_PORT created), provided the client closes
    the port only when it is open and opens it only when it is closed.  When
    the last such command closed the port, or opened it without success, the
    exit path closes it a second time. *)
Theorem port_start_main_releases n w :
  trace w = [] →
  wp (port_start_main n) (λ r w', r ≠ None →
    let twice := ∃ h, closed (trace w') ≡ₚ h :: opened (trace w') in
    match port_after (received (trace w')) with
    | Some true => balanced (trace w') [] ∨ (open_failed (trace w') ∧ twice)
    | Some false => twice
    | None => True
    end) w.
Proof. apply port_start_main_spec. Qed.

(** Each command to port-start-srv, on every branch: exactly the calls it
    asks for, one response byte that says whether they succeeded, and the
    server goes on unless it was told to exit, a call failed, the command is
    unknown or the response cannot be sent. *)
Theorem handle_cmd_correct cmd channel sp w :
  wp (handle_cmd cmd channel sp) (λ r w', ∃ evs rsp done n,
    cmd_effect cmd sp evs rsp done r.2 ∧ trace w' = SSend channel [rsp] n :: evs ++ trace w ∧
    r.1 = done || (n <? 0)) w.
Proof. apply handle_cmd_spec. Qed.
End Start.

(** * 4. The other servers *)

Section Others.
Context {W : Type} `{!Uapi} `{!Kernel W} `{!KernelLaws W} `{!PortKernel W}.
Implicit Types w : world unit unit W.

Lemma wp_then_close h (m : M (world unit unit W) Z) Q w :
  wp m (λ rc w', ∀ v, Q rc (logged (SClose h) v w')) w → wp (then_close h m) Q w.
Proof.
  intros Hm. unfold then_close. apply wp_bind. eapply wp_mono; [exact Hm|].
  intros rc w' HQ. apply wp_bind, wp_close. intros _ v. by apply wp_ret.
Qed.

(** What port-waiter-srv has done when it succeeds: it asked the server to exit
    and passed its response on to its client. *)
Definition exit_forwarded (shandle chandle : handle) (tr0 tr : list sysev) : Prop :=
  ∃ rsp rest wrc, tr = SSend chandle [rsp] 1 :: SRecv shandle 1 (rsp :: rest) ::
    SWait shandle wrc :: SSend shandle [CMD_EXIT] 1 :: tr0.

Lemma not_forwarded shandle chandle tr0 tr :
  length tr ≠ (4 + length tr0)%nat → ¬ exit_forwarded shandle chandle tr0 tr.
Proof. intros Hl (rsp & rest & wrc & ->). cbn in Hl. lia. Qed.

Lemma forward_exit_spec shandle chandle l w :
  balanced (trace w) l →
  wp (forward_exit shandle chandle) (λ rc w', balanced (trace w') l ∧
    ∀ tr0, length tr0 = length (trace w) →
      exit_forwarded shandle chandle tr0 (trace w') → rc = 0) w.
Proof.
  intros Hb. unfold forward_exit. apply wp_bind, wp_send. intros n v _.
  wp_cases H1; [apply wp_ret|].
  { split; [by apply balanced_neutral|]. intros tr0 Hl []%not_forwarded. cbn. lia. }
  apply wp_bind. ipc_call r v2 E2. destruct r as [rc uevt]. wp_cases H2; [apply wp_ret|].
  { split; [by repeat (apply balanced_neutral; [done|])|].
    intros tr0 Hl []%not_forwarded. cbn. lia. }
  apply wp_bind. ipc_call r v3 E3. destruct r as [rc3 bs]. cbn [fst snd].
  wp_cases H3; [apply wp_ret|].
  { split; [by repeat (apply balanced_neutral; [done|])|].
    intros tr0 Hl []%not_forwarded. cbn. lia. }
  destruct (k_recv_ok _ _ _ _ _ _ _ E3) as (_ & Hl & _); [lia|].
  destruct bs as [|rsp bs]; [cbn in Hl; lia|]. apply wp_bind, wp_send. intros m v4 _.
  wp_cases H4; apply wp_ret; (split; [by repeat (apply balanced_neutral; [done|])|]); [|done].
  intros tr0 _ (? & ? & ? & Ht). cbn in Ht. injection Ht as _ -> _ _ _. lia.
Qed.

(** The calls of a run that did all it was asked to. *)
Definition waiter_success (tr : list sysev) : Prop := ∃ s p c h wrc tr',
  tr = SClose s :: SClose p :: SClose c :: tr' ∧
  exit_forwarded s c [SAccept h c; SWait p wrc; SPortCreate PORT_WAITER_PORT p;
                      SConnect START_PORT s] tr'.

Lemma not_success tr : length tr ≠ 11%nat → ¬ waiter_success tr.
Proof. intros Hl (s & p & c & h & wrc & tr' & -> & rsp & rest & wrc' & ->). done. Qed.

(** port-waiter-srv closes every handle it obtained exactly once, on each of
    its paths: the connection to port-start-srv, its port and its client's
    channel; and it returns 0 when port-start-srv answered its exit command
    and the answer was passed on to the client. *)
Theorem port_waiter_main_releases w :
  trace w = [] →
  wp port_waiter_main (λ rc w', balanced (trace w') [] ∧ (waiter_success (trace w') → rc = 0)) w.
Proof.
  intros Ht. unfold port_waiter_main. apply wp_bind. ipc_call s v E.
  assert (balanced (trace w) []) as Hb by (rewrite Ht; apply Permutation_refl).
  apply (ledger_gains (λ l tr, balanced tr l) (SConnect START_PORT s) s) in Hb; [|eauto].
  unfold gains in Hb. wp_cases H1; rewrite H1 in Hb.
  { apply wp_ret. split; [exact Hb|]. intros []%not_success. cbn. rewrite Ht. cbn. lia. }
  apply wp_then_close, wp_bind. ipc_call p v1 E1.
  apply (ledger_gains (λ l tr, balanced tr l) (SPortCreate PORT_WAITER_PORT p) p) in Hb; [|eauto].
  unfold gains in Hb. wp_cases H2; rewrite H2 in Hb.
  { apply wp_ret. intros v2. split; [by apply balanced_close|].
    intros []%not_success. cbn. rewrite Ht. cbn. lia. }
  apply wp_then_close, wp_bind. ipc_call r v2 E2. destruct r as [rc uevt]. cbn [fst].
  apply (balanced_neutral (SWait p rc)) in Hb; [|done]. wp_cases H3.
  { apply wp_ret. intros v3 v4. split; [by apply balanced_close, balanced_close|].
    intros []%not_success. cbn. rewrite Ht. cbn. lia. }
  apply wp_bind. ipc_call r v3 E3. destruct r as [c u]. cbn [fst].
  apply (ledger_gains (λ l tr, balanced tr l) (SAccept (ev_handle uevt) c) c) in Hb; [|eauto].
  unfold gains in Hb. pose proof err_channel_closed_neg. wp_cases H4; [|wp_cases H5].
  1-2: replace (c <? 0) with true in Hb by lia; apply wp_ret; intros v4 v5;
    (split; [by apply balanced_close, balanced_close|]);
    intros []%not_success; cbn; rewrite Ht; cbn; lia.
  rewrite H5 in Hb. apply wp_then_close. eapply wp_mono; [by apply forward_exit_spec|].
  intros rc' w' [Hb' Hok] v4 v5 v6. split; [by apply balanced_close, balanced_close, balanced_close|].
  intros (s' & p' & c' & h & wrc & tr' & Htr & Hf). cbn in Htr. injection Htr as <- <- <- <-.
  eapply Hok, Hf. cbn. by rewrite Ht.
Qed.

(** boot-start-srv, for as long as it is observed: it holds its port and no
    channel, however its clients connect and disconnect. *)
Theorem boot_start_main_holds n w :
  trace w = [] →
  wp (boot_start_main n) (λ r w',
    (∃ port, balanced (trace w') [port]) ∨
    (∃ rc, r = Some rc ∧ rc < 0 ∧ balanced (trace w') [])) w.
Proof.
  intros Ht. unfold boot_start_main. apply wp_bind. ipc_call port v E.
  assert (balanced (trace w) []) as Hb by (rewrite Ht; apply Permutation_refl).
  apply (ledger_gains (λ l tr, balanced tr l) (SPortCreate BOOT_START_PORT port) port) in Hb; [|eauto].
  unfold gains in Hb. wp_cases H1; rewrite H1 in Hb.
  { apply wp_ret. right. exists port. split_and!; [done|lia|exact Hb]. }
  eapply (wp_mono _ (λ _ w', balanced (trace w') [port])); [|intros r w' Hw'; left; by exists port].
  change (balanced (trace (logged (SPortCreate BOOT_START_PORT port) v w)) [port]) in Hb.
  revert Hb. generalize (logged (SPortCreate BOOT_START_PORT port) v w). clear w v E Ht.
  induction n as [|n IH]; intros w Hb; cbn [boot_start_loop]; [done|].
  apply wp_bind. ipc_call r v E. destruct r as [rc uevt]. cbn [fst].
  assert (balanced (trace (logged (SWait port rc) v w)) [port]) as Hb1 by by apply balanced_neutral.
  wp_cases H2; [by apply wp_ret|]. apply wp_bind. ipc_call r v2 E2. destruct r as [c u]. cbn [fst].
  apply (ledger_gains (λ l tr, balanced tr l) (SAccept (ev_handle uevt) c) c) in Hb1; [|eauto].
  unfold gains in Hb1. pose proof err_channel_closed_neg. wp_cases H3.
  { apply IH. by replace (c <? 0) with true in Hb1 by lia. }
  wp_cases H4; rewrite H4 in Hb1; [by apply wp_ret|].
  apply wp_bind, wp_close. intros rc2 v3. apply balanced_close in Hb1.
  wp_cases H5; [by apply wp_ret|by apply IH].
Qed.

(** never-start-srv and port-start-fail-srv accept no connection: they close
    handle 0, the return code of wait, and keep their port. *)
Theorem never_start_main_closes_zero name w :
  trace w = [] →
  wp (never_start_main name) (λ _ w', opened (trace w') = [] ∨ ∃ port wrc,
    trace w' = [SWait port wrc; SPortCreate name port] ∨
    trace w' = [SClose 0; SWait port wrc; SPortCreate name port]) w.
Proof.
  intros Ht. unfold never_start_main. apply wp_bind. ipc_call port v E. wp_cases H1.
  { apply wp_ret. left. cbn. rewrite Ht. by rewrite (proj2 (Z.leb_gt _ _)) by lia. }
  apply wp_bind. ipc_call r v2 E2. destruct r as [rc uevt]. wp_cases H2.
  { apply wp_ret. right. exists port, rc. left. cbn. by rewrite Ht. }
  apply orb_false_iff in H2 as [H2 _]. pose proof no_error_zero as H0.
  assert (rc = 0) as -> by lia. apply wp_bind, wp_close. intros rc3 v3.
  wp_cases H3; apply wp_ret; right; exists port, 0; right; cbn; by rewrite Ht.
Qed.
End Others.
