(* ===== verification/AppMgmtDemo.v ===== *)
(** The theorems on the application management servers at concrete states: a
    client that closes and reopens the start port and then exits. *)

From S2P Require Import Prelude Ipc AppMgmt AppMgmtCorrect.

Module AppMgmtDemo.
#[local] Instance uapi : Uapi := Sim.uapi.

(** The scripted kernel, with the answers of [wait] queued. *)
Definition env_t : Type := list (Z * uevent) * script.
Definition lift {A} (f : script → A * script) (e : env_t) : A * env_t :=
  let '(a, s) := f e.2 in (a, (e.1, s)).
#[local] Instance kernel : Kernel env_t := {|
  k_port_create n q m f := lift (k_port_create (Kernel := Sim.kernel) n q m f);
  k_accept h := lift (k_accept (Kernel := Sim.kernel) h);
  k_set_cookie h := lift (k_set_cookie (Kernel := Sim.kernel) h);
  k_close h := lift (k_close (Kernel := Sim.kernel) h);
  k_send h bs := lift (k_send (Kernel := Sim.kernel) h bs);
  k_recv h mn mx := lift (k_recv (Kernel := Sim.kernel) h mn mx);
  k_alloc := lift (k_alloc (Kernel := Sim.kernel))
|}.

Lemma lift_inv {A} (f : script → A * script) e a e' :
  lift f e = (a, e') → f e.2 = (a, e'.2).
Proof. unfold lift. destruct (f e.2). by intros [= <- <-]. Qed.

#[local] Instance kernel_laws : KernelLaws env_t.
Proof.
  constructor. intros h mn mx e rc bs e' E Hrc.
  change (lift (k_recv (Kernel := Sim.kernel) h mn mx) e = ((rc, bs), e')) in E.
  apply lift_inv in E. by eapply (@k_recv_ok script Sim.kernel Sim.kernel_laws).
Qed.

Definition next_handle (e : env_t) : Z * env_t :=
  lift (k_port_create (Kernel := Sim.kernel) "" 0 0 0) e.
#[local] Instance ports : PortKernel env_t := {|
  IPC_CONNECT_WAIT_FOR_PORT := 1; INFINITE_TIME := -1;
  k_connect _ _ := next_handle;
  k_wait h _ e := match e.1 with
                  | [] => ((-13, UEvent h 0), e)
                  | a :: l => (a, (l, e.2))
                  end;
  k_handle_set_create e := let '(h, e) := next_handle e in (Z.max 1 h, e);
  k_handle_set_add _ _ e := (0, e)
|}.

#[local] Instance port_laws : PortKernelLaws env_t.
Proof. split. intros e rc e'. cbn. destruct (next_handle e). intros [= <- _]. lia. Qed.

(** Handles are given out from 100 on: the port set, the start and control
    ports, the mixed set and the shutdown port, so the channel is 105. *)
Definition start (waits : list (Z * uevent)) (msgs : list bytes) : world unit unit env_t :=
  World tt tt (waits, Script 100 [""%string] [] msgs []) [].
Definition msg : Z * uevent := (0, UEvent 105 8).
Definition close_open_exit : world unit unit env_t :=
  start [(0, UEvent 101 1); msg; msg; msg] [[CMD_CLOSE_PORT]; [CMD_OPEN_PORT]; [CMD_EXIT]].

Example close_open_exit_runs :
  match port_start_main 5 close_open_exit with
  | Ret r w' => r = Some 0 ∧ received (trace w') = [CMD_EXIT; CMD_OPEN_PORT; CMD_CLOSE_PORT] ∧
      take 6 (trace w') = [SClose 100; SClose 106; SClose 102; SClose 103; SClose 104; SClose 105]
  | Halt _ _ => False
  end.
Proof. by vm_compute. Qed.

Lemma port_start_main_releases_witness :
  wp (port_start_main 5) (λ r w', r ≠ None →
    let twice := ∃ h, closed (trace w') ≡ₚ h :: opened (trace w') in
    match port_after (received (trace w')) with
    | Some true => balanced (trace w') [] ∨ (open_failed (trace w') ∧ twice)
    | Some false => twice
    | None => True
    end) close_open_exit.
Proof. by apply port_start_main_releases. Defined.

Lemma handle_cmd_correct_witness :
  wp (handle_cmd CMD_OPEN_PORT 105 101) (λ r w', ∃ evs rsp done n,
    cmd_effect CMD_OPEN_PORT 101 evs rsp done r.2 ∧
    trace w' = SSend 105 [rsp] n :: evs ++ trace close_open_exit ∧
    r.1 = done || (n <? 0)) close_open_exit.
Proof. apply handle_cmd_correct. Defined.

Definition waiter : world unit unit env_t :=
  start [(0, UEvent 101 1); (0, UEvent 100 8)] [[RSP_OK]].

Example waiter_runs :
  match port_waiter_main waiter with
  | Ret rc w' => rc = 0 ∧ waiter_success (trace w')
  | Halt _ _ => False
  end.
Proof.
  vm_compute. split; [done|]. exists 100, 101, 102, 101, 0. eexists. split; [reflexivity|].
  exists 0, [], 0. reflexivity.
Qed.

Lemma port_waiter_main_releases_witness :
  wp port_waiter_main (λ rc w', balanced (trace w') [] ∧ (waiter_success (trace w') → rc = 0))
    waiter.
Proof. by apply port_waiter_main_releases. Defined.

Lemma boot_start_main_holds_witness :
  wp (boot_start_main 3) (λ r w',
    (∃ port, balanced (trace w') [port]) ∨
    (∃ rc, r = Some rc ∧ rc < 0 ∧ balanced (trace w') [])) waiter.
Proof. by apply boot_start_main_holds. Defined.
End AppMgmtDemo.
