(* ===== verification/Samples.v ===== *)
(** Two sample applications, storage-test.c and spinner.c, which do some work
    for as long as a client stays connected. *)

From S2P Require Import Prelude Ipc AppMgmt.

(** * 1. Interfaces *)

(** lib/storage: a call's return code and what it leaves in its output
    argument. *)
Class StorageClient (W : Type) := {
  STORAGE_CLIENT_TP_PORT : string;
  STORAGE_FILE_OPEN_CREATE : Z;
  STORAGE_FILE_OPEN_TRUNCATE : Z;
  STORAGE_OP_COMPLETE : Z;
  k_open_session : string → W → (Z * Z) * W;
  k_open_file : Z → string → Z → Z → W → (Z * Z) * W;
  k_storage_write : Z → Z → bytes → Z → W → Z * W;
  k_close_file : Z → W → unit * W;
  k_close_session : Z → W → unit * W
}.

(** trusty/time.h: [trusty_gettime] answers with its return code and the time
    it wrote when that is 0. *)
Class Clock (W : Type) := {
  k_gettime : W → (Z * Z) * W;
  k_nanosleep : Z → W → unit * W
}.

(** The calls of the storage client. *)
Inductive storage_ev :=
| OpenedSession (session : Z)
| OpenedFile (session file : Z)
| Wrote (file offset : Z) (data : bytes)
| ClosedFile (file : Z)
| ClosedSession (session : Z).

(** * 2. storage-test *)

Section Storage.
Context {W : Type} `{!Uapi} `{!Kernel W} `{!PortKernel W} `{!StorageClient W}.
Abbreviation C := (M (world (list storage_ev) unit W)).

Definition record (e : storage_ev) : C unit := mod_loc (cons e).

Definition kFilePath : string := "storage_test_file".

(** [sizeof(data)] is 1024; [data] is the content of the buffer before. *)
Definition write_file (data : bytes) (size : Z) : C Z :=
  let sizeof_data := Z.of_nat (length data) in
  let size := if sizeof_data <? size then sizeof_data else size in
  r ← env_call (k_open_session STORAGE_CLIENT_TP_PORT);
  let '(rc, session) := r in
  if rc <? 0 then ret (-1) else
  record (OpenedSession session);;
  r ← env_call (k_open_file session kFilePath
                  (Z.lor STORAGE_FILE_OPEN_CREATE STORAGE_FILE_OPEN_TRUNCATE) 0);
  let '(rc, handle) := r in
  (if rc <? 0 then ret tt else
   record (OpenedFile session handle);;
   (if (size <? 0) || (Z.of_nat (length data) <? size) then stop OutOfBounds else ret tt);;
   let data := memset0 (Z.to_nat size) data in
   env_call (k_storage_write handle 0 (take (Z.to_nat size) data) STORAGE_OP_COMPLETE);;
   record (Wrote handle 0 (take (Z.to_nat size) data));;
   env_call (k_close_file handle);;
   record (ClosedFile handle));;
  env_call (k_close_session session);;
  record (ClosedSession session);;
  ret 0.
End Storage.

(** * 3. The main loop of storage-test and spinner *)

(** The two programs have the same main, but for what they do first for a
    client ([greet]) and repeatedly while it is connected ([work]). *)
Section Main.
Context {L W : Type} `{!Uapi} `{!Kernel W} `{!PortKernel W}.
Abbreviation C := (M (world L unit W)).
Context (greet : C unit) (work : C Z).

(** The inner [for (;;)], for at most [n] rounds: whether it has ended. *)
Fixpoint ctrl_loop (n : nat) (ctrl_chan : handle) : C bool :=
  match n with
  | O => ret false
  | S n =>
    rc ← work;
    if rc <? 0 then ret true else
    r ← wait ctrl_chan 0;
    let '(rc, uevt) := r in
    if rc =? ERR_CHANNEL_CLOSED then ret true else
    if has (ev_event uevt) IPC_HANDLE_POLL_HUP then ret true else
    ctrl_loop n ctrl_chan
  end.

(** The outer [for (;;)], for at most [n] rounds.  Its [rc] shadows that of
    [main], which is returned: [None] when the loop is still running. *)
Fixpoint port_loop (n : nat) (main_rc : Z) (hport : handle) : C (option Z) :=
  match n with
  | O => ret None
  | S n =>
    r ← wait hport INFINITE_TIME;
    let '(rc, uevt) := r in
    if (rc =? NO_ERROR) && has (ev_event uevt) IPC_HANDLE_POLL_READY then
      r ← accept (ev_handle uevt);
      let '(rc, _) := r in
      if 0 <=? rc then
        greet;;
        ended ← ctrl_loop n rc;
        if (ended : bool) then close rc;; port_loop n main_rc hport else ret None
      else ret (Some main_rc)
    else if rc <? 0 then ret (Some main_rc) else port_loop n main_rc hport
  end.

Definition ctrl_main (name : string) (flags : Z) (n : nat) : C (option Z) :=
  rc ← port_create name 1 1024 flags;
  if rc <? 0 then ret (Some rc) else port_loop n rc rc.
End Main.

Definition storage_main {W} `{!Uapi} `{!Kernel W} `{!PortKernel W} `{!StorageClient W}
    (data : bytes) (IPC_PORT_ALLOW_NS_CONNECT : Z) (n : nat) :
    M (world (list storage_ev) unit W) (option Z) :=
  ctrl_main (ret tt) (write_file data 256) "com.android.trusty.storagetest"
    IPC_PORT_ALLOW_NS_CONNECT n.

(** * 4. spinner *)

Definition MSEC : Z := 1000000.

Section Spinner.
Context {L W : Type} `{!Clock W}.
Abbreviation C := (M (world L unit W)).

(** [trusty_gettime(0, &t)] with [t] before the call. *)
Definition gettime (t : Z) : C (Z * Z) :=
  r ← env_call k_gettime;
  let '(rc, t') := r in ret (rc, if rc =? 0 then t' else t).

(** The loop of [_delay], at most [fuel] times. *)
Fixpoint delay_loop (fuel : nat) (start ns_delay rc curr : Z) : C Z :=
  match fuel with
  | O => stop OutOfFuel
  | S fuel =>
    if negb (rc =? 0) then ret rc else
    until ← int64 (start + ns_delay);
    if curr <? until then
      r ← gettime curr;
      delay_loop fuel start ns_delay r.1 r.2
    else ret rc
  end.

(** [start] is read uninitialised only when the first reading failed, and then
    it is not used. *)
Definition _delay (fuel : nat) (ns_delay : Z) : C Z :=
  r ← gettime 0;
  let '(rc, start) := r in
  delay_loop fuel start ns_delay rc start.
End Spinner.

Definition spinner_main {L W} `{!Uapi} `{!Kernel W} `{!PortKernel W} `{!Clock W}
    (fuel : nat) (IPC_PORT_ALLOW_NS_CONNECT : Z) (n : nat) : M (world L unit W) (option Z) :=
  ctrl_main (env_call (k_nanosleep (2 * 1000 * MSEC))) (_delay fuel (2 * 1000 * MSEC))
    "com.android.trusty.spinner" IPC_PORT_ALLOW_NS_CONNECT n.
