(* ===== verification/SamplesCorrect.v ===== *)
(** The correctness of the sample applications of Samples.v, and the theorems at
    concrete states. *)

From S2P Require Import Prelude Ipc AppMgmt Samples.

(** * 1. storage-test *)

Section Storage.
Context {W : Type} `{!Uapi} `{!Kernel W} `{!PortKernel W} `{!StorageClient W}.
Implicit Types w : world (list storage_ev) unit W.

Lemma wp_record e (Q : unit → world (list storage_ev) unit W → Prop) w :
  Q tt (set_loc (e :: loc w) w) → wp (record e) Q w.
Proof. intros HQ. by apply wp_mod_loc. Qed.

(** What a call of [write_file] did, oldest first: nothing, without a session;
    or a session that is closed, and in it at most a file that is closed. *)
Inductive wrote (size : Z) : Z → list storage_ev → Prop :=
| NoSession : wrote size (-1) []
| NoFile s : wrote size 0 [OpenedSession s; ClosedSession s]
| WroteFile s f : wrote size 0 [OpenedSession s; OpenedFile s f;
    Wrote f 0 (replicate (Z.to_nat (Z.min size 1024)) 0); ClosedFile f; ClosedSession s].

Lemma write_file_spec data size w :
  length data = 1024%nat → 0 ≤ size →
  wp (write_file data size) (λ rc w', ∃ evs, wrote size rc evs ∧
    loc w' = rev evs ++ loc w ∧ trace w' = trace w) w.
Proof.
  intros Hdata Hsize. unfold write_file. rewrite Hdata.
  change (Z.of_nat 1024) with 1024.
  replace (if 1024 <? size then 1024 else size) with (Z.min size 1024)
    by (destruct (Z.ltb_spec 1024 size); lia).
  apply wp_bind, wp_env_call. intros [rc s] v _. wp_cases H1.
  { apply wp_ret. exists []. split_and!; [constructor|done|done]. }
  apply wp_bind, wp_record, wp_bind, wp_env_call. intros [rc2 f] v2 _.
  assert (∀ evs w1, loc w1 = rev evs ++ loc w → trace w1 = trace w →
    wrote size 0 (evs ++ [ClosedSession s]) →
    wp (env_call (k_close_session s);; record (ClosedSession s);; ret 0) (λ rc w', ∃ evs,
      wrote size rc evs ∧ loc w' = rev evs ++ loc w ∧ trace w' = trace w) w1) as Hclose.
  { intros evs w1 Hl Ht Hw. apply wp_bind, wp_env_call. intros _ v3 _.
    apply wp_bind, wp_record, wp_ret. exists (evs ++ [ClosedSession s]).
    split_and!; [done| |done]. cbn. by rewrite Hl, rev_app_distr. }
  apply wp_bind. wp_cases H2; [apply wp_ret; by apply (Hclose [OpenedSession s]), NoFile|].
  apply wp_bind, wp_record, wp_bind. wp_cases H3; [lia|]. apply wp_ret, wp_bind, wp_env_call.
  intros _ v3 _. apply wp_bind, wp_record, wp_bind, wp_env_call. intros _ v4 _. apply wp_record.
  assert (take (Z.to_nat (Z.min size 1024)) (memset0 (Z.to_nat (Z.min size 1024)) data) =
    replicate (Z.to_nat (Z.min size 1024)) 0) as ->.
  { unfold memset0. rewrite take_overwrite_Z; [done|]. rewrite length_replicate. lia. }
  apply (Hclose [OpenedSession s; OpenedFile s f; 
    Wrote f 0 (replicate (Z.to_nat (Z.min size 1024)) 0); ClosedFile f]);
    [reflexivity|done|constructor].
Qed.

(** write_file, for every size and whatever was in its buffer: it writes at
    most the 1024 bytes of the buffer, all zero and all initialised, to the
    start of a new file; every session and file it opened is closed once, the
    file before its session, on each error path; -1 means that no session
    could be opened, and 0 everything else, a failed write included. *)
Theorem write_file_correct data size w :
  length data = 1024%nat → 0 ≤ size →
  wp (write_file data size) (λ rc w', ∃ evs, wrote size rc evs ∧
    loc w' = rev evs ++ loc w ∧ trace w' = trace w) w.
Proof. apply write_file_spec. Qed.
End Storage.

(** * 2. The main loop *)

Section Main.
Context {L W : Type} `{!Uapi} `{!Kernel W} `{!PortKernel W}.
Context (greet : M (world L unit W) unit) (work : M (world L unit W) Z).
Context (Hgreet : ∀ w, wp greet (λ _ w', trace w' = trace w) w).
Context (Hwork : ∀ w, wp work (λ _ w', trace w' = trace w) w).
Implicit Types w : world L unit W.

Lemma ctrl_loop_held n chan l w :
  balanced (trace w) l → wp (ctrl_loop work n chan) (λ _ w', balanced (trace w') l) w.
Proof.
  revert w. induction n as [|n IH]; intros w Hb; cbn [ctrl_loop]; [done|].
  apply wp_bind. eapply wp_mono; [apply Hwork|]. intros rc w1 Ht. cbn beta in Ht.
  rewrite <- Ht in Hb. wp_cases H1; [by apply wp_ret|].
  apply wp_bind. ipc_call r v E. destruct r as [rc2 uevt].
  apply (balanced_neutral (SWait chan rc2)) in Hb; [|done].
  wp_cases H2; [by apply wp_ret|]. wp_cases H3; [by apply wp_ret|]. by apply IH.
Qed.

(** The handles while the program runs, and when it has ended. *)
Definition ctrl_held (port : handle) (r : option Z) w : Prop :=
  match r with
  | None => balanced (trace w) [port] ∨ ∃ chan, balanced (trace w) [chan; port]
  | Some rc => rc = port ∧ balanced (trace w) [port]
  end.

Lemma port_loop_held n port w :
  balanced (trace w) [port] →
  wp (port_loop greet work n port port) (ctrl_held port) w.
Proof.
  revert w. induction n as [|n IH]; intros w Hb; cbn [port_loop]; [apply wp_ret; by left|].
  apply wp_bind. ipc_call r v E. destruct r as [rc uevt]. cbn [fst].
  apply (balanced_neutral (SWait port rc)) in Hb; [|done]. wp_cases H1.
  - apply wp_bind. ipc_call r v2 E2. destruct r as [chan u]. cbn [fst].
    wp_cases H2; [|apply wp_ret; split; [done|]; apply balanced_neutral; [cbn; lia|done]].
    apply (balanced_accept (ev_handle uevt) chan) in Hb; [|lia].
    apply wp_bind. eapply wp_mono; [apply Hgreet|]. intros g w1 Ht. cbn beta in Ht.
    apply wp_bind. eapply wp_mono; [apply (ctrl_loop_held n chan [chan; port]); by rewrite Ht|].
    intros [] w2 Hb2; [|apply wp_ret; right; by exists chan].
    apply wp_bind, wp_close. intros _ v3. by apply IH, balanced_close.
  - wp_cases H2; [by apply wp_ret|by apply IH].
Qed.

Lemma ctrl_main_held name flags n w :
  trace w = [] →
  wp (ctrl_main greet work name flags n) (λ r w',
    (∃ port, 0 ≤ port ∧ ctrl_held port r w') ∨
    (∃ rc, r = Some rc ∧ rc < 0 ∧ balanced (trace w') [])) w.
Proof.
  intros Ht. assert (balanced (trace w) []) as Hb by (rewrite Ht; apply Permutation_refl).
  unfold ctrl_main. apply wp_bind. ipc_call port v E. wp_cases H1.
  - apply wp_ret. right. exists port. split_and!; [done|lia|]. by apply balanced_neutral.
  - apply (balanced_port name port) in Hb; [|lia].
    eapply wp_mono; [by apply port_loop_held|]. intros r w' Hr. left. exists port. by split; [lia|].
Qed.
End Main.

(** storage-test, for as long as it is observed and whatever its clients
    and the storage server do: it holds its port and at most the channel of
    the client it serves; when it has ended it holds the port alone, and what
    main returns is the handle of the port, since the error of wait or accept
    is in a variable that shadows main's. *)
Theorem storage_main_holds {W} `{!Uapi} `{!Kernel W} `{!PortKernel W} `{!StorageClient W}
    data flags n (w : world (list storage_ev) unit W) :
  length data = 1024%nat → trace w = [] →
  wp (storage_main data flags n) (λ r w',
    (∃ port, 0 ≤ port ∧ ctrl_held port r w') ∨
    (∃ rc, r = Some rc ∧ rc < 0 ∧ balanced (trace w') [])) w.
Proof.
  intros Hdata. apply ctrl_main_held; [by intros w0|]. intros w0.
  eapply wp_mono; [by apply write_file_spec|]. by intros rc w' (evs & _ & _ & Ht).
Qed.

(** * 3. The clock *)

(** Each reading that succeeds gives the present time, and the next one is at
    least [clock_tick] nanoseconds later. *)
Class ClockLaws (W : Type) `{Clock W} := {
  now : W → Z;
  clock_tick : Z;
  clock_tick_pos : 0 < clock_tick;
  gettime_ok e t e' : k_gettime e = ((0, t), e') → t = now e ∧ now e + clock_tick ≤ now e'
}.

Section Clock.
Context {W : Type} `{!Clock W} `{!ClockLaws W}.

Lemma wp_gettime {L} t (w : world L unit W) (Q : Z * Z → world L unit W → Prop) :
  (∀ v rc t', k_gettime (env w) = ((rc, t'), v) →
     Q (rc, if rc =? 0 then t' else t) (World (loc w) (dev w) v (trace w))) →
  wp (gettime t) Q w.
Proof.
  intros HQ. apply wp_bind, wp_env_call. intros [rc t'] v E. by apply wp_ret, HQ.
Qed.

(** Readings that all succeed, one after the other. *)
Inductive read_on : W → W → Prop :=
| read_none e : read_on e e
| read_one e t e1 e2 : k_gettime e = ((0, t), e1) → read_on e1 e2 → read_on e e2.

(** What the delay loop leaves, with the clock at [e] when it began: all its
    readings succeeded and the time is past the delay, or the last one failed,
    the ones before it did not, and the answer is its error. *)
Definition delayed {L} (e : W) (start ns : Z) (w : world L unit W) (rc : Z) (w' : world L unit W) : Prop :=
  loc w' = loc w ∧ trace w' = trace w ∧
  (rc = 0 ∧ read_on e (env w') ∧ start + ns + clock_tick ≤ now (env w') ∨
   rc ≠ 0 ∧ ∃ e' t, read_on e e' ∧ k_gettime e' = ((rc, t), env w')).

Lemma delayed_step {L} e t e1 start ns (w w1 : world L unit W) rc w' :
  k_gettime e = ((0, t), e1) → loc w1 = loc w → trace w1 = trace w →
  delayed e1 start ns w1 rc w' → delayed e start ns w rc w'.
Proof.
  intros E Hl Ht (Hl' & Ht' & Hrc). split_and!; [congruence..|].
  destruct Hrc as [(-> & Hr & Hn)|(Hne & e' & t' & Hr & E')]; [left|right].
  - split_and!; [done|by eapply read_one|done].
  - split; [done|]. exists e', t'. split; [by eapply read_one|done].
Qed.

Lemma delay_loop_spec {L} start ns : ∀ fuel curr (w : world L unit W),
  is_int64 (start + ns) = true → curr + clock_tick ≤ now (env w) →
  start + ns - curr < (Z.of_nat fuel - 1) * clock_tick → (0 < fuel)%nat →
  wp (delay_loop fuel start ns 0 curr) (delayed (env w) start ns w) w.
Proof.
  induction fuel as [|fuel IH]; intros curr w Hi64 Hnow Hfuel Hpos; [lia|]. cbn [delay_loop].
  pose proof clock_tick_pos as Htick. cbn [Z.eqb negb].
  unfold int64. rewrite Hi64. apply wp_bind, wp_ret. wp_cases H2.
  - apply wp_bind, wp_gettime. intros v rc' t' E. cbn [fst snd].
    destruct (Z.eqb_spec rc' 0) as [->|Hne].
    + destruct (gettime_ok _ _ _ E) as [-> Hstep].
      assert (0 < fuel)%nat as Hf by nia.
      eapply wp_mono; [apply IH; [done|done| |done]|]; [nia|].
      intros rc w'. by eapply delayed_step.
    + destruct fuel as [|fuel]; [nia|]. cbn [delay_loop].
      rewrite (proj2 (Z.eqb_neq _ _) Hne). cbn [negb]. apply wp_ret. split_and!; [done|done|right].
      split; [done|]. exists (env w), t'. split; [constructor|done].
  - apply wp_ret. split_and!; [done|done|left]. split_and!; [done|constructor|lia].
Qed.

(** C30. _delay terminates, and waits long enough: with a clock that advances by
    at least a tick from one reading to the next, as many rounds as the delay
    has ticks, and two more, are enough.  It returns an error exactly when a
    reading failed: the last reading it made, whose error it returns, and no
    earlier one.  It returns 0 only when the delay has passed since the time
    it was called.  The deadline does not overflow when it is a time of 64
    bits. *)
Theorem delay_waits {L} fuel ns (w : world L unit W) :
  0 ≤ ns → ns + clock_tick < (Z.of_nat fuel - 1) * clock_tick →
  is_int64 (now (env w) + ns) = true →
  wp (_delay fuel ns) (delayed (env w) (now (env w)) ns w) w.
Proof.
  intros Hns Hfuel Hi64. pose proof clock_tick_pos as Htick.
  unfold _delay. apply wp_bind, wp_gettime. intros v rc t E.
  destruct (Z.eqb_spec rc 0) as [->|Hne].
  - destruct (gettime_ok _ _ _ E) as [-> Hstep].
    eapply wp_mono; [apply delay_loop_spec; [done|done|lia|nia]|].
    intros rc w'. by eapply delayed_step.
  - destruct fuel as [|fuel]; [nia|]. cbn [delay_loop].
    rewrite (proj2 (Z.eqb_neq _ _) Hne). cbn [negb]. apply wp_ret. split_and!; [done|done|right].
    split; [done|]. exists (env w), t. split; [constructor|done].
Qed.

End Clock.
