(* ===== verification/SamplesDemo.v ===== *)
(** The theorems on the sample applications at concrete states: a storage server
    that accepts everything, and a clock that ticks once a microsecond. *)

From S2P Require Import Prelude Ipc AppMgmt AppMgmtDemo Samples SamplesCorrect.

Module SamplesDemo.
#[local] Instance uapi : Uapi := Sim.uapi.
#[local] Instance kernel : Kernel AppMgmtDemo.env_t := AppMgmtDemo.kernel.
#[local] Instance ports : PortKernel AppMgmtDemo.env_t := AppMgmtDemo.ports.
#[local] Instance storage : StorageClient AppMgmtDemo.env_t := {|
  STORAGE_CLIENT_TP_PORT := "com.android.trusty.storage.client.tp";
  STORAGE_FILE_OPEN_CREATE := 1; STORAGE_FILE_OPEN_TRUNCATE := 4; STORAGE_OP_COMPLETE := 1;
  k_open_session _ e := ((0, 7), e);
  k_open_file _ _ _ _ e := ((0, 8), e);
  k_storage_write _ _ bs _ e := (Z.of_nat (length bs), e);
  k_close_file _ e := (tt, e);
  k_close_session _ e := (tt, e)
|}.

Definition junk : bytes := replicate 1024 170.

(** A client connects, stays for two writes and leaves; then [wait] fails. *)
Definition served : world (list storage_ev) unit AppMgmtDemo.env_t :=
  World [] tt ([(0, UEvent 100 1); (-13, UEvent 101 0); (0, UEvent 101 4)],
    Script 100 [""%string] [] [] []) [].

Example served_runs :
  match storage_main junk 1 6 served with
  | Ret r w' => r = Some 100 ∧ length (loc w') = 10%nat ∧ closed (trace w') = [101]
  | Halt _ _ => False
  end.
Proof. by vm_compute. Qed.

Lemma write_file_correct_witness :
  wp (write_file junk 256) (λ rc w', ∃ evs, wrote 256 rc evs ∧
    loc w' = rev evs ++ loc served ∧ trace w' = trace served) served.
Proof. by apply write_file_correct. Defined.

Lemma storage_main_holds_witness :
  wp (storage_main junk 1 6) (λ r w',
    (∃ port, 0 ≤ port ∧ ctrl_held port r w') ∨
    (∃ rc, r = Some rc ∧ rc < 0 ∧ balanced (trace w') [])) served.
Proof. by apply storage_main_holds. Defined.

#[local] Instance clock : Clock Z := {|
  k_gettime t := ((0, t), t + 1000);
  k_nanosleep n t := (tt, t + n)
|}.
#[local] Instance clock_laws : ClockLaws Z.
Proof. refine {| now := id; clock_tick := 1000 |}; [lia|]. by intros e t e' [= <- <-]. Defined.

Definition at_time (t : Z) : world (list string) unit Z := World [] tt t [].

Lemma delay_waits_witness :
  wp (_delay 7 4000) (delayed 5000 5000 4000 (at_time 5000)) (at_time 5000).
Proof.
  assert (4000 + clock_tick < (Z.of_nat 7 - 1) * clock_tick) as Hfuel by reflexivity.
  assert (is_int64 (now (env (at_time 5000)) + 4000) = true) as Hi64 by reflexivity.
  exact (delay_waits 7 4000 (at_time 5000) ltac:(lia) Hfuel Hi64).
Defined.
End SamplesDemo.
