(* ===== verification/Timer.v ===== *)
(** timer/timer_app.c: tests of the clock, one of which counts calls in an int
    that the looping variant of the program never resets. *)

From S2P Require Import Prelude Ipc Samples SamplesCorrect.

(** * 1. The program *)

(** The static [i] of [nop], and the checks that failed, latest first. *)
Record timer_state := TimerState { nop_i : Z; bad_times : list string }.
Definition with_nop_i (i : Z) (l : timer_state) : timer_state := TimerState i (bad_times l).
Definition with_bad_time (name : string) (l : timer_state) : timer_state :=
  TimerState (nop_i l) (name :: bad_times l).

Definition TIMER_TEST_NOP_LOOP_COUNT : Z := 100000000.
Definition ONE_MS : Z := 1000 * 1000.
Definition TIMER_TEST_MS_SLEEP_LOOP_COUNT : Z := 1000.
Definition ONE_S : Z := 1000 * ONE_MS.

Section Timer.
Context {W : Type} `{!Clock W}.
Abbreviation C := (M (world timer_state unit W)).

Definition nop : C unit :=
  i ← get_loc nop_i;
  i ← int32 (i + 1);
  mod_loc (with_nop_i i).

(** [EXPECT_EQ(false, ...)]: the names of the checks that failed are kept. *)
Definition check_timestamps (t1 delta_min delta_max : Z) (name : string) : C unit :=
  t2 ← int64 (t1 - 1);
  r ← gettime t2;
  let '(_, t2) := r in
  delta ← int64 (t2 - t1);
  if (delta <? delta_min) || (delta_max <? delta) then mod_loc (with_bad_time name) else ret tt.

(** [n] rounds of the loops of the tests. *)
Fixpoint nop_loop (n : nat) : C unit :=
  match n with
  | O => ret tt
  | S n => nop;; nop_loop n
  end.
Fixpoint sleep_loop (n : nat) : C unit :=
  match n with
  | O => ret tt
  | S n => env_call (k_nanosleep ONE_MS);; sleep_loop n
  end.

Definition BusyLoop : C unit :=
  r ← gettime 0;
  let '(_, ts) := r in
  nop_loop (Z.to_nat TIMER_TEST_NOP_LOOP_COUNT);;
  check_timestamps ts (TIMER_TEST_NOP_LOOP_COUNT / 100) (TIMER_TEST_NOP_LOOP_COUNT * 10000)
    "nop loop".

Definition NanoSleepOneMilliSecond : C unit :=
  r ← gettime 0;
  let '(_, ts) := r in
  sleep_loop (Z.to_nat TIMER_TEST_MS_SLEEP_LOOP_COUNT);;
  check_timestamps ts (TIMER_TEST_MS_SLEEP_LOOP_COUNT * ONE_MS)
    (TIMER_TEST_MS_SLEEP_LOOP_COUNT * ONE_MS * 10) "ms loop".

Definition NanoSleepTenSeconds : C unit :=
  r ← gettime 0;
  let '(_, ts) := r in
  env_call (k_nanosleep (10 * ONE_S));;
  check_timestamps ts (ONE_S * 10) (ONE_S * 11) "10s sleep".

(** [RUN_ALL_TESTS]: whether no check failed in this run. *)
Definition run_all : C bool :=
  before ← get_loc bad_times;
  BusyLoop;;
  NanoSleepOneMilliSecond;;
  NanoSleepTenSeconds;;
  after ← get_loc bad_times;
  ret (length after =? length before)%nat.

(** [do ... while (timer_test->loop)], for at most [n] rounds: [None] when it is
    still running after them. *)
Fixpoint timer_test (loop : bool) (n : nat) : C (option bool) :=
  match n with
  | O => ret None
  | S n =>
    passed ← run_all;
    if loop then timer_test loop n else ret (Some passed)
  end.
End Timer.

(** * 2. The check *)

(** Readings and sleeps take time: a reading at most [read_max], a sleep the
    time asked for and at most [slack] more. *)
Class TimerLaws (W : Type) `{Clock W} := {
  timer_now : W → Z;
  read_max : Z;
  slack : Z;
  read_max_nonneg : 0 ≤ read_max;
  read_ok e rc t e' : k_gettime e = ((rc, t), e') →
    rc = 0 ∧ timer_now e ≤ t ≤ timer_now e' ∧ timer_now e' ≤ timer_now e + read_max;
  sleep_ok ns e u e' : k_nanosleep ns e = (u, e') →
    timer_now e + ns ≤ timer_now e' ≤ timer_now e + ns + slack
}.

Section Check.
Context {W : Type} `{!Clock W}.
Implicit Types w : world timer_state unit W.

(** check_timestamps decides exactly whether the time since [t1] is within
    its bounds, and records one failure otherwise; a clock that cannot be read
    fails the check of any delay that cannot be negative; none of its signed
    differences overflows for times that are not negative. *)
Theorem check_timestamps_correct t1 dmin dmax name w :
  0 ≤ t1 < 2 ^ 63 → 0 ≤ dmin → (∀ t v, k_gettime (env w) = ((0, t), v) → 0 ≤ t < 2 ^ 63) →
  wp (check_timestamps t1 dmin dmax name) (λ _ w', ∃ rc t v,
    k_gettime (env w) = ((rc, t), v) ∧ trace w' = trace w ∧
    loc w' = if (rc =? 0) && (dmin <=? t - t1) && (t - t1 <=? dmax)
             then loc w else with_bad_time name (loc w)) w.
Proof.
  intros Ht1 Hmin Hclock. unfold check_timestamps, int64.
  assert (is_int64 (t1 - 1) = true) as -> by (unfold is_int64; lia).
  apply wp_bind, wp_ret, wp_bind, wp_gettime. intros v rc t E.
  apply wp_bind. destruct (Z.eqb_spec rc 0) as [->|Hne]; cbn [andb].
  - pose proof (Hclock _ _ E). assert (is_int64 (t - t1) = true) as -> by (unfold is_int64; lia).
    apply wp_ret. wp_cases Hout; [apply wp_mod_loc|apply wp_ret]; exists 0, t, v;
      (split_and!; [done|done|]); cbn; destruct (Z.leb_spec dmin (t - t1)), (Z.leb_spec (t - t1) dmax);
      cbn; done || lia.
  - assert (is_int64 (t1 - 1 - t1) = true) as -> by (unfold is_int64; lia).
    apply wp_ret. wp_cases Hout; [|lia]. apply wp_mod_loc. exists rc, t, v.
    split_and!; [done|done|]. by rewrite (proj2 (Z.eqb_neq _ _) Hne).
Qed.

Context `{!TimerLaws W}.

(** A check that is reached [d] to [d'] nanoseconds after [t1]. *)
Lemma check_passes t1 dmin dmax name w :
  0 ≤ t1 → 0 ≤ dmin → timer_now (env w) + read_max < 2 ^ 63 →
  t1 + dmin ≤ timer_now (env w) → timer_now (env w) + read_max ≤ t1 + dmax →
  wp (check_timestamps t1 dmin dmax name) (λ _ w', loc w' = loc w ∧
    timer_now (env w) ≤ timer_now (env w') ≤ timer_now (env w) + read_max) w.
Proof.
  intros Ht1 Hmin Hmax Hlo Hhi. pose proof read_max_nonneg. unfold check_timestamps, int64.
  assert (is_int64 (t1 - 1) = true) as -> by (unfold is_int64; lia).
  apply wp_bind, wp_ret, wp_bind, wp_gettime. intros v rc t E.
  destruct (read_ok _ _ _ _ E) as (-> & Ht & Hv). cbn [Z.eqb].
  assert (is_int64 (t - t1) = true) as -> by (unfold is_int64; lia).
  apply wp_bind, wp_ret. wp_cases Hout; [lia|]. apply wp_ret. cbn. split; [done|lia].
Qed.

Lemma sleep_loop_spec n w : 
  wp (sleep_loop n) (λ _ w', loc w' = loc w ∧
    timer_now (env w) + Z.of_nat n * ONE_MS ≤ timer_now (env w') ∧
    timer_now (env w') ≤ timer_now (env w) + Z.of_nat n * (ONE_MS + slack)) w.
Proof.
  revert w. induction n as [|n IH]; intros w; cbn [sleep_loop]; [apply wp_ret; split; [done|lia]|].
  apply wp_bind, wp_env_call. intros u v E. apply sleep_ok in E.
  eapply wp_mono; [apply IH|]. cbn. intros _ w' (-> & Hlo & Hhi). split; [done|].
  rewrite Nat2Z.inj_succ. lia.
Qed.

(** The tests of sleeping pass on a clock whose sleeps are late by no more than
    8 ms each, and whose readings take no more than a tenth of a second: the
    thousand sleeps of a millisecond take between one and ten seconds, the
    one of ten seconds between ten and eleven. *)
Theorem sleep_tests_pass w :
  0 ≤ timer_now (env w) → timer_now (env w) + 3 * ONE_S * 10 < 2 ^ 63 →
  0 ≤ slack ≤ 8 * ONE_MS → 0 ≤ read_max ≤ 100 * ONE_MS →
  wp (NanoSleepOneMilliSecond;; NanoSleepTenSeconds) (λ _ w', loc w' = loc w) w.
Proof.
  unfold ONE_S, ONE_MS. intros Hnow Hmax Hslack Hread. apply wp_bind, wp_bind, wp_gettime.
  intros v rc ts E. destruct (read_ok _ _ _ _ E) as (-> & Hts & Hv). cbn [Z.eqb].
  apply wp_bind. eapply wp_mono; [apply sleep_loop_spec|]. cbn [loc env].
  unfold ONE_MS, TIMER_TEST_MS_SLEEP_LOOP_COUNT. intros [] w1 (Hl1 & Hlo & Hhi).
  rewrite Z2Nat.id in Hlo, Hhi by done.
  eapply wp_mono; [apply check_passes; unfold ONE_MS; lia|]. intros [] w2 (Hl2 & Hw2).
  apply wp_bind, wp_gettime. intros v3 rc ts3 E3. destruct (read_ok _ _ _ _ E3) as (-> & Hts3 & Hv3).
  cbn [Z.eqb]. apply wp_bind, wp_env_call. intros u v4 E4. apply sleep_ok in E4.
  unfold ONE_S, ONE_MS in *. cbn [env] in E4.
  eapply wp_mono; [apply check_passes; unfold ONE_S, ONE_MS; cbn [env]; lia|].
  intros [] w5 (Hl5 & _). cbn [loc] in Hl5. congruence.
Qed.
End Check.

(** * 3. The counter *)

Section Counter.
Context {W : Type} `{!Clock W}.
Implicit Types w : world timer_state unit W.

Definition overflow (h : halt) : Prop := h = SignedOverflow.

Lemma nop_loop_spec n w : 0 ≤ nop_i (loc w) →
  wpx (nop_loop n) (λ _ w', nop_i (loc w') = nop_i (loc w) + Z.of_nat n ∧
    ((0 < n)%nat → nop_i (loc w') < 2 ^ 31)) overflow w.
Proof.
  revert w. induction n as [|n IH]; intros w Hi; cbn [nop_loop]; [by split; [|intros ?]; lia|].
  apply wpx_bind. unfold nop. apply wpx_bind, wpx_wp, wp_get_loc, wpx_bind. unfold int32.
  destruct (is_int32 (nop_i (loc w) + 1)) eqn:Hr; [|done]. apply wpx_wp, wp_ret.
  apply wpx_wp, wp_mod_loc. eapply wpx_mono; [apply IH; cbn; lia|]. cbn.
  intros [] w' [-> Hn]. split; [lia|]. intros _. destruct n; [|apply Hn; lia].
  unfold is_int32 in Hr. lia.
Qed.

Lemma check_counter t1 dmin dmax name w :
  wpx (check_timestamps t1 dmin dmax name) (λ _ w', nop_i (loc w') = nop_i (loc w)) overflow w.
Proof.
  unfold check_timestamps, int64. apply wpx_bind. destruct (is_int64 (t1 - 1)); [|done].
  apply wpx_wp, wp_ret, wpx_bind, wpx_wp, wp_gettime. intros v rc t _. apply wpx_bind.
  destruct (is_int64 _); [|done]. apply wpx_wp, wp_ret, wpx_wp. by wp_cases Hc.
Qed.

Lemma sleep_loop_counter n w : wp (sleep_loop n) (λ _ w', loc w' = loc w) w.
Proof.
  revert w. induction n as [|n IH]; intros w; cbn [sleep_loop]; [done|].
  apply wp_bind, wp_env_call. intros u v _. by eapply wp_mono; [apply IH|].
Qed.

Lemma run_all_counter w : 0 ≤ nop_i (loc w) →
  wpx run_all (λ _ w', nop_i (loc w') = nop_i (loc w) + TIMER_TEST_NOP_LOOP_COUNT ∧
    nop_i (loc w') < 2 ^ 31) overflow w.
Proof.
  intros Hi. unfold run_all. apply wpx_bind, wpx_wp, wp_get_loc, wpx_bind. unfold BusyLoop.
  apply wpx_bind, wpx_wp, wp_gettime. intros v rc t _. apply wpx_bind.
  eapply wpx_mono; [by apply nop_loop_spec|]. cbn [loc]. intros [] w1 [Hw1 Hlt].
  rewrite Z2Nat.id in Hw1 by done.
  eapply wpx_mono; [apply check_counter|]. cbn beta. intros [] w2 Hw2.
  apply wpx_bind, wpx_bind, wpx_wp, wp_gettime. intros v2 rc2 t2 _.
  apply wpx_bind, wpx_wp. eapply wp_mono; [apply sleep_loop_counter|]. cbn [loc].
  intros [] w3 Hw3. eapply wpx_mono; [apply check_counter|]. cbn beta. intros [] w4 Hw4.
  apply wpx_bind, wpx_bind, wpx_wp, wp_gettime. intros v5 rc5 t5 _.
  apply wpx_bind, wpx_wp, wp_env_call. intros u v6 _.
  eapply wpx_mono; [apply check_counter|]. cbn [loc]. intros [] w7 Hw7.
  apply wpx_bind, wpx_wp, wp_get_loc, wp_ret. rewrite Hw7, Hw4, Hw3, Hw2.
  split; [done|]. apply Hlt. unfold TIMER_TEST_NOP_LOOP_COUNT. lia.
Qed.

Lemma timer_test_counter n w : 0 ≤ nop_i (loc w) < 2 ^ 31 →
  wpx (timer_test true n) (λ r w', r = None ∧ nop_i (loc w') < 2 ^ 31 ∧
    nop_i (loc w') = nop_i (loc w) + Z.of_nat n * TIMER_TEST_NOP_LOOP_COUNT) overflow w.
Proof.
  revert w. induction n as [|n IH]; intros w Hi; cbn [timer_test].
  { split_and!; [done|lia|lia]. }
  apply wpx_bind. eapply wpx_mono; [apply run_all_counter; lia|]. cbn beta.
  intros b w1 [Hw1 Hlt]. unfold TIMER_TEST_NOP_LOOP_COUNT in *.
  eapply wpx_mono; [apply IH; lia|]. cbn beta. intros r w2 (-> & Hlt2 & Heq2).
  split_and!; [done|lia|lia].
Qed.

(** C38. The looping variant of the timer test does not run for ever: whatever
    the clock answers, it has made a signed integer overflow by its 22nd round
    (nop's static counter, which 100 million calls a round increment and
    nothing resets, unless a difference of times overflowed before), and in
    every round before it overflows the counter is what the rounds add up to. *)
Theorem timer_loop_overflows n w : nop_i (loc w) = 0 →
  match timer_test true n w with
  | Ret r w' => r = None ∧ (n ≤ 21)%nat ∧
      nop_i (loc w') = Z.of_nat n * TIMER_TEST_NOP_LOOP_COUNT
  | Halt h _ => h = SignedOverflow ∧ (0 < n)%nat
  end.
Proof.
  intros Hi. pose proof (timer_test_counter n w ltac:(lia)) as Hw. unfold wpx, overflow in Hw.
  destruct (timer_test true n w) as [r w'|h w'] eqn:E.
  - destruct Hw as (-> & Hlt & Heq). unfold TIMER_TEST_NOP_LOOP_COUNT in *. split_and!; [done|lia|lia].
  - split; [done|]. destruct n; [done|lia].
Qed.
End Counter.

(** * 4. At concrete states *)

Module TimerDemo.
(** A clock that ticks once a microsecond, and sleeps that are a microsecond
    late. *)
#[local] Instance clock : Clock Z := {|
  k_gettime t := ((0, t), t + 1000);
  k_nanosleep n t := (tt, t + n + 1000)
|}.
#[local] Instance laws : TimerLaws Z.
Proof.
  refine {| timer_now := id; read_max := 1000; slack := 1000 |}; [lia|..].
  - intros e rc t e' [= <- <- <-]. unfold id. lia.
  - intros ns e u e' [= _ <-]. unfold id. lia.
Defined.

Definition at_time (t : Z) : world timer_state unit Z := World (TimerState 0 []) tt t [].

Lemma check_timestamps_correct_witness :
  wp (check_timestamps 5000 1000 2000 "1us sleep") (λ _ w', ∃ rc t v,
    k_gettime (env (at_time 6500)) = ((rc, t), v) ∧ trace w' = [] ∧
    loc w' = if (rc =? 0) && (1000 <=? t - 5000) && (t - 5000 <=? 2000)
             then TimerState 0 [] else TimerState 0 ["1us sleep"%string]) (at_time 6500).
Proof.
  apply (check_timestamps_correct 5000 1000 2000 "1us sleep" (at_time 6500)); [lia|lia|].
  intros t v [= <- _]. lia.
Defined.

Lemma sleep_tests_pass_witness :
  wp (NanoSleepOneMilliSecond;; NanoSleepTenSeconds) (λ _ w', loc w' = loc (at_time 5)) (at_time 5).
Proof. apply sleep_tests_pass; by vm_compute. Defined.

Lemma timer_loop_overflows_witness :
  match timer_test true 30 (at_time 5) with
  | Ret r w' => r = None ∧ (30 ≤ 21)%nat ∧
      nop_i (loc w') = Z.of_nat 30 * TIMER_TEST_NOP_LOOP_COUNT
  | Halt h _ => h = SignedOverflow ∧ (0 < 30)%nat
  end.
Proof. by apply (timer_loop_overflows 30 (at_time 5)). Defined.
End TimerDemo.
