(* ===== verification/Mains.v ===== *)
(** The mains that only register tests, of timer_app.c and of
    app-mgmt-test/client/main.c, with the functions they register, and the
    programs that only print. *)

From S2P Require Import Prelude Ipc Samples Timer.

(** * 1. Programs that print a line *)

(** What [printf], and [TLOGI] under its tag, are given. *)
Inductive said :=
| Printf (s : string)
| TLog (tag s : string)
(** The Rust program: [libc::write], [writev] of one buffer, [write!] to
    [stdout()], the logger's start and its [info!]. *)
| Write (fd : Z) (s : string)
| Writev (fd : Z) (s : string)
| WriteStdout (s : string)
| LogInit
| LogInfo (s : string).
Definition say (m : said) : M (list said) unit := modify (λ out, out ++ [m]).

Definition newline : string := String (Ascii.ascii_of_nat 10) EmptyString.

Definition skel_main : M (list said) Z :=
  say (Printf ("Hello world from skeleton app" +:+ newline));; ret 0.
Definition skel2_main : M (list said) Z :=
  say (Printf ("Hello world from skeleton app 2" +:+ newline));; ret 0.
Definition dev_only_main : M (list said) Z :=
  say (TLog "dev-only-srv" ("Started dev-only service" +:+ newline));; ret 0.

Definition skel_rust_main : M (list said) Z :=
  say LogInit;;
  say (Write 2 ("Hello from Rust!" +:+ newline));;
  say (Writev 2 ("Hello from a Rust syscall!" +:+ newline));;
  say (WriteStdout ("Hello from the Trusty Rust std!" +:+ newline));;
  say (LogInfo "Hello from the log crate!");;
  ret 0.

(** * 2. Unit tests on ports *)

(** [struct unittest], as the mains fill it in; [F] are the functions that
    [run_test] may point to. *)
Record unittest (F : Type) := Unittest { port_name : string; run_test : F }.
Arguments Unittest {F}.
Arguments port_name {F}.
Arguments run_test {F}.

(** [for (i = 0; i < countof(units); i++) unittests[i] = &units[i]], from [i] on:
    a pointer is the index of the structure it points to, or into; [None] is an
    element that is not set yet. *)
Fixpoint fill {A} (units : list A) (i : nat) (unittests : list (option nat)) : list (option nat) :=
  match units with
  | [] => unittests
  | _ :: units => fill units (S i) (<[i := Some i]> unittests)
  end.

Lemma fill_lookup {A} (units : list A) i l j :
  (i + length units ≤ length l)%nat →
  fill units i l !! j = if decide (i ≤ j < i + length units)%nat then Some (Some j) else l !! j.
Proof.
  revert i l. induction units as [|a units IH]; intros i l Hl; cbn [fill length] in *.
  { destruct (decide _); [lia|done]. }
  rewrite IH by (rewrite length_insert; lia). destruct (decide (i = j)) as [<-|Hne].
  - rewrite decide_False, decide_True by lia. apply list_lookup_insert_eq. lia.
  - rewrite list_lookup_insert_ne by done. repeat destruct (decide _); done || lia.
Qed.

(** Every structure gets its place. *)
Lemma fill_all {A} (units : list A) l :
  length l = length units → fill units 0 l = Some <$> seq 0 (length units).
Proof.
  intros Hl. apply list_eq. intros j. rewrite fill_lookup by lia. rewrite list_lookup_fmap.
  destruct (decide _) as [Hj|Hj].
  - by rewrite lookup_seq_lt by lia.
  - rewrite (proj2 (lookup_ge_None _ _)) by lia. by rewrite lookup_seq_ge by lia.
Qed.

(** The structures that the array registers on a port. *)
Definition registered {F} (units : list (unittest F)) (unittests : list (option nat)) (port : string) :
    list nat :=
  List.filter (λ p, match units !! p with Some u => bool_decide (port_name u = port) | None => false end)
    (omap (M := list) id unittests).

(** * 3. timer_app.c *)

Inductive timer_fn := run_timer_test.
Record timer_unittest := TimerUnittest { tu_unittest : unittest timer_fn; tu_loop : bool }.

Definition timer_PORT_BASE : string := "com.android.timer-unittest".
Definition timer_unittests : list timer_unittest := [
  TimerUnittest (Unittest timer_PORT_BASE run_timer_test) false;
  TimerUnittest (Unittest (timer_PORT_BASE +:+ ".loop") run_timer_test) true].

Section TimerMain.
Context {W : Type} `{!Clock W}.
Abbreviation C := (M (world timer_state unit W)).
(** lib/unittest's loop. *)
Context (unittest_main : list (option nat) → nat → C Z).

(** A call of [run_test] with the pointer [p]: the structure around it tells
    whether to loop; for at most [n] rounds. *)
Definition run_timer (f : timer_fn) (p n : nat) : C (option bool) :=
  match f, timer_unittests !! p with
  | run_timer_test, Some t => timer_test (tu_loop t) n
  | _, None => stop OutOfBounds
  end.

Definition timer_main : C Z :=
  let unittests := fill timer_unittests 0 (replicate (length timer_unittests) None) in
  unittest_main unittests (length unittests).

(** Two ports are registered, and no other; a connection to the first makes one
    run of the tests, and one to the second runs them for ever. *)
Theorem timer_ports port n : ∃ unittests,
  timer_main = unittest_main unittests 2 ∧
  let ps := registered (tu_unittest <$> timer_unittests) unittests port in
  let run p := run_timer run_timer_test p n in
  (port = timer_PORT_BASE → run <$> ps = [timer_test false n]) ∧
  (port = timer_PORT_BASE +:+ ".loop" → run <$> ps = [timer_test true n]) ∧
  (port ≠ timer_PORT_BASE → port ≠ timer_PORT_BASE +:+ ".loop" → ps = []).
Proof.
  exists [Some 0%nat; Some 1%nat]. split; [done|]. cbn zeta. split_and!; [intros ->; done..|].
  intros H1 H2. cbn. by rewrite !bool_decide_false by congruence.
Qed.
End TimerMain.

(** * 4. The runners and the main of app-mgmt-test/client/main.c *)

Inductive appmngr_fn := appmngr_tests | appmngr_stress_tests.

Definition appmngr_PORT_BASE : string := "com.android.appmgmt-unittest.appmngr".
Definition appmgmt_unittests : list (unittest appmngr_fn) := [
  Unittest appmngr_PORT_BASE appmngr_tests;
  Unittest (appmngr_PORT_BASE +:+ ".stress") appmngr_stress_tests].

Section AppMgmtMain.
Context {S : Type}.
Abbreviation C := (M S).
(** lib/unittest: a run of all tests, and its loop. *)
Context (RUN_ALL_TESTS : C bool) (unittest_main : list (option nat) → nat → C Z).

Definition run_appmngr_tests : C bool := RUN_ALL_TESTS.

(** At most [n] rounds: [None] when it is still running after them. *)
Fixpoint run_appmngr_stress_tests (n : nat) : C (option bool) :=
  match n with
  | O => ret None
  | Datatypes.S n =>
    passed ← RUN_ALL_TESTS;
    if passed : bool then run_appmngr_stress_tests n else ret (Some false)
  end.

Definition appmgmt_client_main : C Z :=
  let unittests := fill appmgmt_unittests 0 (replicate (length appmgmt_unittests) None) in
  unittest_main unittests (length unittests).

(** The main, of any number of structures, registers each once. *)
Lemma appmgmt_client_main_registers :
  appmgmt_client_main = unittest_main [Some 0%nat; Some 1%nat] 2 ∧
  (∀ u, u ∈ appmgmt_unittests →
    registered appmgmt_unittests [Some 0%nat; Some 1%nat] (port_name u) =
      [match run_test u with appmngr_tests => 0%nat | appmngr_stress_tests => 1%nat end]).
Proof. split; [done|]. intros u Hu. repeat (apply elem_of_cons in Hu as [->|Hu]; [done|]). by apply not_elem_of_nil in Hu. Qed.

(** [k] runs that pass, one after the other. *)
Inductive passing : nat → S → S → Prop :=
| passing_none s : passing 0 s s
| passing_run k s s1 s2 : RUN_ALL_TESTS s = Ret true s1 → passing k s1 s2 → passing (Datatypes.S k) s s2.

Lemma passing_after k s s1 s2 :
  RUN_ALL_TESTS s = Ret true s1 → passing (Datatypes.S k) s s2 → passing k s1 s2.
Proof. intros E Hp. inversion Hp as [|? ? s1' ? E']. rewrite E in E'. by injection E' as <-. Qed.

(** The stress test goes on exactly as long as the tests pass, and reports a
    failure of the first run that does not. *)
Theorem stress_tests_until_failure n s :
  (∀ s', run_appmngr_stress_tests n s = Ret None s' ↔ passing n s s') ∧
  (∀ s', run_appmngr_stress_tests n s = Ret (Some false) s' ↔
    ∃ k s1, (k < n)%nat ∧ passing k s s1 ∧ RUN_ALL_TESTS s1 = Ret false s') ∧
  (∀ s', run_appmngr_stress_tests n s ≠ Ret (Some true) s').
Proof.
  revert s. induction n as [|n IH]; intros s.
  { split_and!; intros s'; [|split|done]; cbn; unfold ret.
    - split; [by intros [= ->]; constructor|]. by inversion 1.
    - done.
    - intros (k & s1 & Hk & _). lia. }
  cbn [run_appmngr_stress_tests]. unfold bind. destruct (RUN_ALL_TESTS s) as [[] s2|h s2] eqn:E.
  - destruct (IH s2) as (H1 & H2 & H3). split_and!; intros s'; [| |apply H3].
    + rewrite H1. split; [by eapply passing_run|]. by apply passing_after.
    + rewrite H2. split.
      * intros (k & s1 & Hk & Hp & Hr). exists (Datatypes.S k), s1. split_and!; [lia|by eapply passing_run|done].
      * intros ([|k] & s1 & Hk & Hp & Hr); [inversion Hp; congruence|].
        apply (passing_after _ _ _ _ E) in Hp. exists k, s1. split_and!; [lia|done..].
  - split_and!; intros s'; [|split|done]; unfold ret.
    + split; [done|]. intros Hp. inversion Hp; congruence.
    + intros [= ->]. exists 0%nat, s. split_and!; [lia|constructor|done].
    + intros (k & s1 & Hk & Hp & Hr). inversion Hp; congruence.
  - split_and!; intros s'; [|split|done].
    + split; [done|]. intros Hp. inversion Hp; congruence.
    + done.
    + intros (k & s1 & Hk & Hp & Hr). inversion Hp; congruence.
Qed.
End AppMgmtMain.

Module MainsDemo.
(** Tests that pass until the counter is 3. *)
Definition three_runs : M Z bool := i ← get; modify (Z.add 1);; ret (i <? 2).
Example stress_2 : run_appmngr_stress_tests three_runs 2 0 = Ret None 2.
Proof. done. Qed.
Example stress_9 : run_appmngr_stress_tests three_runs 9 0 = Ret (Some false) 3.
Proof. done. Qed.
Example hello : skel_main [] = Ret 0 [Printf ("Hello world from skeleton app" +:+ newline)].
Proof. done. Qed.
End MainsDemo.
