(* ===== verification/Manifest.v ===== *)
(** manifest-test: the device memory that the application's manifest asks for,
    and the tests that map it. *)

From S2P Require Import Prelude Ipc.

(** * 1. The manifest and the platform *)

(** An element of [mem_map] in manifest.json. *)
Record mem_map_entry := MemMap { map_id : Z; map_addr : Z; map_size : Z }.
Definition mem_map : list mem_map_entry :=
  [MemMap 1 0x70000000 0x1000; MemMap 2 0x70010000 0x100; MemMap 3 0x70020000 0x4].

Definition TEST1_ID : Z := 1.
Definition TEST1_PHY_BASE_ADDR : Z := 0x70000000.
Definition TEST1_REG_SIZE : Z := 0x1000.
Definition TEST2_ID : Z := 2.
Definition TEST2_PHY_BASE_ADDR : Z := 0x70010000.
Definition TEST2_REG_SIZE : Z := 0x100.
Definition TEST3_ID : Z := 3.
Definition TEST3_PHY_BASE_ADDR : Z := 0x70020000.
Definition TEST3_REG_SIZE : Z := 0x4.

(** mmap of device memory, by size and identifier, and munmap;
    [k_prepare_dma] of an address and a size answers with its return code and
    the physical address and size it wrote. *)
Class IoMap (W : Type) := {
  IO_MAP_FAILED : Z;
  k_io_mmap : Z → Z → W → Z * W;
  k_io_munmap : Z → Z → W → Z * W;
  k_prepare_dma : Z → Z → W → (Z * Z * Z) * W
}.

(** The mappings the test has, latest first, and the checks that failed. *)
Record map_state := MapState { io_maps : list (Z * Z); map_failures : list string }.
Definition with_maps (f : list (Z * Z) → list (Z * Z)) (l : map_state) : map_state :=
  MapState (f (io_maps l)) (map_failures l).
Definition with_map_failure (what : string) (l : map_state) : map_state :=
  MapState (io_maps l) (what :: map_failures l).

(** * 2. The tests *)

Section Tests.
Context {W : Type} `{!IoMap W}.
Abbreviation C := (M (world map_state unit W)).

(** [ASSERT_EQ(a, b)], the code after it being [k] and the label [test_abort]
    being [abort]. *)
Definition ASSERT {A} (what : string) (b : bool) (k abort : C A) : C A :=
  if b then k else mod_loc (with_map_failure what);; abort.

Definition io_mmap (size id : Z) : C Z :=
  va ← env_call (k_io_mmap size id);
  (if va =? IO_MAP_FAILED then ret tt else mod_loc (with_maps (cons (va, size))));;
  ret va.

(** A mapping that is unmapped is not one any more. *)
Definition io_munmap (va size : Z) : C unit :=
  env_call (k_io_munmap va size);;
  mod_loc (with_maps (filter (λ m, m ≠ (va, size)))).

Definition compare_memory_map (va_base phy_addr size : Z) : C bool :=
  ASSERT "va_base" (negb (va_base =? IO_MAP_FAILED))
    (r ← env_call (k_prepare_dma va_base size);
     let '(rc, paddr, psize) := r in
     ASSERT "prepare_dma" (rc =? 1)
       (ASSERT "phy_addr" (negb (phy_addr =? 0))
         (ASSERT "paddr" (phy_addr =? paddr)
           (ASSERT "size" (size =? psize) (ret true) (ret false))
           (ret false))
         (ret false))
       (ret false))
    (ret false).

(** The end of every test, at [test_abort]. *)
Definition unmap (va_base size : Z) : C unit :=
  if negb (va_base =? IO_MAP_FAILED) then io_munmap va_base size else ret tt.

(** The tests of what is mapped, and of what is refused. *)
Definition mapped_test (id phy_addr size : Z) : C unit :=
  va_base ← io_mmap size id;
  rc ← compare_memory_map va_base phy_addr size;
  ASSERT "compare_memory_map" rc (ret tt) (ret tt);;
  unmap va_base size.
Definition refused_test (id size unmap_size : Z) : C unit :=
  va_base ← io_mmap size id;
  ASSERT "va_base" (va_base =? IO_MAP_FAILED) (ret tt) (ret tt);;
  unmap va_base unmap_size.

Definition mem_map_test_1 : C unit := mapped_test TEST1_ID TEST1_PHY_BASE_ADDR TEST1_REG_SIZE.
Definition mem_map_test_2 : C unit := mapped_test TEST2_ID TEST2_PHY_BASE_ADDR TEST2_REG_SIZE.
Definition mem_map_test_3 : C unit := mapped_test TEST3_ID TEST3_PHY_BASE_ADDR TEST3_REG_SIZE.
Definition mem_map_test_small_size : C unit := mapped_test TEST1_ID TEST1_PHY_BASE_ADDR 0x400.
Definition mem_map_test_large_size : C unit := refused_test TEST2_ID 0x2000 0x2000.
Definition mem_map_test_unknown_id : C unit := refused_test 100 TEST1_REG_SIZE TEST1_REG_SIZE.

Definition manifest_tests : list (C unit) :=
  [mem_map_test_1; mem_map_test_2; mem_map_test_3; mem_map_test_small_size;
   mem_map_test_large_size; mem_map_test_unknown_id].
End Tests.

(** * 3. What they establish *)

(** A platform that maps what a manifest lists: any number of bytes within the
    pages of an entry, and nothing else; the memory is the entry's. *)
Definition pages (page n : Z) : Z := (n + (page - 1)) / page * page.
Definition grants (page : Z) (m : list mem_map_entry) (id size : Z) : option Z :=
  match list_find (λ e, map_id e = id) m with
  | Some (_, e) => if size <=? pages page (map_size e) then Some (map_addr e) else None
  | None => None
  end.

Class IoMapLaws (W : Type) `{IoMap W} (page : Z) (m : list mem_map_entry) : Prop := {
  io_mmap_granted size id addr v va v' : grants page m id size = Some addr →
    k_io_mmap size id v = (va, v') →
    va ≠ IO_MAP_FAILED ∧ ∃ v'', k_prepare_dma va size v' = ((1, addr, size), v'');
  io_mmap_refused size id v va v' : grants page m id size = None →
    k_io_mmap size id v = (va, v') → va = IO_MAP_FAILED
}.

Section Correct.
Context {W : Type} `{!IoMap W}.
Implicit Types w : world map_state unit W.

Lemma wp_ASSERT {A} what b (k abort : M (world map_state unit W) A) Q w :
  (b = true → wp k Q w) →
  (b = false → wp abort Q (set_loc (with_map_failure what (loc w)) w)) →
  wp (ASSERT what b k abort) Q w.
Proof. intros H1 H2. apply wp_if; [done|]. intros Hb. by apply wp_bind, wp_mod_loc, H2. Qed.

(** The comparison leaves the mappings alone, and succeeds on memory that is
    what is expected. *)
Lemma compare_spec va phy size w :
  wp (compare_memory_map va phy size) (λ b w', io_maps (loc w') = io_maps (loc w) ∧
    (phy ≠ 0 → va ≠ IO_MAP_FAILED → (∃ v', k_prepare_dma va size (env w) = ((1, phy, size), v')) →
     b = true ∧ map_failures (loc w') = map_failures (loc w))) w.
Proof.
  apply wp_ASSERT; intros H1; [|apply wp_ret; split; [done|lia]].
  apply wp_bind, wp_env_call. intros [[rc pa] ps] v E.
  repeat (apply wp_ASSERT; intros ?;
    [|apply wp_ret; split; [done|intros ?? (v' & E'); rewrite E in E'; simplify_eq; lia]]).
  by apply wp_ret.
Qed.

Lemma io_mmap_maps size id w :
  wp (io_mmap size id) (λ va w', map_failures (loc w') = map_failures (loc w) ∧
    (∃ v, k_io_mmap size id (env w) = (va, v) ∧ env w' = v) ∧
    io_maps (loc w') = (if va =? IO_MAP_FAILED then [] else [(va, size)]) ++ io_maps (loc w)) w.
Proof.
  apply wp_bind, wp_env_call. intros va v E. apply wp_bind.
  destruct (va =? IO_MAP_FAILED) eqn:Hva; [apply wp_ret|apply wp_mod_loc];
    apply wp_ret; (split; [done|]); rewrite Hva; split; [by exists v|done|by exists v|done].
Qed.

Lemma unmap_clears va size w :
  io_maps (loc w) = (if va =? IO_MAP_FAILED then [] else [(va, size)]) →
  wp (unmap va size) (λ _ w', io_maps (loc w') = [] ∧ map_failures (loc w') = map_failures (loc w)) w.
Proof.
  intros Hm. unfold unmap. destruct (va =? IO_MAP_FAILED); cbn [negb]; [by apply wp_ret|].
  apply wp_bind, wp_env_call. intros rc v _. apply wp_mod_loc. split; [|done]. cbn.
  rewrite Hm. by rewrite filter_cons_False by auto.
Qed.

(** What a test of either kind leaves: no mapping, and no new failure if [ok]. *)
Definition tested (ok : Prop) w w' : Prop :=
  io_maps (loc w') = [] ∧ (ok → map_failures (loc w') = map_failures (loc w)).

Lemma mapped_test_spec id phy size w :
  io_maps (loc w) = [] → phy ≠ 0 →
  wp (mapped_test id phy size) (λ _ w', tested
    (∀ va v, k_io_mmap size id (env w) = (va, v) →
       va ≠ IO_MAP_FAILED ∧ ∃ v', k_prepare_dma va size v = ((1, phy, size), v')) w w') w.
Proof.
  intros Hm Hphy. apply wp_bind. eapply wp_mono; [apply io_mmap_maps|].
  intros va w1 (Hf1 & (v & E & Hv) & Hm1). rewrite Hm, app_nil_r in Hm1. apply wp_bind.
  eapply wp_mono; [apply compare_spec|]. intros b w2 [Hm2 Hok]. rewrite <- Hm2 in Hm1.
  assert (∀ w3, io_maps (loc w3) = io_maps (loc w2) →
    ((∀ va v, k_io_mmap size id (env w) = (va, v) →
       va ≠ IO_MAP_FAILED ∧ ∃ v', k_prepare_dma va size v = ((1, phy, size), v')) →
     map_failures (loc w3) = map_failures (loc w)) →
    wp (unmap va size) (λ _ w', tested (∀ va v, k_io_mmap size id (env w) = (va, v) →
       va ≠ IO_MAP_FAILED ∧ ∃ v', k_prepare_dma va size v = ((1, phy, size), v')) w w') w3) as Hend.
  { intros w3 Hm3 Hf3. eapply wp_mono; [by apply unmap_clears; rewrite Hm3|].
    intros [] w4 [Hm4 Hf4]. split; [done|]. intros Hp. by rewrite Hf4, Hf3. }
  apply wp_bind, wp_ASSERT; intros ->; apply wp_ret, Hend; try done; intros Hp;
    destruct (Hp _ _ E) as [Hne Hdma]; rewrite <- Hv in Hdma; destruct (Hok Hphy Hne Hdma) as [Hb Hf2].
  - by rewrite Hf2.
  - done.
Qed.

Lemma refused_test_spec id size w :
  io_maps (loc w) = [] →
  wp (refused_test id size size) (λ _ w', tested
    (∀ va v, k_io_mmap size id (env w) = (va, v) → va = IO_MAP_FAILED) w w') w.
Proof.
  intros Hm. apply wp_bind. eapply wp_mono; [apply io_mmap_maps|].
  intros va w1 (Hf1 & (v & E & Hv) & Hm1). rewrite Hm, app_nil_r in Hm1.
  apply wp_bind, wp_ASSERT; intros Hb; apply wp_ret; (eapply wp_mono; [by apply unmap_clears|]);
    intros [] w2 [Hm2 Hf2]; (split; [done|]); intros Hp; rewrite Hf2; [done|].
  specialize (Hp _ _ E). lia.
Qed.

(** C40. Every test of manifest-test, on any platform, leaves no memory mapped;
    and on a platform with pages of 4 KB that maps what the application's
    manifest lists, and only that, none of its checks fails. *)
Theorem manifest_tests_pass test w :
  test ∈ manifest_tests → io_maps (loc w) = [] →
  wp test (λ _ w', tested (IoMapLaws W 0x1000 mem_map) w w') w.
Proof.
  intros Ht Hm.
  assert (∀ id phy size, phy ≠ 0 → grants 0x1000 mem_map id size = Some phy →
    wp (mapped_test id phy size) (λ _ w', tested (IoMapLaws W 0x1000 mem_map) w w') w) as Hmap.
  { intros id phy size Hphy Hg. eapply wp_mono; [by apply mapped_test_spec|].
    intros [] w' [Hm' Hf]. split; [done|]. intros HL. apply Hf. intros va v E.
    by apply (io_mmap_granted (page:=0x1000) (m:=mem_map) _ _ _ _ _ _ Hg E). }
  assert (∀ id size, grants 0x1000 mem_map id size = None →
    wp (refused_test id size size) (λ _ w', tested (IoMapLaws W 0x1000 mem_map) w w') w) as Href.
  { intros id size Hg. eapply wp_mono; [by apply refused_test_spec|].
    intros [] w' [Hm' Hf]. split; [done|]. intros HL. apply Hf. intros va v E.
    by apply (io_mmap_refused (page:=0x1000) (m:=mem_map) _ _ _ _ _ Hg E). }
  revert test Ht. apply Forall_forall. unfold manifest_tests.
  repeat (apply Forall_cons_2; [by first [apply Hmap|apply Href]|]). apply Forall_nil_2.
Qed.
End Correct.

(** * 4. At a concrete state *)

Module ManifestDemo.
(** The address of a mapping is its physical address. *)
#[local] Instance io : IoMap unit := {|
  IO_MAP_FAILED := -1;
  k_io_mmap size id v := (default (-1) (grants 0x1000 mem_map id size), v);
  k_io_munmap _ _ v := (0, v);
  k_prepare_dma va size v := ((1, va, size), v)
|}.
#[local] Instance io_laws : IoMapLaws unit 0x1000 mem_map.
Proof.
  split.
  - intros size id addr v va v' Hg [= <- <-]. rewrite Hg. cbn. split; [|by exists v].
    unfold grants in Hg. destruct (list_find _ mem_map) as [[i e]|] eqn:He; [|done].
    apply list_find_Some in He as (He & _ & _). destruct (size <=? _); [|done]. injection Hg as <-.
    assert (Forall (λ e, 0 ≤ map_addr e) mem_map) as Hpos by by repeat constructor.
    pose proof (Forall_lookup_1 _ _ _ _ Hpos He). cbn in *. lia.
  - intros size id v va v' Hg [= <- <-]. by rewrite Hg.
Defined.

Definition start : world map_state unit unit := World (MapState [] []) tt tt [].

Lemma manifest_tests_pass_witness :
  ∃ test, test = mem_map_test_large_size (W:=unit) ∧
  wp test (λ _ w', io_maps (loc w') = [] ∧ map_failures (loc w') = []) start.
Proof.
  exists mem_map_test_large_size. split; [done|]. eapply wp_mono.
  - apply (manifest_tests_pass _ start); [|done]. do 4 right. left.
  - intros [] w' [Hm Hf]. split; [exact Hm|exact (Hf io_laws)].
Defined.
End ManifestDemo.
