(* ===== verification/AppMgmtClient.v ===== *)
(** The test client of app-mgmt-test, client/main.c: it loads the servers of
    AppMgmt.v, connects to them, tells them what to do and checks how the
    kernel starts and stops them. *)

From S2P Require Import Prelude Ipc AppMgmt Samples.

(** * 1. Interfaces *)

(** The applications embedded in the client. *)
Inductive test_app :=
| boot_start_app | never_start_app | port_start_app | port_start_fail_app
| restart_app | port_waiter_app | unsigned_app | dev_only_app.

(** interface/apploader, trusty/memref.h, and the IPC calls on whole
    messages. *)
Class Apploader (W : Type) := {
  IPC_CONNECT_ASYNC : Z;
  ERR_TIMED_OUT : Z;
  MMAP_FLAG_PROT_READ : Z;
  APPLOADER_PORT : string;
  APPLOADER_CMD_LOAD_APPLICATION : Z;
  APPLOADER_RESP_BIT : Z;
  APPLOADER_NO_ERROR : Z;
  APPLOADER_ERR_ALREADY_EXISTS : Z;
  APPLOADER_ERR_VERIFICATION_FAILED : Z;
  (** The layout of [struct apploader_header], [struct apploader_load_app_req]
      and [struct apploader_resp]. *)
  apploader_header : Z → bytes;
  apploader_load_app_req : Z → bytes;
  sizeof_apploader_resp : Z;
  resp_cmd : bytes → Z;
  resp_error : bytes → Z;
  round_up : Z → Z → Z;
  (** The addresses of the first byte of an application and of the byte past
      its last. *)
  app_begin : test_app → Z;
  app_end : test_app → Z;
  k_page_size : W → Z * W;
  k_memref : Z → Z → Z → W → Z * W;
  k_send_msg : handle → bytes → list handle → W → Z * W;
  (** The return code, and the id and the length of the message. *)
  k_msg_info : handle → W → (Z * (Z * Z)) * W;
  k_read_msg : handle → Z → Z → Z → Z → W → (Z * bytes) * W;
  k_put_msg : handle → Z → W → Z * W;
  k_app_loading_unlocked : W → bool * W
}.

(** Messages are read whole; 0 is not the handle of an object. *)
Class ApploaderLaws (W : Type) `{PortKernel W} `{Apploader W} : Prop := {
  read_msg_ok h id off n hs e rc bs e' :
    k_read_msg h id off n hs e = ((rc, bs), e') → 0 ≤ rc → Z.of_nat (length bs) = rc;
  connect_nonzero name flags e rc e' : k_connect name flags e = (rc, e') → rc ≠ 0;
  memref_nonzero p n flags e rc e' : k_memref p n flags e = (rc, e') → rc ≠ 0
}.

(** [chan_idx_t]. *)
Definition MAIN_CHAN : Z := 0.
Definition PEND_CHAN : Z := 1.
Definition WAIT_CHAN : Z := 2.
Definition CHAN_COUNT : Z := 3.

Definition EXPECTED_TIMEOUT_MS : Z := 500.
Definition UNEXPECTED_TIMEOUT_MS : Z := 60000.
Definition WAIT_FOR_APP_SLEEP_NS : Z := 500000000.

(** What lib/unittest keeps of the checks of the running test (the answer of
    HasFailure), the static variable of WaitConnectForPort, and
    [AppMgrPortStart_t]. *)
Record client_state := ClientState { failed : bool; skip : bool; chans : list handle }.
Definition with_failed (s : client_state) : client_state := ClientState true (skip s) (chans s).
Definition with_skip (s : client_state) : client_state := ClientState (failed s) true (chans s).
Definition with_chans (f : list handle → list handle) (s : client_state) : client_state :=
  ClientState (failed s) (skip s) (f (chans s)).

(** [ASSERT_*]: a failed check is noted, and the function goes on at its label
    [test_abort]; [EXPECT_*]: it is only noted. *)
Definition note_failure {W} : M (world client_state unit W) unit := mod_loc with_failed.
Notation "'ASSERT' b 'ELSE' a ; k" := (if b then k else bind note_failure (λ _, a))
  (at level 100, b at level 100, a at level 100, k at level 200, right associativity,
   only parsing) : sample_scope.

Section Client.
Context {W : Type} `{!Uapi} `{!Kernel W} `{!PortKernel W} `{!Clock W} `{!Apploader W}.
Abbreviation C := (M (world client_state unit W)).

Definition EXPECT (b : bool) : C unit := if b then ret tt else note_failure.
Definition HasFailure : C bool := get_loc failed.

(** * 2. Helpers *)

Definition port_start_srv_running : C bool :=
  env_call (k_nanosleep WAIT_FOR_APP_SLEEP_NS);;
  rc ← connect CTRL_PORT IPC_CONNECT_ASYNC;
  close rc;;
  ret (0 <=? rc).

Definition chan_send_cmd (chan : handle) (cmd : Z) : C unit :=
  f ← HasFailure;
  if (f : bool) then ret tt else
  rc ← tipc_send chan [cmd];
  ASSERT rc =? 1 ELSE ret tt;
  r ← wait chan INFINITE_TIME;
  let '(rc, uevt) := r in
  ASSERT rc =? NO_ERROR ELSE ret tt;
  ASSERT has (ev_event uevt) IPC_HANDLE_POLL_MSG ELSE ret tt;
  r ← tipc_recv chan 1 1;
  let '(rc, bs) := r in
  ASSERT rc =? 1 ELSE ret tt;
  match bs with
  | [] => stop UninitRead
  | rsp :: _ => ASSERT rsp =? RSP_OK ELSE ret tt; ret tt
  end.

Definition send_cmd (idx cmd : Z) : C unit :=
  assert (idx <? CHAN_COUNT);;
  f ← HasFailure;
  if (f : bool) then ret tt else
  cs ← get_loc chans;
  chan ← fetch cs idx;
  chan_send_cmd chan cmd.

Definition establish_unhandled_channel (idx : Z) : C unit :=
  assert (idx <? CHAN_COUNT);;
  f ← HasFailure;
  if (f : bool) then ret tt else
  rc ← connect START_PORT IPC_CONNECT_ASYNC;
  ASSERT 0 <=? rc ELSE ret tt;
  let chan := rc in
  r ← wait chan EXPECTED_TIMEOUT_MS;
  ASSERT r.1 =? ERR_TIMED_OUT ELSE ret tt;
  mod_loc (with_chans <[Z.to_nat idx := chan]>).

Definition close_channel (idx : Z) : C unit :=
  assert (idx <? CHAN_COUNT);;
  f ← HasFailure;
  if (f : bool) then ret tt else
  cs ← get_loc chans;
  chan ← fetch cs idx;
  close chan;;
  mod_loc (with_chans <[Z.to_nat idx := INVALID_IPC_HANDLE]>).

Definition send_exit (idx : Z) : C unit :=
  assert (idx <? CHAN_COUNT);;
  f ← HasFailure;
  if (f : bool) then ret tt else
  send_cmd idx CMD_EXIT;;
  close_channel idx.

Definition wait_and_exit (idx : Z) : C unit :=
  assert (idx <? CHAN_COUNT);;
  f ← HasFailure;
  if (f : bool) then ret tt else
  cs ← get_loc chans;
  chan ← fetch cs idx;
  r ← wait chan INFINITE_TIME;
  let '(rc, uevt) := r in
  ASSERT rc =? NO_ERROR ELSE ret tt;
  ASSERT has (ev_event uevt) IPC_HANDLE_POLL_READY ELSE ret tt;
  send_exit idx.

(** * 3. Loading an application *)

(** [req]: the object [req] points to, of [req_size] bytes. *)
Definition send_apploader_request (channel : handle) (cmd : Z) (req : option bytes)
    (req_size : Z) (h : handle) : C unit :=
  f ← HasFailure;
  if (f : bool) then ret tt else
  let hdr := apploader_header cmd in
  let body := match req with
              | Some bs => if req_size =? 0 then [] else take (Z.to_nat req_size) bs
              | None => []
              end in
  let handles := if negb (h =? INVALID_IPC_HANDLE) then [h] else [] in
  rc ← syscall (k_send_msg channel (hdr ++ body) handles)
         (SSendMsg channel (hdr ++ body) handles);
  ASSERT rc =? Z.of_nat (length hdr) + req_size ELSE ret tt;
  ret tt.

(** No handles are asked for. *)
Definition read_apploader_response (channel : handle) (cmd num_handles : Z) (id len : Z) : C Z :=
  ASSERT len =? sizeof_apploader_resp ELSE ret 0;
  r ← syscall (k_read_msg channel id 0 sizeof_apploader_resp num_handles)
        (λ r, SRecv channel r.1 r.2);
  let '(rc, resp) := r in
  ASSERT rc =? sizeof_apploader_resp ELSE ret 0;
  if Z.of_nat (length resp) <? sizeof_apploader_resp then stop UninitRead else
  ASSERT resp_cmd resp =? Z.lor cmd APPLOADER_RESP_BIT ELSE ret 0;
  ret (resp_error resp).

Definition recv_apploader_response (channel : handle) (cmd num_handles : Z) : C Z :=
  f ← HasFailure;
  if (f : bool) then ret 0 else
  r ← wait channel INFINITE_TIME;
  let '(rc, event) := r in
  ASSERT rc =? NO_ERROR ELSE ret 0;
  ASSERT has (ev_event event) IPC_HANDLE_POLL_MSG ELSE ret 0;
  r ← env_call (k_msg_info channel);
  let '(rc, (id, len)) := r in
  ASSERT rc =? NO_ERROR ELSE ret 0;
  rc ← read_apploader_response channel cmd num_handles id len;
  env_call (k_put_msg channel id);;
  ret rc.

(** The label [test_abort] of [load_app]. *)
Definition load_abort (handle chan : handle) : C Z :=
  (if 0 <? handle then close handle;; ret tt else ret tt);;
  close chan;;
  ret 0.

Definition load_app (a : test_app) : C Z :=
  rc ← connect APPLOADER_PORT IPC_CONNECT_WAIT_FOR_PORT;
  ASSERT 0 <? rc ELSE load_abort INVALID_IPC_HANDLE INVALID_IPC_HANDLE;
  let chan := rc in
  page_size ← env_call k_page_size;
  let app_size := app_end a - app_begin a in
  let aligned_app_size := round_up app_size page_size in
  handle ← syscall (k_memref (app_begin a) aligned_app_size MMAP_FLAG_PROT_READ)
             (SMemrefCreate (app_begin a) aligned_app_size MMAP_FLAG_PROT_READ);
  ASSERT 0 <? handle ELSE load_abort handle chan;
  let req := apploader_load_app_req app_size in
  send_apploader_request chan APPLOADER_CMD_LOAD_APPLICATION (Some req)
    (Z.of_nat (length req)) handle;;
  f ← HasFailure;
  ASSERT negb f ELSE load_abort handle chan;
  error ← recv_apploader_response chan APPLOADER_CMD_LOAD_APPLICATION 0;
  f ← HasFailure;
  ASSERT negb f ELSE load_abort handle chan;
  (if error =? APPLOADER_NO_ERROR then env_call (k_nanosleep WAIT_FOR_APP_SLEEP_NS) else ret tt);;
  close handle;;
  close chan;;
  ret error.

(** * 4. Tests *)

Definition or_already_exists (error : Z) : bool :=
  (error =? APPLOADER_NO_ERROR) || (error =? APPLOADER_ERR_ALREADY_EXISTS).

(** How most tests begin: load an application that may be there already; on a
    failed check, [abort]. *)
Definition loading {A} (a : test_app) (abort k : C A) : C A :=
  error ← load_app a;
  f ← HasFailure;
  ASSERT negb f ELSE abort;
  ASSERT or_already_exists error ELSE abort;
  k.

Definition closing_chan (chan : handle) : C unit := close chan;; ret tt.

Definition DoubleLoad : C unit :=
  loading boot_start_app (ret tt) (
    error ← load_app boot_start_app;
    f ← HasFailure;
    ASSERT negb f ELSE ret tt;
    ASSERT error =? APPLOADER_ERR_ALREADY_EXISTS ELSE ret tt;
    ret tt).

(** The end of the test, from the wait for the response on. *)
Definition await_response (chan : handle) : C unit :=
  r ← wait chan UNEXPECTED_TIMEOUT_MS;
  let '(rc, uevt) := r in
  ASSERT rc =? NO_ERROR ELSE closing_chan chan;
  ASSERT has (ev_event uevt) IPC_HANDLE_POLL_READY ELSE closing_chan chan;
  let receive :=
    r ← tipc_recv chan 1 1;
    let '(rc, bs) := r in
    ASSERT rc =? 1 ELSE closing_chan chan;
    match bs with
    | [] => stop UninitRead
    | rsp :: _ => ASSERT rsp =? RSP_OK ELSE closing_chan chan; closing_chan chan
    end in
  if negb (has (ev_event uevt) IPC_HANDLE_POLL_MSG) then
    r ← wait chan INFINITE_TIME;
    let '(rc, uevt) := r in
    ASSERT rc =? NO_ERROR ELSE closing_chan chan;
    ASSERT has (ev_event uevt) IPC_HANDLE_POLL_MSG ELSE closing_chan chan;
    receive
  else receive.

Definition WaitConnectForPort : C unit :=
  let abort := closing_chan INVALID_IPC_HANDLE in
  s ← get_loc skip;
  if (s : bool) then ret tt else
  mod_loc with_skip;;
  running ← port_start_srv_running;
  ASSERT negb running ELSE abort;
  loading port_waiter_app abort (
    load_error ← load_app port_start_app;
    f ← HasFailure;
    ASSERT negb f ELSE abort;
    ASSERT load_error =? APPLOADER_NO_ERROR ELSE abort;
    rc ← connect PORT_WAITER_PORT (Z.lor IPC_CONNECT_ASYNC IPC_CONNECT_WAIT_FOR_PORT);
    ASSERT 0 <=? rc ELSE abort;
    await_response rc).

Definition BootStartNegative : C unit :=
  loading never_start_app (ret tt) (
    rc ← connect NEVER_START_PORT IPC_CONNECT_ASYNC;
    EXPECT (rc <? 0);;
    closing_chan rc).

Definition BootStartPositive : C unit :=
  loading boot_start_app (ret tt) (
    rc ← connect BOOT_START_PORT IPC_CONNECT_ASYNC;
    EXPECT (0 <=? rc);;
    closing_chan rc).

Definition AppRestartPositive : C unit :=
  loading restart_app (closing_chan INVALID_IPC_HANDLE) (
    rc ← connect RESTART_PORT (Z.lor IPC_CONNECT_ASYNC IPC_CONNECT_WAIT_FOR_PORT);
    ASSERT 0 <=? rc ELSE closing_chan INVALID_IPC_HANDLE;
    let chan := rc in
    r ← wait chan INFINITE_TIME;
    let '(rc, uevt) := r in
    ASSERT rc =? NO_ERROR ELSE closing_chan chan;
    ASSERT has (ev_event uevt) IPC_HANDLE_POLL_HUP ELSE closing_chan chan;
    close chan;;
    rc ← connect RESTART_PORT (Z.lor IPC_CONNECT_ASYNC IPC_CONNECT_WAIT_FOR_PORT);
    ASSERT 0 <=? rc ELSE closing_chan chan;
    closing_chan rc).

Definition AppRestartNegativePortStartPositive : C unit :=
  loading port_start_app (closing_chan INVALID_IPC_HANDLE) (
    rc ← connect START_PORT 0;
    ASSERT 0 <=? rc ELSE closing_chan INVALID_IPC_HANDLE;
    let chan := rc in
    chan_send_cmd chan CMD_EXIT;;
    f ← HasFailure;
    ASSERT negb f ELSE closing_chan chan;
    running ← port_start_srv_running;
    ASSERT negb running ELSE closing_chan chan;
    closing_chan chan).

(** One connection to the port that cannot start its application, and then
    [k]. *)
Definition start_fails (timeout : Z) (k : C unit) : C unit :=
  rc ← connect START_FAIL_PORT IPC_CONNECT_ASYNC;
  ASSERT 0 <=? rc ELSE ret tt;
  let chan := rc in
  r ← wait chan timeout;
  let '(rc, uevt) := r in
  ASSERT rc =? NO_ERROR ELSE ret tt;
  ASSERT has (ev_event uevt) IPC_HANDLE_POLL_HUP ELSE ret tt;
  close chan;;
  k.

Definition PortStartFail : C unit :=
  loading port_start_fail_app (ret tt)
    (start_fails UNEXPECTED_TIMEOUT_MS (start_fails WAIT_FOR_APP_SLEEP_NS (ret tt))).

Definition PortStartNegative : C unit :=
  loading port_start_app (ret tt) (
    rc ← connect CTRL_PORT IPC_CONNECT_ASYNC;
    EXPECT (rc <? 0);;
    closing_chan rc).

Definition UnsignedApp : C unit :=
  error ← load_app unsigned_app;
  f ← HasFailure;
  ASSERT negb f ELSE ret tt;
  ASSERT error =? APPLOADER_ERR_VERIFICATION_FAILED ELSE ret tt;
  ret tt.

Definition UnlockedDevLoad : C unit :=
  error ← load_app dev_only_app;
  f ← HasFailure;
  ASSERT negb f ELSE ret tt;
  unlocked ← env_call k_app_loading_unlocked;
  if (unlocked : bool) then ASSERT or_already_exists error ELSE ret tt; ret tt
  else EXPECT (error =? APPLOADER_ERR_VERIFICATION_FAILED).

(** The tests without a fixture. *)
Definition plain_tests : list (C unit) :=
  [DoubleLoad; WaitConnectForPort; BootStartNegative; BootStartPositive; AppRestartPositive;
   AppRestartNegativePortStartPositive; PortStartFail; PortStartNegative; UnsignedApp;
   UnlockedDevLoad].

(** * 5. The tests of start ports *)

Definition AppMgrPortStart_SetUp : C unit :=
  loading port_start_app (ret tt) (
    mod_loc (with_chans (λ _, [INVALID_IPC_HANDLE; INVALID_IPC_HANDLE; INVALID_IPC_HANDLE]));;
    rc ← connect SHUTDOWN_PORT IPC_CONNECT_ASYNC;
    let start :=
      running ← port_start_srv_running;
      ASSERT negb running ELSE ret tt;
      rc ← connect START_PORT 0;
      ASSERT 0 <=? rc ELSE ret tt;
      mod_loc (with_chans <[Z.to_nat MAIN_CHAN := rc]>) in
    if 0 <? rc then
      let chan := rc in
      r ← wait chan INFINITE_TIME;
      let '(rc, uevt) := r in
      close chan;;
      ASSERT 0 <=? rc ELSE ret tt;
      ASSERT has (ev_event uevt) IPC_HANDLE_POLL_HUP ELSE ret tt;
      start
    else start).

(** The label [test_abort] of the tear-down. *)
Definition close_all : C unit :=
  cs ← get_loc chans;
  foldM (λ _ chan, close chan;; ret tt) tt cs.

(** The checks that every channel was given back. *)
Fixpoint check_closed (cs : list handle) : C unit :=
  match cs with
  | [] => close_all
  | chan :: cs => ASSERT chan =? INVALID_IPC_HANDLE ELSE close_all; check_closed cs
  end.

Definition AppMgrPortStart_TearDown : C unit :=
  f ← HasFailure;
  ASSERT negb f ELSE close_all;
  running ← port_start_srv_running;
  ASSERT negb running ELSE close_all;
  cs ← get_loc chans;
  check_closed cs.

(** TEST_F: the set-up, the body, which the framework may leave out when the
    set-up failed ([skips]), and the tear-down. *)
Definition test_f (skips : bool) (body : C unit) : C unit :=
  AppMgrPortStart_SetUp;;
  f ← HasFailure;
  (if (f : bool) && skips then ret tt else body);;
  AppMgrPortStart_TearDown.

Definition PortStartPendingNegative : C unit :=
  establish_unhandled_channel PEND_CHAN;;
  close_channel PEND_CHAN;;
  send_exit MAIN_CHAN.

Definition PortStartPendingPositive : C unit :=
  establish_unhandled_channel PEND_CHAN;;
  send_exit MAIN_CHAN;;
  wait_and_exit PEND_CHAN.

Definition PortStartWaitingNegative : C unit :=
  send_cmd MAIN_CHAN CMD_CLOSE_PORT;;
  establish_unhandled_channel WAIT_CHAN;;
  close_channel WAIT_CHAN;;
  send_exit MAIN_CHAN.

Definition PortStartWaitingPositive : C unit :=
  send_cmd MAIN_CHAN CMD_CLOSE_PORT;;
  establish_unhandled_channel WAIT_CHAN;;
  send_exit MAIN_CHAN;;
  wait_and_exit WAIT_CHAN.

Definition PortStartPendingToWaitingNegative : C unit :=
  establish_unhandled_channel PEND_CHAN;;
  send_cmd MAIN_CHAN CMD_CLOSE_PORT;;
  close_channel PEND_CHAN;;
  send_exit MAIN_CHAN.

Definition PortStartPendingToWaitingPositive : C unit :=
  establish_unhandled_channel PEND_CHAN;;
  send_cmd MAIN_CHAN CMD_CLOSE_PORT;;
  send_exit MAIN_CHAN;;
  wait_and_exit PEND_CHAN.

Definition PortStartWaitingToPendingNegative : C unit :=
  send_cmd MAIN_CHAN CMD_CLOSE_PORT;;
  establish_unhandled_channel WAIT_CHAN;;
  send_cmd MAIN_CHAN CMD_OPEN_PORT;;
  close_channel WAIT_CHAN;;
  send_exit MAIN_CHAN.

Definition PortStartWaitingToPendingPositive : C unit :=
  send_cmd MAIN_CHAN CMD_CLOSE_PORT;;
  establish_unhandled_channel WAIT_CHAN;;
  send_cmd MAIN_CHAN CMD_OPEN_PORT;;
  send_exit MAIN_CHAN;;
  wait_and_exit WAIT_CHAN.

Definition PortStartPendingWaitingNegative : C unit :=
  establish_unhandled_channel PEND_CHAN;;
  send_cmd MAIN_CHAN CMD_CLOSE_PORT;;
  establish_unhandled_channel WAIT_CHAN;;
  close_channel PEND_CHAN;;
  close_channel WAIT_CHAN;;
  send_exit MAIN_CHAN.

Definition PortStartPendingWaitingPositive : C unit :=
  establish_unhandled_channel PEND_CHAN;;
  send_cmd MAIN_CHAN CMD_CLOSE_PORT;;
  establish_unhandled_channel WAIT_CHAN;;
  send_exit MAIN_CHAN;;
  wait_and_exit PEND_CHAN;;
  wait_and_exit WAIT_CHAN.

Definition PortStartPendingClosedWaitingPositive : C unit :=
  establish_unhandled_channel PEND_CHAN;;
  send_cmd MAIN_CHAN CMD_CLOSE_PORT;;
  establish_unhandled_channel WAIT_CHAN;;
  close_channel PEND_CHAN;;
  send_exit MAIN_CHAN;;
  wait_and_exit WAIT_CHAN.

Definition PortStartPendingWaitingClosedPositive : C unit :=
  establish_unhandled_channel PEND_CHAN;;
  send_cmd MAIN_CHAN CMD_CLOSE_PORT;;
  establish_unhandled_channel WAIT_CHAN;;
  close_channel WAIT_CHAN;;
  send_exit MAIN_CHAN;;
  wait_and_exit PEND_CHAN.

Definition port_start_tests : list (C unit) :=
  [PortStartPendingNegative; PortStartPendingPositive; PortStartWaitingNegative;
   PortStartWaitingPositive; PortStartPendingToWaitingNegative;
   PortStartPendingToWaitingPositive; PortStartWaitingToPendingNegative;
   PortStartWaitingToPendingPositive; PortStartPendingWaitingNegative;
   PortStartPendingWaitingPositive; PortStartPendingClosedWaitingPositive;
   PortStartPendingWaitingClosedPositive].
End Client.
