(* ===== verification/AppMgmtClientCorrect.v ===== *)
(** The correctness of the test client of AppMgmtClient.v: the handles it
    holds, the commands it sends, what loading an application does, and the
    client together with port-start-srv. *)

From S2P Require Import Prelude Ipc AppMgmt AppMgmtCorrect Samples AppMgmtClient.

(** * 1. Commands on the trace *)

(** The commands sent, newest first, each with its channel. *)
Definition sent (tr : list sysev) : list (handle * Z) :=
  omap (λ e, match e with SSend h [c] _ => Some (h, c) | _ => None end) tr.

(** A session is the commands up to CMD_EXIT, which ends the server; the next
    one is with an instance that was started again. *)
Definition session_step (e : handle * Z) (gs : list (list (handle * Z))) :=
  match gs with
  | (e' :: g) :: gs' => if e'.2 =? CMD_EXIT then [e] :: gs else (e :: e' :: g) :: gs'
  | _ => [e] :: gs
  end.
Definition sessions (l : list (handle * Z)) : list (list (handle * Z)) := foldr session_step [] l.

(** What port-start-srv relies on: one channel, on which the port is closed
    only when it is open and opened only when it is closed. *)
Definition session_ok (s : list (handle * Z)) : Prop :=
  (∃ h, Forall (λ e, e.1 = h) s) ∧ port_after s.*2 ≠ None.

(** The last session was told to exit. *)
Definition all_ended (l : list (handle * Z)) : Prop :=
  match l with [] => True | e :: _ => e.2 = CMD_EXIT end.

(** The same as a machine: the channel of the session that is going on, if
    any, and whether the start port is open. *)
Definition proto_step (e : handle * Z) (st : option (option handle * bool)) :
    option (option handle * bool) :=
  match st with
  | None => None
  | Some (oh, b) =>
    if decide (oh = None ∨ oh = Some e.1) then
      if e.2 =? CMD_EXIT then Some (None, true)
      else match port_step e.2 (Some b) with Some b' => Some (Some e.1, b') | None => None end
    else None
  end.
Definition proto (l : list (handle * Z)) : option (option handle * bool) :=
  foldr proto_step (Some (None, true)) l.

(** How the state of the machine shows in the sessions. *)
Definition proto_shape (st : option handle * bool) (gs : list (list (handle * Z))) : Prop :=
  match st.1 with
  | None => st.2 = true ∧ match gs with [] => True | g :: _ => ∃ e g', g = e :: g' ∧ e.2 = CMD_EXIT end
  | Some h => ∃ e g gs', gs = (e :: g) :: gs' ∧ e.2 ≠ CMD_EXIT ∧ Forall (λ e, e.1 = h) (e :: g) ∧
      port_after (e :: g).*2 = Some st.2
  end.

Section Protocol.
Implicit Types l : list (handle * Z).

Lemma exit_ok h (g : list (handle * Z)) b :
  Forall (λ e, e.1 = h) g → port_after g.*2 = Some b → session_ok ((h, CMD_EXIT) :: g).
Proof. intros Hg Hp. split; [exists h; by constructor|]. cbn. unfold port_after in Hp. by rewrite Hp. Qed.

Lemma proto_sessions l st :
  proto l = Some st → Forall session_ok (sessions l) ∧ proto_shape st (sessions l).
Proof.
  revert st. induction l as [|[h c] l IH]; intros st; cbn [proto sessions foldr].
  { intros [= <-]. split; [constructor|done]. }
  fold (proto l) (sessions l). destruct (proto l) as [[oh b]|]; [|done].
  destruct (IH _ eq_refl) as [Hall Hshape]. clear IH. unfold proto_shape in Hshape.
  cbn [proto_step fst snd] in *.
  destruct (decide _) as [Hh|_]; [|done].
  assert (session_step (h, c) (sessions l) = [(h, c)] :: sessions l ∧ b = true ∨
    ∃ e g gs', sessions l = (e :: g) :: gs' ∧ e.2 ≠ CMD_EXIT ∧ Forall (λ e, e.1 = h) (e :: g) ∧
      port_after (e :: g).*2 = Some b ∧ session_step (h, c) (sessions l) = ((h, c) :: e :: g) :: gs')
    as Hstep.
  { destruct oh as [h'|].
    - destruct Hh as [?|[= ->]]; [done|]. destruct Hshape as (e & g & gs' & E & He & Hg & Hp).
      right. exists e, g, gs'. split_and!; try done. rewrite E. cbn.
      by rewrite (proj2 (Z.eqb_neq _ _) He).
    - destruct Hshape as [-> Hends]. left. split; [|done]. unfold session_step.
      destruct (sessions l) as [|g gs]; [done|]. destruct Hends as (e & g' & -> & ->). done. }
  destruct (Z.eqb_spec c CMD_EXIT) as [->|Hc].
  - intros [= <-]. destruct Hstep as [[-> _]|(e & g & gs' & E & He & Hg & Hp & ->)].
    + split; [constructor; [by apply (exit_ok h [] true)|done]|].
      split; [done|]. by exists (h, CMD_EXIT), [].
    + rewrite E in Hall. apply Forall_cons_1 in Hall as [_ Hall].
      split; [constructor; [by apply (exit_ok h _ b)|done]|].
      split; [done|]. by exists (h, CMD_EXIT), (e :: g).
  - destruct (port_step c (Some b)) as [b'|] eqn:Eb; [|done]. intros [= <-].
    destruct Hstep as [[-> ->]|(e & g & gs' & E & He & Hg & Hp & ->)].
    + assert (port_after [c] = Some b') as Hp by (cbn [port_after foldr]; done).
      split; [constructor; [|done]|].
      * split; [exists h; by repeat constructor|]. cbn [fmap list_fmap snd]. by rewrite Hp.
      * exists (h, c), [], (sessions l). split_and!; [done|done|by repeat constructor|done].
    + rewrite E in Hall. apply Forall_cons_1 in Hall as [_ Hall].
      assert (port_after (((h, c) :: e :: g).*2) = Some b') as Hp'.
      { unfold port_after in *. cbn [fmap list_fmap foldr snd] in *. by rewrite Hp. }
      split; [constructor; [|done]|].
      * split; [exists h; by constructor|by rewrite Hp'].
      * exists (h, c), (e :: g), gs'. split_and!; [done|done|by constructor|done].
Qed.

Lemma proto_ended l b : proto l = Some (None, b) → all_ended l.
Proof.
  destruct l as [|[h c] l]; [done|]. cbn. destruct (foldr _ _ _) as [[oh b']|]; [|done]. cbn.
  destruct (decide _); [|done]. destruct (Z.eqb_spec c CMD_EXIT); [done|].
  change (match port_step c (Some b') with Some b1 => Some (Some h, b1) | None => None end = Some (None, b) → c = CMD_EXIT).
  by destruct (port_step c (Some b')).
Qed.

(** Fewer commands of a session are as good. *)
Lemma port_after_suffix cmds cmds' :
  cmds' `suffix_of` cmds → port_after cmds ≠ None → port_after cmds' ≠ None.
Proof.
  intros [l ->]. induction l as [|c l IH]; [done|]. intros Hp. apply IH. contradict Hp.
  unfold port_after in *. cbn. by rewrite Hp.
Qed.
End Protocol.

(** * 2. Accounts *)

(** A call that neither moves a handle nor sends a command. *)
Definition quiet (e : sysev) : bool :=
  neutral e && match e with SSend _ [_] _ => false | _ => true end.

(** The handles held, and the commands sent. *)
Definition account (s : list (handle * Z)) (l : list handle) (tr : list sysev) : Prop :=
  balanced tr l ∧ sent tr = s.

Section Accounts.
Implicit Types (s : list (handle * Z)) (l : list handle) (tr : list sysev).

Lemma account_quiet e s l tr : quiet e = true → account s l tr → account s l (e :: tr).
Proof.
  unfold quiet. intros [Hn Hs]%andb_prop [Hb <-]. split; [by apply balanced_neutral|].
  destruct e as [| | | |h [|c [|]] rc| | | | | | | | | | | |]; done.
Qed.

Lemma account_quiets evs s l tr :
  forallb quiet evs = true → account s l tr → account s l (evs ++ tr).
Proof.
  induction evs as [|e evs IH]; [done|]. intros [He Hevs]%andb_prop Ha.
  apply account_quiet; [done|by apply IH].
Qed.

Lemma account_connect name rc s l tr :
  account s l tr → account s (if 0 <=? rc then rc :: l else l) (SConnect name rc :: tr).
Proof.
  intros [Hb <-]. split; [|done]. destruct (Z.leb_spec 0 rc).
  - apply balanced_opening; [|done..]. cbn. by rewrite (proj2 (Z.leb_le _ _)).
  - apply balanced_neutral; [cbn; lia|done].
Qed.

Lemma account_memref p n prot rc s l tr :
  account s l tr → account s (if 0 <=? rc then rc :: l else l) (SMemrefCreate p n prot rc :: tr).
Proof.
  intros [Hb <-]. split; [|done]. destruct (Z.leb_spec 0 rc).
  - apply balanced_opening; [|done..]. cbn. by rewrite (proj2 (Z.leb_le _ _)).
  - apply balanced_neutral; [cbn; lia|done].
Qed.

(** Closing a handle that is held, or a value that is none. *)
Lemma account_close h s l tr :
  account s (if 0 <=? h then h :: l else l) tr → account s l (SClose h :: tr).
Proof.
  intros [Hb <-]. split; [|done]. destruct (Z.leb_spec 0 h).
  - by apply balanced_close.
  - apply balanced_neutral; [cbn; lia|done].
Qed.

Lemma account_perm s l l' tr : l ≡ₚ l' → account s l tr → account s l' tr.
Proof. intros E [Hb Hs]. split; [by eapply balanced_perm|done]. Qed.

Lemma account_send h c n s l tr : account s l tr → account ((h, c) :: s) l (SSend h [c] n :: tr).
Proof. intros [Hb <-]. split; [by apply balanced_neutral|done]. Qed.
End Accounts.

(** * 3. Loading an application *)

Section Client.
Context {W : Type} `{!Uapi} `{!Kernel W} `{!KernelLaws W} `{!PortKernel W} `{!Clock W}
  `{!Apploader W} `{!ApploaderLaws W}.
Implicit Types (w : world client_state unit W) (s : list (handle * Z)) (l : list handle).

Lemma wp_check {A} (b : bool) (abort k : M (world client_state unit W) A) Q w :
  (b = true → wp k Q w) → (b = false → wp abort Q (set_loc (with_failed (loc w)) w)) →
  wp (ASSERT b ELSE abort; k) Q w.
Proof. intros H1 H2. apply wp_if; [done|]. intros Hb. by apply wp_bind, wp_mod_loc, H2. Qed.

(** In the part of a function before a failure, the function only makes quiet
    calls. *)
Lemma running_spec s l w :
  account s l (trace w) →
  wp port_start_srv_running (λ _ w', account s l (trace w') ∧ loc w' = loc w) w.
Proof.
  intros Ha. unfold port_start_srv_running. apply wp_bind, wp_env_call. intros _ v _.
  apply wp_bind. ipc_call rc v2 E. apply wp_bind, wp_close. intros _ v3. apply wp_ret.
  split; [|done]. by apply account_close, account_connect.
Qed.

(** A load request and its answer, newest first: the memref of the application
    itself, [size] bytes from its first one on and only to be read, goes with
    the request, and both were sent whole. *)
Definition exchange (a : test_app) (chan memref size : Z) (resp : bytes) : list sysev :=
  let req := apploader_header APPLOADER_CMD_LOAD_APPLICATION ++
             apploader_load_app_req (app_end a - app_begin a) in
  [SClose chan; SClose memref; SRecv chan sizeof_apploader_resp resp; SWait chan NO_ERROR;
   SSendMsg chan req [memref] (Z.of_nat (length req));
   SMemrefCreate (app_begin a) size MMAP_FLAG_PROT_READ memref; SConnect APPLOADER_PORT chan].

(** [load_app a] returned [r]: it lent the application, rounded up to pages, with
    the request to load it, and [r] is the error of the response to that
    request. *)
Definition load_answered (a : test_app) (r : Z) (tr tr' : list sysev) : Prop :=
  ∃ chan memref e resp, 0 < chan ∧ 0 < memref ∧
    tr' = exchange a chan memref (round_up (app_end a - app_begin a) (k_page_size e).1) resp ++ tr ∧
    resp_cmd resp = Z.lor APPLOADER_CMD_LOAD_APPLICATION APPLOADER_RESP_BIT ∧
    r = resp_error resp.

Lemma loader_request_spec chan cmd req h w :
  failed (loc w) = false → h ≠ INVALID_IPC_HANDLE →
  wp (send_apploader_request chan cmd (Some req) (Z.of_nat (length req)) h) (λ _ w', ∃ n,
    trace w' = SSendMsg chan (apploader_header cmd ++ req) [h] n :: trace w ∧
    (loc w' = loc w ∧ n = Z.of_nat (length (apploader_header cmd ++ req)) ∨
     loc w' = with_failed (loc w))) w.
Proof.
  intros Hf Hh. unfold send_apploader_request. apply wp_bind, wp_get_loc. rewrite Hf.
  assert ((if Z.of_nat (length req) =? 0 then [] else take (Z.to_nat (Z.of_nat (length req))) req)
    = req) as ->.
  { rewrite Nat2Z.id, firstn_all. destruct req; [done|]. by destruct (Z.eqb_spec (Z.of_nat (length (z :: req))) 0). }
  cbn zeta. rewrite (proj2 (Z.eqb_neq _ _) Hh). cbn [negb]. apply wp_bind. ipc_call n v E.
  apply wp_check; intros Hn; apply wp_ret; exists n; (split; [done|]); [left|by right].
  split; [done|]. rewrite length_app. lia.
Qed.

Lemma response_spec chan cmd num w :
  failed (loc w) = false →
  wp (recv_apploader_response chan cmd num) (λ r w',
    (∃ resp, trace w' = SRecv chan sizeof_apploader_resp resp :: SWait chan NO_ERROR :: trace w ∧
      resp_cmd resp = Z.lor cmd APPLOADER_RESP_BIT ∧ r = resp_error resp ∧ loc w' = loc w) ∨
    (∃ evs, trace w' = evs ++ trace w ∧ forallb quiet evs = true ∧ loc w' = with_failed (loc w))) w.
Proof.
  intros Hf. unfold recv_apploader_response. apply wp_bind, wp_get_loc. rewrite Hf.
  apply wp_bind. ipc_call r v E. destruct r as [rc event]. cbn [fst].
  apply wp_check; intros H1; [|apply wp_ret; right; by exists [SWait chan rc]].
  apply wp_check; intros H2; [|apply wp_ret; right; by exists [SWait chan rc]].
  apply wp_bind, wp_env_call. intros [rc2 [id len]] v2 _.
  apply wp_check; intros H3; [|apply wp_ret; right; by exists [SWait chan rc]].
  apply wp_bind. unfold read_apploader_response.
  assert (rc = NO_ERROR) as -> by lia.
  apply wp_check; intros H4.
  2: { apply wp_ret, wp_bind, wp_env_call. intros _ v3 _. apply wp_ret. right. by exists [SWait chan NO_ERROR]. }
  apply wp_bind. ipc_call r3 v3 E3. destruct r3 as [rc3 resp]. cbn [fst snd].
  apply wp_check; intros H5.
  2: { apply wp_ret, wp_bind, wp_env_call. intros _ v4 _. apply wp_ret. right.
       by exists [SRecv chan rc3 resp; SWait chan NO_ERROR]. }
  assert (rc3 = sizeof_apploader_resp) as -> by lia.
  wp_cases H6.
  { exfalso. destruct (Z.ltb_spec sizeof_apploader_resp 0); [lia|].
    rewrite (read_msg_ok _ _ _ _ _ _ _ _ _ E3) in H6 by done. lia. }
  apply wp_check; intros H7; apply wp_ret, wp_bind, wp_env_call; intros _ v4 _; apply wp_ret.
  - left. exists resp. split_and!; [done|lia|done|done].
  - right. by exists [SRecv chan sizeof_apploader_resp resp; SWait chan NO_ERROR].
Qed.

Lemma load_abort_spec s l hd chan (Q : Z → world client_state unit W → Prop) w :
  hd ≠ 0 →
  account s (if 0 <=? hd then hd :: (if 0 <=? chan then chan :: l else l)
             else if 0 <=? chan then chan :: l else l) (trace w) →
  (∀ w', account s l (trace w') → loc w' = loc w → Q 0 w') →
  wp (load_abort hd chan) Q w.
Proof.
  intros Hnz Ha HQ. unfold load_abort. apply wp_bind. wp_cases H1.
  - apply wp_bind, wp_close. intros _ v. apply wp_ret. apply wp_bind, wp_close. intros _ v2.
    apply wp_ret, HQ; [|done]. by apply account_close, account_close.
  - apply wp_ret, wp_bind, wp_close. intros _ v2. apply wp_ret, HQ; [|done]. apply account_close.
    by rewrite (proj2 (Z.leb_gt 0 hd)) in Ha by lia.
Qed.

(** [load_app] gives back what it takes, and says when it fails. *)
Lemma load_app_spec s l a w :
  failed (loc w) = false → account s l (trace w) →
  wp (load_app a) (λ r w', account s l (trace w') ∧
    (loc w' = loc w ∧ load_answered a r (trace w) (trace w') ∨
     loc w' = with_failed (loc w) ∧ r = 0)) w.
Proof.
  intros Hf Ha. unfold load_app. apply wp_bind. ipc_call chan v E.
  apply connect_nonzero in E.
  pose proof (account_connect APPLOADER_PORT chan _ _ _ Ha) as Ha1.
  pose proof invalid_handle_neg as Hneg.
  apply wp_check; intros H1.
  2: { eapply (load_abort_spec s l); [lia| |by intros w' Hw' ->; split; [|right]].
       rewrite (proj2 (Z.leb_gt 0 INVALID_IPC_HANDLE)) by done.
       by rewrite (proj2 (Z.leb_gt 0 chan)) in Ha1 by lia. }
  rewrite (proj2 (Z.leb_le 0 chan)) in Ha1 by lia.
  apply wp_bind, wp_env_call. intros pg v2 Hpg.
  apply wp_bind. ipc_call memref v3 E3. apply memref_nonzero in E3.
  set (size := round_up _ _).
  pose proof (account_memref (app_begin a) size MMAP_FLAG_PROT_READ memref _ _ _ Ha1) as Ha2.
  apply wp_check; intros H2.
  2: { eapply (load_abort_spec s l); [done| |by intros w' Hw' ->; split; [|right]].
       by rewrite (proj2 (Z.leb_le 0 chan)) by lia. }
  rewrite (proj2 (Z.leb_le 0 memref)) in Ha2 by lia.
  apply wp_bind. eapply wp_mono; [apply loader_request_spec; [done|lia]|]. intros _ w1 (n & Ht1 & Hl1).
  cbn in Hl1. set (bs := _ ++ _) in Ht1.
  assert (account s (memref :: chan :: l) (trace w1)) as Ha3.
  { rewrite Ht1. by apply account_quiet. }
  apply wp_bind, wp_get_loc.
  assert (∀ w', account s (memref :: chan :: l) (trace w') → loc w' = with_failed (loc w) →
    wp (load_abort memref chan) (λ r w', account s l (trace w') ∧
      (loc w' = loc w ∧ load_answered a r (trace w) (trace w') ∨
       loc w' = with_failed (loc w) ∧ r = 0)) w') as Hab.
  { intros w' Ha' Hl'. eapply (load_abort_spec s l); [done| |].
    - rewrite !(proj2 (Z.leb_le 0 _)) by lia. done.
    - intros w2 Ha2' Hl2. split; [done|right]. by rewrite Hl2, Hl'. }
  apply wp_check; intros H3.
  2: { apply Hab; [done|]. destruct Hl1 as [[Hl1 _]|Hl1]; cbn; rewrite Hl1; done. }
  assert (loc w1 = loc w ∧ n = Z.of_nat (length bs)) as [Hl ->]
    by (destruct Hl1 as [?|Hx]; [done|by rewrite Hx in H3]).
  apply wp_bind. eapply wp_mono; [apply response_spec; by rewrite Hl|].
  intros r w2 [(resp & Ht2 & Hc & -> & Hl2)|(evs & Ht2 & Hq & Hl2)];
    apply wp_bind, wp_get_loc; rewrite Hl2, Hl; [|cbn [failed with_failed negb]].
  2: { apply wp_bind, wp_mod_loc, Hab; cbn; [|by rewrite Hl2, Hl].
       rewrite Ht2. by apply account_quiets. }
  rewrite Hf. cbn [negb]. apply wp_bind.
  assert (∀ w3, trace w3 = trace w2 → loc w3 = loc w2 →
    wp (close memref;; close chan;; ret (resp_error resp)) (λ r w', account s l (trace w') ∧
      (loc w' = loc w ∧ load_answered a r (trace w) (trace w') ∨
       loc w' = with_failed (loc w) ∧ r = 0)) w3) as Hend.
  { intros w3 Ht3 Hl3. apply wp_bind, wp_close. intros _ v4. apply wp_bind, wp_close. intros _ v5.
    apply wp_ret. cbn [loc trace logged]. rewrite Ht3, Ht2, Hl3, Hl2. split.
    - apply account_close. rewrite (proj2 (Z.leb_le 0 chan)) by lia.
      apply account_close. rewrite (proj2 (Z.leb_le 0 memref)) by lia.
      by apply (account_quiets [_; _]).
    - left. split; [done|]. exists chan, memref, v, resp. split_and!; [lia|lia| |done|done].
      unfold exchange. cbn [env logged] in Hpg. rewrite Hpg. cbn [app fst]. by rewrite Ht1. }
  wp_cases H5.
  - apply wp_env_call. intros _ v4 _. by apply Hend.
  - by apply wp_ret, Hend.
Qed.

(** * 4. The tests without a fixture *)

(** Every handle was given back, exactly once. *)
Definition clean (w : world client_state unit W) : Prop := balanced (trace w) [].

(** The two exceptions, of tests that failed: the connection to the port that
    does not start its application is kept when the wait on it does not end as
    expected; the connection to restart-srv is closed again when there is no
    second one. *)
Definition start_fail_end (w : world client_state unit W) : Prop :=
  clean w ∨ failed (loc w) = true ∧
    ∃ h rc tr, trace w = SWait h rc :: SConnect START_FAIL_PORT h :: tr ∧ balanced (trace w) [h].
Definition restart_end (w : world client_state unit W) : Prop :=
  clean w ∨ failed (loc w) = true ∧
    ∃ h rc rc2 tr, rc2 < 0 ∧ balanced tr [] ∧
      trace w = SClose h :: SConnect RESTART_PORT rc2 :: SClose h :: SWait h rc ::
                SConnect RESTART_PORT h :: tr.

Lemma settle s w : account s [] (trace w) → clean w.
Proof. by intros [Hb _]. Qed.

Lemma loading_spec {A} s l a (abort k : M (world client_state unit W) A) Q w :
  failed (loc w) = false → account s l (trace w) →
  (∀ w', loc w' = loc w → account s l (trace w') → wp k Q w') →
  (∀ w', loc w' = with_failed (loc w) → account s l (trace w') → wp abort Q w') →
  wp (loading a abort k) Q w.
Proof.
  intros Hf Ha Hk Habort. unfold loading. apply wp_bind.
  eapply wp_mono; [by apply load_app_spec|]. intros r w1 (Ha1 & [[Hl _]|[Hl _]]).
  all: apply wp_bind, wp_get_loc; rewrite Hl; cbn [failed with_failed].
  - rewrite Hf. cbn [negb]. apply wp_check; intros _; [by apply Hk|].
    apply Habort; [cbn; by rewrite Hl|done].
  - cbn [negb]. apply wp_bind, wp_mod_loc, Habort; [cbn; by rewrite Hl|done].
Qed.

Lemma closing_settles s h w :
  account s (if 0 <=? h then [h] else []) (trace w) → wp (closing_chan h) (λ _ w', clean w') w.
Proof.
  intros Ha. apply wp_bind, wp_close. intros _ v. apply wp_ret. apply (settle s). by apply account_close.
Qed.

Lemma closing_none s w :
  account s [] (trace w) → wp (closing_chan INVALID_IPC_HANDLE) (λ _ w', clean w') w.
Proof.
  intros Ha. apply (closing_settles s). pose proof invalid_handle_neg.
  by rewrite (proj2 (Z.leb_gt 0 INVALID_IPC_HANDLE)).
Qed.

(** [closing_settles] for a handle that is known to be one. *)
Lemma closing_held s h w :
  0 ≤ h → account s [h] (trace w) → wp (closing_chan h) (λ _ w', clean w') w.
Proof. intros Hh Ha. apply (closing_settles s). by rewrite (proj2 (Z.leb_le 0 h)). Qed.

(** A connection that is only tried. *)
Lemma probe_spec s name flags (b : Z → bool) w :
  account s [] (trace w) →
  wp (rc ← connect name flags; EXPECT (b rc);; closing_chan rc) (λ _ w', clean w') w.
Proof.
  intros Ha. apply wp_bind. ipc_call rc v E. apply (account_connect name rc) in Ha.
  apply wp_bind. unfold EXPECT. wp_cases H1.
  - by apply wp_ret, (closing_settles s).
  - by apply wp_mod_loc, (closing_settles s).
Qed.

Lemma await_response_spec s chan w :
  0 ≤ chan → account s [chan] (trace w) → wp (await_response chan) (λ _ w', clean w') w.
Proof.
  intros Hc Ha. unfold await_response. cbn zeta.
  set (receive := bind (tipc_recv chan 1 1) _).
  assert (∀ w', account s [chan] (trace w') → wp receive (λ _ w', clean w') w') as Hrecv.
  { intros w' Ha'. unfold receive. apply wp_bind. ipc_call r v E. destruct r as [rc bs].
    cbn [fst snd]. apply (account_quiet (SRecv chan rc bs)) in Ha'; [|done].
    apply wp_check; intros H1; [|by apply (closing_held s)].
    destruct (k_recv_ok _ _ _ _ _ _ _ E) as (_ & Hl & _); [lia|].
    destruct bs as [|rsp bs]; [cbn in Hl; lia|].
    apply wp_check; intros H2; by apply (closing_held s). }
  apply wp_bind. ipc_call r v E. destruct r as [rc uevt]. cbn [fst].
  apply (account_quiet (SWait chan rc)) in Ha; [|done].
  apply wp_check; intros H1; [|by apply (closing_held s)].
  apply wp_check; intros H2; [|by apply (closing_held s)].
  wp_cases H3; [|by apply Hrecv].
  apply wp_bind. ipc_call r2 v2 E2. destruct r2 as [rc2 uevt2]. cbn [fst].
  apply (account_quiet (SWait chan rc2)) in Ha; [|done].
  apply wp_check; intros H4; [|by apply (closing_held s)].
  apply wp_check; intros H5; [by apply Hrecv|by apply (closing_held s)].
Qed.

(** A command and its response. *)
Lemma chan_send_spec s l chan cmd w :
  failed (loc w) = false → account s l (trace w) →
  wp (chan_send_cmd chan cmd) (λ _ w', account ((chan, cmd) :: s) l (trace w') ∧
    (loc w' = loc w ∨ loc w' = with_failed (loc w))) w.
Proof.
  intros Hf Ha. unfold chan_send_cmd. apply wp_bind, wp_get_loc. rewrite Hf.
  apply wp_bind. ipc_call n v E. apply (account_send chan cmd n) in Ha.
  apply wp_check; intros H1; [|apply wp_ret; split; [done|by right]].
  apply wp_bind. ipc_call r v2 E2. destruct r as [rc uevt]. cbn [fst].
  apply (account_quiet (SWait chan rc)) in Ha; [|done].
  apply wp_check; intros H2; [|apply wp_ret; split; [done|by right]].
  apply wp_check; intros H3; [|apply wp_ret; split; [done|by right]].
  apply wp_bind. ipc_call r3 v3 E3. destruct r3 as [rc3 bs]. cbn [fst snd].
  apply (account_quiet (SRecv chan rc3 bs)) in Ha; [|done].
  apply wp_check; intros H4; [|apply wp_ret; split; [done|by right]].
  destruct (k_recv_ok _ _ _ _ _ _ _ E3) as (_ & Hl & _); [lia|].
  destruct bs as [|rsp bs]; [cbn in Hl; lia|].
  apply wp_check; intros H5; apply wp_ret; (split; [done|]); [by left|by right].
Qed.

Lemma restart_spec s w :
  failed (loc w) = false → account s [] (trace w) →
  wp AppRestartPositive (λ _ w', restart_end w') w.
Proof.
  intros Hf Ha. unfold AppRestartPositive.
  assert (∀ h w', account s (if 0 <=? h then [h] else []) (trace w') →
    wp (closing_chan h) (λ _ w', restart_end w') w') as Hclose.
  { intros h w' Ha'. eapply wp_mono; [by apply (closing_settles s)|]. intros ? w2 ?. by left. }
  assert (∀ w', account s [] (trace w') → wp (closing_chan INVALID_IPC_HANDLE) (λ _ w', restart_end w') w') as Hnone.
  { intros w' Ha'. eapply wp_mono; [by apply (closing_none s)|]. intros ? w2 ?. by left. }
  eapply loading_spec; [done|exact Ha| |intros; by apply Hnone].
  intros w1 Hl1 Ha1. apply wp_bind. ipc_call chan v E. pose proof Ha1 as [Hb1 _].
  apply (account_connect RESTART_PORT chan) in Ha1.
  apply wp_check; intros H1; [|rewrite H1 in Ha1; by apply Hnone].
  apply wp_bind. ipc_call r v2 E2. destruct r as [rc uevt]. cbn [fst].
  apply (account_quiet (SWait chan rc)) in Ha1; [|done].
  apply wp_check; intros H2; [|by apply Hclose].
  apply wp_check; intros H3; [|by apply Hclose].
  apply wp_bind, wp_close. intros _ v3. apply wp_bind. ipc_call chan2 v4 E4.
  assert (account s [] (SClose chan :: SWait chan rc :: SConnect RESTART_PORT chan :: trace w1)) as Ha2
    by by apply account_close.
  pose proof (account_connect RESTART_PORT chan2 _ _ _ Ha2) as Ha3.
  apply wp_check; intros H4; [by apply Hclose|].
  apply wp_bind, wp_close. intros _ v5. apply wp_ret. right. split; [done|].
  exists chan, rc, chan2, (trace w1). split_and!; [lia|done|done].
Qed.

Lemma start_fails_spec s timeout k w :
  failed (loc w) = false → account s [] (trace w) →
  (∀ w', failed (loc w') = false → account s [] (trace w') → wp k (λ _ w', start_fail_end w') w') →
  wp (start_fails timeout k) (λ _ w', start_fail_end w') w.
Proof.
  intros Hf Ha Hk. unfold start_fails. apply wp_bind. ipc_call chan v E.
  apply (account_connect START_FAIL_PORT chan) in Ha.
  apply wp_check; intros H1; rewrite H1 in Ha; [|apply wp_ret; left; by eapply settle].
  apply wp_bind. ipc_call r v2 E2. destruct r as [rc uevt]. cbn [fst].
  apply (account_quiet (SWait chan rc)) in Ha; [|done].
  assert (∀ w', failed (loc w') = true → trace w' = SWait chan rc :: SConnect START_FAIL_PORT chan :: trace w →
    start_fail_end w') as Hlost.
  { intros w' Hf' Ht'. right. split; [done|]. exists chan, rc, (trace w). split; [done|].
    rewrite Ht'. exact (proj1 Ha). }
  apply wp_check; intros H2; [|by apply wp_ret, Hlost].
  apply wp_check; intros H3; [|by apply wp_ret, Hlost].
  apply wp_bind, wp_close. intros _ v3. apply Hk; [done|]. apply account_close. by rewrite H1.
Qed.

Lemma exit_test_spec s w :
  failed (loc w) = false → account s [] (trace w) →
  wp AppRestartNegativePortStartPositive (λ _ w', clean w') w.
Proof.
  intros Hf Ha. unfold AppRestartNegativePortStartPositive.
  eapply loading_spec; [done|exact Ha| |intros; by apply (closing_none s)].
  intros w1 Hl1 Ha1. apply wp_bind. ipc_call chan v E.
  apply (account_connect START_PORT chan) in Ha1.
  apply wp_check; intros H1; rewrite H1 in Ha1; [|by apply (closing_none s)].
  apply wp_bind. eapply wp_mono; [apply chan_send_spec; [cbn; by rewrite Hl1|exact Ha1]|].
  intros _ w2 [Ha2 _]. apply wp_bind, wp_get_loc.
  apply wp_check; intros H2; [|eapply closing_held; [lia|exact Ha2]].
  apply wp_bind. eapply wp_mono; [by eapply running_spec|]. intros running w3 [Ha3 _].
  apply wp_check; intros H3; eapply closing_held; (lia || exact Ha3).
Qed.

Lemma wait_for_port_spec s w :
  failed (loc w) = false → account s [] (trace w) →
  wp WaitConnectForPort (λ _ w', clean w') w.
Proof.
  intros Hf Ha. unfold WaitConnectForPort. cbn zeta. apply wp_bind, wp_get_loc. wp_cases H1.
  { by apply wp_ret, (settle s). }
  apply wp_bind, wp_mod_loc. apply wp_bind.
  eapply wp_mono; [by apply running_spec|]. intros running w1 [Ha1 Hl1].
  apply wp_check; intros H2; [|by apply (closing_none s)].
  eapply loading_spec; [rewrite Hl1; done|exact Ha1| |intros; by apply (closing_none s)].
  intros w2 Hl2 Ha2. apply wp_bind. eapply wp_mono; [apply load_app_spec; [by rewrite Hl2, Hl1|done]|].
  intros r w3 [Ha3 _]. apply wp_bind, wp_get_loc.
  apply wp_check; intros H3; [|by apply (closing_none s)].
  apply wp_check; intros H4; [|by apply (closing_none s)].
  apply wp_bind. ipc_call chan v E. apply (account_connect PORT_WAITER_PORT chan) in Ha3.
  apply wp_check; intros H5; rewrite H5 in Ha3; [|by apply (closing_none s)].
  apply (await_response_spec s); [lia|done].
Qed.

(** The end of a test that only looks at the answer to a second request. *)
Lemma load_settles {A} s a (k : Z → M (world client_state unit W) A) w :
  failed (loc w) = false → account s [] (trace w) →
  (∀ r w', account s [] (trace w') → wp (k r) (λ _ w', clean w') w') →
  wp (bind (load_app a) k) (λ _ w', clean w') w.
Proof.
  intros Hf Ha Hk. apply wp_bind. eapply wp_mono; [by apply load_app_spec|].
  intros r w1 [Ha1 _]. by apply Hk.
Qed.

Lemma checks_settle s (b c : bool) w :
  account s [] (trace w) →
  wp (ASSERT b ELSE ret tt; ASSERT c ELSE ret tt; ret tt) (λ _ w', clean w') w.
Proof.
  intros Ha. apply wp_check; intros _; [|by apply wp_ret, (settle s)].
  apply wp_check; intros _; by apply wp_ret, (settle s).
Qed.

(** The tests without a fixture, but for the two exceptions. *)
Definition clean_tests : list (M (world client_state unit W) unit) :=
  [DoubleLoad; WaitConnectForPort; BootStartNegative; BootStartPositive;
   AppRestartNegativePortStartPositive; PortStartNegative; UnsignedApp; UnlockedDevLoad].

Lemma clean_tests_spec test s w :
  test ∈ clean_tests → failed (loc w) = false → account s [] (trace w) →
  wp test (λ _ w', clean w') w.
Proof.
  intros Hin Hf Ha. unfold clean_tests in Hin.
  repeat (apply elem_of_cons in Hin as [->|Hin]); [..|set_solver].
  - eapply loading_spec; [done|exact Ha| |intros; by eapply wp_ret, settle].
    intros w1 Hl1 Ha1. eapply load_settles; [by rewrite Hl1|done|]. intros r w2 Ha2.
    apply wp_bind, wp_get_loc. by eapply checks_settle.
  - by eapply wait_for_port_spec.
  - eapply loading_spec; [done|exact Ha| |intros; by eapply wp_ret, settle].
    intros w1 _ Ha1. by eapply (probe_spec _ _ _ (λ rc, rc <? 0)).
  - eapply loading_spec; [done|exact Ha| |intros; by eapply wp_ret, settle].
    intros w1 _ Ha1. by eapply (probe_spec _ _ _ (λ rc, 0 <=? rc)).
  - by eapply exit_test_spec.
  - eapply loading_spec; [done|exact Ha| |intros; by eapply wp_ret, settle].
    intros w1 _ Ha1. by eapply (probe_spec _ _ _ (λ rc, rc <? 0)).
  - eapply load_settles; [done|exact Ha|]. intros r w1 Ha1. apply wp_bind, wp_get_loc.
    by eapply checks_settle.
  - eapply load_settles; [done|exact Ha|]. intros r w1 Ha1. apply wp_bind, wp_get_loc.
    apply wp_check; intros _; [|by eapply wp_ret, settle].
    apply wp_bind, wp_env_call. intros unlocked v _. wp_cases H1.
    + apply wp_check; intros _; by eapply wp_ret, settle.
    + unfold EXPECT. wp_cases H2; [by eapply wp_ret, settle|by eapply wp_mod_loc, settle].
Qed.

(** C27. The ten tests of the application manager that have no fixture, for
    every behaviour of the kernel and of the servers: none stops the client,
    and eight of them close every handle they obtained exactly once, whether
    they pass or fail and wherever a check fails.  PortStartFail does so too,
    unless it failed and the last thing it did was to wait on its connection
    to START_FAIL_PORT, the one handle it then keeps; and AppRestartPositive,
    unless it failed because its second connection was refused, and then it
    has closed the first one a second time and every other handle once. *)
Theorem plain_tests_settle w :
  failed (loc w) = false → trace w = [] →
  plain_tests ≡ₚ AppRestartPositive :: PortStartFail :: clean_tests ∧
  (∀ test, test ∈ clean_tests → wp test (λ _ w', clean w') w) ∧
  wp AppRestartPositive (λ _ w', restart_end w') w ∧
  wp PortStartFail (λ _ w', start_fail_end w') w.
Proof.
  intros Hf Ht.
  assert (account [] [] (trace w)) as Ha by (rewrite Ht; split; [apply Permutation_refl|done]).
  split_and!; [| |by eapply restart_spec|].
  - unfold plain_tests, clean_tests. solve_Permutation.
  - intros test Hin. by eapply clean_tests_spec.
  - eapply loading_spec; [done|exact Ha| |intros; apply wp_ret; left; by eapply settle].
    intros w1 Hl1 Ha1. eapply start_fails_spec; [by rewrite Hl1|done|]. intros w2 Hf2 Ha2.
    eapply start_fails_spec; [done..|]. intros w3 _ Ha3. apply wp_ret. left. by eapply settle.
Qed.

(** * 5. The tests of start ports *)

(** The channels that are handles, as the array owns them. *)
Definition live (cs : list handle) : list handle := filter (λ h, 0 ≤ h) cs.

Definition chan_shape (ls : list bool) (cs : list handle) : Prop :=
  Forall2 (λ (b : bool) h, if b then 0 ≤ h else h = INVALID_IPC_HANDLE) ls cs.

(** A test that has failed: the commands it sent were in order, and it owns the
    channels of the array, one handle may be lost; or it failed before the array
    was set. *)
Definition broken (w : world client_state unit W) : Prop :=
  proto (sent (trace w)) ≠ None ∧
  ((∃ lost, (length lost ≤ 1)%nat ∧ balanced (trace w) (live (chans (loc w)) ++ lost)) ∨
   balanced (trace w) [] ∧ sent (trace w) = []).

(** A test in which the channels [ls] of the array are open, the session that
    is going on, if any, is on the channel [i], and the start port is open or
    not. *)
Definition in_test (ls : list bool) (i : option nat) (b : bool) (w : world client_state unit W) : Prop :=
  if failed (loc w) then broken w else
  chan_shape ls (chans (loc w)) ∧ ∃ s oh,
    match i with None => oh = None | Some k => ∃ h, chans (loc w) !! k = Some h ∧ oh = Some h end ∧
    account s (live (chans (loc w))) (trace w) ∧ proto s = Some (oh, b).

Lemma live_insert cs k h h' :
  cs !! k = Some h →
  (if 0 <=? h then h :: live (<[k := h']> cs) else live (<[k := h']> cs)) ≡ₚ
  (if 0 <=? h' then h' :: live cs else live cs).
Proof.
  intros Hk. unfold live.
  set (r := take k cs ++ drop (S k) cs).
  assert (cs ≡ₚ h :: r) as E.
  { rewrite <- (take_drop_middle cs k h) at 1 by done. symmetry. apply Permutation_middle. }
  assert (<[k := h']> cs ≡ₚ h' :: r) as E'.
  { rewrite (insert_take_drop cs k h') by by eapply lookup_lt_Some. symmetry. apply Permutation_middle. }
  clearbody r.
  apply (filter_Permutation (λ h, 0 ≤ h)) in E, E'. revert E E'. rewrite !filter_cons.
  destruct (Z.leb_spec 0 h), (Z.leb_spec 0 h'); repeat case_decide; try lia; intros -> ->;
    [apply perm_swap|reflexivity..].
Qed.

Lemma shape_lookup (ls : list bool) (cs : list handle) k (b : bool) :
  ls !! k = Some b → chan_shape ls cs →
  ∃ h, cs !! k = Some h ∧ if b then 0 ≤ h else h = INVALID_IPC_HANDLE.
Proof. intros Hk Hs. destruct (Forall2_lookup_l _ _ _ _ _ Hs Hk) as (h & ? & ?). eauto. Qed.

Lemma shape_insert (ls : list bool) (cs : list handle) k (b : bool) h :
  (if b then 0 ≤ h else h = INVALID_IPC_HANDLE) → chan_shape ls cs →
  chan_shape (<[k := b]> ls) (<[k := h]> cs).
Proof. intros Hh Hs. by apply Forall2_insert. Qed.

(** A failed check in a test. *)
Lemma breaks s lost ls i b w :
  failed (loc w) = true → (length lost ≤ 1)%nat → proto s ≠ None →
  account s (live (chans (loc w)) ++ lost) (trace w) → in_test ls i b w.
Proof.
  intros Hf Hlost Hp [Hb <-]. unfold in_test. rewrite Hf. split; [done|]. left. by exists lost.
Qed.

(** Every helper checks its index and does nothing once a check has failed, and
    that is all its specifications have to say then. *)
Lemma guarded idx (body : M (world client_state unit W) unit) ls i b ls' i' b' w :
  (idx <? CHAN_COUNT) = true → in_test ls i b w →
  (failed (loc w) = false → wp body (λ _ w', in_test ls' i' b' w') w) →
  wp (bind (assert (idx <? CHAN_COUNT)) (λ _, bind HasFailure (λ f : bool,
      if f then ret tt else body))) (λ _ w', in_test ls' i' b' w') w.
Proof.
  intros Hidx Hw Hbody. apply wp_bind, wp_assert; [done|]. apply wp_bind, wp_get_loc.
  wp_cases Hf; [|by apply Hbody]. apply wp_ret. unfold in_test in *. by rewrite Hf in *.
Qed.

Lemma establish_spec idx ls i b w :
  0 ≤ idx < CHAN_COUNT → ls !! Z.to_nat idx = Some false → i ≠ Some (Z.to_nat idx) →
  in_test ls i b w →
  wp (establish_unhandled_channel idx) (λ _ w', in_test (<[Z.to_nat idx := true]> ls) i b w') w.
Proof.
  intros Hidx Hls Hi Hw. apply (guarded idx _ ls i b); [lia|done|]. intros Hf.
  unfold in_test in Hw. rewrite Hf in Hw. destruct Hw as (Hs & s & oh & Hoh & Ha & Hp).
  apply wp_bind. ipc_call chan v E. apply (account_connect START_PORT chan) in Ha.
  apply wp_check; intros H1; rewrite H1 in Ha.
  2: { apply wp_ret, (breaks s []); [done|cbn; lia|by rewrite Hp|]. by rewrite app_nil_r. }
  apply wp_bind. ipc_call r v2 E2. apply (account_quiet (SWait chan r.1)) in Ha; [|done].
  apply wp_check; intros H2.
  2: { apply wp_ret, (breaks s [chan]); [done|cbn; lia|by rewrite Hp|].
       eapply account_perm; [|exact Ha]. apply Permutation_cons_append. }
  apply wp_mod_loc. unfold in_test. cbn [loc set_loc logged failed with_chans chans trace].
  rewrite Hf. split; [apply shape_insert; [lia|done]|].
  exists s, oh. split; [|split; [|done]].
  - destruct i as [k|]; [|done]. destruct Hoh as (h & Hk & ->). exists h. split; [|done].
    rewrite list_lookup_insert_ne by congruence. done.
  - destruct (shape_lookup _ _ _ _ Hls Hs) as (h & Hk & ->).
    pose proof (live_insert _ _ _ chan Hk) as El. pose proof invalid_handle_neg.
    rewrite H1, (proj2 (Z.leb_gt 0 INVALID_IPC_HANDLE)) in El by done.
    by eapply account_perm; [symmetry; exact El|].
Qed.

(** Closing a channel of the array outside a session. *)
Lemma close_run_spec idx ls b w :
  0 ≤ idx < CHAN_COUNT → length ls = 3%nat →
  ∀ i, i ≠ Some (Z.to_nat idx) → in_test ls i b w →
  wp (close_channel idx) (λ _ w', in_test (<[Z.to_nat idx := false]> ls) i b w') w.
Proof.
  intros Hidx Hlen i Hi Hw. apply (guarded idx _ ls i b); [lia|done|]. intros Hf.
  unfold in_test in Hw. rewrite Hf in Hw. destruct Hw as (Hs & s & oh & Hoh & Ha & Hp).
  assert (is_Some (ls !! Z.to_nat idx)) as [c Hc].
  { apply lookup_lt_is_Some. unfold CHAN_COUNT in *. lia. }
  destruct (shape_lookup _ _ _ _ Hc Hs) as (h & Hk & _).
  apply wp_bind, wp_get_loc, wp_bind. eapply wp_fetch; [lia|exact Hk|].
  apply wp_bind, wp_close. intros _ v. apply wp_mod_loc.
  unfold in_test. cbn [loc set_loc logged failed with_chans chans trace]. rewrite Hf.
  split; [by apply shape_insert|]. exists s, oh. split; [|split; [|done]].
  - destruct i as [k|]; [|done]. destruct Hoh as (h' & Hk' & ->). exists h'. split; [|done].
    rewrite list_lookup_insert_ne by congruence. done.
  - pose proof (live_insert _ _ _ INVALID_IPC_HANDLE Hk) as El. pose proof invalid_handle_neg.
    rewrite (proj2 (Z.leb_gt 0 INVALID_IPC_HANDLE)) in El by done.
    apply account_close. eapply account_perm; [symmetry; exact El|done].
Qed.

(** A command: what it does to the session. *)
Definition after_cmd (k : nat) (cmd : Z) (b : bool) : option (option nat * bool) :=
  if cmd =? CMD_EXIT then Some (None, true)
  else match port_step cmd (Some b) with Some b' => Some (Some k, b') | None => None end.

Lemma proto_cmd h k cmd s oh i b i' b' (cs : list handle) :
  cs !! k = Some h → match i with None => oh = None | Some k => ∃ h, cs !! k = Some h ∧ oh = Some h end →
  (i = None ∨ i = Some k) → after_cmd k cmd b = Some (i', b') → proto s = Some (oh, b) →
  ∃ oh', proto ((h, cmd) :: s) = Some (oh', b') ∧
    match i' with None => oh' = None | Some k => ∃ h, cs !! k = Some h ∧ oh' = Some h end.
Proof.
  intros Hk Hoh Hi Hc Hp. cbn. fold (proto s). rewrite Hp. cbn [proto_step fst snd].
  rewrite decide_True.
  2: { destruct Hi as [->| ->]; [by left|]. destruct Hoh as (h' & Hk' & ->). right. cbn. congruence. }
  unfold after_cmd in Hc. destruct (cmd =? CMD_EXIT); [simplify_eq; eauto|].
  destruct (port_step cmd (Some b)); cbn in Hc; simplify_eq. eauto 6.
Qed.

Lemma send_cmd_spec idx cmd ls i b i' b' w :
  0 ≤ idx < CHAN_COUNT → length ls = 3%nat → (i = None ∨ i = Some (Z.to_nat idx)) →
  after_cmd (Z.to_nat idx) cmd b = Some (i', b') → in_test ls i b w →
  wp (send_cmd idx cmd) (λ _ w', in_test ls i' b' w') w.
Proof.
  intros Hidx Hlen Hi Hc Hw. apply (guarded idx _ ls i b); [lia|done|]. intros Hf.
  unfold in_test in Hw. rewrite Hf in Hw. destruct Hw as (Hs & s & oh & Hoh & Ha & Hp).
  assert (is_Some (ls !! Z.to_nat idx)) as [c Hls].
  { apply lookup_lt_is_Some. unfold CHAN_COUNT in *. lia. }
  destruct (shape_lookup _ _ _ _ Hls Hs) as (h & Hk & _).
  apply wp_bind, wp_get_loc, wp_bind. eapply wp_fetch; [lia|exact Hk|].
  eapply wp_mono; [by apply chan_send_spec|]. intros _ w' [Ha' Hl].
  destruct (proto_cmd _ _ _ _ _ _ _ _ _ _ Hk Hoh Hi Hc Hp) as (oh' & Hp' & Hoh').
  destruct Hl as [Hl|Hl].
  - unfold in_test. rewrite Hl, Hf. split; [done|]. by exists ((h, cmd) :: s), oh'.
  - apply (breaks ((h, cmd) :: s) []); rewrite ?Hl; [done|cbn; lia|by rewrite Hp'|].
    by rewrite app_nil_r.
Qed.

Lemma send_exit_spec idx ls i b w :
  0 ≤ idx < CHAN_COUNT → length ls = 3%nat → (i = None ∨ i = Some (Z.to_nat idx)) →
  in_test ls i b w →
  wp (send_exit idx) (λ _ w', in_test (<[Z.to_nat idx := false]> ls) None true w') w.
Proof.
  intros Hidx Hlen Hi Hw. apply (guarded idx _ ls i b); [lia|done|]. intros Hf.
  apply wp_bind. eapply wp_mono; [by apply (send_cmd_spec idx CMD_EXIT ls i b None true)|].
  intros u w' Hw'. by apply close_run_spec.
Qed.

Lemma wait_and_exit_spec idx ls i b w :
  0 ≤ idx < CHAN_COUNT → length ls = 3%nat → (i = None ∨ i = Some (Z.to_nat idx)) →
  in_test ls i b w →
  wp (wait_and_exit idx) (λ _ w', in_test (<[Z.to_nat idx := false]> ls) None true w') w.
Proof.
  intros Hidx Hlen Hi Hw. apply (guarded idx _ ls i b); [lia|done|]. intros Hf.
  pose proof Hw as Hw0. unfold in_test in Hw. rewrite Hf in Hw.
  destruct Hw as (Hs & s & oh & Hoh & Ha & Hp).
  assert (is_Some (ls !! Z.to_nat idx)) as [c Hls].
  { apply lookup_lt_is_Some. unfold CHAN_COUNT in *. lia. }
  destruct (shape_lookup _ _ _ _ Hls Hs) as (h & Hk & _).
  apply wp_bind, wp_get_loc, wp_bind. eapply wp_fetch; [lia|exact Hk|].
  apply wp_bind. ipc_call r v E. destruct r as [rc uevt]. cbn [fst].
  apply (account_quiet (SWait h rc)) in Ha; [|done].
  assert (in_test ls i b (logged (SWait h rc) v w)) as Hw1.
  { unfold in_test. cbn. rewrite Hf. split; [done|]. by exists s, oh. }
  apply wp_check; intros H1; [apply wp_check; intros H2|]; [by eapply send_exit_spec|..].
  all: apply wp_ret, (breaks s []); [done|cbn; lia|by rewrite Hp|by rewrite app_nil_r].
Qed.

(** The start of a test. *)
Lemma start_spec s w :
  failed (loc w) = false → chan_shape [false; false; false] (chans (loc w)) →
  account s [] (trace w) → proto s = Some (None, true) → live (chans (loc w)) = [] →
  wp (running ← port_start_srv_running;
      ASSERT negb running ELSE ret tt;
      rc ← connect START_PORT 0;
      ASSERT 0 <=? rc ELSE ret tt;
      mod_loc (with_chans <[Z.to_nat MAIN_CHAN := rc]>))
    (λ _ w', in_test [true; false; false] None true w') w.
Proof.
  intros Hf Hs Ha Hp Hlive. apply wp_bind. eapply wp_mono; [by apply running_spec|].
  intros running w1 [Ha1 Hl1].
  assert (∀ w', loc w' = with_failed (loc w) → account s [] (trace w') →
    in_test [true; false; false] None true w') as Hbreak.
  { intros w' Hl' Ha'. apply (breaks s []); rewrite ?Hl'; [done|cbn; lia|by rewrite Hp|].
    cbn [chans with_failed]. by rewrite Hlive. }
  apply wp_check; intros H1; [|apply wp_ret, Hbreak; [cbn; by rewrite Hl1|done]].
  apply wp_bind. ipc_call rc v E. apply (account_connect START_PORT rc) in Ha1.
  apply wp_check; intros H2; rewrite H2 in Ha1; [|apply wp_ret, Hbreak; [cbn; by rewrite Hl1|done]].
  apply wp_mod_loc. unfold in_test.
  cbn [loc set_loc logged failed with_chans chans trace]. rewrite Hl1, Hf.
  split; [apply (shape_insert [false; false; false] _ 0 true); [lia|done]|].
  exists s, None. split; [done|]. split; [|done].
  destruct (shape_lookup [false; false; false] _ 0 false eq_refl Hs) as (h & Hk & ->).
  pose proof (live_insert _ _ _ rc Hk) as El. pose proof invalid_handle_neg.
  rewrite H2, (proj2 (Z.leb_gt 0 INVALID_IPC_HANDLE)), Hlive in El by done.
  by eapply account_perm; [symmetry; exact El|].
Qed.

Lemma SetUp_spec w :
  failed (loc w) = false → trace w = [] →
  wp AppMgrPortStart_SetUp (λ _ w', in_test [true; false; false] None true w') w.
Proof.
  intros Hf Ht. assert (account [] [] (trace w)) as Ha
    by (rewrite Ht; split; [apply Permutation_refl|done]).
  eapply loading_spec; [done|exact Ha| |].
  2: { intros w' Hl [Hb Hsent]. apply wp_ret. unfold in_test. rewrite Hl. cbn.
       split; [by rewrite Hsent|by right; rewrite Hsent]. }
  intros w1 Hl1 Ha1. apply wp_bind, wp_mod_loc. cbn zeta.
  set (cs := [INVALID_IPC_HANDLE; _; _]). set (w2 := set_loc _ _).
  assert (chans (loc w2) = cs ∧ failed (loc w2) = false ∧ trace w2 = trace w1) as (Hc2 & Hf2 & Ht2)
    by (cbn; rewrite Hl1; done).
  clearbody w2. rewrite <- Ht2 in Ha1.
  assert (live cs = [] ∧ chan_shape [false; false; false] cs) as [Hlive Hshape].
  { split; [|by repeat constructor]. unfold live, cs. pose proof invalid_handle_neg.
    rewrite !filter_cons, !decide_False by lia. done. }
  apply wp_bind. ipc_call rc v E. apply connect_nonzero in E.
  apply (account_connect SHUTDOWN_PORT rc) in Ha1.
  wp_cases H1.
  - rewrite (proj2 (Z.leb_le 0 rc)) in Ha1 by lia.
    apply wp_bind. ipc_call r v2 E2. destruct r as [rc2 uevt]. cbn [fst].
    apply wp_bind, wp_close. intros _ v3. apply (account_quiet (SWait rc rc2)) in Ha1; [|done].
    assert (account [] [] (SClose rc :: SWait rc rc2 :: SConnect SHUTDOWN_PORT rc :: trace w2)) as Ha2
      by (apply account_close; by rewrite (proj2 (Z.leb_le 0 rc)) by lia).
    apply wp_check; intros H2; [apply wp_check; intros H3|].
    + by eapply start_spec; cbn; rewrite ?Hc2.
    + apply wp_ret, (breaks [] []); [done|cbn; lia|done|].
      cbn [loc set_loc logged chans with_failed trace]. by rewrite Hc2, Hlive.
    + apply wp_ret, (breaks [] []); [done|cbn; lia|done|].
      cbn [loc set_loc logged chans with_failed trace]. by rewrite Hc2, Hlive.
  - rewrite (proj2 (Z.leb_gt 0 rc)) in Ha1 by lia. by eapply start_spec; cbn; rewrite ?Hc2.
Qed.

Lemma body_step A (m : M (world client_state unit W) A) (k : M (world client_state unit W) unit)
    (P : world client_state unit W → Prop) Q w :
  wp m (λ _ w', P w') w → (∀ w', P w' → wp k Q w') → wp (m;; k) Q w.
Proof. intros Hm Hk. apply wp_bind. eapply wp_mono; [exact Hm|]. intros a w' HP. by apply Hk. Qed.

(** One step of a test body: its state after is computed from the one before. *)
Ltac test_call :=
  let idx_ok := split; vm_compute; congruence in
  let here := (by left) || (by right) in
  lazymatch goal with
  | |- wp (establish_unhandled_channel _) _ _ =>
      eapply establish_spec; [| | |eassumption]; [idx_ok|reflexivity|done]
  | |- wp (close_channel _) _ _ =>
      eapply close_run_spec; [| | |eassumption]; [idx_ok|reflexivity|done]
  | |- wp (send_cmd _ _) _ _ =>
      eapply send_cmd_spec; [| | | |eassumption]; [idx_ok|reflexivity|here|reflexivity]
  | |- wp (send_exit _) _ _ =>
      eapply send_exit_spec; [| | |eassumption]; [idx_ok|reflexivity|here]
  | |- wp (wait_and_exit _) _ _ =>
      eapply wait_and_exit_spec; [| | |eassumption]; [idx_ok|reflexivity|here]
  end.
Ltac test_body :=
  repeat (eapply body_step; [test_call|]; intros ? ?);
  eapply wp_mono; [test_call|]; intros ? ? Hend; exact Hend.

(** Every body is in order, closes what it opens, and ends every session. *)
Lemma port_start_bodies body w :
  body ∈ port_start_tests → in_test [true; false; false] None true w →
  wp body (λ _ w', in_test [false; false; false] None true w') w.
Proof.
  intros Hin Hw. unfold port_start_tests in Hin.
  repeat (apply elem_of_cons in Hin as [->|Hin]); [..|set_solver]; test_body.
Qed.

Lemma close_all_spec w :
  wp close_all (λ _ w', loc w' = loc w ∧ trace w' = (SClose <$> rev (chans (loc w))) ++ trace w) w.
Proof.
  unfold close_all. apply wp_bind, wp_get_loc.
  assert (∀ cs w, wp (foldM (λ _ chan, close chan;; ret tt) tt cs) (λ _ w',
    loc w' = loc w ∧ trace w' = (SClose <$> rev cs) ++ trace w) w) as Hall; [|apply Hall].
  induction cs as [|h cs IH]; intros w0; cbn [foldM]; [by apply wp_ret|].
  apply wp_bind, wp_bind, wp_close. intros _ v. apply wp_ret.
  eapply wp_mono; [apply IH|]. intros _ w' [-> ->]. split; [done|].
  cbn [rev]. rewrite fmap_app, <- app_assoc. done.
Qed.

Lemma closes_balance cs lost tr :
  balanced tr (live cs ++ lost) → balanced ((SClose <$> rev cs) ++ tr) lost.
Proof.
  revert tr. induction cs as [|h cs IH]; intros tr Hb; [done|].
  cbn [rev]. rewrite fmap_app, <- app_assoc. apply IH. cbn [fmap list_fmap app].
  unfold live in Hb. rewrite filter_cons in Hb. case_decide.
  - by apply balanced_close.
  - apply balanced_neutral; [cbn; lia|done].
Qed.

Lemma sent_closes cs tr : sent ((SClose <$> cs) ++ tr) = sent tr.
Proof. induction cs; done. Qed.

(** What a test leaves behind. *)
Definition test_over (w : world client_state unit W) : Prop :=
  Forall session_ok (sessions (sent (trace w))) ∧
  if failed (loc w) then
    (∃ lost, (length lost ≤ 1)%nat ∧ balanced (trace w) lost) ∨
    (∃ junk tr, trace w = (SClose <$> junk) ++ tr ∧ balanced tr [] ∧ sent tr = [])
  else all_ended (sent (trace w)) ∧ balanced (trace w) [].

Lemma broken_over w :
  failed (loc w) = true → broken w → wp close_all (λ _ w', test_over w') w.
Proof.
  intros Hf [Hp Hb]. eapply wp_mono; [apply close_all_spec|]. intros _ w' [Hl Ht].
  unfold test_over. rewrite Hl, Ht, Hf, sent_closes. split.
  - destruct (proto (sent (trace w))) as [st|] eqn:E; [|done]. by apply proto_sessions in E as [? _].
  - destruct Hb as [(lost & Hlen & Hb)|Hb].
    + left. exists lost. split; [done|]. by apply closes_balance.
    + right. by eexists _, _.
Qed.

Lemma TearDown_spec w :
  in_test [false; false; false] None true w → wp AppMgrPortStart_TearDown (λ _ w', test_over w') w.
Proof.
  intros Hw. unfold AppMgrPortStart_TearDown. apply wp_bind, wp_get_loc. unfold in_test in Hw.
  apply wp_check; intros Hf.
  2: { destruct (failed (loc w)); [|done]. by apply broken_over. }
  destruct (failed (loc w)) eqn:Ef; [done|]. destruct Hw as (Hs & s & oh & -> & Ha & Hp).
  assert (∀ w', loc w' = with_failed (loc w) → account s (live (chans (loc w))) (trace w') →
    wp close_all (λ _ w', test_over w') w') as Hbreak.
  { intros w' Hl' [Hb Hsent]. apply broken_over; [by rewrite Hl'|].
    split; [by rewrite Hsent, Hp|]. left. exists []. split; [cbn; lia|]. by rewrite Hl', app_nil_r. }
  apply wp_bind. eapply wp_mono; [by apply running_spec|]. intros running w1 [Ha1 Hl1].
  apply wp_check; intros H1; [|apply Hbreak; [cbn; by rewrite Hl1|done]].
  apply wp_bind, wp_get_loc. rewrite Hl1.
  assert (Forall (λ h, h = INVALID_IPC_HANDLE) (chans (loc w))) as Hall.
  { clear -Hs. unfold chan_shape in Hs.
    assert (Forall (λ b, b = false) [false; false; false]) as Hb by by repeat constructor.
    revert Hb. induction Hs as [|b h ls cs Hh _ IH]; intros Hb; [done|].
    apply Forall_cons_1 in Hb as [-> Hb]. constructor; [done|by apply IH]. }
  assert (∀ cs, Forall (λ h, h = INVALID_IPC_HANDLE) cs →
    wp (check_closed cs) (λ _ w', test_over w') w1) as Hcheck; [|by apply Hcheck].
  induction 1 as [|h cs -> _ IH]; cbn [check_closed].
  - eapply wp_mono; [apply close_all_spec|]. intros _ w' [Hl Ht]. unfold test_over.
    destruct Ha1 as [Hb Hsent]. rewrite Hl, Ht, Hl1, Ef, sent_closes, Hsent. split.
    + by apply proto_sessions in Hp as [? _].
    + split; [by eapply proto_ended|]. apply closes_balance. by rewrite app_nil_r.
  - apply wp_check; intros Hh; [done|lia].
Qed.

Lemma test_f_over skips body w :
  body ∈ port_start_tests → failed (loc w) = false → trace w = [] →
  wp (test_f skips body) (λ _ w', test_over w') w.
Proof.
  intros Hin Hf Ht. unfold test_f. apply wp_bind. eapply wp_mono; [by apply SetUp_spec|].
  intros u w1 Hw1. apply wp_bind, wp_get_loc. apply wp_bind.
  eapply wp_mono; [|intros ? w2 Hw2; apply TearDown_spec; exact Hw2].
  wp_cases H1; [|by apply port_start_bodies].
  apply wp_ret. unfold in_test in *. by destruct (failed (loc w1)).
Qed.

(** C28. Loading an application, from a test that has not failed: every handle
    obtained is given back, on every error path too.  Either a check failed,
    and 0 is returned; or the calls made were exactly these: a connection to
    the loader, a memref of the application's own bytes, from its first one on
    and rounded up to whole pages, only to be read; the request to load it,
    sent whole and with that memref; the response to that request; and the two
    handles were closed.  The value returned is then the error in the response. *)
Theorem load_app_correct a l w :
  failed (loc w) = false → balanced (trace w) l →
  wp (load_app a) (λ r w', balanced (trace w') l ∧ sent (trace w') = sent (trace w) ∧
    (loc w' = loc w ∧ load_answered a r (trace w) (trace w') ∨
     loc w' = with_failed (loc w) ∧ r = 0)) w.
Proof.
  intros Hf Hb. eapply wp_mono; [apply (load_app_spec (sent (trace w)) l); [done|by split]|].
  intros r w' [[Hb' Hs] Hr]. done.
Qed.

(** C26. The twelve tests of start ports, set-up and tear-down included, for
    every behaviour of the kernel and of port-start-srv: none stops the
    client; in each session with the server all commands go to one channel,
    close the port only when it is open and open it only when it is closed; a
    test that passed has closed every handle it obtained exactly once and told
    every server it talked to to exit; one that failed has lost at most one
    handle, or else its set-up failed before the array of channels was set
    (no command was sent in it), and the values in the array were closed. *)
Theorem port_start_tests_over skips body w :
  body ∈ port_start_tests → failed (loc w) = false → trace w = [] →
  wp (test_f skips body) (λ _ w', test_over w') w.
Proof. apply test_f_over. Qed.
End Client.

(** * 6. The client and port-start-srv *)

Section Together.
Context {V W : Type} `{!Uapi} `{!Kernel V} `{!KernelLaws V} `{!PortKernel V} `{!Clock V}
  `{!Apploader V} `{!ApploaderLaws V} `{!Kernel W} `{!KernelLaws W} `{!PortKernel W} `{!PortKernelLaws W}.

(** C25. A test of start ports and the server it talks to, each on its own kernel
    calls: when the commands the server has received are those of one of the
    test's sessions, or the first ones of them, then, once the server has ended,
    it has closed every handle it obtained, and has called close at most once
    more than that. *)
Theorem client_server_release skips body (w : world client_state unit V)
    (ws : world unit unit W) n s :
  body ∈ port_start_tests → failed (loc w) = false → trace w = [] → trace ws = [] →
  wp (test_f skips body) (λ _ w', s ∈ sessions (sent (trace w')) →
    wp (port_start_main n) (λ r ws', r ≠ None → received (trace ws') `suffix_of` s.*2 →
      opened (trace ws') ⊆+ closed (trace ws') ∧
      (length (closed (trace ws')) ≤ S (length (opened (trace ws'))))%nat) ws) w.
Proof.
  intros Hin Hf Ht Hts. eapply wp_mono; [by apply test_f_over|]. intros _ w' [Hall _] Hs.
  apply (proj1 (Forall_forall _ _) Hall) in Hs as [_ Hport].
  eapply wp_mono; [by apply port_start_main_spec|]. intros r ws' Hr Hnone Hsuf.
  specialize (Hr Hnone). apply (port_after_suffix _ _ Hsuf) in Hport.
  assert (∀ tr, balanced tr [] → opened tr ⊆+ closed tr ∧ (length (closed tr) ≤ S (length (opened tr)))%nat)
    as Hbal.
  { intros tr Hb. unfold balanced in Hb. rewrite app_nil_r in Hb. rewrite Hb. split; [done|lia]. }
  assert (∀ tr, (∃ h, closed tr ≡ₚ h :: opened tr) →
    opened tr ⊆+ closed tr ∧ (length (closed tr) ≤ S (length (opened tr)))%nat) as Htwice.
  { intros tr (h & E). rewrite E. split; [by apply submseteq_cons|done]. }
  destruct (port_after (received (trace ws'))) as [[]|]; [|by apply Htwice|done].
  destruct Hr as [Hr|[_ Hr]]; [by apply Hbal|by apply Htwice].
Qed.
End Together.
