(* ===== verification/AppMgmtClientDemo.v ===== *)
(** The theorems on the application management client at concrete states: a
    loader that accepts every application, a test of start ports that passes,
    and the session the server then has. *)

From S2P Require Import Prelude Ipc AppMgmt AppMgmtCorrect AppMgmtDemo Samples AppMgmtClient AppMgmtClientCorrect.

Module AppMgmtClientDemo.
#[local] Instance uapi : Uapi := Sim.uapi.
#[local] Instance kernel : Kernel AppMgmtDemo.env_t := AppMgmtDemo.kernel.
#[local] Instance kernel_laws : KernelLaws AppMgmtDemo.env_t := AppMgmtDemo.kernel_laws.
Abbreviation env_t := AppMgmtDemo.env_t.

(** Connections succeed, except to the ports a server has only while it runs,
    and to restart-srv once it has ended. *)
Definition grant (e : env_t) : Z * env_t :=
  let '(h, e) := AppMgmtDemo.next_handle e in (Z.max 1 h, e).
#[local] Instance ports : PortKernel env_t := {|
  IPC_CONNECT_WAIT_FOR_PORT := 1; INFINITE_TIME := -1;
  k_connect name _ e :=
    if bool_decide (name ∈ [CTRL_PORT; SHUTDOWN_PORT; NEVER_START_PORT] ∨
         name = RESTART_PORT ∧ 103 ≤ sc_next e.2) then (-2, e) else grant e;
  k_wait := k_wait (PortKernel := AppMgmtDemo.ports);
  k_handle_set_create := grant;
  k_handle_set_add _ _ e := (0, e)
|}.
#[local] Instance port_laws : PortKernelLaws env_t.
Proof.
  split. intros e rc e'. cbn. unfold grant. destruct (AppMgmtDemo.next_handle e).
  intros [= <- _]. lia.
Qed.
#[local] Instance clock : Clock env_t := {|
  k_gettime e := ((0, 0), e); k_nanosleep _ e := (tt, e)
|}.

(** A header is the command, a response a header and the error, one byte each
    of 32-bit words. *)
Definition word (z : Z) : bytes := [z; 0; 0; 0].
#[local] Instance apploader : Apploader env_t := {|
  IPC_CONNECT_ASYNC := 2; ERR_TIMED_OUT := -13; MMAP_FLAG_PROT_READ := 1;
  APPLOADER_PORT := "com.android.trusty.apploader";
  APPLOADER_CMD_LOAD_APPLICATION := 2; APPLOADER_RESP_BIT := 1; APPLOADER_NO_ERROR := 0;
  APPLOADER_ERR_ALREADY_EXISTS := 7; APPLOADER_ERR_VERIFICATION_FAILED := 5;
  apploader_header := word; apploader_load_app_req n := word n ++ word 0;
  sizeof_apploader_resp := 8;
  resp_cmd bs := default 0 (bs !! 0%nat); resp_error bs := default 0 (bs !! 4%nat);
  round_up n m := (n + m - 1) / m * m;
  app_begin _ := 4096; app_end _ := 4196;
  k_page_size e := (4096, e);
  k_memref _ _ _ := grant;
  k_send_msg _ bs _ e := (Z.of_nat (length bs), e);
  k_msg_info _ e := ((0, (1, 8)), e);
  k_read_msg _ _ _ _ _ e := ((8, word 3 ++ word 0), e);
  k_put_msg _ _ e := (0, e);
  k_app_loading_unlocked e := (true, e)
|}.
#[local] Instance apploader_laws : ApploaderLaws env_t.
Proof.
  split.
  - intros h id off n hs e rc bs e' [= <- <- <-] _. done.
  - intros name flags e rc e'. cbn. case_bool_decide; [by intros [= <- _]|].
    unfold grant. destruct (AppMgmtDemo.next_handle e). intros [= <- _]. lia.
  - intros p n flags e rc e'. cbn. unfold grant. destruct (AppMgmtDemo.next_handle e).
    intros [= <- _]. lia.
Qed.

Definition w (waits : list (Z * uevent)) (msgs : list bytes) : world client_state unit env_t :=
  World (ClientState false false [7; 7; 7]) tt (waits, Script 100 [] [] msgs []) [].
Definition msg : Z * uevent := (0, UEvent 0 8).
Definition timed_out : Z * uevent := (-13, UEvent 0 0).

(** The loader's answer, a connection that nobody accepts, the response to
    CMD_CLOSE_PORT, a second such connection, the response to CMD_EXIT, and a
    server that is there again for each of them. *)
Definition ready : Z * uevent := (0, UEvent 0 1).
Definition restarts : world client_state unit env_t :=
  w [msg; timed_out; msg; timed_out; msg; ready; msg; ready; msg]
    [[RSP_OK]; [RSP_OK]; [RSP_OK]; [RSP_OK]].

Example restarts_passes :
  match test_f true PortStartPendingWaitingPositive restarts with
  | Ret _ w' => failed (loc w') = false ∧
      sessions (sent (trace w')) =
        [[(104, CMD_EXIT)]; [(103, CMD_EXIT)]; [(102, CMD_EXIT); (102, CMD_CLOSE_PORT)]]
  | Halt _ _ => False
  end.
Proof. by vm_compute. Qed.

(** A restart that does not come: the channel is closed twice. *)
Definition no_restart : world client_state unit env_t :=
  w [msg; (0, UEvent 0 4)] [].

Example no_restart_closes_twice :
  match AppRestartPositive no_restart with
  | Ret _ w' => failed (loc w') = true ∧ closed (trace w') = [102; 102; 100; 101] ∧
      opened (trace w') = [102; 101; 100]
  | Halt _ _ => False
  end.
Proof. by vm_compute. Qed.

Lemma plain_tests_settle_witness :
  wp AppRestartPositive (λ _ w', restart_end w') no_restart ∧ wp UnsignedApp (λ _ w', clean w') no_restart.
Proof.
  destruct (plain_tests_settle no_restart) as (_ & Hclean & Hrestart & _); [done|done|].
  split; [exact Hrestart|]. apply Hclean, (list_elem_of_lookup_2 _ 6). reflexivity.
Defined.

Lemma load_app_correct_witness :
  wp (load_app unsigned_app) (λ r w', balanced (trace w') [] ∧ sent (trace w') = sent (trace restarts) ∧
    (loc w' = loc restarts ∧ load_answered unsigned_app r (trace restarts) (trace w') ∨
     loc w' = with_failed (loc restarts) ∧ r = 0)) restarts.
Proof. apply load_app_correct; [done|apply Permutation_refl]. Defined.

Lemma port_start_tests_over_witness :
  wp (test_f true PortStartPendingWaitingPositive) (λ _ w', test_over w') restarts.
Proof. apply port_start_tests_over; [unfold port_start_tests; set_solver|done|done]. Defined.

Definition server : world unit unit env_t :=
  World tt tt ([(0, UEvent 101 1); msg; msg],
    Script 100 [""%string] [] [[CMD_CLOSE_PORT]; [CMD_EXIT]] []) [].

Example server_runs :
  match port_start_main 5 server with
  | Ret r w' => r = Some 0 ∧ received (trace w') = [CMD_EXIT; CMD_CLOSE_PORT]
  | Halt _ _ => False
  end.
Proof. by vm_compute. Qed.

Lemma client_server_release_witness :
  wp (test_f true PortStartPendingWaitingPositive) (λ _ w',
    [(102, CMD_EXIT); (102, CMD_CLOSE_PORT)] ∈ sessions (sent (trace w')) →
    wp (port_start_main 5) (λ r ws', r ≠ None →
      received (trace ws') `suffix_of` [(102, CMD_EXIT); (102, CMD_CLOSE_PORT)].*2 →
      opened (trace ws') ⊆+ closed (trace ws') ∧
      (length (closed (trace ws')) ≤ S (length (opened (trace ws'))))%nat) server) restarts.
Proof. apply client_server_release; [unfold port_start_tests; set_solver|done..]. Defined.
End AppMgmtClientDemo.
