(* ===== verification/Memref.v ===== *)
(** The memref test's servers: memref-test/lender, which lends memory and lets
    a client read and write one page, and memref-test/receiver, which writes
    a greeting to memory it is lent. *)

From S2P Require Import Prelude Ipc.

(** * 1. Interface *)

(** include/lender.h. *)
Definition LENDER_LEND_BSS : Z := 0.
Definition LENDER_LEND_RO : Z := 1.
Definition LENDER_LEND_RW : Z := 2.
Definition LENDER_SUICIDE : Z := 3.
Definition LENDER_READ_BSS : Z := 4.
Definition LENDER_WRITE_BSS : Z := 5.

Record lender_region := LenderRegion { offset : Z; size : Z }.
Record lender_msg := LenderMsg { cmd : Z; region : lender_region }.

(** The layout on the LP64 target: the command, padding, two size_t. *)
Definition sizeof_lender_msg : Z := 24.
Definition le (bs : bytes) : Z := foldr (λ b n, b + 256 * n) 0 bs.
Definition lender_msg_decode (bs : bytes) : lender_msg :=
  LenderMsg (le (take 4 bs))
    (LenderRegion (u64 (le (take 8 (drop 8 bs)))) (u64 (le (take 8 (drop 16 bs))))).

Definition PAGE_SIZE : Z := 4096.
Definition MAX_WRITE : Z := 2048.

(** The pages memrefs are made of. *)
Inductive page := BssPage | RoPage | RwPage.

(** trusty/memref.h and the IPC calls that carry handles: [send_msg] and
    [read_msg] of one handle, [get_msg] (return code and number of handles),
    and [mmap] (the address or MAP_FAILED, and the memory mapped). *)
Class MemrefKernel (W : Type) := {
  PROT_READ : Z;
  PROT_RW : Z;
  MAP_FAILED : Z;
  page_size_of : W → Z;
  k_memref_create : page → Z → W → Z * W;
  k_send_handle : handle → handle → W → Z * W;
  k_get_msg : handle → W → (Z * Z) * W;
  k_read_handle : handle → W → (Z * handle) * W;
  k_put_msg : handle → W → Z * W;
  k_mmap : handle → Z → W → (Z * bytes) * W;
  k_munmap : W → Z * W
}.

(** * 2. The lender *)

Record lender_state := LenderState {
  bss_page : bytes;
  bss_memref : handle;
  ro_memref : handle;
  rw_memref : handle;
  lent : list (handle * handle)    (** channel and memref, latest first *)
}.

Definition with_page (p : bytes) (l : lender_state) : lender_state :=
  LenderState p (bss_memref l) (ro_memref l) (rw_memref l) (lent l).
Definition with_lent (e : handle * handle) (l : lender_state) : lender_state :=
  LenderState (bss_page l) (bss_memref l) (ro_memref l) (rw_memref l) (e :: lent l).

(** The page with [bs] written at index [i]. *)
Definition splice (i : Z) (bs p : bytes) : bytes :=
  take (Z.to_nat i) p ++ bs ++ drop (Z.to_nat i + length bs) p.

(** The globals when main starts. *)
Definition lender_globals `{!Uapi} : lender_state :=
  LenderState (replicate (Z.to_nat PAGE_SIZE) 0) INVALID_IPC_HANDLE INVALID_IPC_HANDLE
    INVALID_IPC_HANDLE [].

Section Lender.
Context {W : Type} `{!Uapi} `{!Kernel W} `{!MemrefKernel W}.
Abbreviation C := (M (world lender_state unit W)).

Definition lender_init : C unit :=
  rc ← env_call (k_memref_create BssPage PROT_RW);
  if rc <? 0 then stop Aborted else
  mod_loc (λ l, LenderState (bss_page l) rc (ro_memref l) (rw_memref l) (lent l));;
  rc ← env_call (k_memref_create RoPage PROT_READ);
  (if rc <? 0 then ret tt else
   mod_loc (λ l, LenderState (bss_page l) (bss_memref l) rc (rw_memref l) (lent l)));;
  rc ← env_call (k_memref_create RwPage PROT_RW);
  if rc <? 0 then stop Aborted else
  mod_loc (λ l, LenderState (bss_page l) (bss_memref l) (ro_memref l) rc (lent l)).

(** [send_msg] of the memref. *)
Definition send_handle (chan h : handle) : C Z :=
  rc ← env_call (k_send_handle chan h);
  mod_loc (with_lent (chan, h));;
  ret rc.

Definition lender_lend (chan : handle) (c : Z) : C Z :=
  to_lend ← get_loc (λ l,
    if c =? LENDER_LEND_BSS then Some (bss_memref l)
    else if c =? LENDER_LEND_RO then Some (ro_memref l)
    else if c =? LENDER_LEND_RW then Some (rw_memref l) else None);
  match to_lend with
  | None => ret (-1)
  | Some h => if h =? INVALID_IPC_HANDLE then ret (-1) else send_handle chan h
  end.

Definition lender_check_region (r : lender_region) (sz : Z) : Z :=
  if 2 ^ 64 <=? offset r + size r then -1 else
  if sz <? offset r + size r then -1 else 0.

(** Reading and writing [n] bytes of the page from an index on. *)
Definition read_page (i n : Z) : C bytes :=
  p ← get_loc bss_page;
  if i + n <=? Z.of_nat (length p) then ret (take (Z.to_nat n) (drop (Z.to_nat i) p))
  else stop OutOfBounds.
Definition write_page (i : Z) (bs : bytes) : C unit :=
  p ← get_loc bss_page;
  if i + Z.of_nat (length bs) <=? Z.of_nat (length p) then
    mod_loc (with_page (splice i bs p))
  else stop OutOfBounds.

Definition lender_read_bss (chan : handle) (r : lender_region) : C Z :=
  if negb (lender_check_region r PAGE_SIZE =? 0) then ret (-1) else
  data ← read_page (offset r) (size r);
  rc ← tipc_send chan data;
  if negb (rc =? size r) then ret (-1) else ret 0.

Definition lender_write_bss (chan : handle) (r : lender_region) (data : bytes) : C Z :=
  if negb (lender_check_region r PAGE_SIZE =? 0) then ret (-1) else
  (if Z.of_nat (length data) <? size r then stop OutOfBounds else ret tt);;
  write_page (offset r) (take (Z.to_nat (size r)) data);;
  tipc_send chan [].

(** The switch of lender_on_message, after [rc] bytes were received. *)
Definition lender_switch (chan : handle) (rc : Z) (msg : lender_msg) (data : bytes) : C Z :=
  if (cmd msg =? LENDER_LEND_BSS) || (cmd msg =? LENDER_LEND_RO) || (cmd msg =? LENDER_LEND_RW) then
    rc ← lender_lend chan (cmd msg);
    if rc <? 0 then ret rc else ret 0
  else if cmd msg =? LENDER_SUICIDE then stop (Exited 0)
  else if cmd msg =? LENDER_READ_BSS then
    rc ← lender_read_bss chan (region msg);
    if rc <? 0 then ret rc else ret 0
  else if cmd msg =? LENDER_WRITE_BSS then
    if negb (u64 (rc - sizeof_lender_msg) =? size (region msg)) then ret (-1) else
    rc ← lender_write_bss chan (region msg) data;
    if rc <? 0 then ret rc else ret 0
  else ret (-1).

(** [data]: what the caller's buffer of MAX_WRITE bytes held before. *)
Definition lender_on_message (data : bytes) (chan : handle) : C Z :=
  r ← tipc_recv chan sizeof_lender_msg (sizeof_lender_msg + MAX_WRITE);
  let '(rc, bs) := r in
  if rc <? 0 then ret rc else
  lender_switch chan rc (lender_msg_decode (take (Z.to_nat sizeof_lender_msg) bs))
    (overwrite (drop (Z.to_nat sizeof_lender_msg) bs) data).
End Lender.

(** * 3. The receiver *)

Definition num_pages : Z := 10.

(** The memory currently mapped. *)
Record receiver_state := ReceiverState { mapped : bytes; unmapped : bytes }.

(** The string and its terminator. *)
Definition greeting : bytes :=
  ((λ a, Z.of_nat (Ascii.nat_of_ascii a)) <$>
     String.list_ascii_of_string "Hello from Trusty!") ++ [0].

Section Receiver.
Context {W : Type} `{!Uapi} `{!Kernel W} `{!MemrefKernel W}.
Abbreviation C := (M (world receiver_state unit W)).

Definition write_mapped (i : Z) (bs : bytes) : C unit :=
  p ← get_loc mapped;
  if i + Z.of_nat (length bs) <=? Z.of_nat (length p) then
    mod_loc (λ l, ReceiverState (splice i bs p) (unmapped l))
  else stop OutOfBounds.

Definition receiver_on_message (chan : handle) : C Z :=
  r ← env_call (k_get_msg chan);
  let '(rc, num_handles) := r in
  if negb (rc =? 0) then ret rc else
  if negb (num_handles =? 1) then ret (-1) else
  r ← env_call (k_read_handle chan);
  let '(rc, h) := r in
  env_call (k_put_msg chan);;
  if rc <? 0 then ret rc else
  page_size ← env_call (λ v, (page_size_of v, v));
  r ← env_call (k_mmap h (page_size * num_pages));
  let '(out, mem) := r in
  if out =? MAP_FAILED then ret out else
  mod_loc (λ l, ReceiverState mem (unmapped l));;
  foldM (λ _ skip, write_mapped (skip * page_size) greeting) tt (seqZ 0 num_pages);;
  mod_loc (λ l, ReceiverState [] (mapped l));;
  env_call k_munmap;;
  close h;;
  tipc_send chan [0];;
  ret rc.
End Receiver.
