(* ===== verification/MemrefCorrect.v ===== *)
(** The correctness of the memref test's servers of Memref.v: what the lender
    does with every message, and what the receiver leaves in memory. *)

From S2P Require Import Prelude Ipc Memref.

(** * 1. Writes to a page, and calls with handles *)

Lemma length_splice i bs (p : bytes) :
  0 ≤ i → i + Z.of_nat (length bs) ≤ Z.of_nat (length p) → length (splice i bs p) = length p.
Proof.
  intros Hi Hp. unfold splice. rewrite !length_app, length_take, length_drop. lia.
Qed.

(** A write reaches its bytes and no others. *)
Lemma lookup_splice i bs (p : bytes) j :
  0 ≤ i → i + Z.of_nat (length bs) ≤ Z.of_nat (length p) →
  splice i bs p !! j =
    if decide (Z.to_nat i ≤ j < Z.to_nat i + length bs)%nat
    then bs !! (j - Z.to_nat i)%nat else p !! j.
Proof.
  intros Hi Hp. unfold splice.
  assert (length (take (Z.to_nat i) p) = Z.to_nat i) as Hl by (rewrite length_take; lia).
  destruct (decide _) as [Hj|Hj].
  - rewrite lookup_app_r by lia. rewrite Hl, lookup_app_l by lia. done.
  - destruct (decide (j < Z.to_nat i)%nat).
    + rewrite lookup_app_l by lia. by rewrite lookup_take_lt by lia.
    + rewrite lookup_app_r by lia. rewrite Hl, lookup_app_r by lia. rewrite lookup_drop.
      f_equal. lia.
Qed.

(** What was written is read back. *)
Lemma splice_read i bs (p : bytes) :
  0 ≤ i → i + Z.of_nat (length bs) ≤ Z.of_nat (length p) →
  take (length bs) (drop (Z.to_nat i) (splice i bs p)) = bs.
Proof.
  intros Hi Hp. unfold splice. rewrite drop_app_length'; [by rewrite take_app_length|].
  rewrite length_take. lia.
Qed.

(** * 2. What a message to the lender asks for *)

Inductive lender_action :=
| Refuse
(** Answer [bs] and leave [page]; [status] gives what is returned for each
    answer of the kernel to the message. *)
| Reply (bs : bytes) (page : bytes) (status : Z → Z)
| Lend (h : handle)
| Die.

Section LenderSpec.
Context `{!Uapi}.

(** The memref a command lends. *)
Definition lent_memref (l : lender_state) (c : Z) : option handle :=
  if c =? LENDER_LEND_BSS then Some (bss_memref l)
  else if c =? LENDER_LEND_RO then Some (ro_memref l)
  else if c =? LENDER_LEND_RW then Some (rw_memref l) else None.

(** A read is served when its bytes were sent, all of them; a write when its
    empty answer was; lending when the memref was. *)
Definition whole_status (len n : Z) : Z := if n =? len then 0 else -1.
Definition sent_status (n : Z) : Z := if n <? 0 then n else 0.

(** The action asked for by a message followed by [payload]. *)
Definition lender_spec (l : lender_state) (msg : lender_msg) (payload : bytes) : lender_action :=
  let i := offset (region msg) in
  let n := size (region msg) in
  let p := bss_page l in
  match lent_memref l (cmd msg) with
  | Some h => if h =? INVALID_IPC_HANDLE then Refuse else Lend h
  | None =>
      if cmd msg =? LENDER_SUICIDE then Die
      else if PAGE_SIZE <? i + n then Refuse
      else if cmd msg =? LENDER_READ_BSS then
        Reply (take (Z.to_nat n) (drop (Z.to_nat i) p)) p (whole_status n)
      else if (cmd msg =? LENDER_WRITE_BSS) && (n =? Z.of_nat (length payload)) then
        Reply [] (splice i payload p) sent_status
      else Refuse
  end.

(** The outcome that carries out an action; what is returned is determined by
    what the kernel answered to the message that was sent. *)
Definition lender_acted {W} `{!Kernel W} `{!MemrefKernel W} (chan : handle) (act : lender_action)
    (w : world lender_state unit W) (out : outcome (world lender_state unit W) Z) : Prop :=
  match act, out with
  | Refuse, Ret rc w' => rc = -1 ∧ w' = w
  | Reply bs p status, Ret rc w' =>
      loc w' = with_page p (loc w) ∧ length p = length (bss_page (loc w)) ∧
      ∃ n, trace w' = SSend chan bs n :: trace w ∧ k_send chan bs (env w) = (n, env w') ∧
        rc = status n
  | Lend h, Ret rc w' =>
      h ≠ INVALID_IPC_HANDLE ∧ loc w' = with_lent (chan, h) (loc w) ∧ trace w' = trace w ∧
      ∃ n, k_send_handle chan h (env w) = (n, env w') ∧ rc = sent_status n
  | Die, Halt h w' => h = Exited 0 ∧ w' = w
  | _, _ => False
  end.
End LenderSpec.

(** * 3. The lender meets it *)

Section Lender.
Context {W : Type} `{!Uapi} `{!Kernel W} `{!KernelLaws W} `{!MemrefKernel W}.
Implicit Types (w : world lender_state unit W) (l : lender_state).

Lemma check_region_ok r n :
  0 ≤ n < 2 ^ 64 → (lender_check_region r n =? 0) = negb (n <? offset r + size r).
Proof.
  intros Hn. unfold lender_check_region.
  destruct (Z.leb_spec (2 ^ 64) (offset r + size r)), (Z.ltb_spec n (offset r + size r)); lia.
Qed.

Lemma with_page_id l : with_page (bss_page l) l = l.
Proof. by destruct l. Qed.

(** The end of each case of the switch. *)
Lemma wp_status rc (Q : Z → world lender_state unit W → Prop) w :
  Q (sent_status rc) w → wp (if rc <? 0 then ret rc else ret 0) Q w.
Proof. unfold sent_status. intros HQ. by destruct (rc <? 0); apply wp_ret. Qed.

(** A triple gives the outcome, when the action does not end the run. *)
Lemma acted_wp chan act w0 (m : M (world lender_state unit W) Z) w :
  wp m (λ rc w', lender_acted chan act w0 (Ret rc w')) w → lender_acted chan act w0 (m w).
Proof. intros (rc & w' & -> & Ha)%wp_returns. exact Ha. Qed.

Lemma lend_acts chan c h w :
  lent_memref (loc w) c = Some h →
  wp (rc ← lender_lend chan c; if rc <? 0 then ret rc else ret 0)
    (λ rc w', lender_acted chan (if h =? INVALID_IPC_HANDLE then Refuse else Lend h) w (Ret rc w')) w.
Proof.
  intros Hh. unfold lender_lend. apply wp_bind, wp_bind, wp_get_loc. fold (lent_memref (loc w) c).
  rewrite Hh. destruct (Z.eqb_spec h INVALID_IPC_HANDLE); [by apply wp_ret|].
  apply wp_bind, wp_env_call. intros rc v E. apply wp_bind, wp_mod_loc, wp_ret, wp_status.
  split_and!; [done..|]. by exists rc.
Qed.

Lemma lent_memref_is_some l c :
  is_Some (lent_memref l c) ↔
  (c =? LENDER_LEND_BSS) || (c =? LENDER_LEND_RO) || (c =? LENDER_LEND_RW) = true.
Proof.
  unfold lent_memref. destruct (c =? LENDER_LEND_BSS), (c =? LENDER_LEND_RO), (c =? LENDER_LEND_RW);
    cbn; split; try done; try (by eexists); by intros [? ?].
Qed.

Section Page.
Context (w : world lender_state unit W) (r : lender_region).
Context (Hpage : Z.of_nat (length (bss_page (loc w))) = PAGE_SIZE).
Context (Hoff : 0 ≤ offset r) (Hsize : 0 ≤ size r).
Let outside := PAGE_SIZE <? offset r + size r.

Lemma read_acts chan :
  wp (rc ← lender_read_bss chan r; if rc <? 0 then ret rc else ret 0)
    (λ rc w', lender_acted chan (if outside then Refuse else
       Reply (take (Z.to_nat (size r)) (drop (Z.to_nat (offset r)) (bss_page (loc w))))
         (bss_page (loc w)) (whole_status (size r))) w (Ret rc w')) w.
Proof.
  unfold lender_read_bss. rewrite check_region_ok, negb_involutive by done. apply wp_bind.
  unfold outside. destruct (Z.ltb_spec PAGE_SIZE (offset r + size r)); [by apply wp_ret|].
  apply wp_bind. unfold read_page. apply wp_bind, wp_get_loc. wp_cases Hin; [|lia].
  apply wp_ret, wp_bind, wp_syscall. intros n v E.
  assert (length (take (Z.to_nat (size r)) (drop (Z.to_nat (offset r)) (bss_page (loc w)))) =
          Z.to_nat (size r)) as Hlen by (rewrite length_take, length_drop; lia).
  wp_cases Hn; apply wp_ret, wp_status;
    (split_and!; [symmetry; apply with_page_id|done|]; exists n; split_and!; [done|exact E|]);
    unfold whole_status; [destruct (Z.eqb_spec n (size r))|destruct (Z.eqb_spec n (size r))]; done || lia.
Qed.

Lemma write_acts chan (data : bytes) :
  size r ≤ Z.of_nat (length data) →
  wp (rc ← lender_write_bss chan r data; if rc <? 0 then ret rc else ret 0)
    (λ rc w', lender_acted chan (if outside then Refuse else
       Reply [] (splice (offset r) (take (Z.to_nat (size r)) data) (bss_page (loc w))) sent_status) w (Ret rc w')) w.
Proof.
  intros Hdata. unfold lender_write_bss. rewrite check_region_ok, negb_involutive by done.
  apply wp_bind. unfold outside.
  destruct (Z.ltb_spec PAGE_SIZE (offset r + size r)); [by apply wp_ret|].
  assert (length (take (Z.to_nat (size r)) data) = Z.to_nat (size r)) as Hlen
    by (rewrite length_take; lia).
  apply wp_bind. wp_cases Hshort; [lia|]. apply wp_ret, wp_bind. unfold write_page.
  apply wp_bind, wp_get_loc. wp_cases Hin; [|lia]. apply wp_mod_loc, wp_syscall. intros n v E.
  apply wp_status. split_and!; [done|apply length_splice; lia|]. by exists n.
Qed.
End Page.

(** The switch, on a message and the payload received after it. *)
Lemma lender_switch_acts chan rc msg payload (data : bytes) w :
  rc = sizeof_lender_msg + Z.of_nat (length payload) →
  Z.of_nat (length (bss_page (loc w))) = PAGE_SIZE →
  0 ≤ offset (region msg) → 0 ≤ size (region msg) →
  (length payload ≤ length data)%nat → Z.of_nat (length data) ≤ MAX_WRITE →
  lender_acted chan (lender_spec (loc w) msg payload) w
    (lender_switch chan rc msg (overwrite payload data) w).
Proof.
  intros -> Hpage Hoff Hsize Hpl Hdata. unfold lender_switch, lender_spec.
  destruct (lent_memref (loc w) (cmd msg)) as [h|] eqn:Hh.
  { rewrite (proj1 (lent_memref_is_some (loc w) (cmd msg))) by (by eexists). apply acted_wp. by apply lend_acts. }
  destruct (_ || _ || _) eqn:Hlend;
    [apply (lent_memref_is_some (loc w)) in Hlend; rewrite Hh in Hlend; by destruct Hlend|].
  destruct (cmd msg =? LENDER_SUICIDE); [done|].
  destruct (cmd msg =? LENDER_READ_BSS); [by apply acted_wp, read_acts|].
  destruct (cmd msg =? LENDER_WRITE_BSS); cbn [andb]; [|by destruct (_ <? _)].
  rewrite u64_small by (unfold sizeof_lender_msg, MAX_WRITE in *; lia).
  replace (sizeof_lender_msg + Z.of_nat (length payload) - sizeof_lender_msg)
    with (Z.of_nat (length payload)) by lia. rewrite (Z.eqb_sym (Z.of_nat (length payload))).
  destruct (Z.eqb_spec (size (region msg)) (Z.of_nat (length payload))) as [Hsz|Hsz]; cbn [negb];
    [|by destruct (_ <? _)].
  apply acted_wp. pose proof (write_acts w (region msg) Hpage Hoff Hsize chan
    (overwrite payload data)) as Hw. rewrite length_overwrite, Hsz in Hw by done.
  rewrite Nat2Z.id, take_overwrite in Hw. rewrite Hsz. apply Hw. lia.
Qed.

(** With what it received. *)
Lemma lender_on_message_run data chan w rc m v :
  Z.of_nat (length (bss_page (loc w))) = PAGE_SIZE → Z.of_nat (length data) = MAX_WRITE →
  k_recv chan sizeof_lender_msg (sizeof_lender_msg + MAX_WRITE) (env w) = ((rc, m), v) →
  let w1 := logged (SRecv chan rc m) v w in
  if rc <? 0 then lender_on_message data chan w = Ret rc w1
  else rc = Z.of_nat (length m) ∧
    lender_acted chan
      (lender_spec (loc w) (lender_msg_decode (take (Z.to_nat sizeof_lender_msg) m))
         (drop (Z.to_nat sizeof_lender_msg) m)) w1 (lender_on_message data chan w).
Proof.
  intros Hpage Hdata E w1. unfold lender_on_message, tipc_recv.
  unfold bind at 1 2, syscall at 1 2. rewrite E. cbn [fst snd].
  destruct (Z.ltb_spec rc 0) as [Hrc|Hrc]; [done|].
  destruct (k_recv_ok _ _ _ _ _ _ _ E Hrc) as ([Hlo Hhi] & Hl & _). split; [done|].
  assert (Z.of_nat (length (drop (Z.to_nat sizeof_lender_msg) m)) = rc - sizeof_lender_msg) as Hpl
    by (rewrite length_drop; unfold sizeof_lender_msg in *; lia).
  apply (lender_switch_acts chan rc (lender_msg_decode (take (Z.to_nat sizeof_lender_msg) m))
    (drop (Z.to_nat sizeof_lender_msg) m) data w1); [lia|done|apply u64_range|apply u64_range|lia|lia].
Qed.

Lemma lender_on_message_spec data chan w :
  Z.of_nat (length (bss_page (loc w))) = PAGE_SIZE → Z.of_nat (length data) = MAX_WRITE →
  let out := lender_on_message data chan w in
  ∃ rc m v, let w1 := logged (SRecv chan rc m) v w in
  if rc <? 0 then out = Ret rc w1
  else rc = Z.of_nat (length m) ∧
    lender_acted chan
      (lender_spec (loc w) (lender_msg_decode (take (Z.to_nat sizeof_lender_msg) m))
         (drop (Z.to_nat sizeof_lender_msg) m)) w1 out.
Proof.
  intros Hpage Hdata out.
  destruct (k_recv chan sizeof_lender_msg (sizeof_lender_msg + MAX_WRITE) (env w))
    as [[rc m] v] eqn:E. exists rc, m, v. by apply lender_on_message_run.
Qed.

(** C23. lender_on_message, whatever the message (any command, offset and size,
    even ones whose sum overflows) and whatever was in its buffer: nothing is
    read or written outside the page and the buffer, and the outcome is the
    one the specification gives for the bytes received.  A read answers the
    bytes of its region and changes nothing; a write changes the bytes of its
    region and no others; a region that leaves the page, a length that
    disagrees with the payload, an unknown command and a memref that was not
    created are refused with nothing sent or changed; the application ends on
    the command to end and on no other.  The status follows from what the
    kernel answered to the one message sent: for a read 0 if all bytes of the
    region were sent and -1 otherwise; for a write, and for a memref lent, 0 if
    the message was sent and the kernel's error otherwise. *)
Theorem lender_on_message_correct data chan w rc m v :
  Z.of_nat (length (bss_page (loc w))) = PAGE_SIZE → Z.of_nat (length data) = MAX_WRITE →
  k_recv chan sizeof_lender_msg (sizeof_lender_msg + MAX_WRITE) (env w) = ((rc, m), v) →
  let w1 := logged (SRecv chan rc m) v w in
  let out := lender_on_message data chan w in
  if rc <? 0 then out = Ret rc w1
  else rc = Z.of_nat (length m) ∧
    lender_acted chan
      (lender_spec (loc w) (lender_msg_decode (take (Z.to_nat sizeof_lender_msg) m))
         (drop (Z.to_nat sizeof_lender_msg) m)) w1 out.
Proof. apply lender_on_message_run. Qed.
End Lender.

(** * 4. The receiver *)

(** What mmap gives, and the page size: the whole range, of pages that hold
    the greeting. *)
Class MmapLaws (W : Type) `{MemrefKernel W} : Prop := {
  k_mmap_ok h n e out mem e' :
    0 ≤ n → k_mmap h n e = ((out, mem), e') → out ≠ MAP_FAILED → Z.of_nat (length mem) = n;
  page_size_ok e : Z.of_nat (length greeting) ≤ page_size_of e
}.

(** What the kernel answers to the calls of receiver_on_message, until a memory
    is mapped: an error, with which it gives up, or the result of reading the
    message, the handle in it, and the memory mapped from this handle. *)
Inductive receipt :=
| GivesUp (rc : Z)
| Maps (rc : Z) (h : handle) (page_size : Z) (mem : bytes).

Definition receipt_of {W} `{!MemrefKernel W} (chan : handle) (e : W) : receipt :=
  let '((rc, num_handles), e) := k_get_msg chan e in
  if negb (rc =? 0) then GivesUp rc else
  if negb (num_handles =? 1) then GivesUp (-1) else
  let '((rc, h), e) := k_read_handle chan e in
  let '(_, e) := k_put_msg chan e in
  if rc <? 0 then GivesUp rc else
  let '((out, mem), _) := k_mmap h (page_size_of e * num_pages) e in
  if out =? MAP_FAILED then GivesUp out else Maps rc h (page_size_of e) mem.

(** The byte at index [j] once the pages below index [n] were greeted. *)
Definition greeted_byte (page_size n : nat) (mem : bytes) (j : nat) : option Z :=
  if decide (j < n ∧ j mod page_size < length greeting)%nat
  then greeting !! (j mod page_size)%nat else mem !! j.

Section Receiver.
Context {W : Type} `{!Uapi} `{!Kernel W} `{!MemrefKernel W} `{!MmapLaws W}.
Implicit Types (w : world receiver_state unit W).

Lemma write_mapped_spec i bs w (Q : unit → world receiver_state unit W → Prop) :
  i + Z.of_nat (length bs) ≤ Z.of_nat (length (mapped (loc w))) →
  Q tt (set_loc (ReceiverState (splice i bs (mapped (loc w))) (unmapped (loc w))) w) →
  wp (write_mapped i bs) Q w.
Proof.
  intros Hi HQ. unfold write_mapped. apply wp_bind, wp_get_loc. wp_cases Hin; [|lia].
  by apply wp_mod_loc.
Qed.

(** One more page. *)
Lemma greeted_step ps k mem0 mem j :
  (length greeting ≤ ps)%nat → (k < 10)%nat → length mem0 = (ps * 10)%nat →
  length mem = length mem0 → (∀ j, mem !! j = greeted_byte ps (k * ps) mem0 j) →
  splice (Z.of_nat k * Z.of_nat ps) greeting mem !! j = greeted_byte ps (S k * ps) mem0 j.
Proof.
  intros Hps Hk Hl0 Hl Hmem. assert (0 < length greeting)%nat by (cbn; lia).
  rewrite lookup_splice by nia. replace (Z.to_nat (Z.of_nat k * Z.of_nat ps)) with (k * ps)%nat by nia.
  rewrite Hmem. unfold greeted_byte.
  pose proof (Nat.div_mod_eq j ps) as Hj. pose proof (Nat.mod_upper_bound j ps) as Hm.
  set (q := (j / ps)%nat) in *. set (r := (j mod ps)%nat) in *.
  assert (q < k ∨ q = k ∨ k < q)%nat as [Hq|[->|Hq]] by lia.
  - rewrite decide_False by nia. destruct (decide (r < length greeting)%nat).
    + by rewrite !decide_True by nia.
    + by rewrite !decide_False by nia.
  - destruct (decide (r < length greeting)%nat).
    + rewrite !decide_True by nia. f_equal. nia.
    + by rewrite !decide_False by nia.
  - by rewrite !decide_False by nia.
Qed.
Lemma greet_loop page_size mem0 : ∀ n k w,
  Z.of_nat (length greeting) ≤ page_size → (k + n)%nat = 10%nat →
  Z.of_nat (length mem0) = page_size * num_pages → length (mapped (loc w)) = length mem0 →
  (∀ j, mapped (loc w) !! j = greeted_byte (Z.to_nat page_size) (k * Z.to_nat page_size) mem0 j) →
  wp (foldM (λ _ skip, write_mapped (skip * page_size) greeting) tt (seqZ (Z.of_nat k) (Z.of_nat n)))
    (λ _ w', (∀ j, mapped (loc w') !! j =
                 greeted_byte (Z.to_nat page_size) (10 * Z.to_nat page_size) mem0 j) ∧
             env w' = env w ∧ trace w' = trace w) w.
Proof.
  induction n as [|n IH]; intros k w Hps Hkn Hl0 Hl Hmem.
  { replace k with 10%nat in Hmem by lia. by apply wp_ret. }
  unfold num_pages in *. rewrite seqZ_cons by lia.
  replace (Z.pred (Z.of_nat (S n))) with (Z.of_nat n) by lia. replace (Z.succ (Z.of_nat k)) with (Z.of_nat (S k)) by lia.
  cbn [foldM]. apply wp_bind, write_mapped_spec; [nia|].
  eapply wp_mono; [apply IH; cbn [loc mapped set_loc]; try lia|].
  - rewrite length_splice by nia. done.
  - intros j. replace page_size with (Z.of_nat (Z.to_nat page_size)) at 1 by lia.
    apply greeted_step; [lia|lia|lia|done|exact Hmem].
  - cbn. intros _ w' Hw'. exact Hw'.
Qed.

(** C35. receiver_on_message, for all answers of the kernel: when a call fails
    before a memory is mapped (or the message has not exactly one handle) it
    returns that error, with no handle closed and nothing sent (a handle
    received is then lost).  Otherwise it returns what reading the message
    gave; it has written the greeting at the start of each of the ten pages of
    the memory mapped from the handle in the message, changed no other byte of
    it and none outside, unmapped it, closed that handle and sent one byte on
    its channel, and has done nothing else that can be seen. *)
Theorem receiver_on_message_correct chan w :
  wp (receiver_on_message chan) (λ rc w',
    match receipt_of chan (env w) with
    | GivesUp rc' => rc = rc' ∧ loc w' = loc w ∧ trace w' = trace w
    | Maps rc' h page_size mem =>
      rc = rc' ∧ Z.of_nat (length mem) = page_size * num_pages ∧ mapped (loc w') = [] ∧
      (∀ j, unmapped (loc w') !! j =
         greeted_byte (Z.to_nat page_size) (10 * Z.to_nat page_size) mem j) ∧
      ∃ n, trace w' = SSend chan [0] n :: SClose h :: trace w
    end) w.
Proof.
  unfold receiver_on_message, receipt_of. apply wp_bind, wp_env_call. intros [rc hs] v1 E1. rewrite E1.
  destruct (negb (rc =? 0)) eqn:H1; [by apply wp_ret|]. destruct (negb (hs =? 1)) eqn:H2; [by apply wp_ret|].
  apply wp_bind, wp_env_call. intros [rc2 h] v2 E2. cbn [env] in E2. rewrite E2.
  apply wp_bind, wp_env_call. intros u v3 E3. cbn [env] in E3. rewrite E3.
  destruct (rc2 <? 0) eqn:H3; [by apply wp_ret|]. apply wp_bind, wp_env_call. intros ps v4 Hps.
  injection Hps as <- <-. cbn [env]. pose proof (page_size_ok v3) as Hok.
  set (ps := page_size_of v3) in *. apply wp_bind, wp_env_call. intros [out mem] v5 Hmap. cbn [env] in Hmap.
  rewrite Hmap. destruct (out =? MAP_FAILED) eqn:H4; [by apply wp_ret|].
  apply k_mmap_ok in Hmap; [|unfold num_pages; cbn in Hok; lia|lia].
  apply wp_bind, wp_mod_loc, wp_bind. eapply wp_mono.
  { apply (greet_loop ps mem 10 0); [done..|]. intros j. unfold greeted_byte.
    by rewrite decide_False by lia. }
  cbn [trace set_loc]. intros _ w5 (Hg & _ & Ht). apply wp_bind, wp_mod_loc, wp_bind, wp_env_call.
  intros _ v6 _. apply wp_bind, wp_close. intros _ v7. apply wp_bind, wp_send. intros n v8 _.
  apply wp_ret. cbn [loc mapped unmapped trace logged set_loc].
  split_and!; [done..|]. exists n. by rewrite Ht.
Qed.
End Receiver.
