(* ===== verification/MemrefTest.v ===== *)
(** The client side of the memref test, memref-test.c: the requests it makes of
    the lender, and the two ends together: what the client writes it reads
    back.  The client's functions carry the prefix [client_], since some share
    their names with the lender's. *)

From S2P Require Import Prelude Ipc AppMgmt Memref MemrefCorrect.

(** * 1. Messages *)

(** The bytes of an integer, least significant first. *)
Fixpoint le_bytes (n : nat) (z : Z) : bytes :=
  match n with
  | O => []
  | S n => z mod 256 :: le_bytes n (z / 256)
  end.

(** [struct lender_msg] in memory; [pad]: the padding after the command. *)
Definition lender_msg_encode (pad : bytes) (msg : lender_msg) : bytes :=
  le_bytes 4 (u32 (cmd msg)) ++ pad ++
  le_bytes 8 (offset (region msg)) ++ le_bytes 8 (size (region msg)).

(** [(int)n] of a [size_t]. *)
Definition s32 (n : Z) : Z := (n + 2 ^ 31) mod 2 ^ 32 - 2 ^ 31.

(** * 2. The client *)

Section Client.
Context {L W : Type} `{!Uapi} `{!Kernel W} `{!PortKernel W} `{!MemrefKernel W}.
Abbreviation C := (M (world L unit W)).

(** The padding of the messages on the client's stack. *)
Context (pad : bytes).

Definition client_command (chan : handle) (c : Z) : C Z :=
  rc ← tipc_send chan (lender_msg_encode pad (LenderMsg c (LenderRegion 0 0)));
  if negb (rc =? sizeof_lender_msg) then ret (-1) else ret 0.

(** The status, and the handle if one was read. *)
Definition client_recv_handle (chan : handle) : C (Z * option handle) :=
  r ← wait chan INFINITE_TIME;
  let '(rc, _) := r in
  if negb (rc =? 0) then ret (rc, None) else
  r ← env_call (k_get_msg chan);
  let '(rc, _) := r in
  if negb (rc =? 0) then ret (rc, None) else
  r ← syscall (k_read_handle chan) (λ r, SReadHandle r.1 r.2);
  let '(rc, h) := r in
  env_call (k_put_msg chan);;
  ret (rc, if rc <? 0 then None else Some h).

Definition client_lend_bss (chan : handle) : C (Z * option handle) :=
  rc ← client_command chan LENDER_LEND_BSS;
  if negb (rc =? 0) then ret (rc, None) else client_recv_handle chan.

(** The status and [buf], of [size] bytes, afterwards. *)
Definition client_read_bss (chan : handle) (offset size : Z) (buf : bytes) : C (Z * bytes) :=
  rc ← tipc_send chan
    (lender_msg_encode pad (LenderMsg LENDER_READ_BSS (LenderRegion offset size)));
  if negb (rc =? sizeof_lender_msg) then ret (-1, buf) else
  r ← wait chan INFINITE_TIME;
  let '(rc, _) := r in
  if negb (rc =? 0) then ret (rc, buf) else
  r ← tipc_recv chan size size;
  let '(rc, bs) := r in
  let buf := if rc <? 0 then buf else overwrite bs buf in
  if negb (rc =? s32 size) then ret (-1, buf) else ret (0, buf).

Definition client_write_bss (chan : handle) (offset size : Z) (buf : bytes) : C Z :=
  rc ← tipc_send chan
    (lender_msg_encode pad (LenderMsg LENDER_WRITE_BSS (LenderRegion offset size)) ++
     take (Z.to_nat size) buf);
  if negb (rc =? s32 (u64 (sizeof_lender_msg + size))) then ret (-1) else
  r ← wait chan INFINITE_TIME;
  let '(rc, _) := r in
  if negb (rc =? 0) then ret rc else
  r ← tipc_recv chan 0 0;
  ret r.1.

Definition client_suicide (chan : handle) : C Z :=
  rc ← client_command chan LENDER_SUICIDE;
  if negb (rc =? 0) then ret rc else close chan;; ret 0.
End Client.

(** * 3. Messages are read as they were written *)

Lemma length_le_bytes n z : length (le_bytes n z) = n.
Proof. revert z. induction n as [|n IH]; intros z; cbn; [done|by rewrite IH]. Qed.

Lemma le_le_bytes n z : 0 ≤ z < 256 ^ Z.of_nat n → le (le_bytes n z) = z.
Proof.
  revert z. induction n as [|n IH]; intros z Hz; [cbn in *; lia|].
  cbn [le_bytes le foldr]. change (foldr (λ b n, b + 256 * n) 0 (le_bytes n (z / 256)))
    with (le (le_bytes n (z / 256))).
  rewrite IH; [pose proof (Z.div_mod z 256); lia|].
  rewrite Nat2Z.inj_succ, Z.pow_succ_r in Hz by lia. split; [apply Z.div_pos; lia|].
  apply Z.div_lt_upper_bound; lia.
Qed.

Lemma length_lender_msg_encode pad msg :
  length pad = 4%nat → length (lender_msg_encode pad msg) = Z.to_nat sizeof_lender_msg.
Proof. intros Hp. unfold lender_msg_encode. by rewrite !length_app, !length_le_bytes, Hp. Qed.

Lemma decode_encode pad msg :
  length pad = 4%nat → 0 ≤ cmd msg < 2 ^ 32 →
  0 ≤ offset (region msg) < 2 ^ 64 → 0 ≤ size (region msg) < 2 ^ 64 →
  lender_msg_decode (lender_msg_encode pad msg) = msg.
Proof.
  intros Hp Hc Ho Hs. destruct pad as [|a [|b [|c [|d [|]]]]]; try done.
  transitivity (LenderMsg (le (le_bytes 4 (u32 (cmd msg))))
    (LenderRegion (u64 (le (le_bytes 8 (offset (region msg)))))
                  (u64 (le (le_bytes 8 (size (region msg))))))); [reflexivity|].
  rewrite u32_small by done. rewrite !le_le_bytes by done. rewrite !u64_small by done.
  by destruct msg as [? []].
Qed.

(** A message followed by a payload is taken apart as it was put together. *)
Lemma split_message pad msg payload :
  length pad = 4%nat → 0 ≤ cmd msg < 2 ^ 32 →
  0 ≤ offset (region msg) < 2 ^ 64 → 0 ≤ size (region msg) < 2 ^ 64 →
  lender_msg_decode (take (Z.to_nat sizeof_lender_msg) (lender_msg_encode pad msg ++ payload)) = msg ∧
  drop (Z.to_nat sizeof_lender_msg) (lender_msg_encode pad msg ++ payload) = payload.
Proof.
  intros Hp Hc Ho Hs. rewrite <- (length_lender_msg_encode pad msg Hp).
  rewrite take_app_length, drop_app_length. split; [by apply decode_encode|done].
Qed.

(** The lender decodes the message that the client encoded: the same
    command, offset and size, whatever the padding between them holds. *)
Theorem lender_msg_roundtrip pad msg :
  length pad = 4%nat → 0 ≤ cmd msg < 2 ^ 32 →
  0 ≤ offset (region msg) < 2 ^ 64 → 0 ≤ size (region msg) < 2 ^ 64 →
  lender_msg_decode (lender_msg_encode pad msg) = msg.
Proof. apply decode_encode. Qed.

(** * 4. The two ends together *)

(** A request of the client and its service by the lender, from [c] to [c'] and
    from [s] to [s']: the lender received the message the client sent, and
    the client the answer the lender sent. *)
Definition exchange {Wc Ws} (chan schan : handle) (c c' : world unit unit Wc)
    (s s' : world lender_state unit Ws) : Prop := ∃ m answer k n wrc j,
  trace c' = SRecv chan n answer :: SWait chan wrc :: SSend chan m k :: trace c ∧
  trace s' = SSend schan answer j :: SRecv schan (Z.of_nat (length m)) m :: trace s.

Section ClientSpecs.
Context {W : Type} `{!Uapi} `{!Kernel W} `{!KernelLaws W} `{!PortKernel W}.
Implicit Types c : world unit unit W.

(** When the client hears an answer, this is what it asked. *)
Lemma client_write_asks pad chan i n buf c rc c' m answer k j wrc :
  client_write_bss pad chan i n buf c = Ret rc c' →
  trace c' = SRecv chan j answer :: SWait chan wrc :: SSend chan m k :: trace c →
  m = lender_msg_encode pad (LenderMsg LENDER_WRITE_BSS (LenderRegion i n)) ++
      take (Z.to_nat n) buf.
Proof.
  intros Hrun. revert m answer k j wrc. cut (wp (client_write_bss pad chan i n buf) (λ _ c',
    ∀ m answer k j wrc, trace c' = SRecv chan j answer :: SWait chan wrc :: SSend chan m k :: trace c →
    m = lender_msg_encode pad (LenderMsg LENDER_WRITE_BSS (LenderRegion i n)) ++
        take (Z.to_nat n) buf) c); [by intros Hw; apply (wp_run _ _ _ _ _ Hw Hrun)|].
  unfold client_write_bss. apply wp_bind, wp_send. intros k v _.
  wp_cases H1; [apply wp_ret; intros; cbn in *; congruence|].
  apply wp_bind. ipc_call r v2 E2. destruct r as [wrc u].
  wp_cases H2; [apply wp_ret; intros; cbn in *; congruence|].
  apply wp_bind. ipc_call r v3 E3. apply wp_ret. cbn. intros. congruence.
Qed.

Lemma client_read_asks pad chan i n buf c rc got c' m answer k j wrc :
  client_read_bss pad chan i n buf c = Ret (rc, got) c' →
  trace c' = SRecv chan j answer :: SWait chan wrc :: SSend chan m k :: trace c →
  m = lender_msg_encode pad (LenderMsg LENDER_READ_BSS (LenderRegion i n)) ∧
  (rc = 0 → j = s32 n ∧ (0 ≤ j → got = overwrite answer buf)).
Proof.
  intros Hrun. revert m answer k j wrc. cut (wp (client_read_bss pad chan i n buf) (λ r c',
    ∀ m answer k j wrc, trace c' = SRecv chan j answer :: SWait chan wrc :: SSend chan m k :: trace c →
    m = lender_msg_encode pad (LenderMsg LENDER_READ_BSS (LenderRegion i n)) ∧
    (r.1 = 0 → j = s32 n ∧ (0 ≤ j → r.2 = overwrite answer buf))) c);
    [by intros Hw; apply (wp_run _ _ _ _ _ Hw Hrun)|].
  unfold client_read_bss. apply wp_bind, wp_send. intros k v _.
  wp_cases H1; [apply wp_ret; intros; cbn in *; congruence|].
  apply wp_bind. ipc_call r v2 E2. destruct r as [wrc u].
  wp_cases H2; [apply wp_ret; intros; cbn in *; congruence|].
  apply wp_bind. ipc_call r v3 E3. destruct r as [j answer]. cbn [fst snd].
  wp_cases H3; apply wp_ret; cbn; intros m a k' j' wrc' [= <- <- _ <- _]; (split; [done|]);
    [done|]. intros _. split; [lia|]. intros Hj. by rewrite (proj2 (Z.ltb_ge _ _) Hj).
Qed.
End ClientSpecs.

Section Together.
Context {Wc Ws : Type} `{!Uapi} `{!Kernel Wc} `{!KernelLaws Wc} `{!PortKernel Wc}
  `{!Kernel Ws} `{!KernelLaws Ws} `{!MemrefKernel Ws}.
Implicit Types (c : world unit unit Wc) (s : world lender_state unit Ws).

(** The specification on the client's two requests. *)
Lemma write_spec l i n payload a p st :
  lender_spec l (LenderMsg LENDER_WRITE_BSS (LenderRegion i n)) payload = Reply a p st →
  p = splice i payload (bss_page l) ∧ i + n ≤ PAGE_SIZE ∧ a = [].
Proof.
  unfold lender_spec. cbn [cmd region offset size].
  change (lent_memref l LENDER_WRITE_BSS) with (@None handle).
  change (LENDER_WRITE_BSS =? LENDER_SUICIDE) with false.
  change (LENDER_WRITE_BSS =? LENDER_READ_BSS) with false.
  change (LENDER_WRITE_BSS =? LENDER_WRITE_BSS) with true.
  destruct (Z.ltb_spec PAGE_SIZE (i + n)); [done|]. cbn [andb].
  destruct (n =? _); [|done]. by intros [= <- <- _].
Qed.

Lemma read_spec l i n payload a p st :
  lender_spec l (LenderMsg LENDER_READ_BSS (LenderRegion i n)) payload = Reply a p st →
  a = take (Z.to_nat n) (drop (Z.to_nat i) (bss_page l)) ∧ i + n ≤ PAGE_SIZE ∧ p = bss_page l.
Proof.
  unfold lender_spec. cbn [cmd region offset size].
  change (lent_memref l LENDER_READ_BSS) with (@None handle).
  change (LENDER_READ_BSS =? LENDER_SUICIDE) with false.
  change (LENDER_READ_BSS =? LENDER_READ_BSS) with true.
  destruct (Z.ltb_spec PAGE_SIZE (i + n)); [done|]. by intros [= <- <- _].
Qed.

(** A lender that answered did what the message asks. *)
Lemma lender_answers data schan s r s' m answer j :
  Z.of_nat (length (bss_page (loc s))) = PAGE_SIZE → Z.of_nat (length data) = MAX_WRITE →
  lender_on_message data schan s = Ret r s' →
  trace s' = SSend schan answer j :: SRecv schan (Z.of_nat (length m)) m :: trace s →
  ∃ p st, lender_spec (loc s) (lender_msg_decode (take (Z.to_nat sizeof_lender_msg) m))
         (drop (Z.to_nat sizeof_lender_msg) m) = Reply answer p st ∧
    loc s' = with_page p (loc s) ∧ length p = length (bss_page (loc s)).
Proof.
  intros Hpage Hdata Hrun Ht.
  destruct (lender_on_message_spec data schan s Hpage Hdata) as (rc & m' & v & Hout).
  cbn zeta in Hout. rewrite Hrun in Hout. destruct (rc <? 0).
  { injection Hout as _ ->. apply (f_equal length) in Ht. cbn in Ht. lia. }
  destruct Hout as [_ Hact]. unfold lender_acted in Hact.
  destruct (lender_spec (loc s) _ _) as [|bs p st|h|] eqn:Es; [| | |done].
  - destruct Hact as [_ ->]. apply (f_equal length) in Ht. cbn in Ht. lia.
  - destruct Hact as (Hl & Hlen & n & Ht' & _). rewrite Ht in Ht'. cbn in Ht'. simplify_eq.
    by exists p, st.
  - destruct Hact as (_ & _ & Ht' & _). rewrite Ht' in Ht. apply (f_equal length) in Ht. cbn in Ht. lia.
Qed.

(** The test's client and the lender, each on its own kernel: if the lender
    served a write of [n] bytes at offset [i] and later, with its page
    unchanged in between, a read of the same region, and both succeeded for
    the client, then the client has read back the bytes it wrote; whatever
    the padding of the messages, the offset and size, and the content of the
    buffers on both sides. *)
Theorem lender_write_read_back pad pad' chan schan i n buf buf' data data'
    c1 c1' c2 c2' s1 s1' s2 s2' rc r1 r2 got :
  length pad = 4%nat → length pad' = 4%nat → 0 ≤ i < 2 ^ 64 → 0 ≤ n < 2 ^ 64 →
  n ≤ Z.of_nat (length buf) → Z.of_nat (length buf') = n →
  Z.of_nat (length data) = MAX_WRITE → Z.of_nat (length data') = MAX_WRITE →
  Z.of_nat (length (bss_page (loc s1))) = PAGE_SIZE → loc s2 = loc s1' →
  client_write_bss pad chan i n buf c1 = Ret rc c1' →
  lender_on_message data schan s1 = Ret r1 s1' → exchange chan schan c1 c1' s1 s1' →
  client_read_bss pad' chan i n buf' c2 = Ret (0, got) c2' →
  lender_on_message data' schan s2 = Ret r2 s2' → exchange chan schan c2 c2' s2 s2' →
  got = take (Z.to_nat n) buf.
Proof.
  intros Hpad Hpad' Hi Hn Hbuf Hbuf' Hd Hd' Hpage Hs Hcw Hsw Hx1 Hcr Hsr Hx2.
  destruct Hx1 as (m & a & k & j & wrc & l & Htc & Hts).
  pose proof (client_write_asks _ _ _ _ _ _ _ _ _ _ _ _ _ Hcw Htc) as ->.
  destruct (lender_answers _ _ _ _ _ _ _ _ Hpage Hd Hsw Hts) as (p & st & Hspec & Hl & Hlen).
  destruct (split_message pad (LenderMsg LENDER_WRITE_BSS (LenderRegion i n))
    (take (Z.to_nat n) buf) Hpad ltac:(done) Hi Hn) as [Hmsg Hpay]. rewrite Hmsg, Hpay in Hspec.
  destruct Hx2 as (m2 & a2 & k2 & j2 & wrc2 & l2 & Htc2 & Hts2).
  destruct (client_read_asks _ _ _ _ _ _ _ _ _ _ _ _ _ _ Hcr Htc2) as [-> Hgot].
  destruct (Hgot eq_refl) as [-> Hgot'].
  assert (Z.of_nat (length (bss_page (loc s2))) = PAGE_SIZE) as Hpage2
    by (rewrite Hs, Hl; cbn; by rewrite Hlen).
  destruct (lender_answers _ _ _ _ _ _ _ _ Hpage2 Hd' Hsr Hts2) as (p2 & st2 & Hspec2 & _).
  destruct (split_message pad' (LenderMsg LENDER_READ_BSS (LenderRegion i n)) []
    Hpad' ltac:(done) Hi Hn) as [Hmsg2 Hpay2]. rewrite app_nil_r in Hmsg2, Hpay2.
  rewrite Hmsg2, Hpay2 in Hspec2.
  assert (length (take (Z.to_nat n) buf) = Z.to_nat n) as Hlt by (rewrite length_take; lia).
  apply write_spec in Hspec as (-> & Hin & _). apply read_spec in Hspec2 as (-> & _ & _).
  rewrite Hs, Hl in Hgot'. cbn [bss_page with_page] in Hgot'.
  assert (take (Z.to_nat n) (drop (Z.to_nat i) (splice i (take (Z.to_nat n) buf) (bss_page (loc s1))))
    = take (Z.to_nat n) buf) as Hback by (rewrite <- Hlt at 1; apply splice_read; lia).
  rewrite Hback in Hgot'. rewrite Hgot'.
  - unfold overwrite. by rewrite drop_ge, app_nil_r by lia.
  - unfold s32, PAGE_SIZE in *. rewrite Z.mod_small; lia.
Qed.
End Together.
