(* ===== verification/MemrefDemo.v ===== *)
(** The theorems on the memref test's servers at concrete states: a lender
    asked to write four bytes, a receiver of ten pages, and a client that writes
    to the lender and reads back. *)

From S2P Require Import Prelude Ipc AppMgmt AppMgmtDemo Memref MemrefCorrect MemrefTest.

Module MemrefDemo.
#[local] Instance uapi : Uapi := Sim.uapi.
#[local] Instance kernel : Kernel script := Sim.kernel.
#[local] Instance laws : KernelLaws script := Sim.kernel_laws.

(** Memrefs are handles like others; every message carries handle 50. *)
#[local] Instance memrefs : MemrefKernel script := {|
  PROT_READ := 1; PROT_RW := 3; MAP_FAILED := -1;
  page_size_of _ := 64;
  k_memref_create _ _ s :=
    (sc_next s, Script (sc_next s + 1) (sc_peers s) (sc_sends s) (sc_msgs s) (sc_allocs s));
  k_send_handle _ _ s := (0, s);
  k_get_msg _ s := ((0, 1), s);
  k_read_handle _ s := ((0, 50), s);
  k_put_msg _ s := (0, s);
  k_mmap _ n s := ((4096, replicate (Z.to_nat n) 0), s);
  k_munmap s := (0, s)
|}.

#[local] Instance mmap_laws : MmapLaws script.
Proof.
  split; [|intros e; cbn; lia]. intros h n e out mem e' Hn [= <- <- <-] _.
  rewrite length_replicate. lia.
Qed.

Definition started (s : script) : world lender_state unit script :=
  match lender_init (World lender_globals () s []) with Ret _ w => w | Halt _ w => w end.

(** A message: a command, an offset below 256 and a size below 256. *)
Definition message (c i n : Z) (payload : bytes) : bytes :=
  [c; 0; 0; 0; 0; 0; 0; 0; i; 0; 0; 0; 0; 0; 0; 0; n; 0; 0; 0; 0; 0; 0; 0] ++ payload.

Definition with_msgs (ms : list bytes) : script := Script 100 [] [] ms [].
Definition buffer : bytes := replicate (Z.to_nat MAX_WRITE) 170.

(** A write and then a read of what was written. *)
Example write_then_read :
  match (lender_on_message buffer 7;; lender_on_message buffer 7)
      (started (with_msgs [message 5 10 4 [1; 2; 3; 4]; message 4 11 2 []])) with
  | Ret rc w' => rc = 0 ∧ trace w' =
      [SSend 7 [2; 3] 2; SRecv 7 24 (message 4 11 2 []);
       SSend 7 [] 0; SRecv 7 28 (message 5 10 4 [1; 2; 3; 4])]
  | Halt _ _ => False
  end.
Proof. by vm_compute. Qed.

(** A region whose end overflows is refused. *)
Example overflow_refused :
  match lender_on_message buffer 7 (started (with_msgs
      [[4; 0; 0; 0; 0; 0; 0; 0; 255; 255; 255; 255; 255; 255; 255; 255; 2; 0; 0; 0; 0; 0; 0; 0]])) with
  | Ret rc w' => rc = -1 ∧ length (trace w') = 1%nat
  | Halt _ _ => False
  end.
Proof. by vm_compute. Qed.

Definition w : world lender_state unit script :=
  started (with_msgs [message 5 10 4 [1; 2; 3; 4]]).

Lemma lender_on_message_correct_witness :
  lender_acted 7 (Reply [] (splice 10 [1; 2; 3; 4] (bss_page (loc w))) sent_status)
    (logged (SRecv 7 28 (message 5 10 4 [1; 2; 3; 4])) (k_recv 7 24 2072 (env w)).2 w)
    (lender_on_message buffer 7 w).
Proof.
  pose proof (lender_on_message_correct buffer 7 w 28 (message 5 10 4 [1; 2; 3; 4])
    (k_recv 7 24 2072 (env w)).2 eq_refl eq_refl eq_refl) as [_ Hact]. exact Hact.
Defined.

(** A client, on a kernel with queued answers of [wait]. *)
#[local] Instance client_kernel : Kernel AppMgmtDemo.env_t := AppMgmtDemo.kernel.
#[local] Instance client_laws : KernelLaws AppMgmtDemo.env_t := AppMgmtDemo.kernel_laws.
#[local] Instance client_ports : PortKernel AppMgmtDemo.env_t := AppMgmtDemo.ports.
Definition client (answers : list bytes) : world unit unit AppMgmtDemo.env_t :=
  AppMgmtDemo.start [(0, UEvent 9 8)] answers.
Definition after {S A} (o : outcome S A) : S := match o with Ret _ s | Halt _ s => s end.

Definition pad : bytes := [0; 0; 0; 0].
Definition c1 := client [[]].
Definition c2 := client [[1; 2; 3; 4]].
Definition s1 := started (with_msgs [message 5 10 4 [1; 2; 3; 4]; message 4 10 4 []]).
Definition c1' := after (client_write_bss pad 9 10 4 [1; 2; 3; 4] c1).
Definition s1' := after (lender_on_message buffer 7 s1).
Definition c2' := after (client_read_bss pad 9 10 4 [0; 0; 0; 0] c2).
Definition s2' := after (lender_on_message buffer 7 s1').

Lemma lender_msg_roundtrip_witness :
  lender_msg_decode (lender_msg_encode [7; 8; 9; 10] (LenderMsg LENDER_READ_BSS (LenderRegion 10 4))) =
  LenderMsg LENDER_READ_BSS (LenderRegion 10 4).
Proof. by apply lender_msg_roundtrip. Defined.

Lemma lender_write_read_back_witness :
  client_read_bss pad 9 10 4 [0; 0; 0; 0] c2 = Ret (0, [1; 2; 3; 4]) c2' ∧
  [1; 2; 3; 4] = take 4 [1; 2; 3; 4; 5].
Proof.
  split; [by vm_compute|].
  apply (lender_write_read_back pad pad 9 7 10 4 [1; 2; 3; 4; 5] [0; 0; 0; 0] buffer buffer
    c1 c1' c2 c2' s1 s1' s1' s2' 0 0 0 [1; 2; 3; 4]); try (by vm_compute).
  - exists (message 5 10 4 [1; 2; 3; 4]), [], 28, 0, 0, 0. split; by vm_compute.
  - exists (message 4 10 4 []), [1; 2; 3; 4], 24, 4, 0, 4. split; by vm_compute.
Defined.

Definition receiving : world receiver_state unit script :=
  World (ReceiverState [] []) () Sim.quiet [].

(** The receiver writes the greeting to the last page too. *)
Example receiver_greets_last_page :
  match receiver_on_message 7 receiving with
  | Ret rc w' => rc = 0 ∧ take 19 (drop (9 * 64) (unmapped (loc w'))) = greeting ∧
      trace w' = [SSend 7 [0] 1; SClose 50]
  | Halt _ _ => False
  end.
Proof. by vm_compute. Qed.

Lemma receiver_on_message_correct_witness :
  wp (receiver_on_message 7) (λ rc w',
    rc = 0 ∧ mapped (loc w') = [] ∧ unmapped (loc w') !! 64%nat = Some 72 ∧
    ∃ n, trace w' = [SSend 7 [0] n; SClose 50]) receiving.
Proof.
  eapply wp_mono; [apply receiver_on_message_correct|]. intros rc w' Hw.
  destruct (receipt_of 7 (env receiving)) as [|rc' h ps mem] eqn:E; [by vm_compute in E|].
  vm_compute in E. injection E as <- <- <- <-. destruct Hw as (-> & _ & Hm & Hu & Ht).
  split_and!; [done|exact Hm|rewrite Hu; reflexivity|exact Ht].
Defined.
End MemrefDemo.
