(* ===== verification/Services.v ===== *)
(** The main functions that hand their service to lib/tipc: swspi-srv, hwbcc,
    and the lender and the receiver of memref-test.  They differ in the checks
    between the calls. *)

From S2P Require Import Prelude Ipc Swspi Memref.

(** * 1. lib/tipc *)

(** [struct tipc_port]; [port_priv]: the object a port is about. *)
Record tipc_port := TipcPort {
  port_name : string;
  msg_max_size : Z;
  msg_queue_len : Z;
  port_flags : Z;
  port_priv : option ptr
}.

(** What is added to a handle set: [add_spi_service], [tipc_add_service] with
    its ports and number of channels, [add_hwbcc_service],
    [add_secure_dpu_service], and [add_secure_fb_service] with its number of
    operations. *)
Inductive service :=
| SpiService (ports : list tipc_port)
| TipcService (ports : list tipc_port) (max_chan_cnt : Z)
| HwbccService
| SecureDpuService
| SecureFbService (num : Z).

(** A [struct tipc_hset *] is an address; [IS_ERR] and [PTR_ERR]: lk/err_ptr.h. *)
Class TipcServices (W : Type) := {
  IS_ERR : Z → bool;
  PTR_ERR : Z → Z;
  IPC_PORT_ALLOW_NS_CONNECT : Z;
  SPI_TEST_PORT : string;
  SPI_LOOPBACK_PORT : string;
  k_hset_create : W → Z * W;
  k_add_service : service → Z → W → Z * W;
  k_run_event_loop : Z → W → Z * W
}.

(** lib/hwbcc: [swbcc_glob_init] of the secret, the two hashes and the inputs,
    component name and version of the child. *)
Class Hwbcc (W : Type) := {
  DICE_HIDDEN_SIZE : Z;
  DICE_HASH_SIZE : Z;
  BCC_INPUT_COMPONENT_NAME : Z;
  BCC_INPUT_COMPONENT_VERSION : Z;
  k_swbcc_glob_init : bytes → bytes → bytes → Z * string * Z → W → unit * W
}.

(** * 2. The programs *)

Section Mains.
Context {W : Type} `{!Uapi} `{!Kernel W} `{!TipcServices W}.

Section Calls.
Context {L : Type}.
Abbreviation C := (M (world L unit W)).
Definition hset_create : C Z := syscall k_hset_create SHsetCreate.
Definition add_service (s : service) (hset : Z) : C Z :=
  syscall (k_add_service s hset) (SAddService hset).
Definition run_event_loop (hset : Z) : C Z := syscall (k_run_event_loop hset) (SEventLoop hset).
End Calls.

(** swspi-srv.c. *)
Definition SPI_MAX_MSG_SIZE : Z := 1024.
Definition swspi_ports (with_loopback : bool) : list tipc_port :=
  TipcPort SPI_TEST_PORT SPI_MAX_MSG_SIZE 1 IPC_PORT_ALLOW_TA_CONNECT (Some test_dev) ::
  if with_loopback then
    [TipcPort SPI_LOOPBACK_PORT SPI_MAX_MSG_SIZE 1 IPC_PORT_ALLOW_TA_CONNECT (Some loopback_dev)]
  else [].

Definition swspi_main (with_loopback : bool) : M (world spi_state unit W) Z :=
  hset ← hset_create;
  if IS_ERR hset then ret (PTR_ERR hset) else
  rc ← add_service (SpiService (swspi_ports with_loopback)) hset;
  if negb (rc =? NO_ERROR) then ret rc else
  run_event_loop hset.

(** hwbcc/main.c. *)
Definition hwbcc_main `{!Hwbcc W} : M (world unit unit W) Z :=
  hset ← hset_create;
  if IS_ERR hset then ret (PTR_ERR hset) else
  let FRS := replicate (Z.to_nat DICE_HIDDEN_SIZE) 0 in
  let code_hash := replicate (Z.to_nat DICE_HASH_SIZE) 0 in
  let authority_hash := replicate (Z.to_nat DICE_HASH_SIZE) 0 in
  let config_descriptor :=
    (Z.lor BCC_INPUT_COMPONENT_NAME BCC_INPUT_COMPONENT_VERSION, "ABL"%string, 1) in
  env_call (k_swbcc_glob_init FRS code_hash authority_hash config_descriptor);;
  rc ← add_service HwbccService hset;
  if negb (rc =? NO_ERROR) then ret rc else
  run_event_loop hset.

(** memref-test/lender/lender.c. *)
Definition LENDER_PORT : string := "com.android.memref.lender".
Definition lender_port : tipc_port :=
  TipcPort LENDER_PORT (sizeof_lender_msg + MAX_WRITE) 1 IPC_PORT_ALLOW_TA_CONNECT None.

Definition lender_main `{!MemrefKernel W} : M (world lender_state unit W) Z :=
  lender_init;;
  hset ← hset_create;
  if hset =? 0 then ret (-1) else
  rc ← add_service (TipcService [lender_port] 1) hset;
  if rc <? 0 then ret rc else
  run_event_loop hset.

(** memref-test/receiver/receiver.c. *)
Definition receiver_port : tipc_port :=
  TipcPort "com.android.trusty.memref.receiver" 1 1 IPC_PORT_ALLOW_NS_CONNECT None.

Definition receiver_main : M (world receiver_state unit W) Z :=
  hset ← hset_create;
  if IS_ERR hset then ret (PTR_ERR hset) else
  rc ← add_service (TipcService [receiver_port] 1) hset;
  if rc <? 0 then ret rc else
  run_event_loop hset.
End Mains.

(** * 3. What they do *)

(** How such a program ends: [bad] are the handle sets it refuses, with what it
    returns for them, [failed] the status of a service that was not added. *)
Section Outcomes.
Context {W : Type} `{!Uapi} `{!Kernel W} `{!TipcServices W}.

Definition served {L} (bad : Z → option Z) (failed : Z → bool) (w : world L unit W)
    (rc : Z) (w' : world L unit W) : Prop :=
  loc w' = loc w ∧ ∃ hset added,
  match bad hset with
  | Some e => rc = e ∧ trace w' = SHsetCreate hset :: trace w
  | None =>
    if failed added : bool
    then rc = added ∧ trace w' = SAddService hset added :: SHsetCreate hset :: trace w
    else trace w' = SEventLoop hset rc :: SAddService hset added :: SHsetCreate hset :: trace w
  end.

Definition is_err (hset : Z) : option Z := if IS_ERR hset then Some (PTR_ERR hset) else None.
Definition is_null (hset : Z) : option Z := if hset =? 0 then Some (-1) else None.

Lemma served_tail {L} bad failed s hset (w w1 : world L unit W) :
  bad hset = None → loc w1 = loc w → trace w1 = SHsetCreate hset :: trace w →
  wp (rc ← add_service s hset; if failed rc : bool then ret rc else run_event_loop hset)
    (λ rc w', served bad failed w rc w') w1.
Proof.
  intros Hbad Hl Ht. apply wp_bind, wp_syscall. intros added v _. wp_cases Hf.
  - apply wp_ret. split; [done|]. exists hset, added. rewrite Hbad, Hf. cbn. by rewrite Ht.
  - apply wp_syscall. intros rc v' _. split; [done|]. exists hset, added. rewrite Hbad, Hf. cbn.
    by rewrite Ht.
Qed.

Lemma served_refused {L} bad failed hset e v (w : world L unit W) :
  bad hset = Some e →
  served bad failed w e (logged (SHsetCreate hset) v w).
Proof. intros Hbad. split; [done|]. exists hset, 0. by rewrite Hbad. Qed.

Lemma swspi_main_served b w :
  wp (swspi_main b) (served is_err (λ rc, negb (rc =? NO_ERROR)) w) w.
Proof.
  apply wp_bind, wp_syscall. intros hset v _. wp_cases He.
  - apply wp_ret, served_refused. unfold is_err. by rewrite He.
  - apply served_tail; [|done|done]. unfold is_err. by rewrite He.
Qed.

Lemma hwbcc_main_served `{!Hwbcc W} w :
  wp hwbcc_main (served is_err (λ rc, negb (rc =? NO_ERROR)) w) w.
Proof.
  apply wp_bind, wp_syscall. intros hset v _. wp_cases He.
  - apply wp_ret, served_refused. unfold is_err. by rewrite He.
  - apply wp_bind, wp_env_call. intros u v' _. apply served_tail; [|done|done].
    unfold is_err. by rewrite He.
Qed.

Lemma receiver_main_served w : wp receiver_main (served is_err (λ rc, rc <? 0) w) w.
Proof.
  apply wp_bind, wp_syscall. intros hset v _. wp_cases He.
  - apply wp_ret, served_refused. unfold is_err. by rewrite He.
  - apply served_tail; [|done|done]. unfold is_err. by rewrite He.
Qed.

(** The lender starts with its memrefs, and refuses only a null handle set. *)
Lemma lender_init_spec `{!MemrefKernel W} w :
  wpx lender_init (λ _ w', trace w' = trace w ∧ 0 ≤ bss_memref (loc w') ∧ 0 ≤ rw_memref (loc w') ∧
    bss_page (loc w') = bss_page (loc w) ∧ lent (loc w') = lent (loc w)) (λ h, h = Aborted) w.
Proof.
  unfold lender_init. apply wpx_bind, wpx_wp, wp_env_call. intros rc v _.
  destruct (Z.ltb_spec rc 0); [done|]. apply wpx_bind, wpx_wp, wp_mod_loc, wpx_bind, wpx_wp, wp_env_call.
  intros rc2 v2 _. apply wpx_bind, wpx_wp.
  destruct (rc2 <? 0); [apply wp_ret|apply wp_mod_loc];
    (apply wpx_bind, wpx_wp, wp_env_call; intros rc3 v3 _;
     destruct (Z.ltb_spec rc3 0); [done|]; by apply wpx_wp, wp_mod_loc).
Qed.

Lemma lender_main_served `{!MemrefKernel W} w :
  wpx lender_main (λ rc w', ∃ w1, trace w1 = trace w ∧ 0 ≤ bss_memref (loc w1) ∧
    served is_null (λ rc, rc <? 0) w1 rc w') (λ h, h = Aborted) w.
Proof.
  apply wpx_bind. eapply wpx_mono; [apply lender_init_spec|]. intros [] w1 (Ht & Hb & _). cbn beta.
  apply wpx_wp. apply wp_bind, wp_syscall. intros hset v _. wp_cases He.
  - apply wp_ret. exists w1. split_and!; [done|done|]. apply served_refused. unfold is_null. by rewrite He.
  - eapply wp_mono; [apply (served_tail is_null _ _ _ w1); [|done|done]|].
    { unfold is_null. by rewrite He. }
    intros rc w2 Hs. by exists w1.
Qed.
End Outcomes.

(** * 4. Error pointers *)

Definition gives (hset : Z) (e : sysev) : Prop :=
  match e with SAddService h _ | SEventLoop h _ => h = hset | _ => False end.
Definition given (hset : Z) (tr : list sysev) : Prop := Exists (gives hset) tr.

Section ErrorPointers.
Context {W : Type} `{!Uapi} `{!Kernel W} `{!TipcServices W}.

(** The handle sets among the calls made since [w]. *)
Definition since {L} (P : list sysev → Prop) (w w' : world L unit W) : Prop :=
  ∃ new, trace w' = new ++ trace w ∧ P new.

Lemma served_since {L} bad failed (P : list sysev → Prop) (w : world L unit W) rc w' :
  served bad failed w rc w' →
  (∀ hset e, bad hset = Some e → P [SHsetCreate hset]) →
  (∀ hset added, bad hset = None → P [SAddService hset added; SHsetCreate hset]) →
  (∀ hset added, bad hset = None →
     P [SEventLoop hset rc; SAddService hset added; SHsetCreate hset]) →
  since P w w'.
Proof.
  unfold since. intros (_ & hset & added & Hs) H1 H2 H3. destruct (bad hset) as [e|] eqn:Hb.
  - destruct Hs as [_ Ht]. rewrite Ht. exists [SHsetCreate hset]. split; [done|by eapply H1].
  - destruct (failed added).
    + destruct Hs as [_ Ht]. rewrite Ht. exists [SAddService hset added; SHsetCreate hset]. auto.
    + rewrite Hs. exists [SEventLoop hset rc; SAddService hset added; SHsetCreate hset]. auto.
Qed.

(** Every handle set that is used is one. *)
Definition checked_hsets (new : list sysev) : Prop := ∀ hset, given hset new → IS_ERR hset = false.
(** Every handle set that is not null is used. *)
Definition unchecked_hsets (new : list sysev) : Prop :=
  ∀ hset, SHsetCreate hset ∈ new → hset ≠ 0 → given hset new.

Lemma is_err_checked {L} failed (w : world L unit W) rc w' :
  served is_err failed w rc w' → since checked_hsets w w'.
Proof.
  intros Hs. assert (∀ hset, is_err hset = None → IS_ERR hset = false) as Herr
    by (intros hset; unfold is_err; by destruct (IS_ERR hset)).
  eapply served_since; [exact Hs|..]; unfold checked_hsets, given; intros hset x Hb h;
    rewrite !Exists_cons, Exists_nil; cbn; intuition (subst; auto).
Qed.

Lemma is_null_unchecked {L} failed (w : world L unit W) rc w' :
  served is_null failed w rc w' → since unchecked_hsets w w'.
Proof.
  intros Hs. eapply served_since; [exact Hs|..].
  - intros hset e Hb h Hin Hne. unfold is_null in Hb.
    apply list_elem_of_singleton in Hin. simplify_eq. by destruct (Z.eqb_spec hset 0).
  - intros hset added _ h Hin _. rewrite !elem_of_cons, elem_of_nil in Hin.
    assert (h = hset) as -> by intuition congruence. by left.
  - intros hset added _ h Hin _. rewrite !elem_of_cons, elem_of_nil in Hin.
    assert (h = hset) as -> by intuition congruence. by right; left.
Qed.

(** swspi-srv, hwbcc and the receiver never hand lib/tipc a handle set that
    is an error pointer, whatever its calls answer, and return what the call
    that failed, or else the event loop, answered ([served]).  The lender,
    which compares the handle set with the null pointer, hands every other
    answer of tipc_hset_create on, error pointers included. *)
Theorem service_mains_hsets `{!Hwbcc W} `{!MemrefKernel W} b
    (w1 : world spi_state unit W) (w2 : world unit unit W) (w3 : world receiver_state unit W)
    (w4 : world lender_state unit W) :
  wp (swspi_main b) (λ rc w', served is_err (λ rc, negb (rc =? NO_ERROR)) w1 rc w' ∧
    since checked_hsets w1 w') w1 ∧
  wp hwbcc_main (λ rc w', served is_err (λ rc, negb (rc =? NO_ERROR)) w2 rc w' ∧
    since checked_hsets w2 w') w2 ∧
  wp receiver_main (λ rc w', served is_err (λ rc, rc <? 0) w3 rc w' ∧
    since checked_hsets w3 w') w3 ∧
  wpx lender_main (λ rc w', since unchecked_hsets w4 w') (λ h, h = Aborted) w4.
Proof.
  split_and!.
  - eapply wp_mono; [apply swspi_main_served|]. intros rc w' Hs.
    split; [done|by eapply is_err_checked].
  - eapply wp_mono; [apply hwbcc_main_served|]. intros rc w' Hs.
    split; [done|by eapply is_err_checked].
  - eapply wp_mono; [apply receiver_main_served|]. intros rc w' Hs.
    split; [done|by eapply is_err_checked].
  - eapply wpx_mono; [apply lender_main_served|]. intros rc w' (w5 & Ht & _ & Hs).
    unfold since. rewrite <- Ht. by eapply is_null_unchecked.
Qed.
End ErrorPointers.
