(* ===== verification/MemrefSuite.v ===== *)
(** The tests of memref-test.c, over a kernel whose memrefs are shared pages,
    and what this kernel does, the lender of Memref.v being at the other end
    of the channels. *)

From S2P Require Import Prelude Ipc Checks AppMgmt Memref MemrefCorrect MemrefTest Services.

(** * 1. Interfaces *)

(** The memory a test looks at: its own page, or what is mapped at an address. *)
Inductive memory := OwnPage | MapAt (addr : Z).
#[export] Instance page_eq_dec : EqDecision page.
Proof. solve_decision. Defined.
#[export] Instance memory_eq_dec : EqDecision memory.
Proof. solve_decision. Defined.

(** [tipc_connect], with the handle it left, if any; [memref_create] of a page
    of the test at an offset, with a size and a protection; mmap of a memref
    and munmap; the memory. *)
Class MemrefClient (W : Type) := {
  PROT_EXEC : Z;
  k_tipc_connect : string → W → (Z * option handle) * W;
  k_memref_at : page → Z → Z → Z → W → Z * W;
  k_mmap_ref : handle → Z → W → Z * W;
  k_munmap_at : Z → Z → W → Z * W;
  k_mem_read : memory → Z → W → option Z;
  k_mem_write : memory → Z → Z → W → option W
}.

(** * 2. The tests *)

Section Suite.
Context {W : Type} `{!Uapi} `{!Kernel W} `{!PortKernel W} `{!MemrefKernel W} `{!MemrefClient W}.
(** The checks that failed, latest first. *)
Abbreviation C := (M (world (list check) unit W)).
Context (pad : bytes).

Definition expect_that (c : check) (b : bool) : C unit := if b then ret tt else mod_loc (cons c).
(** ASSERT: what follows is [k], and at test_abort [abort]. *)
Definition assert_that {A} (what : string) (b : bool) (k abort : C A) : C A :=
  if b then k else mod_loc (cons (Answer what));; abort.

(** Accesses through a pointer; there is nothing at MAP_FAILED. *)
Definition mem_read (m : memory) (i : Z) : C Z :=
  if decide (m = MapAt MAP_FAILED) then stop NullDeref else
  o ← env_call (λ v, (k_mem_read m i v, v));
  match o with Some b => ret b | None => stop OutOfBounds end.
Definition mem_write (m : memory) (i b : Z) : C unit :=
  if decide (m = MapAt MAP_FAILED) then stop NullDeref else
  ok ← env_call (λ v, match k_mem_write m i b v with Some v' => (true, v') | None => (false, v) end);
  if (ok : bool) then ret tt else stop OutOfBounds.

Definition memref_at (p : page) (offset size prot : Z) : C Z :=
  syscall (k_memref_at p offset size prot) (SMemrefCreate offset size prot).

(** [lender_connect]: the handle is what it left in [*chan]. *)
Definition lender_connect : C (Z * option handle) :=
  syscall (k_tipc_connect LENDER_PORT) (λ r, SConnect LENDER_PORT (default INVALID_IPC_HANDLE r.2)).

Definition self_map_mapped (out : Z) : C unit :=
  mem_write (MapAt out) 0 3;;
  b ← mem_read OwnPage 0;
  expect_that (Data "bss_page[0]") (b =? 3);;
  rc ← env_call (k_munmap_at out PAGE_SIZE);
  expect_that (Answer "munmap") (rc =? 0).

Definition self_map : C unit :=
  mref ← memref_at BssPage 0 PAGE_SIZE PROT_RW;
  assert_that "memref_create" (0 <? mref)
    (out ← env_call (k_mmap_ref mref PAGE_SIZE);
     assert_that "mmap" (negb (out =? MAP_FAILED)) (self_map_mapped out) (ret tt))
    (ret tt);;
  close mref;;
  mem_write OwnPage 0 0.

(** EXPECT_CLOSE. *)
Definition EXPECT_CLOSE (what : string) (e : C Z) : C unit :=
  rc ← e;
  expect_that (Answer what) (rc <? 0);;
  close rc;;
  ret tt.

Definition creation : C unit :=
  EXPECT_CLOSE "alignment" (memref_at BssPage 1 PAGE_SIZE PROT_RW);;
  EXPECT_CLOSE "size" (memref_at BssPage 0 (PAGE_SIZE - 1) PROT_RW);;
  EXPECT_CLOSE "out of bounds" (memref_at BssPage 0 (10 * PAGE_SIZE) PROT_RW);;
  EXPECT_CLOSE "exec" (memref_at BssPage 0 PAGE_SIZE (Z.lor PROT_RW PROT_EXEC));;
  EXPECT_CLOSE "prot" (memref_at BssPage 0 PAGE_SIZE 0xF000);;
  EXPECT_CLOSE "read-only page" (memref_at RoPage 0 PAGE_SIZE PROT_RW);;
  mref ← memref_at BssPage 0 PAGE_SIZE PROT_READ;
  expect_that (Answer "memref_create") (0 <? mref);;
  close mref;;
  ret tt.

Definition recv_ref_mapped (chan : handle) (out : Z) : C unit :=
  mem_write (MapAt out) 0 1;;
  r ← client_read_bss pad chan 0 1 [0];
  let '(rc, remote_buf) := r in
  expect_that (Answer "lender_read_bss") (0 =? rc);;
  b ← fetch remote_buf 0;
  expect_that (Data "remote_buf[0]") (1 =? b);;
  rc ← client_write_bss pad chan 1 1 [42];
  expect_that (Answer "lender_write_bss") (0 =? rc);;
  b ← mem_read (MapAt out) 0;
  expect_that (Data "out[0]") (b =? 1);;
  b ← mem_read (MapAt out) 1;
  expect_that (Data "out[1]") (b =? 42);;
  mem_write (MapAt out) 0 0;;
  mem_write (MapAt out) 1 0;;
  rc ← env_call (k_munmap_at out PAGE_SIZE);
  expect_that (Answer "munmap") (0 =? rc).

(** With a channel: [remote_memref] at test_abort. *)
Definition recv_ref_connected (chan : handle) : C handle :=
  r ← client_lend_bss pad chan;
  let '(rc, o) := r in
  let remote_memref := default INVALID_IPC_HANDLE o in
  assert_that "lender_lend_bss" (rc =? 0)
    (out ← env_call (k_mmap_ref remote_memref PAGE_SIZE);
     assert_that "mmap" (negb (out =? 0)) (recv_ref_mapped chan out) (ret tt))
    (ret tt);;
  ret remote_memref.

Definition recv_ref : C unit :=
  r ← lender_connect;
  let '(rc, o) := r in
  let chan := default INVALID_IPC_HANDLE o in
  remote_memref ← assert_that "lender_connect" (rc =? 0) (recv_ref_connected chan)
                    (ret INVALID_IPC_HANDLE);
  close remote_memref;;
  close chan;;
  ret tt.

Definition leak_creation_iters : Z := 1000.

(** [chan] and [memref] at test_abort. *)
Fixpoint leak_loop (n : nat) (chan memref : handle) : C (handle * handle) :=
  match n with
  | O => ret (chan, memref)
  | S n =>
    r ← lender_connect;
    let '(rc, o) := r in
    let chan := default chan o in
    assert_that "lender_connect" (0 =? rc)
      (r ← client_lend_bss pad chan;
       let '(rc, o) := r in
       let memref := default memref o in
       assert_that "lender_lend_bss" (0 =? rc)
         (close memref;;
          rc ← client_suicide pad chan;
          assert_that "lender_suicide" (0 =? rc)
            (close chan;; leak_loop n chan memref)
            (ret (chan, memref)))
         (ret (chan, memref)))
      (ret (chan, memref))
  end.

Definition leak_creation : C unit :=
  r ← leak_loop (Z.to_nat leak_creation_iters) INVALID_IPC_HANDLE INVALID_IPC_HANDLE;
  let '(chan, memref) := r in
  close memref;;
  close chan;;
  ret tt.

Definition memref_tests : list (C unit) := [self_map; creation; recv_ref; leak_creation].
End Suite.

(** * 3. The kernel and the lender at the other end *)

(** What waits in a channel for the test: a message, or a handle, by its value
    in the lender. *)
Inductive answer := Bytes (bs : bytes) | Ref (h : handle).

(** The channels to the lender with what waits in them, the memrefs and the
    mappings of the test with the page they are of, the page of the lender. *)
Record view := View {
  sessions : gmap handle (list answer);
  refs : gmap handle positive;
  maps : gmap Z positive;
  lender_frame : positive
}.

Definition with_session (chan : handle) (q : list answer) (s : view) : view :=
  View (<[chan := q]> (sessions s)) (refs s) (maps s) (lender_frame s).
Definition with_ref (h : handle) (f : positive) (s : view) : view :=
  View (sessions s) (<[h := f]> (refs s)) (maps s) (lender_frame s).
Definition with_map (a : Z) (f : positive) (s : view) : view :=
  View (sessions s) (refs s) (<[a := f]> (maps s)) (lender_frame s).

Class LenderView (W : Type) := {
  view_of : W → view;
  content : W → positive → bytes;
  lender : W → lender_state;
  own_frame : positive
}.

(** What the lender sent and lent on [schan] from [s] to [s']. *)
Definition answers_since {Ws} (schan : handle) (s s' : world lender_state unit Ws) : list answer :=
  omap (λ e, match e with
             | SSend h bs _ => if h =? schan then Some (Bytes bs) else None
             | _ => None
             end) (rev (take (length (trace s') - length (trace s)) (trace s'))) ++
  omap (λ e, if e.1 =? schan then Some (Ref e.2) else None)
    (rev (take (length (lent (loc s')) - length (lent (loc s))) (lent (loc s')))).

(** The lender runs its handler on [m], and its answers, if they can be sent,
    join the queue [q] of the channel. *)
Definition lender_serves {W Ws} `{!Uapi} `{!LenderView W} `{!Kernel Ws} `{!MemrefKernel Ws}
    (chan : handle) (m : bytes) (q : list answer) (v v' : W) : Prop :=
  ∃ data schan (s : world lender_state unit Ws) u,
    Z.of_nat (length data) = MAX_WRITE ∧ loc s = lender v ∧
    k_recv schan sizeof_lender_msg (sizeof_lender_msg + MAX_WRITE) (env s) =
      ((Z.of_nat (length m), m), u) ∧
    match lender_on_message data schan s with
    | Ret _ s' => lender v' = loc s' ∧ lender_frame (view_of v') = lender_frame (view_of v) ∧
        ∃ ans, ans `prefix_of` answers_since schan s s' ∧
               sessions (view_of v') !! chan = Some (q ++ ans)
    | Halt _ _ => True
    end.

(** A call that moves nothing. *)
Definition idle_call {W} `{!LenderView W} (v v' : W) : Prop :=
  view_of v' = view_of v ∧ content v' = content v ∧ lender v' = lender v.

(** The page an access reaches. *)
Definition reaches {W} `{!LenderView W} (v : W) (m : memory) : option positive :=
  match m with OwnPage => Some own_frame | MapAt a => maps (view_of v) !! a end.

Class MemrefPeer (W Ws : Type) `{!Uapi} `{!Kernel W} `{!PortKernel W} `{!MemrefKernel W}
    `{!MemrefClient W} `{!LenderView W} `{!Kernel Ws} `{!MemrefKernel Ws} : Prop := {
  (** A frame is a page; that of the lender is its array, while it runs. *)
  content_length (v : W) f : Z.of_nat (length (content v f)) = PAGE_SIZE;
  content_shared (v : W) chan q :
    sessions (view_of v) !! chan = Some q → content v (lender_frame (view_of v)) = bss_page (lender v);
  (** Memory is what was written last, through any mapping of the page. *)
  mem_read_ok m i (v : W) f :
    reaches v m = Some f → k_mem_read m i v = content v f !! Z.to_nat i;
  mem_write_ok m i b (v : W) f :
    reaches v m = Some f → 0 ≤ i < PAGE_SIZE → ∃ v', k_mem_write m i b v = Some v' ∧
      view_of v' = view_of v ∧ content v' f = <[Z.to_nat i := b]> (content v f);
  (** Own memrefs, and mapping. *)
  memref_at_ok rc (v v' : W) :
    k_memref_at BssPage 0 PAGE_SIZE (PROT_RW (W:=W)) v = (rc, v') → 0 < rc →
    refs (view_of v') !! rc = Some own_frame;
  mmap_ref_ok h f out (v v' : W) :
    k_mmap_ref h PAGE_SIZE v = (out, v') → out ≠ MAP_FAILED (W:=W) → refs (view_of v) !! h = Some f →
    view_of v' = with_map out f (view_of v) ∧ content v' = content v ∧ lender v' = lender v;
  (** The channels to the lender. *)
  connect_ok o rc (v v' : W) :
    k_tipc_connect LENDER_PORT v = ((rc, o), v') → rc = 0 →
    ∃ chan, o = Some chan ∧ sessions (view_of v') !! chan = Some [];
  wait_idle chan t r (v v' : W) : k_wait chan t v = (r, v') → idle_call v v';
  get_msg_idle chan r (v v' : W) : k_get_msg chan v = (r, v') → idle_call v v';
  put_msg_idle chan r (v v' : W) : k_put_msg chan v = (r, v') → idle_call v v';
  send_maps chan m rc (v v' : W) :
    k_send chan m v = (rc, v') → maps (view_of v') = maps (view_of v);
  send_serves chan m rc q (v v' : W) :
    k_send chan m v = (rc, v') → rc = Z.of_nat (length m) → Forall is_byte m →
    sizeof_lender_msg ≤ rc ≤ sizeof_lender_msg + MAX_WRITE →
    sessions (view_of v) !! chan = Some q → lender_serves (Ws:=Ws) chan m q v v';
  recv_maps chan lo hi r (v v' : W) :
    k_recv chan lo hi v = (r, v') → maps (view_of v') = maps (view_of v);
  recv_answer chan lo hi rc bs q (v v' : W) :
    k_recv chan lo hi v = ((rc, bs), v') → 0 ≤ rc → sessions (view_of v) !! chan = Some q →
    ∃ q', q = Bytes bs :: q' ∧ rc = Z.of_nat (length bs) ∧
      view_of v' = with_session chan q' (view_of v) ∧ content v' = content v ∧ lender v' = lender v;
  (** A handle that is received is a memref of the page its sender's is of. *)
  read_handle_ref chan rc h q (v v' : W) :
    k_read_handle chan v = ((rc, h), v') → 0 ≤ rc → sessions (view_of v) !! chan = Some q →
    ∃ sh q', q = Ref sh :: q' ∧ content v' = content v ∧ lender v' = lender v ∧
      (sh = bss_memref (lender v) →
       view_of v' = with_ref h (lender_frame (view_of v)) (with_session chan q' (view_of v)))
}.
