(* ===== verification/MemrefSuiteCorrect.v ===== *)
(** What the tests of memref-test.c establish.  Served by the lender of
    Memref.v over shared pages, whatever a test finds wrong, the first thing is
    an answer to a call and never a byte read; and they leave no handle open. *)

From S2P Require Import Prelude Ipc Checks AppMgmt Memref MemrefCorrect MemrefTest Services MemrefSuite.

(** * 1. What a request has the lender do *)

Lemma le_bytes_are_bytes n z : Forall is_byte (le_bytes n z).
Proof.
  revert z. induction n as [|n IH]; intros z; cbn; [done|]. constructor; [|by apply IH].
  by apply Z.mod_pos_bound.
Qed.

Lemma encode_are_bytes pad msg : Forall is_byte pad → Forall is_byte (lender_msg_encode pad msg).
Proof.
  intros Hpad. unfold lender_msg_encode. repeat apply Forall_app_2; done || apply le_bytes_are_bytes.
Qed.

Lemma take_new {A} (l l' : list A) : take (length (l ++ l') - length l') (l ++ l') = l.
Proof. rewrite length_app, Nat.add_sub. apply take_app_length. Qed.

Lemma answers_since_new {Ws} schan (s s' : world lender_state unit Ws) evs ls :
  trace s' = evs ++ trace s → lent (loc s') = ls ++ lent (loc s) →
  answers_since schan s s' =
    omap (λ e, match e with
               | SSend h bs _ => if h =? schan then Some (Bytes bs) else None
               | _ => None
               end) (rev evs) ++
    omap (λ e, if e.1 =? schan then Some (Ref e.2) else None) (rev ls).
Proof. intros Ht Hl. unfold answers_since. by rewrite Ht, Hl, !take_new. Qed.

(** What an action puts in the channel, and the page it leaves. *)
Definition answer_of (act : lender_action) : list answer :=
  match act with Reply a _ _ => [Bytes a] | Lend h => [Ref h] | _ => [] end.
Definition page_after (act : lender_action) (p : bytes) : bytes :=
  match act with Reply _ p' _ => p' | _ => p end.

(** The requests of the client. *)
Section Requests.
Context `{!Uapi} (l : lender_state).

Lemma spec_read i n : i + n ≤ PAGE_SIZE →
  lender_spec l (LenderMsg LENDER_READ_BSS (LenderRegion i n)) [] =
    Reply (take (Z.to_nat n) (drop (Z.to_nat i) (bss_page l))) (bss_page l) (whole_status n).
Proof. intros Hin. unfold lender_spec. cbn -[Z.add Z.ltb PAGE_SIZE]. by destruct (Z.ltb_spec PAGE_SIZE (i + n)); [lia|]. Qed.

Lemma spec_write i bs : i + Z.of_nat (length bs) ≤ PAGE_SIZE →
  lender_spec l (LenderMsg LENDER_WRITE_BSS (LenderRegion i (Z.of_nat (length bs)))) bs =
    Reply [] (splice i bs (bss_page l)) sent_status.
Proof.
  intros Hin. unfold lender_spec. cbn -[Z.add Z.ltb PAGE_SIZE].
  destruct (Z.ltb_spec PAGE_SIZE (i + Z.of_nat (length bs))); [lia|]. by rewrite Z.eqb_refl.
Qed.

Lemma spec_lend :
  lender_spec l (LenderMsg LENDER_LEND_BSS (LenderRegion 0 0)) [] =
    if bss_memref l =? INVALID_IPC_HANDLE then Refuse else Lend (bss_memref l).
Proof. done. Qed.
End Requests.

Section Peer.
Context {W Ws : Type} `{!Uapi} `{!Kernel W} `{!PortKernel W} `{!MemrefKernel W} `{!MemrefClient W}
  `{!LenderView W} `{!Kernel Ws} `{!KernelLaws Ws} `{!MemrefKernel Ws} `{!MemrefPeer W Ws}.
Implicit Types (v : W) (w : world (list check) unit W).

(** Frames have the length of the page. *)
Lemma insert_frame v f i b : 0 ≤ i < PAGE_SIZE →
  <[Z.to_nat i := b]> (content v f) !! Z.to_nat i = Some b.
Proof. intros Hi. apply list_lookup_insert_eq. pose proof (content_length v f). lia. Qed.

Lemma serves_spec chan pad msg payload q v v' :
  length pad = 4%nat → 0 ≤ cmd msg < 2 ^ 32 →
  0 ≤ offset (region msg) < 2 ^ 64 → 0 ≤ size (region msg) < 2 ^ 64 →
  Z.of_nat (length (bss_page (lender v))) = PAGE_SIZE →
  lender_serves (Ws:=Ws) chan (lender_msg_encode pad msg ++ payload) q v v' →
  let act := lender_spec (lender v) msg payload in act ≠ Die →
  lender_frame (view_of v') = lender_frame (view_of v) ∧
  bss_memref (lender v') = bss_memref (lender v) ∧
  bss_page (lender v') = page_after act (bss_page (lender v)) ∧
  ∃ ans, ans `prefix_of` answer_of act ∧ sessions (view_of v') !! chan = Some (q ++ ans).
Proof.
  intros Hpad Hc Ho Hn Hpage (data & schan & s & u & Hdata & Hs & Hrecv & Hrun) act Hdie.
  rewrite <- Hs in Hpage.
  pose proof (lender_on_message_run data schan s _ _ _ Hpage Hdata Hrecv) as Hact. cbn zeta in Hact.
  rewrite (proj2 (Z.ltb_ge _ _)) in Hact by lia. destruct Hact as [_ Hact].
  destruct (split_message pad msg payload Hpad Hc Ho Hn) as [E1 E2]. rewrite E1, E2, Hs in Hact.
  fold act in Hact. destruct act as [|a p|h|]; [| | |done];
    (destruct (lender_on_message data schan s) as [r s'|h' s'] eqn:E; [|by destruct Hact]);
    destruct Hrun as (-> & Hf & ans & Hans & Hq).
  - destruct Hact as [_ ->]. cbn [loc logged]. rewrite Hs. split_and!; [done..|]. exists ans.
    split; [|done]. by rewrite (answers_since_new _ _ _ [SRecv schan (Z.of_nat (length (lender_msg_encode pad msg ++ payload))) (lender_msg_encode pad msg ++ payload)] []) in Hans.
  - destruct Hact as (Hl & _ & j & Ht & _). rewrite Hl. cbn [loc logged]. rewrite Hs.
    split_and!; [done..|]. exists ans. split; [|done].
    rewrite (answers_since_new _ _ _ [SSend schan a j; SRecv schan _ _] [] Ht) in Hans
      by (by rewrite Hl). cbn in Hans. by rewrite Z.eqb_refl in Hans.
  - destruct Hact as (_ & Hl & Ht & _). rewrite Hl. cbn [loc logged]. rewrite Hs.
    split_and!; [done..|]. exists ans. split; [|done].
    rewrite (answers_since_new _ _ _ [SRecv schan _ _] [(schan, h)] Ht) in Hans
      by (by rewrite Hl). cbn in Hans. by rewrite Z.eqb_refl in Hans.
Qed.

(** * 2. The client's calls *)

(** An idle channel to the lender, whose page is [f] and holds [p]. *)
Definition shares (chan : handle) (f : positive) (p : bytes) v : Prop :=
  sessions (view_of v) !! chan = Some [] ∧ lender_frame (view_of v) = f ∧ content v f = p.

Lemma shares_page chan f p v : shares chan f p v →
  bss_page (lender v) = p ∧ Z.of_nat (length p) = PAGE_SIZE.
Proof.
  intros (Hq & <- & <-). split; [symmetry; by eapply content_shared|]. apply content_length.
Qed.

Lemma shares_idle chan f p v v' : idle_call v v' → shares chan f p v → shares chan f p v'.
Proof. intros (Ev & Ec & _). unfold shares. by rewrite Ev, Ec. Qed.

Context (pad : bytes) (Hpad : length pad = 4%nat) (Hpadb : Forall is_byte pad).

(** After a request that was sent. *)
Lemma send_request chan msg payload f p v v' rc :
  0 ≤ cmd msg < 2 ^ 32 → 0 ≤ offset (region msg) < 2 ^ 64 → 0 ≤ size (region msg) < 2 ^ 64 →
  Forall is_byte payload → Z.of_nat (length payload) ≤ MAX_WRITE → shares chan f p v →
  k_send chan (lender_msg_encode pad msg ++ payload) v = (rc, v') →
  rc = sizeof_lender_msg + Z.of_nat (length payload) →
  let act := lender_spec (lender v) msg payload in act ≠ Die →
  lender_frame (view_of v') = f ∧ content v' f = page_after act p ∧
  bss_page (lender v') = page_after act p ∧ bss_memref (lender v') = bss_memref (lender v) ∧
  ∃ ans, ans `prefix_of` answer_of act ∧ sessions (view_of v') !! chan = Some ans.
Proof.
  intros Hc Ho Hn Hb Hl Hsh E -> act Hdie. destruct (shares_page _ _ _ _ Hsh) as [Hp Hpl].
  destruct Hsh as (Hq & Hf & Hcf).
  assert (Z.of_nat (length (lender_msg_encode pad msg ++ payload)) =
          sizeof_lender_msg + Z.of_nat (length payload)) as Hlen.
  { rewrite length_app, length_lender_msg_encode by done. unfold sizeof_lender_msg. lia. }
  apply (send_serves (Ws:=Ws) _ _ _ [] _ _) in E; [|done| |lia|done].
  2:{ apply Forall_app_2; [by apply encode_are_bytes|done]. }
  apply serves_spec in E as (Hf' & Hm & Hp' & ans & Hans & Hq'); try done; [|by rewrite Hp].
  rewrite Hp in Hp'. rewrite Hf in Hf'. fold act in Hp', Hans. split_and!; [done| |done|done|by exists ans].
  rewrite <- Hf', <- Hp'. by eapply content_shared.
Qed.

(** Waiting for the one answer of a request. *)
Lemma recv_shared chan lo hi a ans f p v v1 v2 r rc bs :
  k_wait chan INFINITE_TIME v = (r, v1) → k_recv chan lo hi v1 = ((rc, bs), v2) → 0 ≤ rc →
  lender_frame (view_of v) = f → content v f = p →
  ans `prefix_of` [Bytes a] → sessions (view_of v) !! chan = Some ans →
  bs = a ∧ rc = Z.of_nat (length bs) ∧ shares chan f p v2.
Proof.
  intros (Ev & Ec & _)%wait_idle E Hrc Hf Hc Hans Hq. rewrite <- Ev in Hq.
  destruct (recv_answer _ _ _ _ _ _ _ _ E Hrc Hq) as (q' & -> & Hbs & Ev2 & Ec2 & _).
  apply prefix_cons_inv_1 in Hans as Ha. apply prefix_cons_inv_2, prefix_nil_inv in Hans as ->.
  injection Ha as ->. split_and!; [done..|]. unfold shares. rewrite Ev2, Ec2, Ec, Ev.
  cbn [sessions lender_frame with_session]. by rewrite lookup_insert_eq.
Qed.

Lemma wait_recv_maps chan lo hi v v1 v2 r r2 :
  k_wait chan INFINITE_TIME v = (r, v1) → k_recv chan lo hi v1 = (r2, v2) →
  maps (view_of v2) = maps (view_of v).
Proof. intros (Ev & _)%wait_idle E. by rewrite (recv_maps _ _ _ _ _ _ E), Ev. Qed.

Lemma read_shared chan i n buf f p w :
  0 ≤ i → 0 ≤ n → i + n ≤ PAGE_SIZE → Z.of_nat (length buf) = n →
  wp (client_read_bss pad chan i n buf) (λ r w', loc w' = loc w ∧
    maps (view_of (env w')) = maps (view_of (env w)) ∧ (length buf ≤ length r.2)%nat ∧
    (shares chan f p (env w) → r.1 = 0 →
     r.2 = take (Z.to_nat n) (drop (Z.to_nat i) p) ∧ shares chan f p (env w'))) w.
Proof.
  intros Hi Hn Hin Hbuf. unfold client_read_bss. apply wp_bind. ipc_call rc v1 E1.
  pose proof (send_maps _ _ _ _ _ E1) as Hm1. world_simpl.
  wp_cases H1; [apply wp_ret; cbn [fst snd loc env]; split_and!; try done; lia|].
  apply wp_bind. ipc_call r v2 E2. destruct r as [rc2 u]. world_simpl. cbn [env] in *.
  wp_cases H2; [apply wp_ret; cbn [fst snd loc env]|].
  { destruct (wait_idle _ _ _ _ _ E2) as (-> & _). split_and!; try done; lia. }
  apply wp_bind. ipc_call r v3 E3. destruct r as [rc3 bs]. world_simpl. cbn [env] in *.
  pose proof (wait_recv_maps _ _ _ _ _ _ _ _ E2 E3) as Hm.
  assert (length buf ≤ length (if (rc3 <? 0)%Z then buf else overwrite bs buf))%nat as Hlen.
  { destruct (rc3 <? 0)%Z; [done|]. unfold overwrite. rewrite length_app, length_drop. lia. }
  wp_cases H3; apply wp_ret; cbn [fst snd loc env]; (split_and!; [done|by rewrite Hm|done|]); [done|].
  intros Hsh _. destruct (shares_page _ _ _ _ Hsh) as [Hp _].
  pose proof (spec_read (lender (env w)) i n Hin) as Hact. rewrite Hp in Hact.
  rewrite <- (app_nil_r (lender_msg_encode _ _)) in E1.
  destruct (send_request chan (LenderMsg LENDER_READ_BSS (LenderRegion i n)) [] f p (env w) v1 rc)
    as (Hf & Hc & _ & _ & ans & Hans & Hq); try done; try (by cbn; unfold PAGE_SIZE in *; lia);
    [by rewrite Hact|].
  rewrite Hact in Hans, Hc. unfold s32 in H3. rewrite Z.mod_small in H3 by (unfold PAGE_SIZE in *; lia).
  destruct (recv_shared _ _ _ _ _ _ _ _ _ _ _ _ _ E2 E3 ltac:(lia) Hf Hc Hans Hq) as (Ha & Hl & Hsh').
  split; [|done]. rewrite <- Ha, (proj2 (Z.ltb_ge _ _)) by lia. unfold overwrite.
  by rewrite drop_ge, app_nil_r by lia.
Qed.

Lemma write_shared chan i bs f p w :
  0 ≤ i → i + Z.of_nat (length bs) ≤ PAGE_SIZE → Z.of_nat (length bs) ≤ MAX_WRITE → Forall is_byte bs →
  wp (client_write_bss pad chan i (Z.of_nat (length bs)) bs) (λ rc w', loc w' = loc w ∧
    maps (view_of (env w')) = maps (view_of (env w)) ∧
    (shares chan f p (env w) → rc = 0 → shares chan f (splice i bs p) (env w'))) w.
Proof.
  intros Hi Hin Hmax Hb. unfold client_write_bss. rewrite Nat2Z.id, firstn_all.
  apply wp_bind. ipc_call rc v1 E1.
  pose proof (send_maps _ _ _ _ _ E1) as Hm1. world_simpl.
  unfold s32. rewrite u64_small, Z.mod_small by (unfold PAGE_SIZE, sizeof_lender_msg in *; lia).
  wp_cases H1; [apply wp_ret; cbn [fst snd loc env]; split_and!; done|].
  apply wp_bind. ipc_call r v2 E2. destruct r as [rc2 u]. world_simpl. cbn [env] in *.
  wp_cases H2; [apply wp_ret; cbn [fst snd loc env]|].
  { destruct (wait_idle _ _ _ _ _ E2) as (-> & _). split_and!; try done. intros _ ->. done. }
  apply wp_bind. ipc_call r v3 E3. destruct r as [rc3 got]. world_simpl. cbn [env] in *.
  apply wp_ret. cbn [fst snd loc env]. pose proof (wait_recv_maps _ _ _ _ _ _ _ _ E2 E3) as Hm.
  split_and!; [done|by rewrite Hm|]. intros Hsh ->. destruct (shares_page _ _ _ _ Hsh) as [Hp _].
  pose proof (spec_write (lender (env w)) i bs Hin) as Hact. rewrite Hp in Hact.
  destruct (send_request chan (LenderMsg LENDER_WRITE_BSS (LenderRegion i (Z.of_nat (length bs)))) bs
    f p (env w) v1 rc) as (Hf & Hc & _ & _ & ans & Hans & Hq); try done;
    try (by cbn; unfold PAGE_SIZE in *; lia); [by rewrite Hact|].
  rewrite Hact in Hans, Hc.
  by destruct (recv_shared _ _ _ _ _ _ _ _ _ _ _ _ _ E2 E3 ltac:(lia) Hf Hc Hans Hq) as (_ & _ & ?).
Qed.

Lemma lend_shared chan f p w :
  wp (client_lend_bss pad chan) (λ r w', loc w' = loc w ∧
    (shares chan f p (env w) → r.1 = 0 → ∃ h, r.2 = Some h ∧ shares chan f p (env w') ∧
     refs (view_of (env w')) !! h = Some f)) w.
Proof.
  unfold client_lend_bss, client_command, client_recv_handle. apply wp_bind, wp_bind.
  ipc_call rc v1 E1. world_simpl. wp_cases H1; apply wp_ret; [by apply wp_ret|].
  change (negb (0 =? 0)) with false. cbn iota. apply wp_bind. ipc_call r v2 E2.
  destruct r as [rc2 u]. world_simpl. cbn [env] in *. wp_cases H2; [apply wp_ret; split; [done|cbn; lia]|].
  apply wp_bind, wp_env_call. intros r v3 E3. destruct r as [rc3 num]. cbn [env loc dev trace] in *.
  wp_cases H3; [apply wp_ret; split; [done|cbn; lia]|].
  apply wp_bind. ipc_call r v4 E4. destruct r as [rc4 h]. world_simpl. cbn [env] in *.
  apply wp_bind, wp_env_call. intros rc5 v5 E5. apply wp_ret. cbn [fst snd env loc] in *.
  split; [done|]. intros Hsh ->. exists h. cbn. split; [done|].
  destruct (shares_page _ _ _ _ Hsh) as [Hp _]. pose proof (spec_lend (lender (env w))) as Hact.
  rewrite <- (app_nil_r (lender_msg_encode _ _)) in E1.
  destruct (send_request chan (LenderMsg LENDER_LEND_BSS (LenderRegion 0 0)) [] f p (env w) v1 rc)
    as (Hf & Hc & _ & Hm & ans & Hans & Hq); try done; [cbn; lia|by rewrite Hact; case_match|].
  rewrite Hact in Hans, Hc. destruct (wait_idle _ _ _ _ _ E2) as (Ev2 & Ec2 & El2).
  destruct (get_msg_idle _ _ _ _ E3) as (Ev3 & Ec3 & El3).
  destruct (put_msg_idle _ _ _ _ E5) as (Ev5 & Ec5 & El5).
  assert (sessions (view_of v3) !! chan = Some ans) as Hq3 by (by rewrite Ev3, Ev2).
  destruct (read_handle_ref _ _ _ _ _ _ E4 ltac:(lia) Hq3) as (sh & q' & -> & Ec4 & El4 & Href).
  destruct (_ =? INVALID_IPC_HANDLE); [by apply prefix_nil_inv in Hans|].
  apply prefix_cons_inv_1 in Hans as Ha. apply prefix_cons_inv_2, prefix_nil_inv in Hans as ->.
  injection Ha as ->. unfold shares. rewrite Ev5, Ec5, Ec4, Ec3, Ec2, Href by (by rewrite El3, El2).
  rewrite Ev3, Ev2. cbn. by rewrite !lookup_insert_eq, Hf.
Qed.

(** * 3. The tests blame no byte *)

(** Steps that may read at MAP_FAILED. *)
Lemma wpx_then {S A B} (m : M S A) (k : A → M S B) P Q E s :
  wp m P s → (∀ a s', P a s' → wpx (k a) Q E s') → wpx (bind m k) Q E s.
Proof. unfold wp, wpx, bind. destruct (m s); [intros HP HQ; exact (HQ _ _ HP)|done]. Qed.

Lemma wp_expect_that c b (Q : unit → world (list check) unit W → Prop) w :
  (b = true → Q tt w) → (b = false → Q tt (set_loc (c :: loc w) w)) → wp (expect_that c b) Q w.
Proof. unfold expect_that. by destruct b; intros; [apply wp_ret|apply wp_mod_loc]; auto. Qed.

Lemma wpx_assert {A} what b (k abort : M (world (list check) unit W) A) Q E w :
  (b = true → wpx k Q E w) → (b = false → wpx abort Q E (set_loc (Answer what :: loc w) w)) →
  wpx (assert_that what b k abort) Q E w.
Proof. unfold assert_that. destruct b; auto. Qed.

Lemma wpx_read m i f (Q : Z → world (list check) unit W → Prop) (E : halt → Prop) w :
  E NullDeref ∨ m ≠ MapAt (MAP_FAILED (W:=W)) → reaches (env w) m = Some f → 0 ≤ i < PAGE_SIZE →
  (∀ b, content (env w) f !! Z.to_nat i = Some b → Q b w) → wpx (mem_read m i) Q E w.
Proof.
  intros He Hf Hi HQ. unfold mem_read. destruct (decide (m = MapAt (MAP_FAILED (W:=W)))) as [->|_].
  { destruct He as [He|He]; [exact He|by destruct He]. }
  unfold wpx, bind, env_call. rewrite (mem_read_ok _ _ _ _ Hf).
  destruct (lookup_lt_is_Some_2 (content (env w) f) (Z.to_nat i)) as [b Eb].
  { pose proof (content_length (env w) f). lia. }
  rewrite Eb. destruct w. by apply HQ.
Qed.

Lemma wpx_write m i b f (Q : unit → world (list check) unit W → Prop) (E : halt → Prop) w :
  E NullDeref ∨ m ≠ MapAt (MAP_FAILED (W:=W)) → reaches (env w) m = Some f → 0 ≤ i < PAGE_SIZE →
  (∀ w', loc w' = loc w → view_of (env w') = view_of (env w) →
     content (env w') f = <[Z.to_nat i := b]> (content (env w) f) → Q tt w') →
  wpx (mem_write m i b) Q E w.
Proof.
  intros He Hf Hi HQ. unfold mem_write. destruct (decide (m = MapAt (MAP_FAILED (W:=W)))) as [->|_].
  { destruct He as [He|He]; [exact He|by destruct He]. }
  destruct (mem_write_ok m i b _ _ Hf Hi) as (v' & Ew & Ev & Ec).
  unfold wpx, bind, env_call. rewrite Ew. by apply HQ.
Qed.

(** What a test leaves. *)
Definition blamed (old : list check) w : Prop := blames old (loc w).

Lemma wp_answer old what b w :
  blamed old w → wp (expect_that (Answer what) b) (λ _ w', blamed old w' ∧ env w' = env w) w.
Proof.
  intros Hb. apply wp_expect_that; intros _; [done|]. split; [|done]. by apply blames_answer.
Qed.

(** While no check failed, the channel and the mapping are of one page. *)
Definition sharing (old : list check) (chan : handle) (out : Z) (f : positive) (p : bytes) w : Prop :=
  maps (view_of (env w)) !! out = Some f ∧ blamed old w ∧
  (loc w = old → shares chan f p (env w)).

Section Sharing.
Context (old : list check) (chan : handle) (out : Z) (f : positive).
Implicit Types (p : bytes).

Lemma sharing_write p i b (E : halt → Prop) w :
  E NullDeref → 0 ≤ i < PAGE_SIZE → sharing old chan out f p w →
  wpx (mem_write (MapAt out) i b) (λ _ w', sharing old chan out f (<[Z.to_nat i := b]> p) w') E w.
Proof.
  intros He Hi (Hm & Hb & Hs). apply (wpx_write _ _ _ f); [by left|done..|].
  intros w' El Ev Ec. unfold sharing, blamed, shares in *. rewrite El, Ev, Ec. split_and!; [done..|].
  intros Ho. destruct (Hs Ho) as (Hq & Hf & <-). done.
Qed.

Lemma sharing_read p i (E : halt → Prop) w :
  E NullDeref → 0 ≤ i < PAGE_SIZE → sharing old chan out f p w →
  wpx (mem_read (MapAt out) i)
    (λ b w', sharing old chan out f p w' ∧ (loc w' = old → p !! Z.to_nat i = Some b)) E w.
Proof.
  intros He Hi (Hm & Hb & Hs). apply (wpx_read _ _ f); [by left|done..|].
  intros b Eb. split; [by split|]. intros Ho. destruct (Hs Ho) as (_ & _ & <-). done.
Qed.

(** A check of an answer, on which the channel depends, and one of data. *)
Lemma sharing_answer p what b w :
  maps (view_of (env w)) !! out = Some f → blamed old w →
  (loc w = old → b = true → shares chan f p (env w)) →
  wp (expect_that (Answer what) b)
    (λ _ w', sharing old chan out f p w' ∧ (loc w' = old → b = true ∧ loc w = old)) w.
Proof.
  intros Hm Hb Hs. apply wp_expect_that; intros Eb.
  - split; [|done]. split_and!; auto.
  - assert (Answer what :: loc w ≠ old) by by apply blames_grows.
    split; [|done]. by split_and!; [|apply blames_answer|].
Qed.

Lemma sharing_data p what b w :
  sharing old chan out f p w → (loc w = old → b = true) →
  wp (expect_that (Data what) b) (λ _ w', sharing old chan out f p w') w.
Proof.
  intros (Hm & Hb & Hs) Ht. apply wp_expect_that; intros Eb; [done|].
  assert (loc w ≠ old) as Hne by (intros Ho; by rewrite Ht in Eb).
  split_and!; [done|by apply blames_more|]. intros Ho.
  by destruct (blames_grows _ _ (Data what) Hb).
Qed.
End Sharing.

(** The tests one by one. *)
Lemma wp_memref_at old p i n r w :
  blamed old w → wp (memref_at p i n r) (λ _ w', blamed old w') w.
Proof. intros Hb. by apply wp_syscall. Qed.

Lemma refused_blames old what p i n r w :
  blamed old w → wp (EXPECT_CLOSE what (memref_at p i n r)) (λ _ w', blamed old w') w.
Proof.
  intros Hb. unfold EXPECT_CLOSE. apply wp_bind. eapply wp_mono; [by apply (wp_memref_at old)|].
  intros rc w1 Hb1. apply wp_bind. eapply wp_mono; [by apply (wp_answer old)|]. intros [] w2 [Hb2 _].
  by apply wp_bind, wp_close.
Qed.

Lemma creation_blames old w : blamed old w → wp creation (λ _ w', blamed old w') w.
Proof.
  intros Hb. unfold creation. do 6 (apply wp_bind; eapply wp_mono; [by apply (refused_blames old)|];
    clear Hb w; intros [] w Hb).
  apply wp_bind. eapply wp_mono; [by apply (wp_memref_at old)|]. intros rc w1 Hb1.
  apply wp_bind. eapply wp_mono; [by apply (wp_answer old)|]. intros [] w2 [Hb2 _].
  by apply wp_bind, wp_close.
Qed.

(** The page is there whatever fails. *)
Lemma self_mapped_blames old out (E : halt → Prop) w :
  out ≠ MAP_FAILED (W:=W) → maps (view_of (env w)) !! out = Some own_frame → blamed old w →
  wpx (self_map_mapped out) (λ _ w', blamed old w') E w.
Proof.
  intros Hne Hout Hb. unfold self_map_mapped. apply wpx_bind.
  apply (wpx_write _ _ _ own_frame); [right; congruence|done..|]. intros w1 E1 Ev1 Ec1.
  apply wpx_bind, (wpx_read _ _ own_frame); [by right|done..|]. intros b Eb.
  rewrite Ec1, insert_frame in Eb by done. injection Eb as <-.
  apply wpx_bind, wpx_wp, wp_ret, wpx_wp, wp_bind, wp_env_call. intros rc v _.
  eapply wp_mono; [apply (wp_answer old)|by intros [] w' [? _]]. unfold blamed in *. cbn. by rewrite E1.
Qed.

Lemma self_map_blames old w : blamed old w →
  wpx self_map (λ _ w', blamed old w') (λ _, False) w.
Proof.
  intros Hb. unfold self_map. apply (wpx_then _ _ (λ rc w1, blamed old w1 ∧
    (0 < rc → refs (view_of (env w1)) !! rc = Some own_frame))).
  { apply wp_syscall. intros rc v E. split; [done|]. intros Hrc. exact (memref_at_ok _ _ _ E Hrc). }
  intros mref w1 [Hb1 Href]. apply wpx_bind. eapply (wpx_mono _ (λ _ w', blamed old w')).
  - apply wpx_assert; intros Hm; [|by apply blames_answer].
    apply (wpx_then _ _ (λ out w2, blamed old w2 ∧
      (out ≠ MAP_FAILED (W:=W) → maps (view_of (env w2)) !! out = Some own_frame))).
    { apply wp_env_call. intros out v E. split; [done|]. intros Hne.
      destruct (mmap_ref_ok _ _ _ _ _ E Hne (Href ltac:(lia))) as (Ev & _). cbn. rewrite Ev.
      apply lookup_insert_eq. }
    intros out w2 [Hb2 Hout]. apply wpx_assert; intros Hne; [|by apply blames_answer].
    assert (out ≠ MAP_FAILED (W:=W)) by lia. apply self_mapped_blames; auto.
  - intros [] w2 Hb2. apply wpx_bind, wpx_wp, wp_close. intros rc v.
    apply (wpx_write _ _ _ own_frame); [by right|done..|]. intros w3 E3 _ _.
    unfold blamed. rewrite E3. exact Hb2.
Qed.

(** The bytes of the exchange. *)
Lemma exchanged_bytes (p : bytes) : Z.of_nat (length p) = PAGE_SIZE →
  let p1 := <[Z.to_nat 0 := 1]> p in let p2 := splice 1 [42] p1 in
  p1 !! 0%nat = Some 1 ∧ p2 !! Z.to_nat 0 = Some 1 ∧ p2 !! Z.to_nat 1 = Some 42.
Proof.
  intros Hp p1 p2. unfold PAGE_SIZE in Hp. assert (length p1 = length p) as Hl by apply length_insert.
  assert (p1 !! 0%nat = Some 1) as H1 by (apply list_lookup_insert_eq; lia).
  unfold p2. rewrite !lookup_splice by (cbn [length]; lia). by split_and!.
Qed.

Lemma first_byte (buf p : bytes) b b' :
  buf !! 0%nat = Some b → p !! 0%nat = Some b' → buf = take (Z.to_nat 1) (drop (Z.to_nat 0) p) → b = b'.
Proof.
  change (Z.to_nat 1) with 1%nat. change (Z.to_nat 0) with 0%nat. rewrite drop_0.
  intros Hb Hp ->. rewrite lookup_take_lt in Hb by lia. congruence.
Qed.

Lemma mapped_blames old chan out f p w :
  Z.of_nat (length p) = PAGE_SIZE → sharing old chan out f p w →
  wpx (recv_ref_mapped pad chan out) (λ _ w', blamed old w') (eq NullDeref) w.
Proof.
  intros Hp Hs. destruct (exchanged_bytes p Hp) as (H1 & H2 & H3). unfold recv_ref_mapped.
  apply wpx_bind. eapply wpx_mono; [by apply sharing_write|]. clear w Hs. intros [] w (Hm & Hb & Hs).
  set (p1 := <[_ := 1]> p) in *. set (p2 := splice 1 [42] p1) in *.
  eapply wpx_then; [by apply (read_shared chan 0 1 [0] f p1)|].
  intros [rc buf] w1 (El & Em & Hbuf & Hr). cbn [fst snd length] in Hr, Hbuf.
  eapply wpx_then; [apply (sharing_answer old chan out f p1)|].
  { by rewrite Em. } { unfold blamed. by rewrite El. }
  { rewrite El. intros Ho Hrc. apply Hr; [by apply Hs|lia]. }
  intros [] w2 [Hs2 Hrc]. destruct (lookup_lt_is_Some_2 buf 0) as [b0 Eb0]; [lia|].
  eapply wpx_then; [by apply (wp_fetch _ _ b0 (λ b w', b = b0 ∧ w' = w2))|]. intros ? ? [-> ->].
  eapply wpx_then; [apply (sharing_data old chan out f p1); [done|]|].
  { intros Ho. destruct (Hrc Ho) as [Hrc0 Ho1]. rewrite El in Ho1.
    destruct Hr as [Hr _]; [by apply Hs|lia|]. rewrite (first_byte _ _ _ _ Eb0 H1 Hr). done. }
  clear dependent w w1. intros [] w (Hm & Hb & Hs).
  eapply wpx_then; [apply (write_shared chan 1 [42] f p1); [done..|by repeat constructor]|].
  intros rc' w1 (El & Em & Hw). eapply wpx_then; [apply (sharing_answer old chan out f p2)|].
  { by rewrite Em. } { unfold blamed. by rewrite El. }
  { rewrite El. intros Ho Hrc'. apply Hw; [by apply Hs|lia]. }
  clear dependent w. intros [] w [Hs _].
  do 2 (apply wpx_bind; eapply wpx_mono; [by apply (sharing_read old chan out f p2)|];
    clear dependent w; intros ? w [Hs Hbyte];
    eapply wpx_then; [apply (sharing_data old chan out f p2); [done|]|];
    [intros Ho; specialize (Hbyte Ho); simplify_eq; lia|clear dependent w; intros [] w Hs]).
  do 2 (apply wpx_bind; eapply wpx_mono; [by apply sharing_write|]; clear dependent w; intros [] w Hs).
  apply wpx_wp, wp_bind, wp_env_call. intros rc3 v _.
  eapply wp_mono; [apply (wp_answer old); apply Hs|by intros [] w' [? _]].
Qed.

(** mmap's answer is compared with NULL: at MAP_FAILED the first access halts. *)
Lemma recv_ref_maps old chan h f p w :
  blamed old w → shares chan f p (env w) → refs (view_of (env w)) !! h = Some f →
  wpx (out ← env_call (k_mmap_ref h PAGE_SIZE);
       assert_that "mmap" (negb (out =? 0)) (recv_ref_mapped pad chan out) (ret tt))
    (λ _ w', blamed old w') (eq NullDeref) w.
Proof.
  intros Hb Hs Href. eapply (wpx_then _ _ (λ out w1, blamed old w1 ∧
    (out ≠ MAP_FAILED (W:=W) → sharing old chan out f p w1))).
  { apply wp_env_call. intros out v E. split; [done|]. intros Hne.
    destruct (mmap_ref_ok _ _ _ _ _ E Hne Href) as (Ev & Ec & _). split_and!; [|done|].
    - cbn. rewrite Ev. apply lookup_insert_eq.
    - intros _. unfold shares in *. cbn. by rewrite Ev, Ec. }
  intros out w1 [Hb1 Hm]. apply wpx_assert; intros _; [|by apply blames_answer].
  destruct (decide (out = MAP_FAILED (W:=W))) as [->|Hne].
  - unfold recv_ref_mapped. apply wpx_bind. unfold mem_write. by rewrite decide_True.
  - destruct (shares_page _ _ _ _ Hs) as [_ Hp]. by apply (mapped_blames _ _ _ f p); [|apply Hm].
Qed.

Lemma wp_connect old w : blamed old w →
  wp lender_connect (λ r w', blamed old w' ∧
    (r.1 = 0 → ∃ chan, r.2 = Some chan ∧ sessions (view_of (env w')) !! chan = Some [])) w.
Proof.
  intros Hb. apply wp_syscall. intros [rc o] v E. split; [done|]. intros Hrc.
  by eapply connect_ok.
Qed.

Lemma wp_lend_bss old chan w : blamed old w →
  wp (client_lend_bss pad chan) (λ _ w', blamed old w') w.
Proof.
  intros Hb. eapply wp_mono; [apply (lend_shared chan own_frame [])|]. intros r w' [El _].
  unfold blamed. by rewrite El.
Qed.

Lemma recv_ref_blames old w :
  blamed old w → wpx (recv_ref pad) (λ _ w', blamed old w') (eq NullDeref) w.
Proof.
  intros Hb. unfold recv_ref. eapply wpx_then; [by apply wp_connect|]. intros [rc o] w1 [Hb1 Hc].
  apply wpx_bind. eapply (wpx_mono _ (λ _ w', blamed old w')).
  - apply wpx_assert; intros Hrc; [|by apply blames_answer].
    destruct Hc as (chan & Eo & Hq); [cbn; lia|]. cbn in Eo. subst o. unfold recv_ref_connected.
    set (f := lender_frame (view_of (env w1))). set (p := content (env w1) f).
    eapply wpx_then; [apply (lend_shared chan f p)|]. intros [rc' o] w2 [El Hl]. cbn [fst snd] in Hl.
    assert (blamed old w2) as Hb2 by (unfold blamed; by rewrite El).
    apply wpx_bind. eapply (wpx_mono _ (λ _ w', blamed old w')); [|done].
    apply wpx_assert; intros Hrc'; [|by apply blames_answer].
    destruct Hl as (h & -> & Hs & Href); [done|lia|]. by eapply recv_ref_maps.
  - intros h w2 Hb2. by apply wpx_wp, wp_bind, wp_close; intros; apply wp_bind, wp_close.
Qed.

Lemma leak_loop_blames old n : ∀ chan memref w,
  blamed old w → wp (leak_loop pad n chan memref) (λ _ w', blamed old w') w.
Proof.
  assert (∀ A (k abort : M (world (list check) unit W) A) what b Q w,
    blamed old w → (∀ w, blamed old w → wp k Q w) → (∀ w, blamed old w → wp abort Q w) →
    wp (assert_that what b k abort) Q w) as Ha.
  { intros A k abort what b Q w Hb Hk Habort. unfold assert_that. destruct b; [by apply Hk|].
    apply wp_bind, wp_mod_loc, Habort. by apply blames_answer. }
  induction n as [|n IH]; intros chan memref w Hb; [done|]. cbn [leak_loop].
  apply wp_bind. eapply wp_mono; [by apply wp_connect|]. intros [rc o] w1 [Hb1 _].
  apply Ha; [done| |done]. clear dependent w w1. intros w Hb.
  apply wp_bind. eapply wp_mono; [by apply (wp_lend_bss old)|]. intros [rc' o'] w1 Hb1.
  apply Ha; [done| |done]. clear dependent w w1. intros w Hb.
  apply wp_bind, wp_close. intros _ v. apply wp_bind.
  eapply (wp_mono _ (λ _ w', blamed old w')).
  { unfold client_suicide, client_command. apply wp_bind, wp_bind, wp_send. intros k v' _.
    wp_cases H1; apply wp_ret; wp_cases H2; try (by apply wp_ret); apply wp_bind, wp_close;
      intros; by apply wp_ret. }
  intros rc'' w1 Hb1. apply Ha; [done| |done]. intros w2 Hb2. apply wp_bind, wp_close. intros _ v2.
  by apply IH.
Qed.

Lemma leak_creation_blames old w :
  blamed old w → wp (leak_creation pad) (λ _ w', blamed old w') w.
Proof.
  intros Hb. unfold leak_creation. apply wp_bind. eapply wp_mono; [by apply (leak_loop_blames old)|].
  intros [chan memref] w1 Hb1. by apply wp_bind, wp_close; intros; apply wp_bind, wp_close.
Qed.
End Peer.

(** * 4. The tests leave no handle open *)

(** The handles a trace obtained and did not close since. *)
Fixpoint still_open (tr : list sysev) : gset handle :=
  match tr with
  | [] => ∅
  | SClose h :: tr => still_open tr ∖ {[h]}
  | e :: tr => list_to_set (opened [e]) ∪ still_open tr
  end.

Section Handles.
Context {W : Type} `{!Uapi} `{!Kernel W} `{!PortKernel W} `{!MemrefKernel W} `{!MemrefClient W}.
Abbreviation C := (M (world (list check) unit W)).
Context (pad : bytes) (base : gset handle).

(** Beyond those of [base], at most the handles in [hs] are open. *)
Definition within (hs : list handle) (w : world (list check) unit W) : Prop :=
  still_open (trace w) ⊆ base ∪ list_to_set hs.

(** [m] keeps within [hs], and then within what its answer accounts for. *)
Definition opens {A} (hs : list handle) (m : C A) (hs' : A → list handle) : Prop :=
  ∀ w, within hs w → wpx m (λ a w', within (hs' a) w') (λ _, True) w.

Lemma within_incl hs hs' w : hs ⊆ hs' → within hs w → within hs' w.
Proof. unfold within. intros Hi Hw h Hh%Hw. set_solver. Qed.

Lemma opens_bind {A B} hs (m : C A) (k : A → C B) hs1 hs2 :
  opens hs m hs1 → (∀ a, opens (hs1 a) (k a) hs2) → opens hs (bind m k) hs2.
Proof.
  intros Hm Hk w Hw. apply wpx_bind. eapply wpx_mono; [by apply Hm|]. intros a w'. apply Hk.
Qed.

Lemma opens_from {A} hs hs0 (m : C A) hs' : hs ⊆ hs0 → opens hs0 m hs' → opens hs m hs'.
Proof. intros Hi Hm w Hw. by apply Hm, (within_incl hs). Qed.

Lemma opens_ret {A} hs (a : A) : opens hs (ret a) (λ _, hs).
Proof. by intros w Hw. Qed.

(** A value that accounts for what is open. *)
Lemma opens_answer {A} hs (a : A) hs' : hs ⊆ hs' a → opens hs (ret a) hs'.
Proof. intros Ha w Hw. by eapply within_incl. Qed.

Lemma opens_stop {A} hs h : opens hs (stop (A:=A) h) (λ _, hs).
Proof. done. Qed.

Lemma opens_if {A} hs (b : bool) (m1 m2 : C A) hs' :
  opens hs m1 hs' → opens hs m2 hs' → opens hs (if b then m1 else m2) hs'.
Proof. by destruct b. Qed.

(** A call: its event opens what its answer accounts for. *)
Lemma opens_syscall {A} hs (f : W → A * W) ev (hs' : A → list handle) :
  (∀ a, match ev a with SClose _ => False | _ => True end) →
  (∀ a, opened [ev a] ++ hs ⊆ hs' a) → opens hs (syscall f ev) hs'.
Proof.
  intros Hev Hin w Hw. apply wpx_wp, wp_syscall. intros a v _. unfold within. cbn [trace logged].
  specialize (Hin a). assert (still_open (ev a :: trace w) = list_to_set (opened [ev a]) ∪ still_open (trace w))
    as -> by (specialize (Hev a); by destruct (ev a)).
  intros h [Hh%elem_of_list_to_set|Hh%Hw]%elem_of_union; [|revert Hh]; set_solver.
Qed.

Lemma opens_close hs h : opens (h :: hs) (close h) (λ _, hs).
Proof.
  intros w Hw. apply wpx_wp, wp_close. intros _ v. unfold within in *. cbn [trace logged still_open].
  set_solver.
Qed.

Lemma opens_env_call {A} hs (f : W → A * W) : opens hs (env_call f) (λ _, hs).
Proof. intros w Hw. by apply wpx_wp, wp_env_call. Qed.

Lemma opens_mod_loc hs f : opens hs (mod_loc f) (λ _, hs).
Proof. by intros w Hw. Qed.

Lemma opens_expect hs c b : opens hs (expect_that c b) (λ _, hs).
Proof. apply opens_if; [apply opens_ret|apply opens_mod_loc]. Qed.

Lemma opens_assert {A} hs what b (k abort : C A) hs' :
  opens hs k hs' → opens hs abort hs' → opens hs (assert_that what b k abort) hs'.
Proof. intros Hk Ha. apply opens_if; [done|]. eapply opens_bind; [apply opens_mod_loc|done]. Qed.

Lemma opens_fetch hs (l : bytes) i : opens hs (fetch l i) (λ _, hs).
Proof.
  unfold fetch. case_match; [|apply opens_stop]. apply opens_if; [apply opens_ret|apply opens_stop].
Qed.

Lemma opens_read hs m i : opens hs (mem_read m i) (λ _, hs).
Proof.
  unfold mem_read. case_decide; [apply opens_stop|]. eapply opens_bind; [apply opens_env_call|].
  intros [b|]; [apply opens_ret|apply opens_stop].
Qed.

Lemma opens_write hs m i b : opens hs (mem_write m i b) (λ _, hs).
Proof.
  unfold mem_write. case_decide; [apply opens_stop|]. eapply opens_bind; [apply opens_env_call|].
  intros ok. apply opens_if; [apply opens_ret|apply opens_stop].
Qed.

Lemma opens_send hs chan m : opens hs (tipc_send chan m) (λ _, hs).
Proof. by apply opens_syscall. Qed.
Lemma opens_recv hs chan lo hi : opens hs (tipc_recv chan lo hi) (λ _, hs).
Proof. by apply opens_syscall. Qed.
Lemma opens_wait hs chan t : opens hs (wait chan t) (λ _, hs).
Proof. by apply opens_syscall. Qed.

(** A handle in a local variable, and one that may have been left there. *)
Definition held (o : option handle) : list handle := option_list o.

Lemma held_default d o hs : held o ++ hs ⊆ default d o :: hs.
Proof. destruct o; cbn; [done|]. intros x Hx. by right. Qed.

Lemma opens_memref_at hs p i n r : opens hs (memref_at p i n r) (λ rc, rc :: hs).
Proof.
  apply opens_syscall; [done|]. intros rc. cbn. destruct (0 <=? rc); [done|]. intros x Hx. by right.
Qed.

Lemma opens_connect hs : opens hs lender_connect (λ r, held r.2 ++ hs).
Proof.
  apply opens_syscall; [done|]. intros [rc [h|]]; cbn [opened omap list_omap held option_list fst snd from_option default].
  - cbn. destruct (0 <=? h); [done|]. intros x Hx. by right.
  - cbn. pose proof invalid_handle_neg. by rewrite (proj2 (Z.leb_gt _ _)).
Qed.

(** Closing a handle that is not accounted for. *)
Lemma opens_close_any hs h : opens hs (close h) (λ _, hs).
Proof. eapply opens_from; [|apply opens_close]. intros x Hx. by right. Qed.
End Handles.

Create HintDb opens discriminated.
#[export] Hint Resolve opens_ret opens_stop opens_env_call opens_expect opens_fetch opens_read
  opens_write opens_send opens_recv opens_wait opens_memref_at opens_connect : opens.

(** A call whose answer accounts for nothing, and the branches of a test. *)
Ltac opens_step :=
  lazymatch goal with
  | |- opens _ _ (bind _ _) _ => eapply opens_bind; [solve [eauto with opens]|intros ?]
  | |- opens _ _ (if _ then _ else _) _ => apply opens_if
  | |- opens _ _ (assert_that _ _ _ _) _ => apply opens_assert
  | |- opens _ _ (match ?x with _ => _ end) _ => destruct x
  | |- opens _ _ _ _ => solve [eauto with opens]
  end.
Ltac opens_steps := cbn beta zeta; repeat (opens_step; cbn beta zeta).

Section Tests.
Context {W : Type} `{!Uapi} `{!Kernel W} `{!PortKernel W} `{!MemrefKernel W} `{!MemrefClient W}.
Context (pad : bytes) (base : gset handle).

Lemma opens_command hs chan c : opens (W:=W) base hs (client_command pad chan c) (λ _, hs).
Proof. unfold client_command. opens_steps. Qed.

Lemma opens_client_read hs chan i n buf :
  opens (W:=W) base hs (client_read_bss pad chan i n buf) (λ _, hs).
Proof. unfold client_read_bss. opens_steps. Qed.

Lemma opens_client_write hs chan i n buf :
  opens (W:=W) base hs (client_write_bss pad chan i n buf) (λ _, hs).
Proof. unfold client_write_bss. opens_steps. Qed.

Lemma opens_suicide hs chan : opens (W:=W) base hs (client_suicide pad chan) (λ _, hs).
Proof.
  unfold client_suicide. eapply opens_bind; [apply opens_command|]. intros rc. apply opens_if; [apply opens_ret|].
  eapply opens_bind; [apply opens_close_any|]. intros ?. apply opens_ret.
Qed.

(** The memref that was read, if the status is no error. *)
Lemma opens_lend hs chan :
  opens (W:=W) base hs (client_lend_bss pad chan) (λ r, held r.2 ++ hs).
Proof.
  unfold client_lend_bss, client_recv_handle. eapply opens_bind; [apply opens_command|]. intros rc.
  apply opens_if; [by apply opens_answer|]. eapply opens_bind; [apply opens_wait|]. intros [rc1 u].
  apply opens_if; [by apply opens_answer|]. eapply opens_bind; [apply opens_env_call|]. intros [rc2 num].
  apply opens_if; [by apply opens_answer|].
  eapply (opens_bind _ _ _ _ (λ r, held (if r.1 <? 0 then None else Some r.2) ++ hs)).
  { apply opens_syscall; [done|]. intros [rc3 h]. cbn. destruct (Z.ltb_spec rc3 0).
    - by rewrite (proj2 (Z.leb_gt _ _)).
    - rewrite (proj2 (Z.leb_le _ _)) by done. cbn. destruct (0 <=? h); [done|]. intros x Hx. by right. }
  intros [rc3 h]. eapply opens_bind; [apply opens_env_call|]. intros ?. by apply opens_answer.
Qed.
End Tests.
#[export] Hint Resolve opens_command opens_client_read opens_client_write opens_suicide
  opens_lend : opens.

Section Suite.
Context {W : Type} `{!Uapi} `{!Kernel W} `{!PortKernel W} `{!MemrefKernel W} `{!MemrefClient W}.
Context (pad : bytes) (base : gset handle).

Lemma opens_self_map : opens (W:=W) base [] self_map (λ _, []).
Proof.
  unfold self_map, self_map_mapped. eapply opens_bind; [apply opens_memref_at|]. intros mref.
  eapply (opens_bind _ _ _ _ (λ _, [mref])); [opens_steps|]. intros ?.
  eapply opens_bind; [apply opens_close|]. intros ?. apply opens_write.
Qed.

Lemma opens_refused what p i n r :
  opens (W:=W) base [] (EXPECT_CLOSE what (memref_at p i n r)) (λ _, []).
Proof.
  unfold EXPECT_CLOSE. eapply opens_bind; [apply opens_memref_at|]. intros rc.
  eapply opens_bind; [apply opens_expect|]. intros ?. eapply opens_bind; [apply opens_close|].
  intros ?. apply opens_ret.
Qed.

Lemma opens_creation : opens (W:=W) base [] creation (λ _, []).
Proof.
  unfold creation. do 6 (eapply opens_bind; [apply opens_refused|intros ?]).
  eapply opens_bind; [apply opens_memref_at|]. intros rc.
  eapply opens_bind; [apply opens_expect|]. intros ?. eapply opens_bind; [apply opens_close|].
  intros ?. apply opens_ret.
Qed.

Lemma opens_mapped hs chan out :
  opens (W:=W) base hs (recv_ref_mapped pad chan out) (λ _, hs).
Proof. unfold recv_ref_mapped. opens_steps. Qed.

(** Both variables of a test are closed at its end. *)
Lemma opens_closing h h' : opens (W:=W) base [h; h'] (close h;; close h';; ret tt) (λ _, []).
Proof.
  eapply opens_bind; [apply opens_close|]. intros ?. eapply opens_bind; [apply opens_close|].
  intros ?. apply opens_ret.
Qed.

Lemma opens_recv_ref : opens (W:=W) base [] (recv_ref pad) (λ _, []).
Proof.
  unfold recv_ref. eapply opens_bind; [apply opens_connect|]. intros [rc o].
  eapply opens_bind; [|intros h; apply opens_closing].
  set (chan := default _ o). eapply opens_from; [apply (held_default INVALID_IPC_HANDLE o [])|].
  fold chan. apply opens_assert.
  - unfold recv_ref_connected. eapply opens_bind; [apply opens_lend|]. intros [rc' o'].
    eapply (opens_bind _ _ _ _ (λ _, held o' ++ [chan])).
    + apply opens_assert; [|apply opens_ret]. eapply opens_bind; [apply opens_env_call|]. intros out.
      apply opens_assert; [apply opens_mapped|apply opens_ret].
    + intros ?. eapply opens_from; [apply (held_default INVALID_IPC_HANDLE o' [chan])|].
      by apply opens_answer.
  - apply opens_answer. intros x Hx. by right.
Qed.

Lemma opens_leak_loop n : ∀ chan memref,
  opens (W:=W) base [] (leak_loop pad n chan memref) (λ r, [r.2; r.1]).
Proof.
  induction n as [|n IH]; intros chan memref; [apply opens_answer, list_subseteq_nil|]. cbn [leak_loop].
  eapply opens_bind; [apply opens_connect|]. intros [rc o].
  eapply opens_from; [apply (held_default chan o [])|]. set (chan' := default chan o).
  apply opens_assert; [|by apply opens_answer; intros x Hx; right].
  eapply opens_bind; [apply opens_lend|]. intros [rc' o'].
  eapply opens_from; [apply (held_default memref o' [chan'])|]. set (memref' := default memref o').
  apply opens_assert; [|by apply opens_answer].
  eapply opens_bind; [apply opens_close|]. intros ?.
  eapply opens_bind; [apply opens_suicide|]. intros rc''.
  apply opens_assert; [|by apply opens_answer; intros x Hx; right].
  eapply opens_bind; [apply opens_close|]. intros ?. apply IH.
Qed.

Lemma opens_leak_creation : opens (W:=W) base [] (leak_creation pad) (λ _, []).
Proof.
  unfold leak_creation. eapply opens_bind; [apply opens_leak_loop|]. intros [chan memref].
  apply opens_closing.
Qed.

Lemma memref_tests_open test : test ∈ memref_tests pad → opens (W:=W) base [] test (λ _, []).
Proof.
  revert test. apply Forall_forall. unfold memref_tests. repeat apply Forall_cons_2; [..|by apply Forall_nil_2];
    auto using opens_self_map, opens_creation, opens_recv_ref, opens_leak_creation.
Qed.
End Suite.

(** * 5. Both *)

Section Theorems.
Context {W Ws : Type} `{!Uapi} `{!Kernel W} `{!PortKernel W} `{!MemrefKernel W} `{!MemrefClient W}
  `{!LenderView W} `{!Kernel Ws} `{!KernelLaws Ws} `{!MemrefKernel Ws} `{!MemrefPeer W Ws}.

Lemma wpx_weaken {S A} (m : M S A) Q (E E' : halt → Prop) s :
  wpx m Q E s → (∀ h, E h → E' h) → wpx m Q E' s.
Proof. unfold wpx. destruct (m s); auto. Qed.

Lemma wpx_conj {S A} (m : M S A) P Q (E E' : halt → Prop) s :
  wpx m P E s → wpx m Q E' s → wpx m (λ a s', P a s' ∧ Q a s') E s.
Proof. unfold wpx. by destruct (m s). Qed.

(** The tests, each with how it may halt. *)
Lemma tests_blame pad test (w : world (list check) unit W) :
  length pad = 4%nat → Forall is_byte pad → test ∈ memref_tests pad →
  wpx test (λ _ w', blamed (loc w) w') (λ h, h = NullDeref ∧ test = recv_ref pad) w.
Proof.
  intros Hpad Hpadb. revert test. assert (blamed (loc w) w) as Hb by by left.
  apply Forall_forall. unfold memref_tests. repeat apply Forall_cons_2; [..|by apply Forall_nil_2].
  - eapply wpx_weaken; [by apply (self_map_blames (Ws:=Ws) pad)|done].
  - by apply wpx_wp, creation_blames.
  - eapply wpx_weaken; [by apply (recv_ref_blames (Ws:=Ws))|]. by intros h <-.
  - by apply wpx_wp, (leak_creation_blames (Ws:=Ws)).
Qed.

(** C22. Each test of memref-test, with the lender serving it from its own
    handlers over shared pages: the first check that fails, if any, is of the
    answer of a call, never of a byte read back (of the test's page through its
    own mapping, of the lender's page through the lender's answers, through the
    mapping after the lender wrote, and after the test did); no access is out
    of bounds; and every handle the test obtained is closed, whatever failed.
    Only recv_ref may halt, on its access at MAP_FAILED: it compares the answer
    of mmap with NULL. *)
Theorem memref_tests_blame pad test (w : world (list check) unit W) :
  length pad = 4%nat → Forall is_byte pad → test ∈ memref_tests pad →
  wpx test
    (λ _ w', blames (loc w) (loc w') ∧ still_open (trace w') ⊆ still_open (trace w))
    (λ h, h = NullDeref ∧ test = recv_ref pad) w.
Proof.
  intros Hpad Hpadb Ht.
  eapply wpx_mono; [eapply wpx_conj; [by apply tests_blame|]|].
  - apply (memref_tests_open pad (still_open (trace w)) test Ht). unfold within. set_solver.
  - intros [] w' [Hb Hw]. split; [done|]. unfold within in Hw. set_solver.
Qed.
End Theorems.
