(* ===== verification/MemrefSuiteDemo.v ===== *)
(** The tests of memref-test.c on a system that satisfies the laws: pages,
    memrefs and mappings in maps, and the lender's handler run on each message. *)

From S2P Require Import Prelude Ipc Checks AppMgmt Memref MemrefCorrect MemrefTest MemrefDemo.
From S2P Require Import Services MemrefSuite MemrefSuiteCorrect.

Module MemrefSuiteDemo.
#[local] Instance uapi : Uapi := Sim.uapi.
#[local] Instance lender_kernel : Kernel script := Sim.kernel.
#[local] Instance lender_laws : KernelLaws script := Sim.kernel_laws.
#[local] Instance lender_memrefs : MemrefKernel script := MemrefDemo.memrefs.

Record sys := Sys {
  s_view : view;
  s_lender : lender_state;
  s_frames : gmap positive bytes;
  s_next : Z
}.

Definition as_page (p : bytes) : bytes := resize (Z.to_nat PAGE_SIZE) 0 p.
Definition the_lender (v : sys) : lender_state :=
  with_page (as_page (bss_page (s_lender v))) (s_lender v).
Definition the_content (v : sys) (f : positive) : bytes :=
  if decide (f = lender_frame (s_view v)) then bss_page (the_lender v)
  else as_page (default [] (s_frames v !! f)).

#[local] Instance lender_view : LenderView sys := {|
  view_of := s_view; content := the_content; lender := the_lender; own_frame := 1%positive
|}.

Definition with_view (s : view) (v : sys) : sys := Sys s (s_lender v) (s_frames v) (s_next v).
Definition next (v : sys) : sys := Sys (s_view v) (s_lender v) (s_frames v) (s_next v + 1).

(** A lender that starts; its page is a new one. *)
Definition fresh_lender : lender_state := loc (MemrefDemo.started Sim.quiet).
Definition restarted (v : sys) : sys :=
  Sys (View ∅ (refs (s_view v)) (maps (s_view v)) (Pos.succ (lender_frame (s_view v)))) fresh_lender
    (<[lender_frame (s_view v) := bss_page (the_lender v)]> (s_frames v)) (s_next v).

Definition incoming (m : bytes) (v : sys) : world lender_state unit script :=
  World (the_lender v) () (MemrefDemo.with_msgs [m]) [].

Definition deliver (chan : handle) (m : bytes) (q : list answer) (v : sys) : sys :=
  match lender_on_message MemrefDemo.buffer 7 (incoming m v) with
  | Ret _ s' => Sys (with_session chan (q ++ answers_since 7 (incoming m v) s') (s_view v)) (loc s')
                  (s_frames v) (s_next v)
  | Halt _ _ => restarted v
  end.

Definition forget (h : handle) (s : view) : view :=
  View (delete h (sessions s)) (delete h (refs s)) (maps s) (lender_frame s).

#[local] Instance kernel : Kernel sys := {|
  k_port_create _ _ _ _ v := (-1, v);
  k_accept _ v := ((-1, ""%string), v);
  k_set_cookie _ v := (0, v);
  k_close h v := (0, with_view (forget h (s_view v)) v);
  k_send chan m v :=
    match sessions (s_view v) !! chan with
    | Some q => (Z.of_nat (length m), deliver chan m q v)
    | None => (-1, v)
    end;
  k_recv chan lo hi v :=
    match sessions (s_view v) !! chan with
    | Some (Bytes bs :: q) =>
        if (lo <=? Z.of_nat (length bs)) && (Z.of_nat (length bs) <=? hi)
        then ((Z.of_nat (length bs), bs), with_view (with_session chan q (s_view v)) v)
        else ((-19, []), v)
    | _ => ((-4, []), v)
    end;
  k_alloc v := (true, v)
|}.

#[local] Instance ports : PortKernel sys := {|
  IPC_CONNECT_WAIT_FOR_PORT := 1; INFINITE_TIME := 2 ^ 32 - 1;
  k_connect _ _ v := (-1, v);
  k_wait h _ v := ((0, UEvent h 8), v);
  k_handle_set_create v := (-1, v);
  k_handle_set_add _ _ v := (-1, v)
|}.

#[local] Instance memrefs : MemrefKernel sys := {|
  PROT_READ := 1; PROT_RW := 3; MAP_FAILED := -1;
  page_size_of _ := PAGE_SIZE;
  k_memref_create _ _ v := (-1, v);
  k_send_handle _ _ v := (-1, v);
  k_get_msg chan v :=
    match sessions (s_view v) !! chan with Some (_ :: _) => ((0, 1), v) | _ => ((-4, 0), v) end;
  k_read_handle chan v :=
    match sessions (s_view v) !! chan with
    | Some (Ref h :: q) =>
        let s := with_session chan q (s_view v) in
        ((0, s_next v),
         next (with_view (if decide (h = bss_memref (the_lender v))
                          then with_ref (s_next v) (lender_frame s) s else s) v))
    | _ => ((-4, -1), v)
    end;
  k_put_msg _ v := (0, v);
  k_mmap _ _ v := ((-1, []), v);
  k_munmap v := (0, v)
|}.

#[local] Instance client : MemrefClient sys := {|
  PROT_EXEC := 4;
  k_tipc_connect name v :=
    if decide (name = LENDER_PORT)
    then ((0, Some (s_next v)), next (with_view (with_session (s_next v) [] (s_view v)) v))
    else ((-2, None), v);
  k_memref_at p i n prot v :=
    if decide (p = BssPage ∧ i = 0 ∧ n = PAGE_SIZE ∧ (prot = 1 ∨ prot = 3))
    then (s_next v, next (with_view (with_ref (s_next v) 1%positive (s_view v)) v))
    else (-8, v);
  k_mmap_ref h n v :=
    match refs (s_view v) !! h with
    | Some f => let a := s_next v * PAGE_SIZE in (a, next (with_view (with_map a f (s_view v)) v))
    | None => (-1, v)
    end;
  k_munmap_at a _ v :=
    (0, with_view (View (sessions (s_view v)) (refs (s_view v)) (delete a (maps (s_view v)))
                     (lender_frame (s_view v))) v);
  k_mem_read m i v := reaches v m ≫= λ f, the_content v f !! Z.to_nat i;
  k_mem_write m i b v :=
    (λ f,
     if decide (f = lender_frame (s_view v))
          then Sys (s_view v) (with_page (<[Z.to_nat i := b]> (the_content v f)) (s_lender v))
                 (s_frames v) (s_next v)
          else Sys (s_view v) (s_lender v) (<[f := <[Z.to_nat i := b]> (the_content v f)]> (s_frames v))
                 (s_next v)) <$> reaches v m
|}.

Lemma length_as_page p : Z.of_nat (length (as_page p)) = PAGE_SIZE.
Proof. unfold as_page. rewrite length_resize. unfold PAGE_SIZE. lia. Qed.

Lemma as_page_id p : Z.of_nat (length p) = PAGE_SIZE → as_page p = p.
Proof. intros Hp. unfold as_page. rewrite <- Hp, Nat2Z.id. apply resize_all. Qed.

Lemma length_content v f : Z.of_nat (length (the_content v f)) = PAGE_SIZE.
Proof. unfold the_content. case_decide; apply length_as_page. Qed.

(** The handler keeps the length of the page. *)
Lemma handler_page data schan (s : world lender_state unit script) r s' :
  Z.of_nat (length (bss_page (loc s))) = PAGE_SIZE → Z.of_nat (length data) = MAX_WRITE →
  lender_on_message data schan s = Ret r s' →
  Z.of_nat (length (bss_page (loc s'))) = PAGE_SIZE.
Proof.
  intros Hp Hd Hrun. destruct (lender_on_message_spec data schan s Hp Hd) as (rc & m & v & Hout).
  cbn zeta in Hout. rewrite Hrun in Hout. destruct (rc <? 0); [by injection Hout as _ ->|].
  destruct Hout as [_ Hact]. destruct (lender_spec _ _ _) as [|a p st|h|]; cbn in Hact; [| | |done].
  - by destruct Hact as [_ ->].
  - destruct Hact as (-> & Hl & _). cbn. by rewrite Hl.
  - by destruct Hact as (_ & -> & _).
Qed.

Lemma the_lender_of v : Z.of_nat (length (bss_page (s_lender v))) = PAGE_SIZE → the_lender v = s_lender v.
Proof. intros Hp. unfold the_lender. rewrite as_page_id by done. by destruct (s_lender v). Qed.

Lemma incoming_received m v :
  Forall is_byte m → sizeof_lender_msg ≤ Z.of_nat (length m) ≤ sizeof_lender_msg + MAX_WRITE →
  ∃ u, k_recv 7 sizeof_lender_msg (sizeof_lender_msg + MAX_WRITE) (env (incoming m v)) =
         ((Z.of_nat (length m), m), u).
Proof.
  intros Hb Hl. assert (forallb (λ b, (0 <=? b) && (b <? 256)) m = true) as Hm.
  { apply forallb_forall. intros b Hin%list_elem_of_In. rewrite Forall_forall in Hb.
    specialize (Hb b Hin). unfold is_byte in Hb. lia. }
  eexists. cbn [k_recv lender_kernel Sim.kernel env incoming MemrefDemo.with_msgs].
  unfold Sim.recv, MemrefDemo.with_msgs. cbn [sc_msgs]. rewrite Hm.
  by rewrite (proj2 (Z.leb_le _ _)), (proj2 (Z.leb_le _ _)) by lia.
Qed.

Lemma deliver_serves chan m q v :
  Forall is_byte m → sizeof_lender_msg ≤ Z.of_nat (length m) ≤ sizeof_lender_msg + MAX_WRITE →
  lender_serves (Ws:=script) chan m q v (deliver chan m q v).
Proof.
  intros Hb Hl. destruct (incoming_received m v Hb Hl) as [u Hu].
  exists MemrefDemo.buffer, 7, (incoming m v), u. split_and!; [done..|]. unfold deliver.
  destruct (lender_on_message MemrefDemo.buffer 7 (incoming m v)) as [r s'|] eqn:E; [|done].
  apply handler_page in E; [|apply length_as_page|done].
  split_and!; [by apply the_lender_of|done|]. eexists. split; [done|]. apply lookup_insert_eq.
Qed.

Lemma deliver_maps chan m q v : maps (s_view (deliver chan m q v)) = maps (s_view v).
Proof. unfold deliver. by destruct (lender_on_message _ _ _). Qed.

#[local] Instance peer : MemrefPeer sys script.
Proof.
  split; cbn [k_mem_read k_mem_write k_memref_at k_mmap_ref k_tipc_connect k_wait k_get_msg
    k_put_msg k_send k_recv k_read_handle kernel ports memrefs client view_of content lender own_frame
    lender_view MAP_FAILED PROT_RW].
  - intros v f. apply length_content.
  - intros v chan q _. unfold the_content. by rewrite decide_True.
  - intros m i v f E. by rewrite E.
  - intros m i b v f E Hi. rewrite E. cbn [fmap option_fmap option_map]. eexists. split; [done|].
    pose proof (length_content v f) as Hl. rewrite <- (length_insert (the_content v f) (Z.to_nat i) b) in Hl.
    destruct (decide (f = lender_frame (s_view v))) as [->|Hf]; (split; [done|]);
      unfold the_content at 1; cbn [s_view s_frames].
    + rewrite decide_True by done. unfold the_lender at 1. cbn [s_lender bss_page with_page].
      by rewrite as_page_id.
    + rewrite decide_False by done. rewrite lookup_insert_eq. by apply as_page_id.
  - intros rc v v' [= <- <-] _. cbn. apply lookup_insert_eq.
  - intros h f out v v' E _ Hr. rewrite Hr in E. by injection E as <- <-.
  - intros o rc v v' [= <- <- <-] _. eexists. split; [done|]. cbn. apply lookup_insert_eq.
  - by intros chan t r v v' [= _ <-].
  - intros chan r v v' E. by repeat case_match; simplify_eq.
  - by intros chan r v v' [= _ <-].
  - intros chan m rc v v' E. case_match; simplify_eq; [apply deliver_maps|done].
  - intros chan m rc q v v' E -> Hb Hl Hq. rewrite Hq in E. injection E as <-. by apply deliver_serves.
  - intros chan lo hi r v v' E. by repeat case_match; simplify_eq.
  - intros chan lo hi rc bs q v v' E Hrc Hq. rewrite Hq in E.
    repeat case_match; simplify_eq; try lia. by eexists.
  - intros chan rc h q v v' E Hrc Hq. rewrite Hq in E. repeat case_match; simplify_eq; try lia;
      (do 2 eexists; split_and!; [done..|]); by intros.
Qed.

(** The tests run, and nothing fails. *)
Definition system : sys :=
  Sys (View ∅ ∅ ∅ 2%positive) fresh_lender ∅ 100.
Definition pad : bytes := [7; 8; 9; 10].
Definition w : world (list check) unit sys := World [] () system [].

Example recv_ref_passes :
  match recv_ref pad w with Ret _ w' => loc w' = [] ∧ still_open (trace w') = ∅ | Halt _ _ => False end.
Proof. by vm_compute. Qed.

Example all_pass :
  match (self_map;; creation;; recv_ref pad;; leak_creation pad) w with
  | Ret _ w' => loc w' = [] | Halt _ _ => False
  end.
Proof. by vm_compute. Qed.

Lemma memref_tests_blame_witness :
  wpx (recv_ref pad)
    (λ _ w', blames (loc w) (loc w') ∧ still_open (trace w') ⊆ still_open (trace w))
    (λ h, h = NullDeref ∧ recv_ref (W:=sys) pad = recv_ref pad) w.
Proof.
  apply (memref_tests_blame (Ws:=script)); [done| |].
  - by repeat constructor.
  - unfold memref_tests. right. right. left.
Defined.
End MemrefSuiteDemo.
