(* ===== verification/SecureFb.v ===== *)
(** secure_fb_mock_impl/main.cpp: a framebuffer made of a buffer of the secure
    display unit, its mapping and a memref of the mapping; what is acquired,
    and what is given back. *)

From S2P Require Import Prelude Ipc Services.

(** * 1. Interfaces *)

(** lib/secure_fb and lib/secure_dpu, mmap and memref_create.  [buf_info] is
    [secure_dpu_buf_info], [buf_zero] one whose bytes are zero.
    [k_dpu_allocate] answers with its return code and the [buf_info] it filled
    in. *)
Class SecureDpu (B W : Type) := {
  SECURE_FB_ERROR_OK : Z;
  SECURE_FB_ERROR_UNINITIALIZED : Z;
  SECURE_FB_ERROR_MEMORY_ALLOCATION : Z;
  SECURE_FB_ERROR_SHARED_MEMORY : Z;
  SECURE_FB_ERROR_INVALID_REQUEST : Z;
  TTUI_PF_RGBA8 : Z;
  FB_MAP_FAILED : Z;
  (** PROT_READ | PROT_WRITE. *)
  FB_PROT_RW : Z;
  fb_page_size : Z;
  buf_handle : B → handle;
  buf_zero : B;
  k_dpu_start : handle → W → Z * W;
  k_dpu_stop : handle → W → Z * W;
  k_dpu_allocate : handle → Z → W → (Z * B) * W;
  k_dpu_release : B → W → Z * W;
  k_fb_mmap : Z → handle → W → Z * W;
  k_fb_munmap : Z → Z → W → Z * W;
  k_fb_memref : Z → Z → Z → W → Z * W
}.

(** The answers of the display unit that matter: codes that are not errors are
    different from those that are, and what is handed out is not null. *)
Class SecureDpuLaws (B W : Type) `{SecureDpu B W} : Prop := {
  fb_errors : SECURE_FB_ERROR_UNINITIALIZED ≠ SECURE_FB_ERROR_OK ∧
    SECURE_FB_ERROR_MEMORY_ALLOCATION ≠ SECURE_FB_ERROR_OK ∧
    SECURE_FB_ERROR_SHARED_MEMORY ≠ SECURE_FB_ERROR_OK;
  dpu_allocate_nonzero h n v rc b v' :
    k_dpu_allocate h n v = ((rc, b), v') → 0 ≤ rc → b ≠ buf_zero;
  fb_mmap_nonzero n h v a v' : k_fb_mmap n h v = (a, v') → a ≠ FB_MAP_FAILED → a ≠ 0
}.

Record secure_fb_info := FbInfo {
  buffer : Z; fb_size : Z; pixel_stride : Z; line_stride : Z; width : Z; height : Z;
  pixel_format : Z
}.

(** [FbDbEntry]. *)
Record FbDbEntry (B : Type) := FbEntry {
  fb_info : secure_fb_info; buf_info : B; fb_handle : handle; fb_offset : Z
}.
Arguments FbEntry {B}.
Arguments fb_info {B}.
Arguments buf_info {B}.
Arguments fb_handle {B}.
Arguments fb_offset {B}.

(** [secure_fb_impl_buffers]: number of framebuffers; identifier, index of the
    handle and description of the first; number of handles; the first. *)
Record fb_buffers := FbBuffers {
  num_fbs : Z; buffer_id : Z; handle_index : Z; info : secure_fb_info;
  num_handles : Z; fb_memref : handle
}.

Definition kDeviceWidth : Z := 400.
Definition kDeviceHeight : Z := 800.
Definition kFbId : Z := 0xdeadbeef.

(** What is asked of the display unit and of mmap, with the answers. *)
Inductive fb_ev (B : Type) :=
| Started (rc : Z)
| Stopped (rc : Z)
| Allocated (rc : Z) (b : B)
| Released (b : B) (rc : Z)
| Mapped (addr size : Z)
| Unmapped (addr size rc : Z).
Arguments Started {B}.
Arguments Stopped {B}.
Arguments Allocated {B}.
Arguments Released {B}.
Arguments Mapped {B}.
Arguments Unmapped {B}.

(** The SecureFbMockImpl objects, of one entry each; the static handle; the
    calls, latest first. *)
Record fb_state (B : Type) := FbState {
  fb_objs : gmap ptr (FbDbEntry B); secure_dpu_handle : handle; fb_log : list (fb_ev B)
}.
Arguments FbState {B}.
Arguments fb_objs {B}.
Arguments secure_dpu_handle {B}.
Arguments fb_log {B}.

Definition with_objs {B} (f : gmap ptr (FbDbEntry B) → gmap ptr (FbDbEntry B)) (l : fb_state B) :=
  FbState (f (fb_objs l)) (secure_dpu_handle l) (fb_log l).
Definition with_log {B} (e : fb_ev B) (l : fb_state B) : fb_state B :=
  FbState (fb_objs l) (secure_dpu_handle l) (e :: fb_log l).

(** lk/macros.h, on [size_t]. *)
Definition round_up (n m : Z) : Z := u64 (u64 (n + (m - 1)) / m * m).

(** * 2. The class *)

Section Impl.
Context {B W : Type} `{!Uapi} `{!Kernel W} `{!SecureDpu B W}.
Abbreviation C := (M (world (fb_state B) unit W)).

(** A call of the display unit or of mmap, and its record. *)
Definition logging {A} (f : W → A * W) (ev : A → fb_ev B) : C A :=
  a ← env_call f; mod_loc (with_log (ev a));; ret a.

Definition memref_create (addr size prot : Z) : C Z :=
  syscall (k_fb_memref addr size prot) (SMemrefCreate addr size prot).

(** The destructor. *)
Definition destroy (e : FbDbEntry B) : C unit :=
  (if fb_handle e =? INVALID_IPC_HANDLE then ret tt else close (fb_handle e);; ret tt);;
  logging (k_fb_munmap (buffer (fb_info e)) (fb_size (fb_info e)))
    (Unmapped (buffer (fb_info e)) (fb_size (fb_info e)));;
  logging (k_dpu_release (buf_info e)) (Released (buf_info e));;
  h ← get_loc secure_dpu_handle;
  logging (k_dpu_stop h) Stopped;;
  ret tt.

Definition Init (p : ptr) (width height : Z) : C Z :=
  h ← get_loc secure_dpu_handle;
  rc ← logging (k_dpu_start h) Started;
  if rc <? 0 then ret SECURE_FB_ERROR_UNINITIALIZED else
  let size := u32 (round_up (u64 (u64 (4 * width) * height)) fb_page_size) in
  r ← logging (k_dpu_allocate h size) (λ r, Allocated r.1 r.2);
  let '(rc, buf) := r in
  if rc <? 0 then ret SECURE_FB_ERROR_MEMORY_ALLOCATION else
  fb_base ← logging (k_fb_mmap size (buf_handle buf)) (λ a, Mapped a size);
  if fb_base =? FB_MAP_FAILED then ret SECURE_FB_ERROR_SHARED_MEMORY else
  handle ← memref_create fb_base size FB_PROT_RW;
  if handle <? 0 then ret SECURE_FB_ERROR_SHARED_MEMORY else
  mod_loc (with_objs <[p := FbEntry
    (FbInfo fb_base size 4 (u32 (4 * width)) width height TTUI_PF_RGBA8) buf handle 0]>);;
  ret SECURE_FB_ERROR_OK.

Definition GetFbs (e : FbDbEntry B) : fb_buffers :=
  FbBuffers 1 kFbId 0 (fb_info e) 1 (fb_handle e).

Definition Display (buffer_id : Z) : Z :=
  if negb (buffer_id =? kFbId) then SECURE_FB_ERROR_INVALID_REQUEST else SECURE_FB_ERROR_OK.

(** * 3. The operations *)

(** [new SecureFbMockImpl()]: zeros, but for the handle. *)
Definition fb_new : FbDbEntry B := FbEntry (FbInfo 0 0 0 0 0 0 0) buf_zero INVALID_IPC_HANDLE 0.

(** [delete sfb]. *)
Definition fb_delete (p : ptr) : C unit :=
  e ← load fb_objs p;
  destroy e;;
  mod_loc (with_objs (delete p)).

Definition secure_fb_impl_init : C (option ptr) :=
  sfb ← get_loc (λ l, new_ptr (fb_objs l));
  mod_loc (with_objs <[sfb := fb_new]>);;
  rc ← Init sfb kDeviceWidth kDeviceHeight;
  if negb (rc =? SECURE_FB_ERROR_OK) then fb_delete sfb;; ret None else ret (Some sfb).

Definition secure_fb_impl_get_fbs (sfb : ptr) : C (Z * fb_buffers) :=
  e ← load fb_objs sfb; ret (SECURE_FB_ERROR_OK, GetFbs e).

(** [Display] does not look at its object. *)
Definition secure_fb_impl_display_fb (sfb : ptr) (buffer_id : Z) : C Z :=
  ret (Display buffer_id).

Definition secure_fb_impl_release (sfb : ptr) : C Z :=
  fb_delete sfb;; ret SECURE_FB_ERROR_OK.

Definition secure_fb_main `{!TipcServices W} : C Z :=
  hset ← hset_create;
  if IS_ERR hset then ret (PTR_ERR hset) else
  rc ← add_service SecureDpuService hset;
  if negb (rc =? NO_ERROR) then ret rc else
  rc ← add_service (SecureFbService 1) hset;
  if negb (rc =? NO_ERROR) then ret rc else
  run_event_loop hset.
End Impl.

(** * 4. What is held *)

Inductive resource (B : Type) := DisplayOn | Buffer (b : B) | Mapping (addr size : Z).
Arguments DisplayOn {B}.
Arguments Buffer {B}.
Arguments Mapping {B}.
#[export] Instance resource_eq_dec {B} `{!EqDecision B} : EqDecision (resource B).
Proof. solve_decision. Defined.

(** The list without one occurrence of an element. *)
Fixpoint remove_one {A} `{!EqDecision A} (a : A) (l : list A) : list A :=
  match l with
  | [] => []
  | b :: l => if decide (a = b) then l else b :: remove_one a l
  end.

(** What was acquired and not given back. *)
Fixpoint held_resources {B} `{!EqDecision B} (map_failed : Z) (log : list (fb_ev B)) :
    list (resource B) :=
  match log with
  | [] => []
  | e :: log =>
    let held := held_resources map_failed log in
    match e with
    | Started rc => if 0 <=? rc then DisplayOn :: held else held
    | Stopped _ => remove_one DisplayOn held
    | Allocated rc b => if 0 <=? rc then Buffer b :: held else held
    | Released b _ => remove_one (Buffer b) held
    | Mapped a n => if a =? map_failed then held else Mapping a n :: held
    | Unmapped a n _ => remove_one (Mapping a n) held
    end
  end.

(** * 5. The life of a framebuffer *)

Section Life.
Context {B W : Type} `{!Uapi} `{!Kernel W} `{!EqDecision B} `{!SecureDpu B W} `{!SecureDpuLaws B W}.
Implicit Types w : world (fb_state B) unit W.

Definition fb_held w : list (resource B) := held_resources FB_MAP_FAILED (fb_log (loc w)).

Lemma wp_logging {A} (f : W → A * W) ev (Q : A → world (fb_state B) unit W → Prop) w :
  (∀ a v, f (env w) = (a, v) → Q a (World (with_log (ev a) (loc w)) (dev w) v (trace w))) →
  wp (logging f ev) Q w.
Proof. intros HQ. apply wp_bind, wp_env_call. intros a v E. apply wp_bind, wp_mod_loc, wp_ret. by apply HQ. Qed.

(** What the destructor asks for, given the answers. *)
Definition cleanup (e : FbDbEntry B) (x y z : Z) : list (fb_ev B) :=
  [Stopped z; Released (buf_info e) y; Unmapped (buffer (fb_info e)) (fb_size (fb_info e)) x].

Lemma delete_spec p e hs w :
  fb_objs (loc w) !! p = Some e →
  balanced (trace w) (if fb_handle e =? INVALID_IPC_HANDLE then hs else fb_handle e :: hs) →
  wp (fb_delete p) (λ _ w', fb_objs (loc w') = delete p (fb_objs (loc w)) ∧
    secure_dpu_handle (loc w') = secure_dpu_handle (loc w) ∧ balanced (trace w') hs ∧
    ∃ x y z, fb_log (loc w') = cleanup e x y z ++ fb_log (loc w)) w.
Proof.
  intros He Hb. apply wp_bind. eapply wp_load; [exact He|]. apply wp_bind. unfold destroy.
  assert (∀ w1, loc w1 = loc w → balanced (trace w1) hs →
    wp (logging (k_fb_munmap (buffer (fb_info e)) (fb_size (fb_info e)))
          (Unmapped (buffer (fb_info e)) (fb_size (fb_info e)));;
        logging (k_dpu_release (buf_info e)) (Released (buf_info e));;
        h ← get_loc secure_dpu_handle; logging (k_dpu_stop h) Stopped;; ret tt)
      (λ _ w', wp (mod_loc (with_objs (delete p))) (λ _ w', fb_objs (loc w') = delete p (fb_objs (loc w)) ∧
        secure_dpu_handle (loc w') = secure_dpu_handle (loc w) ∧ balanced (trace w') hs ∧
        ∃ x y z, fb_log (loc w') = cleanup e x y z ++ fb_log (loc w)) w') w1) as Hrest.
  { intros w1 Hl Hb1. apply wp_bind, wp_logging. intros x v1 _. apply wp_bind, wp_logging.
    intros y v2 _. apply wp_bind, wp_get_loc, wp_bind, wp_logging. intros z v3 _.
    apply wp_ret, wp_mod_loc. cbn. rewrite Hl. split_and!; [done|done|done|]. by exists x, y, z. }
  apply wp_bind. destruct (Z.eqb_spec (fb_handle e) INVALID_IPC_HANDLE).
  - apply wp_ret. by apply Hrest.
  - apply wp_bind, wp_close. intros rc v. apply wp_ret, Hrest; [done|]. by apply balanced_close.
Qed.

(** The calls of an [Init] that fails, and what is held after the destructor has
    run too, given what was held before. *)
Inductive fb_failed (before : list (resource B)) : list (fb_ev B) → list (resource B) → Prop :=
| NoDisplay rc :
    rc < 0 → fb_failed before [Started rc] (remove_one DisplayOn before)
| NoBuffer rc rc' b :
    0 ≤ rc → rc' < 0 → fb_failed before [Allocated rc' b; Started rc] before
| NoMapping rc rc' b n :
    0 ≤ rc → 0 ≤ rc' →
    fb_failed before [Mapped FB_MAP_FAILED n; Allocated rc' b; Started rc] (Buffer b :: before)
| NoMemref rc rc' b a n :
    0 ≤ rc → 0 ≤ rc' → a ≠ FB_MAP_FAILED →
    fb_failed before [Mapped a n; Allocated rc' b; Started rc]
      (Mapping a n :: Buffer b :: before).

(** No resource is the zeros a new object holds. *)
Definition real (r : resource B) : Prop :=
  r ≠ Mapping 0 0 ∧ r ≠ Buffer buf_zero.

Lemma remove_missing (r : resource B) l : r ∉ l → remove_one r l = l.
Proof.
  induction l as [|r' l IH]; [done|]. rewrite not_elem_of_cons. intros [Hne Hl]. cbn.
  rewrite decide_False by done. by rewrite IH.
Qed.

Definition fb_real w : Prop := Forall real (fb_held w).

Lemma remove_real l : Forall real l → remove_one (Buffer buf_zero) (remove_one (Mapping 0 0) l) = l.
Proof.
  intros Hl. rewrite !remove_missing; [done|..]; rewrite ?remove_missing;
    (intros Hin; by destruct (proj1 (Forall_forall _ _) Hl _ Hin)).
Qed.

(** What is held after the destructor. *)
Lemma held_cleanup e x y z log :
  held_resources FB_MAP_FAILED (cleanup e x y z ++ log) =
  remove_one DisplayOn (remove_one (Buffer (buf_info e))
    (remove_one (Mapping (buffer (fb_info e)) (fb_size (fb_info e)))
      (held_resources FB_MAP_FAILED log))).
Proof. done. Qed.

(** The size of the framebuffer: 400 by 800 pixels, in whole pages. *)
Definition fb_bytes : Z := u32 (round_up (u64 (u64 (4 * kDeviceWidth) * kDeviceHeight)) fb_page_size).

Lemma fb_bytes_bounds : 0 < fb_page_size < 2 ^ 20 →
  (fb_page_size | fb_bytes) ∧ 4 * 400 * 800 ≤ fb_bytes < 4 * 400 * 800 + fb_page_size.
Proof.
  intros Hp. change (u64 (u64 (4 * kDeviceWidth) * kDeviceHeight)) with 1280000.
  unfold fb_bytes, round_up. change (u64 (u64 (4 * kDeviceWidth) * kDeviceHeight)) with 1280000.
  set (m := fb_page_size) in *. pose proof (Z.div_mod (1280000 + (m - 1)) m ltac:(lia)) as Hd.
  pose proof (Z.mod_pos_bound (1280000 + (m - 1)) m ltac:(lia)) as Hm.
  rewrite (u64_small (1280000 + (m - 1))) by lia. set (q := (1280000 + (m - 1)) / m) in *.
  assert (1280000 ≤ q * m < 1280000 + m) as Hq by lia.
  rewrite u64_small, u32_small by lia. split; [by exists q|lia].
Qed.

(** What the object of a framebuffer describes. *)
Definition fb_entry_ok (e : FbDbEntry B) : Prop :=
  fb_info e = FbInfo (buffer (fb_info e)) fb_bytes 4 1600 400 800 TTUI_PF_RGBA8 ∧
  0 ≤ fb_handle e.

Definition fb_resources (e : FbDbEntry B) : list (resource B) :=
  [Mapping (buffer (fb_info e)) (fb_size (fb_info e)); Buffer (buf_info e); DisplayOn].

Lemma remove_display (before : list (resource B)) : remove_one DisplayOn (DisplayOn :: before) = before.
Proof. cbn. by rewrite decide_True. Qed.
Lemma remove_display_skip (r : resource B) l :
  r ≠ DisplayOn → remove_one DisplayOn (r :: l) = r :: remove_one DisplayOn l.
Proof. intros Hr. cbn. by rewrite decide_False. Qed.

(** The destructor of an object that was not initialised gives back nothing but
    a started display. *)
Lemma held_undone x y z log :
  Forall real (held_resources FB_MAP_FAILED log) →
  held_resources FB_MAP_FAILED (cleanup fb_new x y z ++ log) =
  remove_one DisplayOn (held_resources FB_MAP_FAILED log).
Proof. intros Hr. rewrite held_cleanup. cbn [buf_info fb_new fb_info buffer fb_size]. by rewrite remove_real. Qed.

Lemma real_display : real DisplayOn.
Proof. by split. Qed.

Lemma Init_spec p hs w :
  balanced (trace w) hs → fb_real w →
  wp (Init p kDeviceWidth kDeviceHeight) (λ rc w',
    secure_dpu_handle (loc w') = secure_dpu_handle (loc w) ∧
    ((rc = SECURE_FB_ERROR_OK ∧ ∃ e, fb_objs (loc w') = <[p := e]> (fb_objs (loc w)) ∧
       balanced (trace w') (fb_handle e :: hs) ∧ fb_entry_ok e ∧
       fb_held w' = fb_resources e ++ fb_held w ∧ fb_real w') ∨
     (rc ≠ SECURE_FB_ERROR_OK ∧ fb_objs (loc w') = fb_objs (loc w) ∧ balanced (trace w') hs ∧
       ∃ acq after, fb_log (loc w') = acq ++ fb_log (loc w) ∧ fb_failed (fb_held w) acq after ∧
         ∀ x y z, held_resources FB_MAP_FAILED (cleanup fb_new x y z ++ fb_log (loc w')) = after))) w.
Proof.
  intros Hb Hreal. destruct fb_errors as (H1 & H2 & H3). pose proof real_display as Hdisp.
  apply wp_bind, wp_get_loc, wp_bind, wp_logging. intros rc v1 _. wp_cases Hrc.
  { apply wp_ret. split; [done|]. right. split_and!; [done|done|done|].
    exists [Started rc], (remove_one DisplayOn (fb_held w)). split; [done|]. split; [constructor; lia|].
    assert (held_resources FB_MAP_FAILED (Started rc :: fb_log (loc w)) = fb_held w) as Hh
      by (cbn; by rewrite (proj2 (Z.leb_gt _ _)) by lia).
    intros x y z. cbn [loc with_log fb_log]. rewrite held_undone; rewrite Hh; done. }
  apply wp_bind, wp_logging. intros [rc' b] v2 Eb. cbn [fst snd]. wp_cases Hrc'.
  { apply wp_ret. split; [done|]. right. split_and!; [done|done|done|].
    exists [Allocated rc' b; Started rc], (fb_held w). split; [done|]. split; [constructor; lia|].
    assert (held_resources FB_MAP_FAILED (Allocated rc' b :: Started rc :: fb_log (loc w)) =
      DisplayOn :: fb_held w) as Hh
      by (cbn; by rewrite (proj2 (Z.leb_gt _ _)), (proj2 (Z.leb_le _ _)) by lia).
    intros x y z. cbn [loc with_log fb_log]. rewrite held_undone; rewrite Hh;
      [apply remove_display|by constructor]. }
  assert (real (Buffer b)) as Hbuf.
  { split; [done|]. intros [= Hz]. eapply dpu_allocate_nonzero; [exact Eb|lia|done]. }
  apply wp_bind, wp_logging. intros a v3 Ea. wp_cases Ha.
  { apply wp_ret. split; [done|]. right. split_and!; [done|done|done|].
    apply Z.eqb_eq in Ha as ->. eexists [Mapped _ _; Allocated rc' b; Started rc], (Buffer b :: fb_held w).
    split; [done|]. split; [constructor; lia|].
    match goal with |- context [Mapped FB_MAP_FAILED ?n] =>
      assert (held_resources FB_MAP_FAILED
        (Mapped FB_MAP_FAILED n :: Allocated rc' b :: Started rc :: fb_log (loc w)) =
        Buffer b :: DisplayOn :: fb_held w) as Hh
        by (cbn; by rewrite Z.eqb_refl, !(proj2 (Z.leb_le _ _)) by lia) end.
    intros x y z. cbn [loc with_log fb_log]. rewrite held_undone; rewrite Hh;
      [by rewrite remove_display_skip, remove_display|by repeat apply Forall_cons_2]. }
  apply Z.eqb_neq in Ha. assert (a ≠ 0) as Hnz by by eapply fb_mmap_nonzero.
  match goal with |- context [Mapped a ?n] => set (n0 := n) end.
  assert (held_resources FB_MAP_FAILED
      (Mapped a n0 :: Allocated rc' b :: Started rc :: fb_log (loc w)) =
      [Mapping a n0; Buffer b; DisplayOn] ++ fb_held w) as Hh
    by (cbn; by rewrite (proj2 (Z.eqb_neq _ _)), !(proj2 (Z.leb_le _ _)) by done || lia).
  assert (Forall real ([Mapping a n0; Buffer b; DisplayOn] ++ fb_held w)) as Hall.
  { repeat apply Forall_cons_2; [|done|done|done]. split; [|done]. by intros [= Hz _]. }
  apply wp_bind, wp_syscall. intros h v4 _. wp_cases Hh0.
  - apply wp_ret. split; [done|]. right. split_and!; [done|done|by apply balanced_neutral|].
    exists [Mapped a n0; Allocated rc' b; Started rc], (Mapping a n0 :: Buffer b :: fb_held w).
    split; [done|]. split; [constructor; lia|].
    intros x y z. cbn [loc with_log fb_log logged]. rewrite held_undone; rewrite Hh; [|done].
    cbn [app].
    rewrite remove_display_skip by done. by rewrite remove_display_skip, remove_display.
  - apply wp_bind, wp_mod_loc, wp_ret. split; [done|]. left. split; [done|].
    eexists. split; [done|]. cbn [trace set_loc logged fb_handle fb_info fb_size buffer].
    split_and!; [|split; [done|cbn; lia]|exact Hh|].
    + apply balanced_memref; [lia|done].
    + unfold fb_real, fb_held. cbn [loc set_loc with_objs fb_log with_log logged]. by rewrite Hh.
Qed.

Lemma init_outcomes hs w :
  balanced (trace w) hs → fb_real w →
  wp secure_fb_impl_init (λ r w', match r with
    | Some p => fb_objs (loc w) !! p = None ∧ ∃ e,
        fb_objs (loc w') = <[p := e]> (fb_objs (loc w)) ∧ fb_entry_ok e ∧
        balanced (trace w') (fb_handle e :: hs) ∧
        fb_held w' = fb_resources e ++ fb_held w ∧ fb_real w'
    | None => fb_objs (loc w') = fb_objs (loc w) ∧ balanced (trace w') hs ∧
        ∃ acq x y z, fb_log (loc w') = cleanup fb_new x y z ++ acq ++ fb_log (loc w) ∧
          fb_failed (fb_held w) acq (fb_held w')
    end) w.
Proof.
  intros Hb Hreal. apply wp_bind, wp_get_loc, wp_bind, wp_mod_loc. set (p := new_ptr _).
  pose proof (new_ptr_fresh (fb_objs (loc w))) as Hfresh. fold p in Hfresh.
  apply wp_bind. eapply wp_mono; [by apply (Init_spec p hs)|].
  intros rc w1 (Hd & [(-> & e & Ho & Hb1 & He & Hh & Hr1)|(Hne & Ho & Hb1 & acq & after & Hlog & Hf & Hafter)]).
  - rewrite Z.eqb_refl. apply wp_ret. split; [done|]. exists e.
    split_and!; [|done|done|done|done]. rewrite Ho. cbn. by rewrite insert_insert_eq.
  - rewrite (proj2 (Z.eqb_neq _ _) Hne). cbn [negb]. apply wp_bind.
    eapply wp_mono; [apply (delete_spec p fb_new hs)|].
    { rewrite Ho. apply lookup_insert_eq. }
    { cbn [fb_handle fb_new]. by rewrite Z.eqb_refl. }
    intros [] w2 (Ho2 & _ & Hb2 & x & y & z & Hlog2). apply wp_ret.
    split_and!; [|done|].
    + rewrite Ho2, Ho. cbn. by rewrite delete_insert_eq, delete_id.
    + exists acq, x, y, z. rewrite Hlog2, Hlog. split; [done|].
      unfold fb_held at 2. rewrite Hlog2, Hafter. exact Hf.
Qed.

(** C36. secure_fb_impl_init, whatever the display unit and mmap answer: it
    returns an object that has the description of a framebuffer of 400 by 800
    pixels, its memref, its mapping, its buffer and the display, or NULL, and
    then no object and no handle is left.  But when mmap fails, the buffer is
    still allocated, and when the memref cannot be created, the buffer and its
    mapping are (fb_failed): they are not in the object that the destructor
    looks at; and when the display cannot be started, the destructor stops it
    all the same, for whoever else had started it. *)
Theorem secure_fb_init_outcomes hs w :
  balanced (trace w) hs → fb_real w →
  wp secure_fb_impl_init (λ r w', match r with
    | Some p => fb_objs (loc w) !! p = None ∧ ∃ e,
        fb_objs (loc w') = <[p := e]> (fb_objs (loc w)) ∧ fb_entry_ok e ∧
        balanced (trace w') (fb_handle e :: hs) ∧
        fb_held w' = fb_resources e ++ fb_held w ∧ fb_real w'
    | None => fb_objs (loc w') = fb_objs (loc w) ∧ balanced (trace w') hs ∧
        ∃ acq x y z, fb_log (loc w') = cleanup fb_new x y z ++ acq ++ fb_log (loc w) ∧
          fb_failed (fb_held w) acq (fb_held w')
    end) w.
Proof. apply init_outcomes. Qed.

(** C37. A framebuffer's life: once initialised, described to its client,
    displayed any number of times, and released, everything that was acquired for it has
    been given back: the memref, the mapping, the buffer, the display and the
    object; the size it describes is that of the mapping, whole pages, at
    least four bytes for every pixel. *)
Theorem secure_fb_life_gives_back hs ids w :
  balanced (trace w) hs → fb_real w → 0 < fb_page_size < 2 ^ 20 →
  wp (r ← secure_fb_impl_init;
      match r with
      | None => ret None
      | Some sfb =>
        b ← secure_fb_impl_get_fbs sfb;
        foldM (λ _ i, secure_fb_impl_display_fb sfb i;; ret tt) tt ids;;
        rc ← secure_fb_impl_release sfb;
        ret (Some (b, rc))
      end)
    (λ r w', match r with
     | Some ((rc, b), rc') => rc = SECURE_FB_ERROR_OK ∧ rc' = SECURE_FB_ERROR_OK ∧
         fb_held w' = fb_held w ∧ fb_objs (loc w') = fb_objs (loc w) ∧ balanced (trace w') hs ∧
         (fb_page_size | fb_size (info b)) ∧ 4 * 400 * 800 ≤ fb_size (info b) < 4 * 400 * 800 + fb_page_size
     | None => True
     end) w.
Proof.
  intros Hb Hreal Hpage. apply wp_bind. eapply wp_mono; [by apply (init_outcomes hs)|].
  intros [p|] w1; [|by intros _]. intros (Hp & e & Ho & [He Hnn] & Hb1 & Hh & _).
  assert (fb_objs (loc w1) !! p = Some e) as He1 by (rewrite Ho; apply lookup_insert_eq).
  apply wp_bind, wp_bind. eapply wp_load; [exact He1|]. apply wp_ret, wp_bind.
  assert (∀ Q : unit → world (fb_state B) unit W → Prop, Q tt w1 →
    wp (foldM (λ _ i, secure_fb_impl_display_fb p i;; ret tt) tt ids) Q w1) as Hshow.
  { intros Q HQ. induction ids as [|i ids IH]; [done|]. cbn. apply wp_bind, wp_bind, wp_ret, wp_ret.
    exact IH. }
  apply Hshow, wp_bind. unfold secure_fb_impl_release. apply wp_bind.
  eapply wp_mono; [apply (delete_spec p e hs); [exact He1|]|].
  { pose proof invalid_handle_neg. by rewrite (proj2 (Z.eqb_neq _ _)) by lia. }
  intros [] w2 (Ho2 & _ & Hb2 & x & y & z & Hlog). apply wp_ret, wp_ret.
  split_and!; [done|done| |by rewrite Ho2, Ho, delete_insert_id|done|..].
  - unfold fb_held in *. rewrite Hlog, held_cleanup, Hh. unfold fb_resources. cbn [app].
    do 3 (cbn [remove_one]; rewrite decide_True by done). done.
  - cbn [info GetFbs]. rewrite He. cbn [fb_size]. by apply fb_bytes_bounds.
  - cbn [info GetFbs]. rewrite He. cbn [fb_size]. by apply fb_bytes_bounds.
  - cbn [info GetFbs]. rewrite He. cbn [fb_size]. by apply fb_bytes_bounds.
Qed.
End Life.

(** The program's main looks at every answer. *)
Lemma secure_fb_main_hsets {B W} `{!Uapi} `{!Kernel W} `{!TipcServices W}
    (w : world (fb_state B) unit W) :
  wp secure_fb_main (λ rc w', loc w' = loc w ∧ since checked_hsets w w') w.
Proof.
  assert (∀ h tr, IS_ERR h = false → (∀ k, given k tr → k = h) → checked_hsets tr) as Hone
    by (intros h tr Hh Ht k Hk; by rewrite (Ht k Hk)).
  apply wp_bind, wp_syscall. intros hset v _. wp_cases He.
  { apply wp_ret. split; [done|]. exists [SHsetCreate hset]. split; [done|]. intros h.
    unfold given. rewrite Exists_cons, Exists_nil. cbn. intuition. }
  apply wp_bind, wp_syscall. intros rc v1 _. wp_cases H1.
  { apply wp_ret. split; [done|]. exists [SAddService hset rc; SHsetCreate hset]. split; [done|].
    apply (Hone hset); [done|]. intros h. unfold given. rewrite !Exists_cons, Exists_nil. cbn. intuition. }
  apply wp_bind, wp_syscall. intros rc2 v2 _. wp_cases H2.
  { apply wp_ret. split; [done|].
    exists [SAddService hset rc2; SAddService hset rc; SHsetCreate hset]. split; [done|].
    apply (Hone hset); [done|]. intros h. unfold given. rewrite !Exists_cons, Exists_nil. cbn. intuition. }
  apply wp_syscall. intros rc3 v3 _. split; [done|].
  exists [SEventLoop hset rc3; SAddService hset rc2; SAddService hset rc; SHsetCreate hset].
  split; [done|]. apply (Hone hset); [done|]. intros h. unfold given.
  rewrite !Exists_cons, Exists_nil. cbn. intuition.
Qed.

(** * 6. At concrete states *)

Module SecureFbDemo.
#[local] Instance uapi : Uapi := Sim.uapi.
#[local] Instance kernel : Kernel script := Sim.kernel.

(** A display unit that hands out buffer 7; mmap fails when the kernel's next
    handle is 13. *)
#[local] Instance dpu : SecureDpu Z script := {|
  SECURE_FB_ERROR_OK := 0; SECURE_FB_ERROR_UNINITIALIZED := -1;
  SECURE_FB_ERROR_MEMORY_ALLOCATION := -3; SECURE_FB_ERROR_SHARED_MEMORY := -4;
  SECURE_FB_ERROR_INVALID_REQUEST := -5; TTUI_PF_RGBA8 := 1; FB_MAP_FAILED := -1;
  FB_PROT_RW := 3; fb_page_size := 4096; buf_handle b := b; buf_zero := 0;
  k_dpu_start _ s := (0, s); k_dpu_stop _ s := (0, s);
  k_dpu_allocate _ _ s := ((0, 7), s); k_dpu_release _ s := (0, s);
  k_fb_mmap _ _ s := (if sc_next s =? 13 then -1 else 65536, s);
  k_fb_munmap _ _ s := (0, s);
  k_fb_memref _ _ _ s := (sc_next s, s)
|}.
#[local] Instance dpu_laws : SecureDpuLaws Z script.
Proof.
  split; [done|by intros h n v rc b v' [= <- <- <-] _|].
  intros n h v a v'. cbn. destruct (sc_next v =? 13); by intros [= <- <-].
Defined.

Definition fresh_fb (next : Z) : world (fb_state Z) unit script :=
  World (FbState ∅ 100 []) tt (Script next [] [] [] []) [].

(** The buffer is still held when mmap has failed. *)
Example mmap_fails :
  match secure_fb_impl_init (fresh_fb 13) with
  | Ret r w' => r = None ∧ fb_held w' = [Buffer 7]
  | Halt _ _ => False
  end.
Proof. by vm_compute. Qed.

Lemma secure_fb_init_outcomes_witness :
  wp secure_fb_impl_init (λ r w', match r with
    | Some p => fb_objs (loc (fresh_fb 13)) !! p = None ∧ ∃ e,
        fb_objs (loc w') = <[p := e]> (fb_objs (loc (fresh_fb 13))) ∧ fb_entry_ok e ∧
        balanced (trace w') [fb_handle e] ∧
        fb_held w' = fb_resources e ++ fb_held (fresh_fb 13) ∧ fb_real w'
    | None => fb_objs (loc w') = fb_objs (loc (fresh_fb 13)) ∧ balanced (trace w') [] ∧
        ∃ acq x y z, fb_log (loc w') = cleanup fb_new x y z ++ acq ++ fb_log (loc (fresh_fb 13)) ∧
          fb_failed (fb_held (fresh_fb 13)) acq (fb_held w')
    end) (fresh_fb 13).
Proof.
  apply (secure_fb_init_outcomes [] (fresh_fb 13)); [by apply Permutation_refl|by apply Forall_nil_2].
Defined.

Lemma secure_fb_life_gives_back_witness :
  ∃ w, w = fresh_fb 50 ∧
  wp (r ← secure_fb_impl_init;
      match r with
      | None => ret None
      | Some sfb =>
        b ← secure_fb_impl_get_fbs sfb;
        foldM (λ _ i, secure_fb_impl_display_fb sfb i;; ret tt) tt [kFbId; 0];;
        rc ← secure_fb_impl_release sfb;
        ret (Some (b, rc))
      end)
    (λ r w', match r with
     | Some ((rc, b), rc') => rc = SECURE_FB_ERROR_OK ∧ rc' = SECURE_FB_ERROR_OK ∧
         fb_held w' = fb_held w ∧ fb_objs (loc w') = fb_objs (loc w) ∧ balanced (trace w') [] ∧
         (fb_page_size | fb_size (info b)) ∧ 4 * 400 * 800 ≤ fb_size (info b) < 4 * 400 * 800 + fb_page_size
     | None => True
     end) w.
Proof.
  exists (fresh_fb 50). split; [done|].
  apply (secure_fb_life_gives_back [] [kFbId; 0] (fresh_fb 50));
    [by apply Permutation_refl|by apply Forall_nil_2|done].
Defined.
End SecureFbDemo.
