(* ===== verification/Prebuilts.v ===== *)
(** prebuilts-test: the small library lib/foo.c and the test main.c makes of it.
    Memory is in cells that may not have been written; <string.h> is modelled
    on them. *)

From S2P Require Import Prelude Ipc.

(** * 1. The functions of <string.h> *)

(** A cell is [None] until it is written. *)
Abbreviation cells := (list (option Z)) (only parsing).

Section String.
Context {S : Type}.
Abbreviation C := (M S).

Definition read_cell (c : option Z) : C Z :=
  match c with Some b => ret b | None => stop UninitRead end.

Fixpoint strlen (s : cells) : C Z :=
  match s with
  | [] => stop OutOfBounds
  | c :: s => b ← read_cell c; if b =? 0 then ret 0 else n ← strlen s; ret (1 + n)
  end.

(** At most [n] characters; after the terminator, zeros. *)
Fixpoint strncpy (dst src : cells) (n : nat) {struct n} : C cells :=
  match n, dst, src with
  | O, _, _ => ret dst
  | Datatypes.S n, _ :: dst, c :: src =>
      b ← read_cell c;
      dst ← strncpy dst (if b =? 0 then c :: src else src) n;
      ret (Some b :: dst)
  | _, _, _ => stop OutOfBounds
  end.

(** Negative, zero or positive; the characters are compared as unsigned. *)
Fixpoint strcmp (s t : cells) : C Z :=
  match s, t with
  | c :: s, d :: t =>
      a ← read_cell c;
      b ← read_cell d;
      if negb (a =? b) then ret (a - b) else if a =? 0 then ret 0 else strcmp s t
  | _, _ => stop OutOfBounds
  end.

(** * 2. lib/foo.c and main.c *)

Definition foo : cells := [Some 102; Some 111; Some 111; Some 0].

(** The status and the buffer afterwards. *)
Definition get_foo `{!Uapi} (buf : cells) (len : Z) : C (Z * cells) :=
  foo_len ← strlen foo;
  if len <? foo_len then ret (ERR_BAD_LEN, buf) else
  buf ← strncpy buf foo (Z.to_nat foo_len);
  ret (NO_ERROR, buf).
End String.

(** The state: the checks that failed, latest first. *)
Definition assert_ge (rc : Z) (k : M (list Z) unit) : M (list Z) unit :=
  if 0 <=? rc then k else modify (cons rc).

(** [str]: what the local array holds at the start. *)
Definition prebuilts_basic `{!Uapi} (str : cells) : M (list Z) unit :=
  r ← get_foo str (Z.of_nat (length str));
  let '(rc, str) := r in
  assert_ge rc
    (rc ← strcmp str foo;
     assert_ge rc (ret tt)).

(** * 3. What they do *)

(** get_foo on any buffer: refused when "foo" does not fit; else its three
    characters are written, even to a buffer of just three, and nothing else,
    the terminator included. *)
Theorem get_foo_correct {S} `{!Uapi} (buf : cells) len (s : S) :
  Z.of_nat (length buf) = len →
  get_foo buf len s =
    Ret (if len <? 3 then (ERR_BAD_LEN, buf) else (NO_ERROR, take 3 foo ++ drop 3 buf)) s.
Proof.
  intros Hl. unfold get_foo. change (strlen foo) with (ret (S:=S) 3). unfold bind at 1, ret at 1.
  cbn beta iota. destruct (Z.ltb_spec len 3); [done|].
  destruct buf as [|a [|b [|c buf]]]; cbn [length] in Hl; try lia. done.
Qed.

(** The test, for every content of its array: it never fails.  It compares with
    the fourth byte, which get_foo did not write: when nothing was ever written
    there the comparison reads it all the same, and when some byte is there, the
    test passes whatever this byte is, equal to the terminator or not. *)
Theorem prebuilts_basic_outcome `{!Uapi} (str : cells) s :
  length str = 16%nat → Forall (λ c, ∀ b, c = Some b → is_byte b) str →
  prebuilts_basic str s =
    match str !! 3%nat with Some (Some _) => Ret tt s | _ => Halt UninitRead s end.
Proof.
  intros Hl Hb. unfold prebuilts_basic. rewrite Hl. unfold bind at 1.
  pose proof (get_foo_correct str (Z.of_nat (length str)) s eq_refl) as E.
  rewrite Hl in E. rewrite E. clear E. change (Z.of_nat 16 <? 3) with false. cbn iota.
  destruct str as [|a [|b [|c [|d str]]]]; try done. unfold assert_ge at 1.
  rewrite no_error_zero. change (0 <=? 0) with true. cbn iota.
  change (take 3 foo ++ drop 3 (a :: b :: c :: d :: str))
    with (Some 102 :: Some 111 :: Some 111 :: d :: str). cbn [lookup list_lookup].
  destruct d as [d|]; [|done]. cbn. unfold bind, ret. cbn.
  apply Forall_lookup_1 with (i := 3%nat) (x := Some d) in Hb; [|done]. specialize (Hb d eq_refl).
  unfold is_byte in Hb. destruct (d =? 0) eqn:Hd; cbn; [done|].
  unfold assert_ge. by rewrite (proj2 (Z.leb_le _ _)) by lia.
Qed.

Module PrebuiltsDemo.
#[local] Instance uapi : Uapi := Sim.uapi.

(** As the compiler leaves the array. *)
Example the_test_reads_uninit :
  prebuilts_basic (replicate 16 None) [] = Halt UninitRead [].
Proof. by vm_compute. Qed.

(** "foox" is taken for "foo". *)
Example wrong_string_passes :
  prebuilts_basic (replicate 16 (Some 120)) [] = Ret tt [].
Proof. by vm_compute. Qed.

Lemma prebuilts_basic_outcome_witness :
  prebuilts_basic (replicate 16 (Some 120)) [] = Ret tt [].
Proof.
  apply (prebuilts_basic_outcome (replicate 16 (Some 120)) []); [done|].
  apply Forall_replicate. by intros b [= <-].
Defined.

Lemma get_foo_correct_witness :
  get_foo [None; None; Some 7] 3 () = Ret (0, take 3 foo) ().
Proof. exact (get_foo_correct [None; None; Some 7] 3 () eq_refl). Defined.
End PrebuiltsDemo.
