(* ===== verification/HwkeyTest.v ===== *)
(** The unit tests of the key service and of the random number service,
    hwcrypto-unittest/main.c, over the client libraries they call. *)

From S2P Require Import Prelude Ipc HwrngDev Evp Hwkey HwkeyProvider Dump.

(** * 1. The client libraries *)

(** lib/hwkey and lib/rng; closing a session is [close] of its handle.
    [k_hwkey_get_keyslot_data] is given the session, the name up to its NUL
    and the size of the buffer; it answers with its return code, what it wrote
    to the buffer and the size it left.  [k_hwkey_derive] is given the session,
    the version and the source; it answers with its return code, what it wrote
    to the destination, of the source's size, and the version it left. *)
Class HwkeyClient (W : Type) := {
  ERR_ALREADY_EXISTS : Z;
  ERR_BAD_HANDLE : Z;
  ERR_NOT_VALID : Z;
  HWKEY_OPAQUE_HANDLE_MAX_SIZE : Z;
  k_hwkey_open : W → Z * W;
  k_hwkey_close : Z → W → unit * W;
  k_hwkey_get_keyslot_data : Z → bytes → Z → W → (Z * bytes * Z) * W;
  k_hwkey_derive : Z → Z → bytes → W → (Z * bytes * Z) * W;
  k_trusty_rng_hw_rand : Z → W → (Z * bytes) * W;
  k_rand : W → Z * W
}.

(** The checks that failed, latest first; the fixture's session; the static
    buffers of the random number tests. *)
Record ut_state := UtState {
  checks : list string;
  hwkey_session : Z;
  _hist : list Z;
  _rng_buf : bytes
}.
Definition with_check (what : string) (l : ut_state) : ut_state :=
  UtState (what :: checks l) (hwkey_session l) (_hist l) (_rng_buf l).
Definition with_session (s : Z) (l : ut_state) : ut_state :=
  UtState (checks l) s (_hist l) (_rng_buf l).
Definition with_hist (f : list Z → list Z) (l : ut_state) : ut_state :=
  UtState (checks l) (hwkey_session l) (f (_hist l)) (_rng_buf l).
Definition with_rng_buf (f : bytes → bytes) (l : ut_state) : ut_state :=
  UtState (checks l) (hwkey_session l) (_hist l) (f (_rng_buf l)).

Definition RPMB_STORAGE_AUTH_KEY_ID : string := "com.android.trusty.storage_auth.rpmb".
Definition HWCRYPTO_UNITTEST_KEYBOX_ID : string := "com.android.trusty.hwcrypto.unittest.key32".
Definition HWCRYPTO_UNITTEST_DERIVED_KEYBOX_ID : string :=
  "com.android.trusty.hwcrypto.unittest.derived_key32".
Definition HWCRYPTO_UNITTEST_OPAQUE_HANDLE_ID : string :=
  "com.android.trusty.hwcrypto.unittest.opaque_handle".
Definition HWCRYPTO_UNITTEST_OPAQUE_HANDLE2_ID : string :=
  "com.android.trusty.hwcrypto.unittest.opaque_handle2".
Definition HWCRYPTO_UNITTEST_OPAQUE_HANDLE_NOACCESS_ID : string :=
  "com.android.trusty.hwcrypto.unittest.opaque_handle_noaccess".
Definition HWCRYPTO_UNITTEST_OPAQUE_DERIVED_ID : string :=
  "com.android.trusty.hwcrypto.unittest.opaque_derived".
Definition STORAGE_AUTH_KEY_SIZE : Z := 32.

(** Without the NULs that end them, which the tests never look at. *)
Definition UNITTEST_KEYSLOT : bytes := str "unittestkeyslotunittestkeyslotun".
Definition UNITTEST_DERIVED_KEYSLOT : bytes := str "unittestderivedkeyslotunittestde".

Section Tests.
Context {W : Type} `{!Uapi} `{!HwkeyIface} `{!HwkeyClient W}.
Abbreviation C := (M (world ut_state unit W)).

(** The content of uninitialised buffers of a size. *)
Context (stack : Z → bytes).

Definition note (what : string) : C unit := mod_loc (with_check what).
Definition expect (what : string) (b : bool) : C unit := if b then ret tt else note what.

Definition zeros (n : Z) : bytes := replicate (Z.to_nat n) 0.

(** [hwkey_get_keyslot_data(session, slot_id, dest, &size)], [size] being that
    of [dest]. *)
Definition get_keyslot (session : Z) (slot_id dest : bytes) : C (Z * bytes * Z) :=
  r ← env_call (k_hwkey_get_keyslot_data session slot_id (Z.of_nat (length dest)));
  let '(rc, data, size) := r in
  if (length data <=? length dest)%nat then ret (rc, overwrite data dest, size)
  else stop OutOfBounds.

(** A buffer given as a C string. *)
Definition c_string (buf : bytes) : C bytes :=
  if bool_decide (0 ∈ buf) then ret (cstr buf) else stop OutOfBounds.

Definition equal (n : Z) (a b : bytes) : bool :=
  bool_decide (take (Z.to_nat n) a = take (Z.to_nat n) b).

(** TEST_F_SETUP and TEST_F_TEARDOWN. *)
Definition hwkey_setup : C unit :=
  mod_loc (with_session INVALID_IPC_HANDLE);;
  rc ← env_call k_hwkey_open;
  if 0 <=? rc then mod_loc (with_session rc) else note "hwkey_open".
Definition hwkey_teardown : C unit :=
  s ← get_loc hwkey_session;
  env_call (k_hwkey_close s).

(** Closing the fixture's session and opening another one; [k] follows, unless
    that fails. *)
Definition reconnect (k : C unit) : C unit :=
  s ← get_loc hwkey_session;
  env_call (k_hwkey_close s);;
  new_sess ← env_call k_hwkey_open;
  if 0 <=? new_sess then mod_loc (with_session new_sess);; k else note "new_sess".

(** * 2. Derivation *)

Definition src_data : bytes := str "thirtytwo-bytes-of-nonsense-data".
Definition src_data2 : bytes := str "thirtytwo-byt3s-of-nons3ns3-data".

(** [hwkey_derive(session, &kdf_version, src, dest, size)], [size] being that
    of [src]. *)
Definition derive (session kdf_version : Z) (src dest : bytes) : C (Z * bytes * Z) :=
  r ← env_call (k_hwkey_derive session kdf_version src);
  let '(rc, data, kdf_version) := r in
  if (length data <=? length dest)%nat then ret (rc, overwrite data dest, kdf_version)
  else stop OutOfBounds.

Definition generic_invalid_session : C unit :=
  r ← derive INVALID_IPC_HANDLE HWKEY_KDF_VERSION_BEST (src_data ++ [0]) (stack 33);
  let '(rc, _, _) := r in
  expect "generic - bad handle" (rc =? ERR_BAD_HANDLE).

Definition generic_closed_session : C unit :=
  session ← env_call k_hwkey_open;
  expect "generic - open" (0 <=? session);;
  env_call (k_hwkey_close session);;
  r ← derive session HWKEY_KDF_VERSION_BEST (src_data ++ [0]) (stack 33);
  let '(rc, _, _) := r in
  expect "generic - closed handle" (rc =? ERR_NOT_FOUND).

Definition derive_repeatable : C unit :=
  s ← get_loc hwkey_session;
  r ← derive s HWKEY_KDF_VERSION_BEST src_data (zeros 32);
  let '(rc, dest, kdf_version) := r in
  expect "derive repeatable - initial derivation" (rc =? NO_ERROR);;
  expect "derive repeatable - kdf version" (negb (kdf_version =? HWKEY_KDF_VERSION_BEST));;
  r ← derive s kdf_version src_data (zeros 32);
  let '(rc, dest2, _) := r in
  expect "derive repeatable - second derivation" (rc =? NO_ERROR);;
  expect "derive repeatable - equal" (equal 32 dest dest2);;
  expect "derive repeatable - same as seed" (negb (equal 32 dest src_data)).

Definition derive_different : C unit :=
  s ← get_loc hwkey_session;
  r ← derive s HWKEY_KDF_VERSION_BEST src_data (zeros 32);
  let '(rc, dest, kdf_version) := r in
  expect "derive not repeatable - initial derivation" (rc =? NO_ERROR);;
  expect "derive not repeatable - kdf version" (negb (kdf_version =? HWKEY_KDF_VERSION_BEST));;
  r ← derive s kdf_version src_data2 (zeros 32);
  let '(rc, dest2, _) := r in
  expect "derive not repeatable - second derivation" (rc =? NO_ERROR);;
  expect "derive not repeatable - equal" (negb (equal 32 dest dest2));;
  expect "derive not repeatable - equal to source" (negb (equal 32 dest src_data));;
  expect "derive not repeatable - equal to source" (negb (equal 32 dest2 src_data2)).

(** No source, no destination. *)
Definition derive_zero_length : C unit :=
  s ← get_loc hwkey_session;
  r ← derive s HWKEY_KDF_VERSION_BEST [] [];
  let '(rc, _, _) := r in
  expect "derive zero length" (rc =? ERR_NOT_VALID).

(** * 3. Key slots *)

Definition get_storage_auth : C unit :=
  s ← get_loc hwkey_session;
  r ← get_keyslot s (str RPMB_STORAGE_AUTH_KEY_ID) (stack STORAGE_AUTH_KEY_SIZE);
  let '(rc, _, _) := r in
  expect "auth key accessible when it shouldn't be" (rc =? ERR_NOT_FOUND).

(** With the unit tests' keys or without. *)
Context (WITH_HWCRYPTO_UNITTEST : bool).

Definition get_keybox : C unit :=
  s ← get_loc hwkey_session;
  r ← get_keyslot s (str HWCRYPTO_UNITTEST_KEYBOX_ID) (stack 43);
  let '(rc, dest, _) := r in
  if WITH_HWCRYPTO_UNITTEST then
    expect "get hwcrypto-unittest keybox" (rc =? NO_ERROR);;
    expect "get storage auth key invalid" (equal 32 UNITTEST_KEYSLOT dest)
  else expect "get hwcrypto-unittest keybox" (rc =? ERR_NOT_FOUND).

Definition get_derived_keybox : C unit :=
  s ← get_loc hwkey_session;
  r ← get_keyslot s (str HWCRYPTO_UNITTEST_DERIVED_KEYBOX_ID) (stack 32);
  let '(rc, dest, _) := r in
  if WITH_HWCRYPTO_UNITTEST then
    expect "get hwcrypto-unittest derived keybox" (rc =? NO_ERROR);;
    expect "get derived invalid" (equal 32 UNITTEST_DERIVED_KEYSLOT dest)
  else expect "get hwcrypto-unittest derived keybox" (rc =? ERR_NOT_FOUND).

Definition get_opaque_handle : C unit :=
  s ← get_loc hwkey_session;
  r ← get_keyslot s (str HWCRYPTO_UNITTEST_OPAQUE_HANDLE_ID) (zeros HWKEY_OPAQUE_HANDLE_MAX_SIZE);
  let '(rc, dest, actual_size) := r in
  if WITH_HWCRYPTO_UNITTEST then
    expect "get hwcrypto-unittest opaque keybox" (rc =? NO_ERROR);;
    expect "actual_size" (actual_size <=? HWKEY_OPAQUE_HANDLE_MAX_SIZE);;
    expect "opaque handle is unexpected size"
      (strnlen dest HWKEY_OPAQUE_HANDLE_MAX_SIZE <? HWKEY_OPAQUE_HANDLE_MAX_SIZE)
  else expect "hwcrypto-unittest not enabled" (rc =? ERR_NOT_FOUND).

(** A handle of a slot, with the checks that follow it everywhere. *)
Definition obtain (session : Z) (slot_id : string) (handle : bytes) : C bytes :=
  r ← get_keyslot session (str slot_id) handle;
  let '(rc, handle, actual_size) := r in
  expect "get hwcrypto-unittest opaque keybox" (rc =? NO_ERROR);;
  expect "actual_size" (actual_size <=? HWKEY_OPAQUE_HANDLE_MAX_SIZE);;
  ret handle.

(** A key by a handle: what the buffer holds after. *)
Definition open_key (session : Z) (handle key_buf : bytes) (size : Z) : C bytes :=
  id ← c_string handle;
  r ← get_keyslot session id key_buf;
  let '(rc, key_buf, actual_size) := r in
  expect "handle was not valid" (rc =? NO_ERROR);;
  expect "wrong key length" (actual_size =? size);;
  expect "opaque key did not match expected value" (equal 32 UNITTEST_KEYSLOT key_buf);;
  ret key_buf.

(** A handle that opens nothing. *)
Definition refused (what : string) (session : Z) (handle key_buf : bytes) : C bytes :=
  id ← c_string handle;
  r ← get_keyslot session id key_buf;
  let '(rc, key_buf, _) := r in
  expect what (rc =? ERR_NOT_FOUND);;
  ret key_buf.

Definition get_opaque_key : C unit :=
  s ← get_loc hwkey_session;
  handle ← obtain s HWCRYPTO_UNITTEST_OPAQUE_HANDLE_ID (zeros HWKEY_OPAQUE_HANDLE_MAX_SIZE);
  expect "Unexpected opaque handle size"
    (strnlen handle HWKEY_OPAQUE_HANDLE_MAX_SIZE <? HWKEY_OPAQUE_HANDLE_MAX_SIZE);;
  id ← c_string handle;
  r ← get_keyslot s id (zeros 32);
  let '(rc, key_buf, _) := r in
  expect "get hwcrypto-unittest opaque key failed" (rc =? NO_ERROR);;
  expect "opaque key did not match expected value" (equal 32 UNITTEST_KEYSLOT key_buf).

Definition get_multiple_opaque_handles : C unit :=
  s ← get_loc hwkey_session;
  handle1 ← obtain s HWCRYPTO_UNITTEST_OPAQUE_HANDLE_ID (zeros HWKEY_OPAQUE_HANDLE_MAX_SIZE);
  handle2 ← obtain s HWCRYPTO_UNITTEST_OPAQUE_HANDLE_NOACCESS_ID (zeros HWKEY_OPAQUE_HANDLE_MAX_SIZE);
  expect "opaque handles should not be the same"
    (negb (equal HWKEY_OPAQUE_HANDLE_MAX_SIZE handle1 handle2));;
  key_buf ← open_key s handle1 (zeros 33) 32;
  refused "should not be able to retrieve key for second handle" s handle2 (zeros 33);;
  reconnect (
    s ← get_loc hwkey_session;
    key_buf ← refused "handle was still valid" s handle1 (zeros 33);
    refused "handle was still valid" s handle2 key_buf;;
    ret tt).

Definition opaque_handle_multiple_sessions : C unit :=
  s ← get_loc hwkey_session;
  handle1 ← obtain s HWCRYPTO_UNITTEST_OPAQUE_HANDLE_ID (zeros HWKEY_OPAQUE_HANDLE_MAX_SIZE);
  new_sess ← env_call k_hwkey_open;
  if new_sess <? 0 then note "new_sess" else
  r ← get_keyslot new_sess (str HWCRYPTO_UNITTEST_OPAQUE_HANDLE_ID)
        (zeros HWKEY_OPAQUE_HANDLE_MAX_SIZE);
  let '(rc, handle2, _) := r in
  expect "retrieve same handle twice" (rc =? ERR_ALREADY_EXISTS);;
  handle2 ← obtain new_sess HWCRYPTO_UNITTEST_OPAQUE_HANDLE2_ID handle2;
  open_key s handle1 (zeros 33) 32;;
  open_key s handle2 (zeros 33) 32;;
  open_key new_sess handle1 (zeros 33) 32;;
  key_buf ← open_key new_sess handle2 (zeros 33) 32;
  env_call (k_hwkey_close new_sess);;
  id ← c_string handle1;
  r ← get_keyslot s id key_buf;
  let '(rc, key_buf, _) := r in
  expect "first session handle wasn't valid" (rc =? NO_ERROR);;
  key_buf ← refused "second session handle was still valid" s handle2 key_buf;
  reconnect (
    s ← get_loc hwkey_session;
    key_buf ← refused "handle was still valid" s handle1 key_buf;
    refused "handle was still valid" s handle2 key_buf;;
    ret tt).

Definition try_empty_opaque_handle : C unit :=
  reconnect (
    s ← get_loc hwkey_session;
    r ← get_keyslot s [] (zeros 32);
    let '(rc, _, _) := r in
    expect "retrieving a key with an empty access token succeeded" (rc =? ERR_NOT_FOUND)).

Definition get_opaque_derived_key : C unit :=
  s ← get_loc hwkey_session;
  r ← get_keyslot s (str HWCRYPTO_UNITTEST_OPAQUE_DERIVED_ID) (zeros HWKEY_OPAQUE_HANDLE_MAX_SIZE);
  let '(rc, handle, actual_size) := r in
  expect "get hwcrypto-unittest opaque derived key" (rc =? NO_ERROR);;
  expect "actual_size" (actual_size <=? HWKEY_OPAQUE_HANDLE_MAX_SIZE);;
  expect "Unexpected opaque handle size"
    (strnlen handle HWKEY_OPAQUE_HANDLE_MAX_SIZE =? u32 (actual_size - 1));;
  id ← c_string handle;
  r ← get_keyslot s id (stack 32);
  let '(rc, key_buf, actual_size) := r in
  expect "get hwcrypto-unittest derived key failed" (rc =? NO_ERROR);;
  expect "Unexpected opaque handle size" (actual_size =? 32);;
  expect "get derived invalid" (equal 32 UNITTEST_DERIVED_KEYSLOT key_buf).

(** The last five are only built with the unit tests' keys. *)
Definition hwkey_tests : list (C unit) :=
  [generic_invalid_session; generic_closed_session; derive_repeatable; derive_different;
   derive_zero_length; get_storage_auth; get_keybox; get_derived_keybox;
   get_opaque_handle] ++
  if WITH_HWCRYPTO_UNITTEST then
    [get_opaque_key; get_multiple_opaque_handles; opaque_handle_multiple_sessions;
     try_empty_opaque_handle; get_opaque_derived_key]
  else [].

Definition run_test (test : C unit) : C unit := hwkey_setup;; test;; hwkey_teardown.
Definition run_hwkey_tests : C unit := foldM (λ _, run_test) tt hwkey_tests.
End Tests.

(** * 4. Random numbers *)

Section Hwrng.
Context {W : Type} `{!Uapi} `{!HwkeyClient W}.
Abbreviation C := (M (world ut_state unit W)).

(** [_hist[b]++] for the bytes of [data]. *)
Definition hist_inc (hist : list Z) (b : Z) : list Z :=
  alter (λ n, u32 (n + 1)) (Z.to_nat b) hist.
Definition hwrng_update_hist (data : bytes) : C unit :=
  h ← get_loc _hist;
  if forallb (λ b, (0 <=? b) && (b <? Z.of_nat (length h))) data
  then mod_loc (with_hist (λ h, foldl hist_inc h data)) else stop OutOfBounds.

(** [trusty_rng_hw_rand(_rng_buf, n)]. *)
Definition rng_request (n : Z) : C Z :=
  buf ← get_loc _rng_buf;
  if Z.of_nat (length buf) <? n then stop OutOfBounds else
  r ← env_call (k_trusty_rng_hw_rand n);
  let '(rc, data) := r in
  mod_loc (with_rng_buf (overwrite (take (Z.to_nat n) data)));;
  expect "hwrng test" (rc =? NO_ERROR);;
  ret rc.

(** The address of [_rng_buf] is not printed; what is printed is not kept. *)
Definition show_data_test : C unit :=
  rc ← rng_request 32;
  if rc =? NO_ERROR then
    buf ← get_loc _rng_buf;
    hwrng_show_data buf 0 32;;
    ret tt
  else ret tt.

(** The loop of [var_rng_req_test]; [rand() % sizeof(_rng_buf) + 1] bytes. *)
Fixpoint var_rng_req_loop (n : nat) : C unit :=
  match n with
  | O => ret tt
  | S n =>
    z ← env_call k_rand;
    buf ← get_loc _rng_buf;
    rng_request (u64 z mod Z.of_nat (length buf) + 1);;
    var_rng_req_loop n
  end.
Definition var_rng_req_test : C unit := var_rng_req_loop 100.

Fixpoint stats_loop (n : nat) (req_cnt : Z) : C unit :=
  match n with
  | O => ret tt
  | S n =>
    rc ← rng_request req_cnt;
    (if negb (rc =? NO_ERROR) then ret tt else
     buf ← get_loc _rng_buf;
     hwrng_update_hist (take (Z.to_nat req_cnt) buf));;
    stats_loop n req_cnt
  end.

(** The sums of the two loops over the histogram. *)
Definition hist_sum (h : list Z) : Z := foldl (λ cnt n, u32 (cnt + n)) 0 h.
Definition hist_dev (ave : Z) (h : list Z) : Z :=
  foldl (λ dev n, u32 (dev + if ave <? n then u32 (n - ave) else u32 (ave - n))) 0 h.

Definition stats_test : C unit :=
  let req_cnt := 256 in
  let exp_cnt := u32 (1000 * req_cnt) in
  mod_loc (with_hist (λ h, replicate (length h) 0));;
  stats_loop 1000 req_cnt;;
  h ← get_loc _hist;
  let cnt := hist_sum h in
  let ave := cnt / 256 in
  expect "hwrng ttl sample cnt" (exp_cnt =? cnt);;
  expect "hwrng eve sample cnt" (1000 =? ave);;
  let dev := hist_dev ave h / 256 in
  expect "average dev" (dev <? 50).
End Hwrng.
