(* ===== verification/HwrngTestCorrect.v ===== *)
(** The random number tests of HwkeyTest.v: when the histogram test passes. *)

From S2P Require Import Prelude Ipc HwkeyTest.

(** * 1. Histograms *)

Definition total (h : list Z) : Z := foldr Z.add 0 h.
(** The sum of the distances to [a]. *)
Definition deviation (a : Z) (h : list Z) : Z := foldr (λ n d, Z.abs (n - a) + d) 0 h.

Section Histograms.
Implicit Types h : list Z.

Lemma total_nonneg h : Forall (λ n, 0 ≤ n) h → 0 ≤ total h.
Proof. induction 1; unfold total in *; cbn; lia. Qed.

Lemma total_bounds h n : Forall (λ n, 0 ≤ n) h → n ∈ h → 0 ≤ n ≤ total h.
Proof.
  intros Hh. induction Hh as [|m h Hm Hh IH]; intros Hn; [by apply not_elem_of_nil in Hn|].
  pose proof (total_nonneg h Hh). unfold total in *. cbn.
  apply elem_of_cons in Hn as [->|Hn]; [lia|]. specialize (IH Hn). lia.
Qed.

(** One more sample. *)
Lemma alter_total h i :
  Forall (λ n, 0 ≤ n) h → (i < length h)%nat → total h + 1 < 2 ^ 32 →
  let h' := alter (λ n, u32 (n + 1)) i h in
  Forall (λ n, 0 ≤ n) h' ∧ length h' = length h ∧ total h' = total h + 1.
Proof.
  intros Hh. revert i. induction Hh as [|n h Hn Hh IH]; intros i Hi Ht; cbn in Hi; [lia|].
  pose proof (total_nonneg h Hh). change (total (n :: h)) with (n + total h) in *. destruct i as [|i].
  - cbn [alter list_alter]. rewrite u32_small by lia.
    split_and!; [constructor; [lia|done]|done|]. unfold total. cbn. lia.
  - destruct (IH i) as (H1 & H2 & H3); [lia|lia|].
    split_and!; [by constructor|cbn; by f_equal|].
    change (n + total (alter (λ n, u32 (n + 1)) i h) = n + total h + 1). lia.
Qed.

Lemma hist_fold data h :
  Forall (λ n, 0 ≤ n) h → Forall (λ b, 0 ≤ b < Z.of_nat (length h)) data →
  total h + Z.of_nat (length data) < 2 ^ 32 →
  let h' := foldl hist_inc h data in
  Forall (λ n, 0 ≤ n) h' ∧ length h' = length h ∧ total h' = total h + Z.of_nat (length data).
Proof.
  revert h. induction data as [|b data IH]; intros h Hh Hd Ht; cbn [foldl length] in *.
  { split_and!; [done|done|lia]. }
  apply Forall_cons in Hd as [Hb Hd].
  destruct (alter_total h (Z.to_nat b) Hh) as (H1 & H2 & H3); [lia|lia|].
  destruct (IH (hist_inc h b)) as (H4 & H5 & H6); unfold hist_inc in *; [done|by rewrite H2|lia|]. split_and!; [done|congruence|lia].
Qed.

(** The loops of the checks compute the sums. *)
Lemma hist_sum_total h c :
  Forall (λ n, 0 ≤ n) h → 0 ≤ c → c + total h < 2 ^ 32 →
  foldl (λ cnt n, u32 (cnt + n)) c h = c + total h.
Proof.
  intros Hh. revert c. induction Hh as [|n h Hn Hh IH]; intros c Hc Ht; unfold total in *; cbn in *; [lia|].
  pose proof (total_nonneg h Hh) as Hp. unfold total in Hp.
  rewrite u32_small by lia. rewrite IH; lia.
Qed.

Lemma deviation_nonneg a h : 0 ≤ deviation a h.
Proof. induction h as [|n h IH]; unfold deviation in *; cbn; lia. Qed.

Lemma hist_dev_deviation a h c :
  Forall (λ n, 0 ≤ n < 2 ^ 32) h → 0 ≤ a < 2 ^ 32 → 0 ≤ c → c + deviation a h < 2 ^ 32 →
  foldl (λ dev n, u32 (dev + if a <? n then u32 (n - a) else u32 (a - n))) c h = c + deviation a h.
Proof.
  intros Hh Ha. revert c. induction Hh as [|n h Hn Hh IH]; intros c Hc Ht; unfold deviation in *; cbn in *; [lia|].
  pose proof (deviation_nonneg a h) as Hp. unfold deviation in Hp.
  assert ((if a <? n then u32 (n - a) else u32 (a - n)) = Z.abs (n - a)) as ->
    by (destruct (Z.ltb_spec a n); rewrite u32_small by lia; lia).
  rewrite u32_small by lia. rewrite IH; lia.
Qed.

Lemma deviation_bound a h :
  0 ≤ a → Forall (λ n, 0 ≤ n) h → deviation a h ≤ total h + Z.of_nat (length h) * a.
Proof. intros Ha. induction 1; unfold deviation, total in *; cbn [foldr length] in *; lia. Qed.
End Histograms.

(** * 2. The test *)

Section Stats.
Context {W : Type} `{!Uapi} `{!HwkeyClient W}.
Implicit Types w : world ut_state unit W.

(** The random number service serves every request of the test. *)
Definition always_served : Prop := ∀ e, ∃ data e',
  k_trusty_rng_hw_rand 256 e = ((NO_ERROR, data), e') ∧ length data = 256%nat ∧ Forall is_byte data.

Definition sampled (n : Z) (cs : list string) w : Prop :=
  checks (loc w) = cs ∧ length (_hist (loc w)) = 256%nat ∧ (256 ≤ length (_rng_buf (loc w)))%nat ∧
  Forall (λ n, 0 ≤ n) (_hist (loc w)) ∧ total (_hist (loc w)) = n.

Lemma stats_loop_spec k n cs w :
  always_served → sampled n cs w → 0 ≤ n → n + 256 * Z.of_nat k < 2 ^ 32 →
  wp (stats_loop k 256) (λ _, sampled (n + 256 * Z.of_nat k) cs) w.
Proof.
  intros Hs. revert n w. induction k as [|k IH]; intros n w (Hc & Hl & Hb & Hh & Ht) Hn Hmax; cbn [stats_loop].
  { apply wp_ret. split_and!; try done. lia. }
  unfold rng_request. ipc_steps. cbn [loc]. destruct (Z.ltb_spec (Z.of_nat (length (_rng_buf (loc w)))) 256); [lia|].
  ipc_steps. apply wp_env_call. intros [rc data] v E.
  destruct (Hs (env w)) as (data' & e' & E' & Hd & Hbyte). rewrite E in E'. injection E' as -> -> ->.
  ipc_steps. unfold expect. rewrite Z.eqb_refl. cbn [negb]. ipc_steps.
  rewrite Z.eqb_refl, (take_ge data') by (cbn; lia). cbn [negb]. ipc_steps.
  cbn [with_rng_buf _rng_buf].
  assert (take (Z.to_nat 256) (overwrite data' (_rng_buf (loc w))) = data') as ->
    by (change (Z.to_nat 256) with 256%nat; rewrite <- Hd; apply take_overwrite).
  assert (Forall (λ b, 0 ≤ b < Z.of_nat (length (_hist (loc w)))) data') as Hr
    by (rewrite Hl; exact Hbyte).
  unfold hwrng_update_hist. ipc_steps. cbn [with_rng_buf _hist].
  rewrite (proj2 (forallb_forall _ data')).
  2: { intros b Hin%list_elem_of_In. apply (proj1 (Forall_forall _ _) Hr) in Hin. lia. }
  ipc_steps. destruct (hist_fold data' (_hist (loc w)) Hh Hr) as (H1 & H2 & H3); [lia|].
  replace (n + 256 * Z.of_nat (S k)) with (n + 256 + 256 * Z.of_nat k) by lia.
  apply IH; [|lia|lia]. rewrite Hd, Ht in H3. split_and!; [done|cbn; congruence| |done|exact H3].
  cbn. rewrite length_overwrite; lia.
Qed.

(** C29. The histogram test of the random number service.  If every request is
    served with 256 bytes, the test returns with a histogram of exactly
    256000 samples, no addition of its loops wrapping around; the checks on
    the number of samples and on their average hold, and the test records a
    failure exactly when the mean distance from 1000 samples per byte value
    is 50 or more. *)
Theorem stats_test_correct w :
  always_served → length (_hist (loc w)) = 256%nat → (256 ≤ length (_rng_buf (loc w)))%nat →
  wp stats_test (λ _ w',
    total (_hist (loc w')) = 256000 ∧
    checks (loc w') =
      if deviation 1000 (_hist (loc w')) / 256 <? 50 then checks (loc w)
      else "average dev"%string :: checks (loc w)) w.
Proof.
  intros Hs Hl Hb. unfold stats_test. apply wp_bind, wp_mod_loc, wp_bind.
  eapply wp_mono; [eapply (stats_loop_spec 1000 0 (checks (loc w))); [done| |lia|by vm_compute]|].
  { split_and!; [done|cbn; by rewrite length_replicate|done|by apply Forall_replicate|].
    cbn. rewrite Hl. by vm_compute. }
  intros _ w' (Hc & Hl' & _ & Hh & Ht). change (0 + 256 * Z.of_nat 1000) with 256000 in Ht.
  ipc_steps. unfold hist_sum, hist_dev. rewrite hist_sum_total by (rewrite ?Ht; done || lia).
  rewrite Ht. change (u32 (1000 * 256)) with 256000. change (0 + 256000) with 256000.
  change (256000 / 256) with 1000. unfold expect. cbn [Z.eqb Pos.eqb]. ipc_steps.
  pose proof (deviation_bound 1000 _ ltac:(lia) Hh) as Hd. rewrite Ht, Hl' in Hd.
  rewrite hist_dev_deviation; [|apply Forall_forall|lia|lia|lia].
  2: { intros n Hn. pose proof (total_bounds _ _ Hh Hn). lia. }
  rewrite Z.add_0_l. destruct (_ <? 50) eqn:E; unfold note; ipc_steps; cbn [with_check _hist checks];
    rewrite E; by rewrite Hc.
Qed.
End Stats.
