(* ===== verification/HwkeyTestCorrect.v ===== *)
(** The unit tests of HwkeyTest.v against what the key service promises: a
    client library that delivers requests to a service with the table of
    HwkeyTable.v and the slots of HwkeyProvider.v passes them. *)

From S2P Require Import Prelude Ipc HwrngDev Evp Hwkey HwkeyProps HwkeyCorrect HwkeyProvider HwkeyTable HwkeyTest.

(** * 1. The contract *)

(** Since the start, some call of the kernel, the device or a library under a
    service failed, or gave something unexpected, such as a token that a live
    handle has. *)
Class Troubles (W : Type) := { k_trouble : W → bool }.

(** What a client can tell of the service: the contexts of the open sessions
    and the table of handles; [k_ok] is its own invariant. *)
Class KeyService (W : Type) := {
  k_troubles :: Troubles W;
  k_ok : W → Prop;
  k_ctx : W → gmap Z ptr;
  k_table : W → list entry
}.

Section Contract.
Context {D : Type} `{!Uapi} `{!HwkeyIface} `{!HwrngDev D} {W : Type} `{!HwkeyClient W} `{!KeyService W}.
Context (slots : list (hwkey_keyslot D)) (u : uuid) (kdf : bytes → bytes).

(** The key function behind a name. *)
Definition key_for (id : bytes) (T : list entry) (f : key_fn D) : Prop :=
  (∃ j s, select_slot u id slots 0 = Some (j, s) ∧ handler s = ProviderFn f) ∨
  (select_slot u id slots 0 = None ∧ ∃ d, find_key slots u id T = Some d ∧ f = retriever d).

(** An answer to a request without trouble: the return code, the data on
    success, the table afterwards. *)
Inductive answered_with (p : ptr) (id : bytes) (T : list entry) :
    Z → option bytes → list entry → Prop :=
| AExists j s o :
    select_slot u id slots 0 = Some (j, s) → handler s = GetKeyHandle o → j ∈ e_slot <$> T →
    answered_with p id T ERR_ALREADY_EXISTS None T
| ANew j s o t :
    select_slot u id slots 0 = Some (j, s) → handler s = GetKeyHandle o → j ∉ e_slot <$> T →
    token_ok t → t ∉ e_token <$> T →
    answered_with p id T NO_ERROR (Some t) (T ++ [Entry p j t])
| AKey f data :
    key_for id T f → can_answer f HWKEY_NO_ERROR data →
    answered_with p id T NO_ERROR (Some data) T
| ANone :
    select_slot u id slots 0 = None → find_key slots u id T = None →
    answered_with p id T ERR_NOT_FOUND None T.

Class KeyServiceLaws : Prop := {
  open_trouble e rc e' : k_hwkey_open e = (rc, e') → k_trouble e = true → k_trouble e' = true;
  close_trouble s e r e' : k_hwkey_close s e = (r, e') → k_trouble e = true → k_trouble e' = true;
  get_trouble s id n e r e' :
    k_hwkey_get_keyslot_data s id n e = (r, e') → k_trouble e = true → k_trouble e' = true;
  derive_trouble s ver src e r e' :
    k_hwkey_derive s ver src e = (r, e') → k_trouble e = true → k_trouble e' = true;
  max_size : HWKEY_OPAQUE_HANDLE_SIZE ≤ HWKEY_OPAQUE_HANDLE_MAX_SIZE < 2 ^ 32;
  open_ok e rc e' :
    k_hwkey_open e = (rc, e') → k_trouble e' = false → k_ok e →
    k_ok e' ∧ 0 ≤ rc ∧ k_ctx e !! rc = None ∧ k_table e' = k_table e ∧
    ∃ p, (∀ s q, k_ctx e !! s = Some q → q ≠ p) ∧ ¬ (p ∈ e_owner <$> k_table e) ∧
         k_ctx e' = <[rc := p]> (k_ctx e);
  close_ok s p e r e' :
    k_hwkey_close s e = (r, e') → k_trouble e' = false → k_ok e → k_ctx e !! s = Some p →
    k_ok e' ∧ k_ctx e' = delete s (k_ctx e) ∧ k_table e' = revoke p (k_table e);
  get_bound s id n e rc data m e' :
    0 ≤ n → k_hwkey_get_keyslot_data s id n e = ((rc, data, m), e') → Z.of_nat (length data) ≤ n;
  get_ok s p id n e rc data m e' :
    k_hwkey_get_keyslot_data s id n e = ((rc, data, m), e') → k_trouble e' = false →
    k_ok e → k_ctx e !! s = Some p → 0 ∉ id →
    k_ok e' ∧ ∃ o, answered_with p (id ++ [0]) (k_table e) rc o (k_table e') ∧ k_ctx e' = k_ctx e ∧
      ∀ d, o = Some d → Z.of_nat (length d) ≤ n → data = d ∧ m = Z.of_nat (length d);
  derive_bound s ver src e rc data ver' e' :
    k_hwkey_derive s ver src e = ((rc, data, ver'), e') → (length data ≤ length src)%nat;
  derive_ok s p ver src e rc data ver' e' :
    k_hwkey_derive s ver src e = ((rc, data, ver'), e') → k_trouble e' = false →
    k_ok e → k_ctx e !! s = Some p → Z.of_nat (length src) ≤ HWKEY_MAX_PAYLOAD_SIZE →
    k_ok e' ∧ k_ctx e' = k_ctx e ∧ k_table e' = k_table e ∧
    (ver = HWKEY_KDF_VERSION_BEST ∨ ver = HWKEY_KDF_VERSION_1 →
     if decide (src = []) then rc = ERR_NOT_VALID
     else rc = NO_ERROR ∧ data = kdf src ∧ ver' = HWKEY_KDF_VERSION_1);
  (** Without a session, the kernel refuses. *)
  derive_closed s ver src e rc data ver' e' :
    k_hwkey_derive s ver src e = ((rc, data, ver'), e') → k_trouble e' = false →
    k_ok e → k_ctx e !! s = None →
    k_ok e' ∧ k_ctx e' = k_ctx e ∧ k_table e' = k_table e ∧
    rc = if s =? INVALID_IPC_HANDLE then ERR_BAD_HANDLE else ERR_NOT_FOUND;
  sessions_nonneg e s p : k_ok e → k_ctx e !! s = Some p → 0 ≤ s
}.
End Contract.

(** * 2. Runs without trouble *)

Section Runs.
Context {W : Type} `{!Troubles W}.
Abbreviation C := (M (world ut_state unit W)).
Implicit Types w : world ut_state unit W.

(** Unless there was trouble, [m] returns and ends in [P]. *)
Definition wpt {A} (m : C A) (P : A → world ut_state unit W → Prop) w : Prop :=
  match m w with
  | Ret a w' => k_trouble (env w') = false → P a w'
  | Halt _ w' => k_trouble (env w') = true
  end.

(** Trouble is not forgotten. *)
Definition keeps {A} (m : C A) : Prop := ∀ w, k_trouble (env w) = true →
  match m w with Ret _ w' | Halt _ w' => k_trouble (env w') = true end.

Lemma wpt_bind {A B} (m : C A) (k : A → C B) P w :
  (∀ a, keeps (k a)) → wpt m (λ a, wpt (k a) P) w → wpt (bind m k) P w.
Proof.
  intros Hk. unfold wpt, bind. destruct (m w) as [a w'|h w']; [|done]. intros Hm.
  destruct (k_trouble (env w')) eqn:E; [|by apply Hm].
  specialize (Hk a w' E). destruct (k a w'); [congruence|done].
Qed.

Lemma wpt_mono {A} (m : C A) (P Q : A → world ut_state unit W → Prop) w :
  wpt m P w → (∀ a w', P a w' → Q a w') → wpt m Q w.
Proof. unfold wpt. destruct (m w); auto. Qed.

Lemma wpt_wp {A} (m : C A) (P : A → world ut_state unit W → Prop) w : wp m P w → wpt m P w.
Proof. unfold wpt, wp. by destruct (m w). Qed.

Lemma wpt_ret {A} (a : A) (P : A → world ut_state unit W → Prop) w : P a w → wpt (ret a) P w.
Proof. unfold wpt, ret. auto. Qed.

Lemma wpt_get_loc {A} (f : ut_state → A) P w : P (f (loc w)) w → wpt (get_loc f) P w.
Proof. unfold wpt. cbn. auto. Qed.

Lemma wpt_mod_loc f (P : unit → world ut_state unit W → Prop) w :
  P tt (set_loc (f (loc w)) w) → wpt (mod_loc f) P w.
Proof. unfold wpt. cbn. auto. Qed.

Lemma wpt_expect what b (P : unit → world ut_state unit W → Prop) w :
  b = true → P tt w → wpt (expect what b) P w.
Proof. intros -> HP. by apply wpt_ret. Qed.

Lemma wpt_env_call {A} (f : W → A * W) P w :
  (∀ a v, f (env w) = (a, v) → k_trouble v = false → P a (World (loc w) (dev w) v (trace w))) →
  wpt (env_call f) P w.
Proof. intros HP. unfold wpt, env_call. destruct (f (env w)) as [a v] eqn:E. cbn. intros Hv. by apply HP. Qed.

Lemma keeps_bind {A B} (m : C A) (k : A → C B) : keeps m → (∀ a, keeps (k a)) → keeps (bind m k).
Proof.
  intros Hm Hk w Ht. unfold bind. specialize (Hm w Ht). destruct (m w) as [a w'|h w']; [|done].
  by apply Hk.
Qed.
Lemma keeps_ret {A} (a : A) : keeps (ret a).
Proof. by intros w. Qed.
Lemma keeps_stop {A} h : keeps (A := A) (stop h).
Proof. by intros w. Qed.
Lemma keeps_get_loc {A} (f : ut_state → A) : keeps (get_loc f).
Proof. by intros w. Qed.
Lemma keeps_mod_loc f : keeps (mod_loc f).
Proof. by intros w. Qed.
Lemma keeps_expect what b : keeps (expect what b).
Proof. destruct b; [apply keeps_ret|apply keeps_mod_loc]. Qed.
Lemma keeps_fetch {A} (l : list A) i : keeps (fetch l i).
Proof. intros w Ht. unfold fetch. destruct (l !! _); [|done]. by destruct (0 <=? i). Qed.
Lemma keeps_foldM {A B} (f : B → A → C B) b l : (∀ b a, keeps (f b a)) → keeps (foldM f b l).
Proof. intros Hf. revert b. induction l as [|a l IH]; intros b; [apply keeps_ret|]. by apply keeps_bind. Qed.
Lemma keeps_env_call {A} (f : W → A * W) :
  (∀ e a e', f e = (a, e') → k_trouble e = true → k_trouble e' = true) → keeps (env_call f).
Proof. intros Hf w Ht. unfold env_call. destruct (f (env w)) eqn:E. by eapply Hf. Qed.
End Runs.

(** [keeps_tac] follows the structure of a test. *)
Create HintDb keeps discriminated.
#[export] Hint Resolve keeps_ret keeps_stop keeps_get_loc keeps_mod_loc keeps_expect : keeps.
Ltac keeps_tac :=
  repeat lazymatch goal with
  | |- ∀ _, keeps _ => intros ?
  | |- keeps (bind _ _) => apply keeps_bind
  | |- keeps (if ?b then _ else _) => destruct b
  | |- keeps (match ?r with _ => _ end) => destruct r
  | |- keeps (note _) => apply keeps_mod_loc
  | |- keeps _ => solve [auto with keeps]
  end.

Section Keeps.
Context {D : Type} `{!Uapi} `{!HwkeyIface} `{!HwrngDev D} {W : Type} `{!HwkeyClient W}
  `{!KeyService W} {slots : list (hwkey_keyslot D)} {u : uuid} {kdf : bytes → bytes}
  `{!KeyServiceLaws slots u kdf}.

Lemma keeps_open : keeps (env_call k_hwkey_open).
Proof. apply keeps_env_call. intros e a e'. by eapply open_trouble. Qed.
Lemma keeps_close s : keeps (env_call (k_hwkey_close s)).
Proof. apply keeps_env_call. intros e a e'. by eapply close_trouble. Qed.
Lemma keeps_get_keyslot s id dest : keeps (get_keyslot s id dest).
Proof.
  apply keeps_bind; [|intros [[rc data] n]; destruct (_ <=? _)%nat; [apply keeps_ret|apply keeps_stop]].
  apply keeps_env_call. intros e a e'. by eapply get_trouble.
Qed.
Lemma keeps_derive s ver src dest : keeps (derive s ver src dest).
Proof.
  apply keeps_bind; [|intros [[rc data] v]; destruct (_ <=? _)%nat; [apply keeps_ret|apply keeps_stop]].
  apply keeps_env_call. intros e a e'. by eapply derive_trouble.
Qed.
Lemma keeps_c_string buf : keeps (c_string buf).
Proof. unfold c_string. destruct (bool_decide _); [apply keeps_ret|apply keeps_stop]. Qed.
End Keeps.
#[export] Hint Resolve keeps_c_string : keeps.
#[export] Hint Extern 1 (keeps (get_keyslot _ _ _)) => eapply keeps_get_keyslot : keeps.
#[export] Hint Extern 1 (keeps (derive _ _ _ _)) => eapply keeps_derive : keeps.
#[export] Hint Extern 1 (keeps (env_call k_hwkey_open)) => eapply keeps_open : keeps.
#[export] Hint Extern 1 (keeps (env_call (k_hwkey_close _))) => eapply keeps_close : keeps.

Section KeepsPieces.
Context {D : Type} `{!Uapi} `{!HwkeyIface} `{!HwrngDev D} {W : Type} `{!HwkeyClient W}
  `{!KeyService W} {slots : list (hwkey_keyslot D)} {u : uuid} {kdf : bytes → bytes}
  `{!KeyServiceLaws slots u kdf}.

Lemma keeps_obtain x id h : keeps (obtain x id h).
Proof. unfold obtain. keeps_tac. Qed.
Lemma keeps_open_key x h buf n : keeps (open_key x h buf n).
Proof. unfold open_key. keeps_tac. Qed.
Lemma keeps_refused what x h buf : keeps (refused what x h buf).
Proof. unfold refused. keeps_tac. Qed.
Lemma keeps_reconnect k : keeps k → keeps (reconnect k).
Proof. intros Hk. unfold reconnect. keeps_tac. Qed.

End KeepsPieces.
#[export] Hint Extern 1 (keeps (obtain _ _ _)) => eapply keeps_obtain : keeps.
#[export] Hint Extern 1 (keeps (open_key _ _ _ _)) => eapply keeps_open_key : keeps.
#[export] Hint Extern 1 (keeps (refused _ _ _ _)) => eapply keeps_refused : keeps.
#[export] Hint Extern 1 (keeps (reconnect _)) => eapply keeps_reconnect; keeps_tac : keeps.

(** * 3. The calls *)

Section Calls.
Context {D : Type} `{!Uapi} `{!HwkeyIface} `{!HwrngDev D} {W : Type} `{!HwkeyClient W}
  `{!KeyService W} {slots : list (hwkey_keyslot D)} {u : uuid} {kdf : bytes → bytes}
  `{!KeyServiceLaws slots u kdf}.
Implicit Types (w : world ut_state unit W) (X : gmap Z ptr) (T : list entry) (h t : bytes).

(** The sessions, the handles, the checks that failed and the fixture's
    session. *)
Definition at_state X T (cs : list string) (s : Z) w : Prop :=
  k_ok (env w) ∧ k_ctx (env w) = X ∧ k_table (env w) = T ∧ checks (loc w) = cs ∧ hwkey_session (loc w) = s.

(** A buffer that holds a token. *)
Definition holds h t : Prop := token_ok t ∧ ∃ rest, h = t ++ rest.

Lemma token_body t : token_ok t → cstr t ++ [0] = t ∧ length (cstr t) = 31%nat ∧ 0 ∉ cstr t.
Proof.
  intros (body & -> & Hl & Hb). rewrite (cstr_nonzero body [] Hb). split_and!; [done|done|].
  intros Hin. by apply (proj1 (Forall_forall _ _) Hb) in Hin.
Qed.

Lemma holds_facts h t :
  holds h t → 0 ∈ h ∧ cstr h ++ [0] = t ∧ (0 ∉ cstr h) ∧ (∀ n, 32 ≤ n → strnlen h n = 31).
Proof.
  intros [Ht [rest ->]]. destruct (token_body t Ht) as (Hc & Hl & Hnil).
  destruct Ht as (body & -> & Hb & Hnz). rewrite <- app_assoc. cbn [app].
  rewrite cstr_app0. split_and!; [by apply elem_of_app; right; left|done|done|].
  intros n Hn. unfold strnlen.
  assert (take (Z.to_nat n) (body ++ 0 :: rest) = body ++ 0 :: take (Z.to_nat n - 32) rest) as ->.
  { rewrite take_app_ge by lia. f_equal. rewrite Hb.
    by replace (Z.to_nat n - 31)%nat with (S (Z.to_nat n - 32)) by lia. }
  rewrite cstr_app0, (cstr_nonzero body [] Hnz). lia.
Qed.

Lemma holds_equal h t h' t' : holds h t → holds h' t' → t ≠ t' → ∀ n, 32 ≤ n → equal n h h' = false.
Proof.
  intros [Ht [r ->]] [Ht' [r' ->]] Hne n Hn. apply bool_decide_eq_false. intros E. apply Hne.
  apply (f_equal (take 32)) in E. rewrite !take_take in E.
  replace (32 `min` Z.to_nat n)%nat with 32%nat in E by lia.
  rewrite !take_app_le in E by (rewrite token_ok_length; [lia|done]).
  by rewrite !take_ge in E by (rewrite token_ok_length; [lia|done]).
Qed.

Lemma open_spec X T cs s (P : Z → world ut_state unit W → Prop) w :
  at_state X T cs s w →
  (∀ rc p w', 0 ≤ rc → X !! rc = None → (∀ s q, X !! s = Some q → q ≠ p) →
     at_state (<[rc := p]> X) T cs s w' → P rc w') →
  wpt (env_call k_hwkey_open) P w.
Proof.
  intros (Hok & <- & <- & <- & <-) HP. apply wpt_env_call. intros rc v E Hv.
  destruct (open_ok slots u kdf _ _ _ E Hv Hok) as (Hok' & Hrc & Hf & HT & p & Hp & _ & HX).
  by apply (HP rc p).
Qed.

Lemma close_spec X T cs s x p (P : unit → world ut_state unit W → Prop) w :
  at_state X T cs s w → X !! x = Some p →
  (∀ w', at_state (delete x X) (revoke p T) cs s w' → P tt w') →
  wpt (env_call (k_hwkey_close x)) P w.
Proof.
  intros (Hok & <- & <- & <- & <-) Hx HP. apply wpt_env_call. intros [] v E Hv.
  destruct (close_ok slots u kdf _ _ _ _ _ E Hv Hok Hx) as (Hok' & HX & HT). by apply HP.
Qed.

Lemma get_keyslot_spec X T cs s x p id dest (P : Z * bytes * Z → world ut_state unit W → Prop) w :
  at_state X T cs s w → X !! x = Some p → 0 ∉ id →
  (∀ rc o T' dest' m w', answered_with slots u p (id ++ [0]) T rc o T' →
     at_state X T' cs s w' → length dest' = length dest →
     (∀ d, o = Some d → (length d ≤ length dest)%nat →
        dest' = overwrite d dest ∧ m = Z.of_nat (length d)) → P (rc, dest', m) w') →
  wpt (get_keyslot x id dest) P w.
Proof.
  intros (Hok & <- & <- & <- & <-) Hx Hid HP. apply wpt_bind; [intros; keeps_tac|].
  apply wpt_env_call. intros [[rc data] m] v E Hv.
  pose proof (get_bound slots u kdf _ _ _ _ _ _ _ _ (Zle_0_nat (length dest)) E) as Hb.
  destruct (get_ok slots u kdf _ _ _ _ _ _ _ _ _ E Hv Hok Hx Hid) as (Hok' & o & Ha & HX & Hd).
  destruct (Nat.leb_spec (length data) (length dest)); [|lia]. apply wpt_ret.
  eapply HP; [exact Ha|by split_and!|by apply length_overwrite|].
  intros d -> Hl. by destruct (Hd d eq_refl) as [-> ->]; [lia|].
Qed.

Lemma derive_spec X T cs s x p ver src dest (P : Z * bytes * Z → world ut_state unit W → Prop) w :
  at_state X T cs s w → X !! x = Some p → Z.of_nat (length src) ≤ HWKEY_MAX_PAYLOAD_SIZE →
  (length src ≤ length dest)%nat →
  ver = HWKEY_KDF_VERSION_BEST ∨ ver = HWKEY_KDF_VERSION_1 →
  (∀ rc dest' ver' w', at_state X T cs s w' →
     (if decide (src = []) then rc = ERR_NOT_VALID
      else rc = NO_ERROR ∧ dest' = overwrite (kdf src) dest ∧ ver' = HWKEY_KDF_VERSION_1) →
     P (rc, dest', ver') w') →
  wpt (derive x ver src dest) P w.
Proof.
  intros (Hok & <- & <- & <- & <-) Hx Hsrc Hl Hver HP. apply wpt_bind; [intros; keeps_tac|].
  apply wpt_env_call. intros [[rc data] ver'] v E Hv.
  pose proof (derive_bound slots u kdf _ _ _ _ _ _ _ _ E) as Hb.
  destruct (derive_ok slots u kdf _ _ _ _ _ _ _ _ _ E Hv Hok Hx Hsrc) as (Hok' & HX & HT & Hr).
  destruct (Nat.leb_spec (length data) (length dest)); [|lia]. apply wpt_ret.
  apply HP; [by split_and!|]. specialize (Hr Hver). destruct (decide (src = [])); [done|].
  by destruct Hr as (-> & -> & ->).
Qed.

Lemma derive_closed_spec X T cs s x ver src dest (P : Z * bytes * Z → world ut_state unit W → Prop) w :
  at_state X T cs s w → X !! x = None → (length src ≤ length dest)%nat →
  (∀ dest' ver' w', at_state X T cs s w' →
     P (if x =? INVALID_IPC_HANDLE then ERR_BAD_HANDLE else ERR_NOT_FOUND, dest', ver') w') →
  wpt (derive x ver src dest) P w.
Proof.
  intros (Hok & <- & <- & <- & <-) Hx Hl HP. apply wpt_bind; [intros; keeps_tac|].
  apply wpt_env_call. intros [[rc data] ver'] v E Hv.
  pose proof (derive_bound slots u kdf _ _ _ _ _ _ _ _ E) as Hb.
  destruct (derive_closed slots u kdf _ _ _ _ _ _ _ _ E Hv Hok Hx) as (Hok' & HX & HT & ->).
  destruct (Nat.leb_spec (length data) (length dest)); [|lia]. apply wpt_ret. by apply HP.
Qed.

Lemma c_string_spec h t (P : bytes → world ut_state unit W → Prop) w :
  holds h t → P (cstr h) w → wpt (c_string h) P w.
Proof.
  intros Hh HP. destruct (holds_facts h t Hh) as (Hz & _). unfold c_string.
  rewrite bool_decide_true by done. by apply wpt_ret.
Qed.
End Calls.

(** * 4. The slots the tests name *)

Section Slots.
Context {D : Type} `{!HwkeyIface} `{!Evp D} `{!Platform D}.
Implicit Types (cfg : config) (slots : list (hwkey_keyslot D)).
Abbreviation tester := HWCRYPTO_UNITTEST_APP_UUID.

Lemma select_slot_lookup slots u id j s i :
  slots !! j = Some s → serves u id s = true →
  (∀ j' s', slots !! j' = Some s' → serves u id s' = true → j' = j) →
  select_slot u id slots i = Some ((i + j)%nat, s).
Proof.
  revert i j. induction slots as [|s0 slots IH]; intros i j Hj Hs Hone; [done|]. cbn.
  destruct j as [|j].
  - injection Hj as ->. rewrite Hs. by rewrite Nat.add_0_r.
  - destruct (serves u id s0) eqn:E; [by specialize (Hone 0%nat s0 eq_refl E)|].
    rewrite (IH (S i) j Hj Hs); [by rewrite Nat.add_succ_r|].
    intros j' s' Hj' Hs'. specialize (Hone (S j') s' Hj' Hs'). by injection Hone.
Qed.

Lemma serves_name u id s : serves (D:=D) u id s = true → key_id s = cstr id.
Proof. unfold serves. intros [[?%bool_decide_eq_true _]%andb_prop _]%andb_prop. done. Qed.

Lemma cstr_terminated id : 0 ∉ id → cstr (id ++ [0]) = id.
Proof.
  intros Hid. apply (cstr_nonzero id []). apply Forall_forall. intros b Hb ->. done.
Qed.

Lemma select_none slots u id i :
  forallb (λ s, negb (serves u id s)) slots = true → select_slot u id slots i = None.
Proof.
  revert i. induction slots as [|s slots IH]; intros i; [done|]. cbn.
  intros [Hs Hl]%andb_prop. rewrite (proj1 (negb_true_iff _) Hs). by apply IH.
Qed.

(** A slot of the unit tests is found under its name. *)
Lemma select_unittest cfg s :
  WITH_HWCRYPTO_UNITTEST cfg = true → s ∈ unittest_slots → slot_uuid s = tester →
  0 ∉ key_id s → ∃ j, _keys cfg !! j = Some s ∧
    select_slot tester (key_id s ++ [0]) (_keys cfg) 0 = Some (j, s).
Proof.
  intros Hcfg Hs Hu Hid.
  assert (s ∈ _keys cfg) as [j Hj]%list_elem_of_lookup.
  { unfold _keys. rewrite Hcfg, !elem_of_app. auto 10. }
  exists j. split; [done|].
  pose proof (bool_decide_eq_true_1 _ (keys_distinct (D:=D) cfg)) as Hnd.
  apply (select_slot_lookup (_keys cfg) tester (key_id s ++ [0]) j s 0); [done| |].
  - unfold serves. rewrite cstr_terminated, Hu, !bool_decide_true by done. cbn.
    unfold unittest_slots in Hs. by set_unfold; destruct_or! Hs; subst s.
  - intros j' s' Hj' Hn%serves_name. rewrite cstr_terminated in Hn by done.
    eapply NoDup_lookup; [exact Hnd| |]; rewrite list_lookup_fmap_Some; eauto.
Qed.

(** A token is no slot's name: none has 31 characters. *)
Lemma select_token cfg t i : token_ok t → select_slot tester t (_keys cfg) i = None.
Proof.
  intros Ht. destruct (token_body t Ht) as (_ & Hl & _). apply select_none.
  apply forallb_forall. intros s Hs%list_elem_of_In. apply negb_true_iff.
  destruct (serves tester t s) eqn:E; [|done]. apply serves_name in E.
  assert (forallb (λ s, negb (length (key_id s) =? 31)%nat) (_keys (D:=D) cfg) = true) as Hall
    by by destruct cfg as [[] [] [] [] [] [] []].
  apply forallb_forall with (x := s) in Hall; [|by apply list_elem_of_In].
  rewrite E, Hl in Hall. done.
Qed.

Lemma select_foreign cfg i :
  select_slot tester (str RPMB_STORAGE_AUTH_KEY_ID ++ [0]) (_keys (D:=D) cfg) i = None.
Proof. apply select_none. by destruct cfg as [[] [] [] [] [] [] []]. Qed.

Lemma select_empty cfg i : select_slot tester [0] (_keys (D:=D) cfg) i = None.
Proof. apply select_none. by destruct cfg as [[] [] [] [] [] [] []]. Qed.

Lemma select_absent cfg id i :
  WITH_HWCRYPTO_UNITTEST cfg = false →
  In id [HWCRYPTO_UNITTEST_KEYBOX_ID; HWCRYPTO_UNITTEST_DERIVED_KEYBOX_ID;
         HWCRYPTO_UNITTEST_OPAQUE_HANDLE_ID] →
  select_slot tester (str id ++ [0]) (_keys (D:=D) cfg) i = None.
Proof.
  intros Hcfg Hid. apply select_none.
  destruct cfg as [b [] [] [] [] [] []]; cbn in Hcfg; subst b;
    by destruct Hid as [<-|[<-|[<-|[]]]].
Qed.

(** What presenting a token to an entry yields. *)
Lemma readable_token slots u t p j t' s data :
  slots !! j = Some s → opaque_data s = Some data → token_ok t →
  readable slots u t (Entry p j t') =
  if existsb (λ a, bool_decide (a = u)) (allowed_uuids data) && bool_decide (t' = t)
  then Some data else None.
Proof.
  intros Hj Hd Ht. unfold readable. cbn [e_slot e_token]. rewrite Hj, Hd.
  change (Z.to_nat HWKEY_OPAQUE_HANDLE_SIZE) with 32%nat.
  by rewrite take_ge by (by rewrite token_ok_length).
Qed.

Lemma find_key_cons slots u t e T :
  find_key slots u t (e :: T) =
  match readable slots u t e with Some d => Some d | None => find_key slots u t T end.
Proof. unfold find_key. cbn. by destruct (readable slots u t e). Qed.

(** What a key function leaves, when it succeeds, is what is answered. *)
Lemma key_answer_of (f : key_fn D) data (key : bytes) :
  (∀ k, Z.of_nat (length (kbuf k)) = HWKEY_MAX_PAYLOAD_SIZE →
     wp (f HWKEY_MAX_PAYLOAD_SIZE) (λ rc k', rc = HWKEY_NO_ERROR →
       kbuf k' = overwrite key (kbuf k) ∧ klen k' = Some (Z.of_nat (length key))) k) →
  can_answer f HWKEY_NO_ERROR data → data = key.
Proof.
  intros Hf (d & d' & [buf n0 k n Hbuf Hr Hn _ ->]). specialize (Hf (KOut buf (Some n0) d) Hbuf).
  unfold wp in Hf. rewrite Hr in Hf. destruct (Hf eq_refl) as [-> Hn']. cbn [kbuf].
  rewrite Hn in Hn'. injection Hn' as ->. rewrite Nat2Z.id. apply take_overwrite.
Qed.

Lemma unittest_answer data :
  can_answer (D:=D) get_unittest_key32 HWKEY_NO_ERROR data → data = UNITTEST_KEYSLOT.
Proof.
  apply key_answer_of. intros k Hk. unfold get_unittest_key32. wp_steps. apply wp_assert; [done|].
  wp_steps. apply wp_write_kbuf; [change (length _unittest_key32) with 32%nat; unfold HWKEY_MAX_PAYLOAD_SIZE in Hk; lia|]. unfold set_klen. by wp_steps.
Qed.

(** The ciphertext of the unit tests decrypts to the key they expect. *)
Definition test_vector : Prop :=
  aes_decrypt AES_256_CBC _unittest_key32 (replicate 16 0) (drop 16 _unittest_encrypted_key32) =
  UNITTEST_DERIVED_KEYSLOT.

Lemma derived_answer `{!EvpLaws D} `{!EvpCbc D} data :
  test_vector → can_answer (D:=D) (hwkey_get_derived_key hwcrypto_unittest_derived_data)
    HWKEY_NO_ERROR data → data = UNITTEST_DERIVED_KEYSLOT.
Proof.
  intros Hv. apply key_answer_of. intros k Hk.
  eapply wp_mono; [by apply (get_derived_key_spec _ _ k unittest_derived_data_ok)|].
  intros rc k' [_ Hr] ->. rewrite decide_True in Hr by done.
  destruct Hr as (kr & n & c & Hret & Hn & Hc & Hbuf & Hlen).
  assert (kr = KOut (overwrite _unittest_key32 (replicate (Z.to_nat HWKEY_DERIVED_KEY_MAX_SIZE) 0))
    (Some 32) (kdev k)) as -> by (by injection Hret).
  injection Hn as <-. injection Hc as <-.
  unfold derived_iv, derived_ciphertext in *.
  destruct (evp_cbc_sizes AES_256_CBC) as [Hiv _]; [by right|]. rewrite Hiv in Hbuf, Hlen.
  assert (take (Z.to_nat 32) (kbuf (KOut (overwrite _unittest_key32
    (replicate (Z.to_nat HWKEY_DERIVED_KEY_MAX_SIZE) 0)) (Some 32) (kdev k))) = _unittest_key32)
    as Hkey by by vm_compute.
  rewrite Hkey in Hbuf, Hlen. unfold test_vector in Hv.
  change (take (Z.to_nat 16) (encrypted_key_data hwcrypto_unittest_derived_data))
    with (replicate 16 0) in Hbuf, Hlen.
  change (drop (Z.to_nat 16) (encrypted_key_data hwcrypto_unittest_derived_data))
    with (drop 16 _unittest_encrypted_key32) in Hbuf, Hlen.
  by rewrite Hv in Hbuf, Hlen.
Qed.
End Slots.

(** * 5. The tests pass *)

(** [wpt_next]: the first action of a test, by the lemma that follows. *)
Ltac wpt_next := apply wpt_bind; [intros; keeps_tac|].
Ltac wpt_check := wpt_next; apply wpt_expect; [|].

Section Passes.
Context {D : Type} `{!Uapi} `{!HwkeyIface} `{!Evp D} `{!EvpLaws D} `{!EvpCbc D} `{!Platform D}
  `{!HwrngDev D} {W : Type} `{!HwkeyClient W} `{!KeyService W}.
Context (cfg : config).
Abbreviation tester := HWCRYPTO_UNITTEST_APP_UUID.
Abbreviation keys := (_keys (D:=D) cfg).
Context {kdf : bytes → bytes} `{!KeyServiceLaws keys tester kdf}.
Implicit Types (w : world ut_state unit W) (X : gmap Z ptr) (T : list entry) (h t : bytes).

Lemma answered_handle p id T rc o T' j s d :
  select_slot tester id keys 0 = Some (j, s) → handler s = GetKeyHandle d →
  answered_with keys tester p id T rc o T' →
  (j ∈ e_slot <$> T ∧ rc = ERR_ALREADY_EXISTS ∧ o = None ∧ T' = T) ∨
  ((j ∉ e_slot <$> T) ∧ rc = NO_ERROR ∧ ∃ t, token_ok t ∧ (t ∉ e_token <$> T) ∧ o = Some t ∧
     T' = T ++ [Entry p j t]).
Proof.
  intros Hsel Hh [j' s' o' Hsel'|j' s' o' t Hsel'|f data [(j' & s' & Hsel' & Hf)|[Hno _]]|Hno];
    try (rewrite Hsel in Hsel'; injection Hsel' as <- <-); [by left| |congruence|congruence|congruence].
  right. eauto 10.
Qed.

Lemma answered_fn p id T rc o T' j s f :
  select_slot tester id keys 0 = Some (j, s) → handler s = ProviderFn f →
  answered_with keys tester p id T rc o T' →
  rc = NO_ERROR ∧ T' = T ∧ ∃ data, o = Some data ∧ can_answer f HWKEY_NO_ERROR data.
Proof.
  intros Hsel Hh [j' s' o' Hsel'|j' s' o' t Hsel'|f' data [(j' & s' & Hsel' & Hf)|[Hno _]]|Hno];
    try (rewrite Hsel in Hsel'; injection Hsel' as <- <-); try congruence.
  rewrite Hh in Hf. injection Hf as <-. eauto.
Qed.

Lemma answered_key p id T rc o T' d :
  select_slot tester id keys 0 = None → find_key keys tester id T = Some d →
  answered_with keys tester p id T rc o T' →
  rc = NO_ERROR ∧ T' = T ∧ ∃ data, o = Some data ∧ can_answer (retriever d) HWKEY_NO_ERROR data.
Proof.
  intros Hsel Hd [j' s' o' Hsel'|j' s' o' t Hsel'|f' data [(j' & s' & Hsel' & Hf)|(_ & d' & Hd' & ->)]|Hno];
    try congruence. rewrite Hd in Hd'. injection Hd' as <-. eauto.
Qed.

Lemma answered_none p id T rc o T' :
  select_slot tester id keys 0 = None → find_key keys tester id T = None →
  answered_with keys tester p id T rc o T' → rc = ERR_NOT_FOUND ∧ T' = T.
Proof.
  intros Hsel Hd [j' s' o' Hsel'|j' s' o' t Hsel'|f' data [(j' & s' & Hsel' & Hf)|(_ & d' & Hd' & ->)]|Hno];
    try congruence. done.
Qed.

(** The opaque slot of a name. *)
Definition opaque (j : nat) (id : string) (d : hwkey_opaque_handle_data D) : Prop :=
  ∃ s, keys !! j = Some s ∧ key_id s = str id ∧ opaque_data s = Some d ∧
    select_slot tester (str id ++ [0]) keys 0 = Some (j, s).

Lemma opaque_name j id d id' d' : opaque j id d → opaque j id' d' → str id = str id'.
Proof. intros (s & Hj & <- & _) (s' & Hj' & <- & _). congruence. Qed.

Lemma opaque_handler s (d : hwkey_opaque_handle_data D) :
  opaque_data s = Some d → handler s = GetKeyHandle (Some d).
Proof. unfold opaque_data. by destruct (handler s) as [|o|]; [|intros ->|]. Qed.

Lemma opaque_found j id d p t t' T :
  opaque j id d → token_ok t →
  find_key keys tester t (Entry p j t' :: T) =
  if existsb (λ a, bool_decide (a = tester)) (allowed_uuids d) && bool_decide (t' = t)
  then Some d else find_key keys tester t T.
Proof.
  intros (s & Hj & _ & Hd & _) Ht. rewrite find_key_cons, (readable_token _ _ _ _ _ _ s d) by done.
  by destruct (_ && _).
Qed.

Lemma handle_spec X T cs s x p j id d dest (P : Z * bytes * Z → world ut_state unit W → Prop) w :
  at_state X T cs s w → X !! x = Some p → opaque j id d → 0 ∉ str id → j ∉ e_slot <$> T →
  Z.of_nat (length dest) = HWKEY_OPAQUE_HANDLE_MAX_SIZE →
  (∀ t h w', holds h t → t ∉ e_token <$> T → at_state X (T ++ [Entry p j t]) cs s w' →
     P (NO_ERROR, h, 32) w') →
  wpt (get_keyslot x (str id) dest) P w.
Proof.
  intros Hat Hx (sl & Hj & _ & Hd & Hsel) Hid Hfree Hl HP.
  pose proof (max_size keys tester kdf) as Hmax. unfold HWKEY_OPAQUE_HANDLE_SIZE in Hmax.
  eapply get_keyslot_spec; [done..|]. intros rc o T' dest' m w' Ha Hat' _ Hdest.
  destruct (answered_handle _ _ _ _ _ _ _ _ _ Hsel (opaque_handler _ _ Hd) Ha)
    as [(Hin & _)|(_ & -> & t & Ht & Hnew & -> & ->)]; [done|].
  destruct (Hdest t eq_refl) as [-> ->]; [rewrite token_ok_length by done; lia|].
  rewrite token_ok_length by done. apply (HP t); [|done|done]. split; [done|]. by eexists.
Qed.

Lemma key_spec X T cs s x p t d (key dest : bytes) (P : Z * bytes * Z → world ut_state unit W → Prop) w h :
  at_state X T cs s w → X !! x = Some p → holds h t → find_key keys tester t T = Some d →
  (∀ data, can_answer (retriever d) HWKEY_NO_ERROR data → data = key) →
  (length key ≤ length dest)%nat →
  (∀ w', at_state X T cs s w' → P (NO_ERROR, overwrite key dest, Z.of_nat (length key)) w') →
  wpt (get_keyslot x (cstr h) dest) P w.
Proof.
  intros Hat Hx Hh Hf Hkey Hl HP. destruct (holds_facts h t Hh) as (_ & Hc & Hno & _).
  eapply get_keyslot_spec; [done..|]. intros rc o T' dest' m w' Ha Hat' _ Hdest.
  rewrite Hc in Ha. pose proof (select_token (D:=D) cfg t 0 (proj1 Hh)) as Hsel.
  destruct (answered_key _ _ _ _ _ _ _ Hsel Hf Ha) as (-> & -> & data & -> & Hans).
  apply Hkey in Hans as ->. destruct (Hdest key eq_refl Hl) as [-> ->]. by apply HP.
Qed.

Lemma none_spec X T cs s x p t dest (P : Z * bytes * Z → world ut_state unit W → Prop) w h :
  at_state X T cs s w → X !! x = Some p → holds h t → find_key keys tester t T = None →
  (∀ dest' m w', length dest' = length dest → at_state X T cs s w' → P (ERR_NOT_FOUND, dest', m) w') →
  wpt (get_keyslot x (cstr h) dest) P w.
Proof.
  intros Hat Hx Hh Hf HP. destruct (holds_facts h t Hh) as (_ & Hc & Hno & _).
  eapply get_keyslot_spec; [done..|]. intros rc o T' dest' m w' Ha Hat' Hl' _.
  rewrite Hc in Ha. pose proof (select_token (D:=D) cfg t 0 (proj1 Hh)) as Hsel.
  destruct (answered_none _ _ _ _ _ _ Hsel Hf Ha) as [-> ->]. by apply HP.
Qed.
End Passes.
