(* ===== verification/HwkeyTestPasses.v ===== *)
(** The unit tests of the key service pass against a key service that keeps the
    contract of HwkeyTestCorrect.v. *)

From S2P Require Import Prelude Ipc HwrngDev Evp Hwkey HwkeyProps HwkeyCorrect HwkeyProvider HwkeyTable HwkeyTest HwkeyTestCorrect.

(** Handles of the slots with different names are of different slots. *)
Ltac other_slot Ha Hb :=
  cbn; intros ->%list_elem_of_singleton; pose proof (opaque_name _ _ _ _ _ _ Ha Hb) as Hname; by vm_compute in Hname.

Section Passes.
Context {D : Type} `{!Uapi} `{!HwkeyIface} `{!Evp D} `{!EvpLaws D} `{!EvpCbc D} `{!Platform D}
  `{!HwrngDev D} {W : Type} `{!HwkeyClient W} `{!KeyService W}.
Context (cfg : config).
Abbreviation tester := HWCRYPTO_UNITTEST_APP_UUID.
Abbreviation keys := (_keys (D:=D) cfg).
Context {kdf : bytes → bytes} `{!KeyServiceLaws keys tester kdf}.
Implicit Types (w : world ut_state unit W) (X : gmap Z ptr) (T : list entry) (h t : bytes).

(** * 1. The pieces of the tests *)

Lemma length_zeros n : 0 ≤ n → Z.of_nat (length (zeros n)) = n.
Proof. unfold zeros. rewrite length_replicate. lia. Qed.

Lemma equal_overwrite (key dest : bytes) : length key = 32%nat → equal 32 key (overwrite key dest) = true.
Proof.
  intros Hl. apply bool_decide_eq_true. change (Z.to_nat 32) with 32%nat. rewrite <- Hl at 2.
  rewrite take_overwrite. by rewrite take_ge by lia.
Qed.

Lemma expect_equal what (key dest : bytes) (P : unit → world ut_state unit W → Prop) w :
  length key = 32%nat → P tt w → wpt (expect what (equal 32 key (overwrite key dest))) P w.
Proof. intros Hl HP. apply wpt_expect; [by apply equal_overwrite|done]. Qed.

Lemma obtain_spec X T cs s x p j id d dest (P : bytes → world ut_state unit W → Prop) w :
  at_state X T cs s w → X !! x = Some p → opaque cfg j id d → 0 ∉ str id → (j ∉ e_slot <$> T) →
  Z.of_nat (length dest) = HWKEY_OPAQUE_HANDLE_MAX_SIZE →
  (∀ t h w', holds h t → (t ∉ e_token <$> T) → at_state X (T ++ [Entry p j t]) cs s w' → P h w') →
  wpt (obtain x id dest) P w.
Proof.
  intros Hat Hx Hj Hid Hfree Hl HP. pose proof (max_size keys tester kdf) as Hmax. unfold obtain.
  wpt_next. eapply handle_spec; [done..|]. intros t h w' Hh Hnew Hat'. cbn beta iota.
  wpt_check; [lia|]. wpt_check; [unfold HWKEY_OPAQUE_HANDLE_SIZE in Hmax; lia|].
  apply wpt_ret. by apply (HP t).
Qed.

Lemma open_key_spec X T cs s x p t d buf (P : bytes → world ut_state unit W → Prop) w h :
  at_state X T cs s w → X !! x = Some p → holds h t → find_key keys tester t T = Some d →
  retriever d = get_unittest_key32 → (32 ≤ length buf)%nat →
  (∀ buf' w', length buf' = length buf → at_state X T cs s w' → P buf' w') →
  wpt (open_key x h buf 32) P w.
Proof.
  intros Hat Hx Hh Hf Hd Hl HP. unfold open_key. wpt_next. eapply c_string_spec; [done|].
  wpt_next. eapply (key_spec cfg) with (key := UNITTEST_KEYSLOT);
    [done..| |done|]; [rewrite Hd; apply unittest_answer|].
  intros w' Hat'. cbn beta iota. wpt_check; [lia|]. wpt_check; [done|].
  wpt_next. apply expect_equal; [done|]. apply wpt_ret. apply HP; [|done]. by apply length_overwrite.
Qed.

Lemma refused_spec what X T cs s x p t buf (P : bytes → world ut_state unit W → Prop) w h :
  at_state X T cs s w → X !! x = Some p → holds h t → find_key keys tester t T = None →
  (∀ buf' w', length buf' = length buf → at_state X T cs s w' → P buf' w') →
  wpt (refused what x h buf) P w.
Proof.
  intros Hat Hx Hh Hf HP. unfold refused. wpt_next. eapply c_string_spec; [done|].
  wpt_next. eapply (none_spec cfg); [done..|]. intros buf' m w' Hl Hat'. cbn beta iota.
  wpt_check; [lia|]. apply wpt_ret. by apply HP.
Qed.

Lemma reconnect_spec T cs s p k (P : unit → world ut_state unit W → Prop) w :
  at_state {[s := p]} T cs s w → revoke p T = [] → keeps k →
  (∀ s' p' w', at_state {[s' := p']} [] cs s' w' → wpt k P w') →
  wpt (reconnect k) P w.
Proof.
  intros Hat HT Hk HP. unfold reconnect. wpt_next. apply wpt_get_loc.
  destruct Hat as (Hok & HX & HT' & Hcs & Hs). rewrite Hs.
  wpt_next. eapply close_spec; [by split_and!|by apply lookup_singleton_eq|].
  rewrite HT, delete_singleton_eq. intros w1 Hat1.
  wpt_next. eapply open_spec; [done|]. intros rc p' w2 Hrc _ _ Hat2. rewrite insert_empty in Hat2.
  destruct (Z.leb_spec 0 rc); [|lia]. wpt_next. apply wpt_mod_loc.
  destruct Hat2 as (Hok2 & HX2 & HT2 & Hcs2 & Hs2). by apply (HP rc p').
Qed.
End Passes.

(** * 2. The tests *)

Ltac no_zero := apply (bool_decide_eq_true_1 _); by vm_compute.

Section Tests.
Context {D : Type} `{!Uapi} `{!HwkeyIface} `{!Evp D} `{!EvpLaws D} `{!EvpCbc D} `{!Platform D}
  `{!HwrngDev D} {W : Type} `{!HwkeyClient W} `{!KeyService W}.
Context (cfg : config) (stack : Z → bytes).
Abbreviation tester := HWCRYPTO_UNITTEST_APP_UUID.
Abbreviation keys := (_keys (D:=D) cfg).
Abbreviation with_tests := (WITH_HWCRYPTO_UNITTEST cfg).
Context {kdf : bytes → bytes} `{!KeyServiceLaws keys tester kdf}.
Implicit Types (w : world ut_state unit W) (X : gmap Z ptr) (T : list entry) (h t : bytes).

(** The storage the compiler gives the uninitialised buffers. *)
Definition sized : Prop := ∀ n, 0 ≤ n → Z.of_nat (length (stack n)) = n.

(** A test between the fixture's set-up and its tear-down: no check fails, and
    closing its session leaves no handle. *)
Definition passes (test : M (world ut_state unit W) unit) : Prop :=
  keeps test ∧ ∀ s p cs w, at_state {[s := p]} [] cs s w →
    wpt test (λ _ w', ∃ s' p' T, at_state {[s' := p']} T cs s' w' ∧ revoke p' T = []) w.

Lemma session_of X T cs s (P : Z → world ut_state unit W → Prop) w :
  at_state X T cs s w → P s w → wpt (get_loc hwkey_session) P w.
Proof. intros (_ & _ & _ & _ & <-) HP. by apply wpt_get_loc. Qed.

Lemma unittest_opaque s id (d : hwkey_opaque_handle_data D) :
  with_tests = true → s ∈ unittest_slots → slot_uuid s = tester → key_id s = str id →
  opaque_data s = Some d → 0 ∉ str id → ∃ j, opaque cfg j id d.
Proof.
  intros Hcfg Hs Hu Hid Hd Hno. rewrite <- Hid in Hno.
  destruct (select_unittest cfg s Hcfg Hs Hu Hno) as (j & Hj & Hsel).
  exists j, s. by rewrite <- Hid.
Qed.

Lemma slot_handle : with_tests = true →
  ∃ j, opaque cfg j HWCRYPTO_UNITTEST_OPAQUE_HANDLE_ID unittest_opaque_handle_data.
Proof.
  intros Hcfg. eapply unittest_opaque; [done|do 2 right; left|done..|no_zero].
Qed.
Lemma slot_handle2 : with_tests = true →
  ∃ j, opaque cfg j HWCRYPTO_UNITTEST_OPAQUE_HANDLE2_ID unittest_opaque_handle_data2.
Proof. intros Hcfg. eapply unittest_opaque; [done|do 3 right; left|done..|no_zero]. Qed.
Lemma slot_noaccess : with_tests = true →
  ∃ j, opaque cfg j HWCRYPTO_UNITTEST_OPAQUE_HANDLE_NOACCESS_ID unittest_opaque_handle_data_noaccess.
Proof. intros Hcfg. eapply unittest_opaque; [done|do 4 right; left|done..|no_zero]. Qed.
Lemma slot_derived : with_tests = true →
  ∃ j, opaque cfg j HWCRYPTO_UNITTEST_OPAQUE_DERIVED_ID unittest_opaque_derived_data.
Proof. intros Hcfg. eapply unittest_opaque; [done|do 5 right; left|done..|no_zero]. Qed.

Lemma revoke_own p j t : revoke p [Entry p j t] = [].
Proof. unfold revoke. by rewrite filter_cons_False by (cbn; auto). Qed.

(** What the derivation tests expect of the derivation. *)
Record kdf_fits : Prop := {
  kdf_length src : length (kdf src) = length src;
  kdf_version_new : HWKEY_KDF_VERSION_1 ≠ HWKEY_KDF_VERSION_BEST;
  kdf_differs : kdf src_data ≠ kdf src_data2;
  kdf_hides : kdf src_data ≠ src_data;
  kdf_hides2 : kdf src_data2 ≠ src_data2
}.

Lemma equal_whole (a b : bytes) :
  length a = 32%nat → length b = 32%nat → equal 32 a b = bool_decide (a = b).
Proof. intros Ha Hb. unfold equal. change (Z.to_nat 32) with 32%nat. by rewrite !take_ge by lia. Qed.

Lemma overwrite_whole (a : bytes) n : Z.of_nat (length a) = n → overwrite a (zeros n) = a.
Proof.
  intros Hl. unfold overwrite, zeros. by rewrite drop_ge, app_nil_r by (rewrite length_replicate; lia).
Qed.

(** A derivation on the fixture's session. *)
Lemma derived_spec cs s p w ver src (P : Z * bytes * Z → world ut_state unit W → Prop) :
  kdf_fits → at_state {[s := p]} [] cs s w → length src = 32%nat →
  ver = HWKEY_KDF_VERSION_BEST ∨ ver = HWKEY_KDF_VERSION_1 →
  (∀ w', at_state {[s := p]} [] cs s w' → P (NO_ERROR, kdf src, HWKEY_KDF_VERSION_1) w') →
  wpt (derive s ver src (zeros 32)) P w.
Proof.
  intros Hk Hat Hl Hver HP. eapply derive_spec; [done|apply lookup_singleton_eq| |unfold zeros; rewrite length_replicate; lia|done|].
  { rewrite Hl. by vm_compute. }
  intros rc dest ver' w' Hat' Hr. rewrite decide_False in Hr by (by intros ->).
  destruct Hr as (-> & -> & ->).
  rewrite overwrite_whole by (by rewrite kdf_length, Hl). by apply HP.
Qed.

Lemma generic_invalid_session_passes : sized → passes (generic_invalid_session stack).
Proof.
  intros Hstack. split; [unfold generic_invalid_session; keeps_tac|]. intros s p cs w Hat.
  unfold generic_invalid_session. wpt_next. pose proof invalid_handle_neg as Hneg.
  pose proof (sessions_nonneg keys tester kdf (env w) s p (proj1 Hat)) as Hs.
  rewrite (proj1 (proj2 Hat)), lookup_singleton_eq in Hs. specialize (Hs eq_refl).
  eapply derive_closed_spec; [done|rewrite lookup_singleton_ne; [done|lia]| |].
  { specialize (Hstack 33). cbn. lia. }
  intros dest ver w' Hat'. rewrite Z.eqb_refl. apply wpt_expect; [lia|]. by exists s, p, [].
Qed.

Lemma generic_closed_session_passes : sized → passes (generic_closed_session stack).
Proof.
  intros Hstack. split; [unfold generic_closed_session; keeps_tac|]. intros s p cs w Hat.
  unfold generic_closed_session. pose proof invalid_handle_neg as Hneg.
  wpt_next. eapply open_spec; [done|]. intros s2 p2 w2 Hs2 Hfresh _ Hat2.
  wpt_check; [lia|]. wpt_next. eapply close_spec; [done|apply lookup_insert_eq|].
  rewrite delete_insert_id by done. intros w3 Hat3. wpt_next.
  eapply derive_closed_spec; [done|done| |].
  { specialize (Hstack 33). cbn. lia. }
  intros dest ver w' Hat'. destruct (Z.eqb_spec s2 INVALID_IPC_HANDLE); [lia|].
  apply wpt_expect; [lia|]. by exists s, p, [].
Qed.

Lemma derive_repeatable_passes : kdf_fits → passes derive_repeatable.
Proof.
  intros Hk. split; [unfold derive_repeatable; keeps_tac|]. intros s p cs w Hat.
  pose proof (kdf_version_new Hk). unfold derive_repeatable.
  wpt_next. eapply session_of; [done|].
  wpt_next. eapply derived_spec; [done|done|done|by left|]. intros w1 Hat1. cbn beta iota.
  wpt_check; [lia|]. wpt_check; [by apply negb_true_iff, Z.eqb_neq|].
  wpt_next. eapply derived_spec; [done|done|done|by right|]. intros w2 Hat2. cbn beta iota.
  wpt_check; [lia|]. wpt_check; [by apply bool_decide_eq_true|].
  apply wpt_expect; [|by exists s, p, []].
  rewrite equal_whole by (rewrite ?(kdf_length Hk); done).
  apply negb_true_iff, bool_decide_eq_false. apply (kdf_hides Hk).
Qed.

Lemma derive_different_passes : kdf_fits → passes derive_different.
Proof.
  intros Hk. split; [unfold derive_different; keeps_tac|]. intros s p cs w Hat.
  pose proof (kdf_version_new Hk). unfold derive_different.
  wpt_next. eapply session_of; [done|].
  wpt_next. eapply derived_spec; [done|done|done|by left|]. intros w1 Hat1. cbn beta iota.
  wpt_check; [lia|]. wpt_check; [by apply negb_true_iff, Z.eqb_neq|].
  wpt_next. eapply derived_spec; [done|done|done|by right|]. intros w2 Hat2. cbn beta iota.
  wpt_check; [lia|].
  rewrite !equal_whole by (rewrite ?(kdf_length Hk); done).
  wpt_check; [apply negb_true_iff, bool_decide_eq_false, (kdf_differs Hk)|].
  wpt_check; [apply negb_true_iff, bool_decide_eq_false, (kdf_hides Hk)|].
  apply wpt_expect; [apply negb_true_iff, bool_decide_eq_false, (kdf_hides2 Hk)|].
  by exists s, p, [].
Qed.

Lemma derive_zero_length_passes : passes derive_zero_length.
Proof.
  split; [unfold derive_zero_length; keeps_tac|]. intros s p cs w Hat. unfold derive_zero_length.
  wpt_next. eapply session_of; [done|]. wpt_next.
  eapply derive_spec; [done|apply lookup_singleton_eq|by vm_compute|done|by left|].
  intros rc dest ver w' Hat' Hrc. rewrite decide_True in Hrc by done. rewrite Hrc.
  apply wpt_expect; [lia|]. by exists s, p, [].
Qed.

Lemma find_key_nil id : find_key keys tester id [] = None.
Proof. done. Qed.

Lemma get_storage_auth_passes : passes (get_storage_auth stack).
Proof.
  split; [unfold get_storage_auth; keeps_tac|]. intros s p cs w Hat. unfold get_storage_auth.
  wpt_next. eapply session_of; [done|]. wpt_next.
  eapply get_keyslot_spec; [done|apply lookup_singleton_eq|no_zero|].
  intros rc o T' dest m w' Ha Hat' _ _.
  destruct (answered_none _ _ _ _ _ _ _ (select_foreign cfg 0) (find_key_nil _) Ha) as [-> ->].
  apply wpt_expect; [lia|]. by exists s, p, [].
Qed.

(** The two slots that are keys by themselves. *)
Lemma named_key_spec cs s p w sl id (f : key_fn D) (key dest : bytes)
    (P : Z * bytes * Z → world ut_state unit W → Prop) :
  with_tests = true → sl ∈ unittest_slots → slot_uuid sl = tester → key_id sl = str id →
  handler sl = ProviderFn f → 0 ∉ str id → at_state {[s := p]} [] cs s w →
  (∀ data, can_answer f HWKEY_NO_ERROR data → data = key) → (length key ≤ length dest)%nat →
  (∀ m w', at_state {[s := p]} [] cs s w' → P (NO_ERROR, overwrite key dest, m) w') →
  wpt (get_keyslot s (str id) dest) P w.
Proof.
  intros Hcfg Hsl Hu Hid Hf Hno Hat Hkey Hl HP. rewrite <- Hid in *.
  destruct (select_unittest cfg sl Hcfg Hsl Hu Hno) as (j & _ & Hsel).
  eapply get_keyslot_spec; [done|apply lookup_singleton_eq|done|].
  intros rc o T' dest' m w' Ha Hat' _ Hd.
  destruct (answered_fn _ _ _ _ _ _ _ _ _ _ Hsel Hf Ha) as (-> & -> & data & -> & Hans).
  apply Hkey in Hans as ->. destruct (Hd key eq_refl Hl) as [-> ->]. by apply HP.
Qed.

(** Without the unit tests' keys there is no such slot. *)
Lemma absent_spec cs s p w id dest (P : Z * bytes * Z → world ut_state unit W → Prop) :
  with_tests = false →
  In id [HWCRYPTO_UNITTEST_KEYBOX_ID; HWCRYPTO_UNITTEST_DERIVED_KEYBOX_ID;
         HWCRYPTO_UNITTEST_OPAQUE_HANDLE_ID] → 0 ∉ str id → at_state {[s := p]} [] cs s w →
  (∀ dest' m w', at_state {[s := p]} [] cs s w' → P (ERR_NOT_FOUND, dest', m) w') →
  wpt (get_keyslot s (str id) dest) P w.
Proof.
  intros Hcfg Hid Hno Hat HP.
  eapply get_keyslot_spec; [done|apply lookup_singleton_eq|done|].
  intros rc o T' dest' m w' Ha Hat' _ _.
  destruct (answered_none _ _ _ _ _ _ _ (select_absent cfg id 0 Hcfg Hid) (find_key_nil _) Ha) as [-> ->].
  by apply HP.
Qed.

Lemma get_keybox_passes : sized → passes (get_keybox stack with_tests).
Proof.
  intros Hstack. split; [unfold get_keybox; keeps_tac|]. intros s p cs w Hat. unfold get_keybox.
  wpt_next. eapply session_of; [done|]. wpt_next. destruct with_tests eqn:Hcfg.
  - eapply (named_key_spec _ _ _ _ _ HWCRYPTO_UNITTEST_KEYBOX_ID) with (key := UNITTEST_KEYSLOT);
      [done|left|done|done|done|no_zero|done|apply unittest_answer| |].
    { specialize (Hstack 43). cbn. lia. }
    intros m w' Hat'. cbn beta iota. wpt_check; [lia|]. apply expect_equal; [done|].
    by exists s, p, [].
  - eapply absent_spec; [done|by left|no_zero|done|]. intros dest m w' Hat'. cbn beta iota.
    apply wpt_expect; [lia|]. by exists s, p, [].
Qed.

Lemma get_derived_keybox_passes :
  sized → test_vector (D:=D) → passes (get_derived_keybox stack with_tests).
Proof.
  intros Hstack Hv. split; [unfold get_derived_keybox; keeps_tac|]. intros s p cs w Hat.
  unfold get_derived_keybox.
  wpt_next. eapply session_of; [done|]. wpt_next. destruct with_tests eqn:Hcfg.
  - eapply (named_key_spec _ _ _ _ _ HWCRYPTO_UNITTEST_DERIVED_KEYBOX_ID)
      with (key := UNITTEST_DERIVED_KEYSLOT);
      [done|right; left|done|done|done|no_zero|done|by intros; apply derived_answer| |].
    { specialize (Hstack 32). cbn. lia. }
    intros m w' Hat'. cbn beta iota. wpt_check; [lia|]. apply expect_equal; [done|].
    by exists s, p, [].
  - eapply absent_spec; [done|by right; left|no_zero|done|]. intros dest m w' Hat'. cbn beta iota.
    apply wpt_expect; [lia|]. by exists s, p, [].
Qed.

(** The buffer of a handle. *)
Lemma handle_buffer : Z.of_nat (length (zeros HWKEY_OPAQUE_HANDLE_MAX_SIZE)) = HWKEY_OPAQUE_HANDLE_MAX_SIZE.
Proof.
  apply length_zeros. pose proof (max_size keys tester kdf) as Hmax. unfold HWKEY_OPAQUE_HANDLE_SIZE in Hmax. lia.
Qed.
Lemma handle_room : 32 ≤ HWKEY_OPAQUE_HANDLE_MAX_SIZE.
Proof. apply (max_size keys tester kdf). Qed.
Lemma handle_short h t : holds h t →
  (strnlen h HWKEY_OPAQUE_HANDLE_MAX_SIZE <? HWKEY_OPAQUE_HANDLE_MAX_SIZE) = true.
Proof.
  intros Hh. destruct (holds_facts h t Hh) as (_ & _ & _ & Hn). pose proof handle_room.
  rewrite Hn by done. lia.
Qed.

(** A token the tests' client may use opens the key of its slot. *)
Lemma opens_own j id d p t T :
  opaque cfg j id d → token_ok t → existsb (λ a, bool_decide (a = tester)) (allowed_uuids d) = true →
  find_key keys tester t (Entry p j t :: T) = Some d.
Proof.
  intros Hj Ht Hd. rewrite (opaque_found cfg j id d) by done. by rewrite Hd, bool_decide_true.
Qed.
Lemma opens_later j id d p t t' T :
  opaque cfg j id d → token_ok t → t ≠ t' →
  find_key keys tester t (Entry p j t' :: T) = find_key keys tester t T.
Proof.
  intros Hj Ht Hne. rewrite (opaque_found cfg j id d) by done.
  by rewrite bool_decide_false, andb_false_r by done.
Qed.

Lemma get_opaque_handle_passes : passes (get_opaque_handle with_tests).
Proof.
  split; [unfold get_opaque_handle; keeps_tac|]. intros s p cs w Hat. unfold get_opaque_handle.
  wpt_next. eapply session_of; [done|]. wpt_next. destruct with_tests eqn:Hcfg.
  - destruct (slot_handle Hcfg) as [j Hj].
    eapply (handle_spec cfg); [done|apply lookup_singleton_eq|done|no_zero|by apply not_elem_of_nil|
      apply handle_buffer|].
    intros t h w' Hh _ Hat'. cbn beta iota. wpt_check; [lia|].
    wpt_check; [pose proof handle_room; lia|].
    apply wpt_expect; [by eapply handle_short|]. exists s, p, [Entry p j t].
    by rewrite revoke_own.
  - eapply absent_spec; [done|by do 2 right; left|no_zero|done|]. intros dest m w' Hat'.
    cbn beta iota. apply wpt_expect; [lia|]. by exists s, p, [].
Qed.

Lemma get_opaque_key_passes : with_tests = true → passes get_opaque_key.
Proof.
  intros Hcfg. split; [unfold get_opaque_key; keeps_tac|]. intros s p cs w Hat. unfold get_opaque_key.
  destruct (slot_handle Hcfg) as [j Hj].
  wpt_next. eapply session_of; [done|]. wpt_next.
  eapply (obtain_spec cfg); [done|apply lookup_singleton_eq|done|no_zero|by apply not_elem_of_nil|
    apply handle_buffer|].
  intros t h w1 Hh _ Hat1. wpt_check; [by eapply handle_short|].
  wpt_next. eapply c_string_spec; [done|].
  wpt_next. eapply (key_spec cfg) with (key := UNITTEST_KEYSLOT);
    [done|apply lookup_singleton_eq|done|by eapply opens_own; [done|apply (proj1 Hh)|]|
     apply unittest_answer|by vm_compute; lia|].
  intros w2 Hat2. cbn beta iota. wpt_check; [lia|]. apply expect_equal; [done|].
  exists s, p, [Entry p j t]. by rewrite revoke_own.
Qed.

Lemma try_empty_opaque_handle_passes : passes try_empty_opaque_handle.
Proof.
  assert (keeps (W := W) (s ← get_loc hwkey_session; r ← get_keyslot s [] (zeros 32);
    let '(rc, _, _) := r in
    expect "retrieving a key with an empty access token succeeded" (rc =? ERR_NOT_FOUND))) as Hk
    by keeps_tac.
  split; [by eapply keeps_reconnect|]. intros s p cs w Hat.
  eapply (reconnect_spec cfg); [done|done|done|]. intros s' p' w' Hat'.
  wpt_next. eapply session_of; [done|]. wpt_next.
  eapply get_keyslot_spec; [done|apply lookup_singleton_eq|by apply not_elem_of_nil|].
  intros rc o T' dest m w2 Ha Hat2 _ _.
  destruct (answered_none _ _ _ _ _ _ _ (select_empty cfg 0) (find_key_nil _) Ha) as [-> ->].
  apply wpt_expect; [lia|]. by exists s', p', [].
Qed.

Lemma get_opaque_derived_key_passes :
  with_tests = true → sized → test_vector (D:=D) → passes (get_opaque_derived_key stack).
Proof.
  intros Hcfg Hstack Hv. split; [unfold get_opaque_derived_key; keeps_tac|]. intros s p cs w Hat.
  unfold get_opaque_derived_key. destruct (slot_derived Hcfg) as [j Hj].
  wpt_next. eapply session_of; [done|]. wpt_next.
  eapply (handle_spec cfg); [done|apply lookup_singleton_eq|done|no_zero|by apply not_elem_of_nil|
    apply handle_buffer|].
  intros t h w1 Hh _ Hat1. cbn beta iota. wpt_check; [lia|]. wpt_check; [pose proof handle_room; lia|].
  wpt_check. { destruct (holds_facts h t Hh) as (_ & _ & _ & Hn). by rewrite (Hn _ handle_room). }
  wpt_next. eapply c_string_spec; [done|].
  wpt_next. eapply (key_spec cfg) with (key := UNITTEST_DERIVED_KEYSLOT);
    [done|apply lookup_singleton_eq|done|by eapply opens_own; [done|apply (proj1 Hh)|]|
     by intros; apply derived_answer| |].
  { specialize (Hstack 32). cbn. lia. }
  intros w2 Hat2. cbn beta iota. wpt_check; [lia|]. wpt_check; [done|].
  apply expect_equal; [done|]. exists s, p, [Entry p j t]. by rewrite revoke_own.
Qed.

(** A slot whose key no client may use opens nothing. *)
Lemma opens_never j id d p t t' T :
  opaque cfg j id d → token_ok t → allowed_uuids d = [] →
  find_key keys tester t (Entry p j t' :: T) = find_key keys tester t T.
Proof. intros Hj Ht Hd. rewrite (opaque_found cfg j id d) by done. by rewrite Hd. Qed.

Lemma no_handles t : find_key keys tester t [] = None.
Proof. done. Qed.

(** After a reconnection, neither of two handles opens a key. *)
Lemma both_gone cs h1 t1 h2 t2 buf s p w :
  holds h1 t1 → holds h2 t2 → at_state {[s := p]} [] cs s w →
  wpt (s ← get_loc hwkey_session;
       key_buf ← refused "handle was still valid" s h1 buf;
       refused "handle was still valid" s h2 key_buf;; ret tt)
    (λ _ w', ∃ s' p' T, at_state {[s' := p']} T cs s' w' ∧ revoke p' T = []) w.
Proof.
  intros Hh1 Hh2 Hat. wpt_next. eapply session_of; [done|].
  wpt_next. eapply (refused_spec cfg); [done|apply lookup_singleton_eq|exact Hh1|done|].
  intros buf1 w1 _ Hat1.
  wpt_next. eapply (refused_spec cfg); [done|apply lookup_singleton_eq|exact Hh2|done|].
  intros buf2 w2 _ Hat2. apply wpt_ret. by exists s, p, [].
Qed.

Lemma get_multiple_opaque_handles_passes :
  with_tests = true → passes get_multiple_opaque_handles.
Proof.
  intros Hcfg. split; [unfold get_multiple_opaque_handles; keeps_tac|]. intros s p cs w Hat.
  unfold get_multiple_opaque_handles.
  destruct (slot_handle Hcfg) as [j1 Hj1]. destruct (slot_noaccess Hcfg) as [j2 Hj2].
  wpt_next. eapply session_of; [done|].
  wpt_next. eapply (obtain_spec cfg); [done|apply lookup_singleton_eq|exact Hj1|no_zero|
    by apply not_elem_of_nil|apply handle_buffer|].
  intros t1 h1 w1 Hh1 _ Hat1.
  wpt_next. eapply (obtain_spec cfg); [done|apply lookup_singleton_eq|exact Hj2|no_zero| |
    apply handle_buffer|].
  { other_slot Hj1 Hj2. }
  intros t2 h2 w2 Hh2 Hnew Hat2. cbn [app fmap list_fmap e_token] in *.
  assert (t1 ≠ t2) as Hne by (intros ->; by apply Hnew; left).
  wpt_check. { by rewrite (holds_equal h1 t1 h2 t2 Hh1 Hh2 Hne _ handle_room). }
  wpt_next. eapply (open_key_spec cfg); [done|apply lookup_singleton_eq|exact Hh1|
    by eapply opens_own; [done|apply (proj1 Hh1)|]|done|by vm_compute; lia|].
  intros buf1 w3 _ Hat3.
  wpt_next. eapply (refused_spec cfg); [done|apply lookup_singleton_eq|exact Hh2| |].
  { rewrite (opens_later _ _ _ _ _ _ _ Hj1 (proj1 Hh2)) by done.
    by rewrite (opens_never _ _ _ _ _ _ _ Hj2 (proj1 Hh2)). }
  intros buf2 w4 _ Hat4.
  eapply (reconnect_spec cfg); [done| |keeps_tac|intros; by eapply both_gone].
  unfold revoke. by rewrite !filter_cons_False by (cbn; auto).
Qed.

(** A slot whose handle is out. *)
Lemma exists_spec X T cs s x p j id d dest (P : Z * bytes * Z → world ut_state unit W → Prop) w :
  at_state X T cs s w → X !! x = Some p → opaque cfg j id d → 0 ∉ str id → j ∈ e_slot <$> T →
  (∀ dest' m w', length dest' = length dest → at_state X T cs s w' →
     P (ERR_ALREADY_EXISTS, dest', m) w') →
  wpt (get_keyslot x (str id) dest) P w.
Proof.
  intros Hat Hx (sl & Hj & _ & Hd & Hsel) Hid Hin HP.
  eapply get_keyslot_spec; [done..|]. intros rc o T' dest' m w' Ha Hat' Hl _.
  destruct (answered_handle cfg _ _ _ _ _ _ _ _ _ Hsel (opaque_handler _ _ Hd) Ha)
    as [(_ & -> & _ & ->)|(Hno & _)]; [by apply HP|done].
Qed.

(** The two sessions of the test and what each was given. *)
Definition two_sessions s p s2 p2 : gmap Z ptr := <[s2 := p2]> {[s := p]}.
Definition two_handles p j1 t1 p2 j2 t2 : list entry := [Entry p j1 t1; Entry p2 j2 t2].

(** Either session opens either handle. *)
Lemma all_open s p s2 p2 j1 j2 t1 t2 h1 h2 cs k (P : unit → world ut_state unit W → Prop) w :
  let X := two_sessions s p s2 p2 in
  let T := two_handles p j1 t1 p2 j2 t2 in
  opaque cfg j1 HWCRYPTO_UNITTEST_OPAQUE_HANDLE_ID unittest_opaque_handle_data →
  opaque cfg j2 HWCRYPTO_UNITTEST_OPAQUE_HANDLE2_ID unittest_opaque_handle_data2 →
  holds h1 t1 → holds h2 t2 → t1 ≠ t2 → s2 ≠ s → at_state X T cs s w →
  (∀ buf, keeps (k buf)) →
  (∀ buf w', at_state X T cs s w' → (32 ≤ length buf)%nat → wpt (k buf) P w') →
  wpt (open_key s h1 (zeros 33) 32;; open_key s h2 (zeros 33) 32;;
       open_key s2 h1 (zeros 33) 32;;
       key_buf ← open_key s2 h2 (zeros 33) 32; k key_buf) P w.
Proof.
  intros X T Hj1 Hj2 Hh1 Hh2 Hne Hss Hat Hk HP.
  assert (X !! s2 = Some p2) as Hx2 by apply lookup_insert_eq.
  assert (X !! s = Some p) as Hx1
    by (unfold X, two_sessions; rewrite lookup_insert_ne by done; apply lookup_singleton_eq).
  assert (find_key keys tester t1 T = Some unittest_opaque_handle_data) as Hf1
    by (eapply opens_own; [done|apply (proj1 Hh1)|done]).
  assert (find_key keys tester t2 T = Some unittest_opaque_handle_data2) as Hf2.
  { unfold T, two_handles. rewrite (opens_later _ _ _ _ _ _ _ Hj1 (proj1 Hh2)) by done.
    eapply opens_own; [done|apply (proj1 Hh2)|done]. }
  assert (32 ≤ length (zeros 33))%nat as Hl by (vm_compute; lia).
  wpt_next. eapply (open_key_spec cfg) with (h := h1); [done|done|done|done|done|done|].
  intros _ w1 _ Hat1.
  wpt_next. eapply (open_key_spec cfg) with (h := h2); [done|done|done|done|done|done|].
  intros _ w2 _ Hat2.
  wpt_next. eapply (open_key_spec cfg) with (h := h1); [done|done|done|done|done|done|].
  intros _ w3 _ Hat3.
  wpt_next. eapply (open_key_spec cfg) with (h := h2); [done|done|done|done|done|done|].
  intros buf w4 Hb Hat4. apply HP; [done|]. by rewrite Hb.
Qed.

(** When the second session is closed, the first one's handle still opens its
    key, the other one nothing. *)
Lemma second_closed s p j1 t1 h1 t2 h2 cs buf w :
  opaque cfg j1 HWCRYPTO_UNITTEST_OPAQUE_HANDLE_ID unittest_opaque_handle_data →
  holds h1 t1 → holds h2 t2 → t1 ≠ t2 → (32 ≤ length buf)%nat →
  at_state {[s := p]} [Entry p j1 t1] cs s w →
  wpt (id ← c_string h1;
       r ← get_keyslot s id buf;
       let '(rc, key_buf, _) := r in
       expect "first session handle wasn't valid" (rc =? NO_ERROR);;
       key_buf ← refused "second session handle was still valid" s h2 key_buf;
       reconnect (
         s ← get_loc hwkey_session;
         key_buf ← refused "handle was still valid" s h1 key_buf;
         refused "handle was still valid" s h2 key_buf;;
         ret tt))
    (λ _ w', ∃ s' p' T, at_state {[s' := p']} T cs s' w' ∧ revoke p' T = []) w.
Proof.
  intros Hj1 Hh1 Hh2 Hne Hl Hat. wpt_next. eapply c_string_spec; [done|].
  wpt_next. eapply (key_spec cfg) with (key := UNITTEST_KEYSLOT);
    [done|apply lookup_singleton_eq|done|by eapply opens_own; [done|apply (proj1 Hh1)|]|
     apply unittest_answer|done|].
  intros w2 Hat2. cbn beta iota. wpt_check; [lia|].
  wpt_next. eapply (refused_spec cfg); [done|apply lookup_singleton_eq|exact Hh2| |].
  { by rewrite (opens_later _ _ _ _ _ _ _ Hj1 (proj1 Hh2)). }
  intros buf3 w3 _ Hat3.
  eapply (reconnect_spec cfg); [done|by rewrite revoke_own|keeps_tac|intros; by eapply both_gone].
Qed.

Lemma opaque_handle_multiple_sessions_passes :
  with_tests = true → passes opaque_handle_multiple_sessions.
Proof.
  intros Hcfg. split; [unfold opaque_handle_multiple_sessions; keeps_tac|]. intros s p cs w Hat.
  unfold opaque_handle_multiple_sessions.
  destruct (slot_handle Hcfg) as [j1 Hj1]. destruct (slot_handle2 Hcfg) as [j2 Hj2].
  wpt_next. eapply session_of; [done|].
  wpt_next. eapply (obtain_spec cfg); [done|apply lookup_singleton_eq|exact Hj1|no_zero|
    by apply not_elem_of_nil|apply handle_buffer|].
  intros t1 h1 w1 Hh1 _ Hat1.
  wpt_next. eapply open_spec; [done|]. intros s2 p2 w2 Hs2 Hfresh Hp2 Hat2.
  assert (p ≠ p2) as Hpp by (apply (Hp2 s), lookup_singleton_eq).
  assert (s2 ≠ s) as Hss by (intros ->; by rewrite lookup_singleton_eq in Hfresh).
  assert (two_sessions s p s2 p2 !! s2 = Some p2) as Hx2 by apply lookup_insert_eq.
  destruct (Z.ltb_spec s2 0); [lia|].
  wpt_next. eapply exists_spec; [done|exact Hx2|exact Hj1|no_zero|by left|].
  intros buf m w3 Hl Hat3. cbn beta iota. wpt_check; [lia|].
  wpt_next. eapply (obtain_spec cfg); [done|exact Hx2|exact Hj2|no_zero| |rewrite Hl; apply handle_buffer|].
  { other_slot Hj1 Hj2. }
  intros t2 h2 w4 Hh2 Hnew Hat4. cbn [app fmap list_fmap e_token] in *.
  assert (t1 ≠ t2) as Hne by (intros ->; by apply Hnew; left).
  eapply all_open; [exact Hj1|exact Hj2|exact Hh1|exact Hh2|done|done|exact Hat4|intros; keeps_tac|].
  intros buf5 w5 Hat5 Hl5.
  wpt_next. eapply close_spec; [done|exact Hx2|]. unfold two_sessions, two_handles, revoke.
  rewrite delete_insert_id by by rewrite lookup_singleton_ne.
  rewrite filter_cons_True, filter_cons_False, filter_nil by (cbn; auto). intros w6 Hat6.
  by eapply second_closed.
Qed.

(** * 3. The suite *)

Lemma hwkey_tests_pass :
  sized → kdf_fits → test_vector (D:=D) → Forall passes (hwkey_tests stack with_tests).
Proof.
  intros Hstack Hk Hv. unfold hwkey_tests. apply Forall_app. split.
  - rewrite !Forall_cons. split_and!; [by apply generic_invalid_session_passes|
      by apply generic_closed_session_passes|by apply derive_repeatable_passes|
      by apply derive_different_passes|apply derive_zero_length_passes|
      apply get_storage_auth_passes|by apply get_keybox_passes|
      by apply get_derived_keybox_passes|apply get_opaque_handle_passes|apply Forall_nil_2].
  - destruct with_tests eqn:Hcfg; [|constructor].
    rewrite !Forall_cons. split_and!; [by apply get_opaque_key_passes|
      by apply get_multiple_opaque_handles_passes|by apply opaque_handle_multiple_sessions_passes|
      apply try_empty_opaque_handle_passes|by apply get_opaque_derived_key_passes|apply Forall_nil_2].
Qed.

Lemma run_test_passes test cs s w :
  passes test → at_state ∅ [] cs s w →
  wpt (run_test test) (λ _ w', ∃ s', at_state ∅ [] cs s' w') w.
Proof.
  intros [Hk Htest] (Hok & HX & HT & Hcs & _). unfold run_test, hwkey_setup, hwkey_teardown.
  wpt_next. wpt_next. apply wpt_mod_loc. wpt_next.
  eapply (open_spec ∅ [] cs INVALID_IPC_HANDLE); [by split_and!|].
  intros rc p w1 Hrc _ _ (Hok1 & HX1 & HT1 & Hcs1 & _). rewrite insert_empty in HX1.
  destruct (Z.leb_spec 0 rc); [|lia]. apply wpt_mod_loc. wpt_next.
  eapply wpt_mono; [by apply (Htest rc p cs)|]. intros _ w2 (s' & p' & T & Hat2 & Hrev).
  wpt_next. eapply session_of; [done|].
  eapply close_spec; [done|apply lookup_singleton_eq|]. rewrite Hrev, delete_singleton_eq.
  intros w3 Hat3. by exists s'.
Qed.

Lemma keeps_run_test test : keeps test → keeps (run_test test).
Proof. intros Hk. unfold run_test, hwkey_setup, hwkey_teardown. keeps_tac. Qed.

Lemma run_tests_pass tests cs s w :
  Forall passes tests → at_state ∅ [] cs s w →
  keeps (foldM (λ _, run_test) tt tests) ∧
  wpt (foldM (λ _, run_test) tt tests) (λ _ w', ∃ s', at_state ∅ [] cs s' w') w.
Proof.
  intros Hall. revert s w. induction Hall as [|test tests Htest Hall IH]; intros s w Hat; cbn [foldM].
  { split; [apply keeps_ret|]. apply wpt_ret. by exists s. }
  assert (∀ b : unit, keeps (foldM (λ _, run_test) b tests)) as Hk
    by (intros []; by apply (IH s w)).
  split; [apply keeps_bind; [by apply keeps_run_test, (proj1 Htest)|done]|].
  apply wpt_bind; [done|]. eapply wpt_mono; [by eapply run_test_passes|].
  intros [] w' [s' Hat']. by apply (IH s').
Qed.

(** The suite, against any service that keeps the contract. *)
Lemma run_hwkey_tests_pass w :
  sized → kdf_fits → test_vector (D:=D) → k_ok (env w) → k_ctx (env w) = ∅ → k_table (env w) = [] →
  wpt (run_hwkey_tests stack with_tests) (λ _ w',
    checks (loc w') = checks (loc w) ∧ k_ctx (env w') = ∅ ∧ k_table (env w') = []) w.
Proof.
  intros Hstack Hk Hv Hok HX HT.
  eapply wpt_mono; [eapply (run_tests_pass _ (checks (loc w)) (hwkey_session (loc w)));
    [by apply hwkey_tests_pass|by split_and!]|].
  intros _ w' (s' & _ & HX' & HT' & Hcs & _). done.
Qed.
End Tests.
