(* ===== verification/HwkeyLink.v ===== *)
(** The client library of the unit tests over the key service itself: its
    calls run the handlers of hwkey_srv.c, and keep the contract of
    HwkeyTestCorrect.v. *)

From S2P Require Import Prelude Ipc HwrngDev Evp Hwkey HwkeyProps HwkeyCorrect HwkeyProvider Watch HwkeyTable HwkeyTest HwkeyTestCorrect HwkeyTestPasses.

(** * 1. What else there is between them *)

(** lib/hwkey and the kernel: a connection that waits, a message that waits,
    the requests for a name and for a derivation, what an answer says and its
    version, and the return code for a status; the constants and calls the
    tests use besides. *)
Class HwkeyLib (W : Type) := {
  lib_dial : W → W;
  lib_deliver : handle → bytes → W → W;
  lib_request : bytes → bytes;
  lib_derive_request : Z → bytes → bytes;
  lib_answer : bytes → Z * bytes;
  lib_version : bytes → Z;
  lib_rc : Z → Z;
  lib_already_exists : Z;
  lib_bad_handle : Z;
  lib_not_valid : Z;
  lib_max_size : Z;
  lib_rng : Z → Z * bytes;
  lib_rand : Z
}.

Class HwkeyLibLaws (W : Type) `{!Uapi, !HwkeyIface, !HwkeyLib W} : Prop := {
  lib_request_cmd id : cmd (msg_hdr (lib_request id)) = HWKEY_GET_KEYSLOT;
  lib_request_payload id : msg_payload (lib_request id) = id;
  lib_answer_says id st data :
    lib_answer (response (msg_hdr (lib_request id)) st data) = (st, data);
  lib_derive_cmd v src : cmd (msg_hdr (lib_derive_request v src)) = HWKEY_DERIVE;
  lib_derive_version v src : arg1 (msg_hdr (lib_derive_request v src)) = v;
  lib_derive_payload v src : msg_payload (lib_derive_request v src) = src;
  lib_derived_says v src v' st data :
    let rsp := response (with_arg1 v' (msg_hdr (lib_derive_request v src))) st data in
    lib_answer rsp = (st, data) ∧ lib_version rsp = v';
  lib_rc_ok : lib_rc HWKEY_NO_ERROR = NO_ERROR;
  lib_rc_not_found : lib_rc HWKEY_ERR_NOT_FOUND = ERR_NOT_FOUND;
  lib_rc_exists : lib_rc HWKEY_ERR_ALREADY_EXISTS = lib_already_exists;
  lib_rc_bad_len : lib_rc HWKEY_ERR_BAD_LEN = lib_not_valid;
  lib_max_size_range : HWKEY_OPAQUE_HANDLE_SIZE ≤ lib_max_size < 2 ^ 32
}.

(** The service, the open sessions by the handle both ends have, and whether
    there was trouble: a call of the kernel, the allocator, the random number
    device or the cryptography failed, or these gave something unexpected (a
    connection of somebody else or on a handle in use, a message that is not
    the request sent, a token that a live handle has).  It is read off the calls
    the service made and off the watched device: what the service answers, and
    whether it refuses or halts, has no part in it. *)
Record linked (D W : Type) := Linked {
  served : world (hwkey_state (watched D)) (watched D) W;
  sessions : gmap Z ptr;
  trouble : bool
}.
Arguments Linked {D W}.
Arguments served {D W}.
Arguments sessions {D W}.
Arguments trouble {D W}.

(** The calls went well and the messages received were [m]. *)
Definition undisturbed (m : bytes) (calls : list sysev) : bool :=
  forallb (λ e, negb (call_failed e) &&
    match e with SRecv _ _ bs => bool_decide (bs = m) | _ => true end) calls.

Section Link.
Context {D W : Type} `{!Uapi} `{!HwkeyIface} `{!HwrngDev D} `{!HwrngDevFair D}
  `{!HwkeyProvider (watched D)} `{!Kernel W} `{!HwkeyLib W}.
Implicit Types e : linked D W.
Abbreviation fuel := (token_fuel (D := watched D)).

(** The service's port and the events of a new connection, a message and the
    end of a session; the client's identity and the service's slots. *)
Context (port ready msg hup : Z) (u : uuid) (slots : list (hwkey_keyslot (watched D))).

Definition env_of (f : W → W) e : world (hwkey_state (watched D)) (watched D) W :=
  World (loc (served e)) (dev (served e)) (f (env (served e))) (trace (served e)).

(** The service at [w] and the sessions [X] after a call; [fine]: nothing
    unexpected came from outside. *)
Definition after e (w : world (hwkey_state (watched D)) (watched D) W) (fine : bool)
    (X : gmap Z ptr) : linked D W :=
  Linked w X (trouble e || negb fine || lib_failed (dev w)).

(** The calls of the service that ran from [e]. *)
Definition calls e (w : world (hwkey_state (watched D)) (watched D) W) : list sysev :=
  since (trace (served e)) (trace w).

(** The kernel connects this client, on a new handle. *)
Definition connects e : bool :=
  let '((s, peer), _) := k_accept port (lib_dial (env (served e))) in
  bool_decide (peer = u) && bool_decide (sessions e !! s = None).

Definition link_open e : Z * linked D W :=
  let p := new_ptr (hwkey_ctxs (loc (served e))) in
  let fine w' := connects e && forallb (negb ∘ call_failed) (calls e w') in
  match hwkey_port_handler (UEvent port ready) (env_of lib_dial e) with
  | Ret _ w' =>
    match hwkey_ctxs (loc w') !! p with
    | Some c => (hwkey_chan c, after e w' (fine w') (<[hwkey_chan c := p]> (sessions e)))
    | None => (ERR_CHANNEL_CLOSED, after e w' (fine w') (sessions e))
    end
  | Halt _ w' => (ERR_CHANNEL_CLOSED, after e w' (fine w') (sessions e))
  end.

Definition link_close (s : Z) e : unit * linked D W :=
  match sessions e !! s with
  | Some p =>
    match hwkey_chan_handler fuel (UEvent s hup) p (served e) with
    | Ret _ w' => (tt, after e w' true (delete s (sessions e)))
    | Halt _ w' => (tt, after e w' true (sessions e))
    end
  | None => (tt, e)
  end.

(** The token that the device delivers next. *)
Fixpoint next_token (n : nat) (d : watched D) : option bytes :=
  match n with
  | O => None
  | S n =>
    let '((rc, bs), d') := hwrng_dev_get_rng_data (HWKEY_OPAQUE_HANDLE_SIZE + 2) d in
    if negb (rc =? NO_ERROR) then None
    else if (31 <=? length (Fake.nonzero bs))%nat then Some (make_token bs)
    else next_token n d'
  end.

(** A handle is asked for, and the device would repeat a token. *)
Definition repeats (id : bytes) e : bool :=
  match select_slot u (id ++ [0]) slots 0 with
  | Some (_, s) =>
    is_opaque_handle s &&
    match next_token fuel (dev (served e)) with
    | Some t => bool_decide (t ∈ e_token <$> table (loc (served e)))
    | None => false
    end
  | None => false
  end.

Definition link_get (s : Z) (id : bytes) (n : Z) e : (Z * bytes * Z) * linked D W :=
  match sessions e !! s with
  | Some p =>
    let fine w' := undisturbed (lib_request id) (calls e w') && negb (repeats id e) in
    match hwkey_chan_handler fuel (UEvent s msg) p
            (env_of (lib_deliver s (lib_request id)) e) with
    | Ret _ w' =>
      let e' := after e w' (fine w') (sessions e) in
      match calls e w' with
      | SSend _ bs _ :: _ =>
        let '(st, data) := lib_answer bs in
        ((lib_rc st, take (Z.to_nat n) data, Z.of_nat (length data)), e')
      | _ => ((ERR_CHANNEL_CLOSED, [], 0), e')
      end
    | Halt _ w' => ((ERR_CHANNEL_CLOSED, [], 0), after e w' (fine w') (sessions e))
    end
  | None => ((ERR_CHANNEL_CLOSED, [], 0), e)
  end.

Definition link_derive (s ver : Z) (src : bytes) e : (Z * bytes * Z) * linked D W :=
  match sessions e !! s with
  | Some p =>
    let fine w' := undisturbed (lib_derive_request ver src) (calls e w') in
    match hwkey_chan_handler fuel (UEvent s msg) p
            (env_of (lib_deliver s (lib_derive_request ver src)) e) with
    | Ret _ w' =>
      let e' := after e w' (fine w') (sessions e) in
      match calls e w' with
      | SSend _ bs _ :: _ =>
        let '(st, data) := lib_answer bs in
        ((lib_rc st, take (length src) data, lib_version bs), e')
      | _ => ((ERR_CHANNEL_CLOSED, [], ver), e')
      end
    | Halt _ w' => ((ERR_CHANNEL_CLOSED, [], ver), after e w' (fine w') (sessions e))
    end
  | None => ((if s =? INVALID_IPC_HANDLE then lib_bad_handle else ERR_NOT_FOUND, [], ver), e)
  end.

Definition link_client : HwkeyClient (linked D W) := {|
  ERR_ALREADY_EXISTS := lib_already_exists;
  ERR_BAD_HANDLE := lib_bad_handle;
  ERR_NOT_VALID := lib_not_valid;
  HWKEY_OPAQUE_HANDLE_MAX_SIZE := lib_max_size;
  k_hwkey_open := link_open;
  k_hwkey_close := link_close;
  k_hwkey_get_keyslot_data := link_get;
  k_hwkey_derive := link_derive;
  k_trusty_rng_hw_rand n e := (lib_rng n, e);
  k_rand e := (lib_rand, e)
|}.

(** The invariant of the connected service. *)
Definition link_ok e : Prop :=
  key_slots (loc (served e)) = Some slots ∧
  (∃ rest, hwkey_ok rest (loc (served e)) (trace (served e))) ∧
  ∀ s p, sessions e !! s = Some p → 0 ≤ s ∧
    ∃ c, hwkey_ctxs (loc (served e)) !! p = Some c ∧ hwkey_chan c = s ∧ hwkey_uuid c = u.

Definition link_service : KeyService (linked D W) := {|
  k_ok := link_ok;
  k_troubles := {| k_trouble := trouble |};
  k_ctx := sessions;
  k_table e := table (loc (served e))
|}.
End Link.

(** * 2. The handlers, once more *)

Section Handlers.
Context {D W : Type} `{!Uapi} `{!HwkeyIface} `{!HwrngDev D} `{!HwrngDevFair D}
  `{!HwkeyProvider D} `{!HwkeyProviderLaws D} `{!Kernel W} `{!KernelLaws W}.
Implicit Types (w : world (hwkey_state D) D W) (p : ptr) (c : hwkey_chan_ctx).

Lemma wp_result {S A} (m : M S A) (Q : A → S → Prop) s a s' : wp m Q s → m s = Ret a s' → Q a s'.
Proof. unfold wp. intros HQ E. by rewrite E in HQ. Qed.

(** An allowed client is connected, unless a call fails. *)
Lemma port_handler_opens ev rc u v w :
  tipc_port_error (ev_event ev) = false → has (ev_event ev) IPC_HANDLE_POLL_READY = true →
  NoDup (opaque_handles (loc w)).*1 → hwkey_client_allowed u = true →
  k_accept (ev_handle ev) (env w) = ((rc, u), v) →
  wp (hwkey_port_handler ev) (λ _ w',
    forallb (negb ∘ call_failed) (since (trace w) (trace w')) = true → 0 ≤ rc ∧
    hwkey_ctxs (loc w') = <[new_ptr (hwkey_ctxs (loc w)) := HwkeyCtx rc u]> (hwkey_ctxs (loc w)) ∧
    table (loc w') = table (loc w) ∧ key_slots (loc w') = key_slots (loc w)) w.
Proof.
  intros Herr Hready Hnd Hallow Eacc. unfold hwkey_port_handler, tipc_handle_port_errors.
  rewrite Herr, Hready. pose proof (new_ptr_fresh (hwkey_ctxs (loc w))) as Hfresh.
  ipc_steps. unfold accept. ipc_call r v0 E. rewrite Eacc in E. injection E as <- <-.
  wp_cases Hrc; ipc_steps.
  { intros Hf. since_in Hf. cbn in Hf. lia. }
  rewrite Hallow. cbn [negb]. ipc_steps. unfold alloc_ok. ipc_call ok v' E'. destruct ok; cbn [negb]; ipc_steps.
  2: { apply wp_close. intros. ipc_steps. intros Hf. since_in Hf. done. }
  unfold set_cookie. ipc_call r2 v2 E2. wp_cases Hck.
  - eapply ctx_close_spec; [exact Hnd|apply lookup_insert_eq|]. intros v3 Hf.
    since_in Hf. cbn in Hf. by rewrite (proj2 (Z.eqb_neq r2 0)) in Hf by lia.
  - ipc_steps. intros _. split_and!; [lia|done..].
Qed.

(** A message leaves the clients alone, unless its client is dropped. *)
Lemma chan_handler_keeps rest ev p c w :
  hwkey_ok rest (loc w) (trace w) → hwkey_ctxs (loc w) !! p = Some c →
  ev_handle ev = hwkey_chan c → tipc_chan_error (ev_event ev) = false →
  has (ev_event ev) IPC_HANDLE_POLL_HUP = false →
  wp (hwkey_chan_handler token_fuel ev p) (λ _ w',
    hwkey_ok rest (loc w') (trace w') ∧
    ((hwkey_ctxs (loc w') = hwkey_ctxs (loc w) ∧ key_slots (loc w') = key_slots (loc w)) ∨
     ∃ tr, trace w' = SClose (hwkey_chan c) :: tr)) w.
Proof.
  intros Hok Hp Hh Herr Hhup. eapply wp_mono; [apply wp_conj;
    [by eapply (chan_handler_ok _ rest ev p c); [apply token_fuel_ready|..]|]|
     intros ? w' Hw'; exact Hw'].
  unfold hwkey_chan_handler, tipc_handle_chan_errors. ipc_steps. eapply wp_load; [done|].
  ipc_steps. apply wp_assert; [lia|]. ipc_steps. rewrite Herr, Hhup. ipc_steps.
  wp_cases Hmsg; [|by ipc_steps; left]. ipc_steps.
  eapply wp_mono; [by eapply (chan_handle_msg_ok _ rest p c); [apply token_fuel_ready|..]|].
  intros rc w' (Hc & Hs & Hok' & _). wp_cases Hrc; [|by ipc_steps; left].
  eapply ctx_close_spec; [by eapply hk_ptrs|by rewrite Hc|]. intros v. right. by eexists.
Qed.

(** The end of a client. *)
Lemma chan_handler_hup rest ev p c w :
  hwkey_ok rest (loc w) (trace w) → hwkey_ctxs (loc w) !! p = Some c →
  ev_handle ev = hwkey_chan c → tipc_chan_error (ev_event ev) = false →
  has (ev_event ev) IPC_HANDLE_POLL_HUP = true →
  wp (hwkey_chan_handler token_fuel ev p) (λ _ w',
    hwkey_ok rest (loc w') (trace w') ∧ hwkey_ctxs (loc w') = delete p (hwkey_ctxs (loc w)) ∧
    key_slots (loc w') = key_slots (loc w) ∧ table (loc w') = revoke p (table (loc w))) w.
Proof.
  intros Hok Hp Hh Herr Hhup. unfold hwkey_chan_handler, tipc_handle_chan_errors.
  ipc_steps. eapply wp_load; [done|]. ipc_steps. apply wp_assert; [lia|]. ipc_steps.
  rewrite Herr, Hhup. ipc_steps. eapply ctx_close_spec; [by eapply hk_ptrs|done|]. intros v.
  split_and!; [by apply closed_client_ok|done|done|]. apply (table_revoke p (loc w)).
Qed.
End Handlers.

(** * 3. The contract holds *)

Section Laws.
Context {D W : Type} `{!Uapi} `{!HwkeyIface} `{!HwrngDev D} `{!HwrngDevFair D}
  `{!HwkeyProvider (watched D)} `{!HwkeyProviderLaws (watched D)} `{!Kernel W} `{!KernelLaws W}
  `{!HwkeyLib W} `{!HwkeyLibLaws W}.
Context (port ready msg hup : Z) (u : uuid) (slots : list (hwkey_keyslot (watched D))).
Implicit Types e : linked D W.
Abbreviation fuel := (token_fuel (D := watched D)).

(** The three events are what their names say. *)
Record events_ok : Prop := {
  ready_fine : tipc_port_error ready = false;
  ready_is_ready : has ready IPC_HANDLE_POLL_READY = true;
  msg_fine : tipc_chan_error msg = false;
  msg_no_hup : has msg IPC_HANDLE_POLL_HUP = false;
  msg_is_msg : has msg IPC_HANDLE_POLL_MSG = true;
  hup_fine : tipc_chan_error hup = false;
  hup_is_hup : has hup IPC_HANDLE_POLL_HUP = true
}.

(** The keys that [u] can be served with fail only when a call does. *)
Definition surely_served (s : hwkey_keyslot (watched D)) : Prop :=
  match handler s with
  | ProviderFn f => slot_uuid s = u → sure (f HWKEY_MAX_PAYLOAD_SIZE)
  | GetKeyHandle (Some o) =>
    existsb (λ a, bool_decide (a = u)) (allowed_uuids o) = true →
    sure (retriever o HWKEY_MAX_PAYLOAD_SIZE)
  | _ => True
  end.

Context (Hev : events_ok) (Hu : hwkey_client_allowed u = true) (Hsure : Forall surely_served slots).
Abbreviation ok := (link_ok u slots).
#[local] Instance this_client : HwkeyClient (linked D W) := link_client port ready msg hup u slots.

Lemma untroubled e w fine X :
  trouble (after e w fine X) = false → fine = true ∧ lib_failed (dev w) = false.
Proof. cbn. destruct fine; [|by rewrite orb_true_r]. by intros [_ ?]%orb_false_iff. Qed.

Lemma link_open_ok e rc e' :
  link_open port ready u e = (rc, e') → trouble e' = false → ok e →
  ok e' ∧ 0 ≤ rc ∧ sessions e !! rc = None ∧ table (loc (served e')) = table (loc (served e)) ∧
  ∃ p, (∀ s q, sessions e !! s = Some q → q ≠ p) ∧ ¬ (p ∈ e_owner <$> table (loc (served e))) ∧
       sessions e' = <[rc := p]> (sessions e).
Proof.
  intros E Ht (Hsl & [rest Hok] & Hsess). unfold link_open, connects in E.
  destruct (k_accept port (lib_dial (env (served e)))) as [[s peer] v] eqn:Eacc.
  assert (hwkey_ok rest (loc (env_of lib_dial e)) (trace (env_of lib_dial e))) as Hok0 by exact Hok.
  pose proof (port_handler_ok rest (UEvent port ready) _ Hok0 (ready_fine Hev)) as Hsafe.
  pose proof (port_handler_opens (UEvent port ready) s peer v (env_of lib_dial e) (ready_fine Hev)
    (ready_is_ready Hev) (hk_ptrs _ _ _ Hok0)) as Hopen.
  destruct (wp_returns _ _ _ Hsafe) as ([] & w' & Er & Hok'). rewrite Er in E.
  set (p := new_ptr _) in *.
  assert (∀ X, e' = after e w' (bool_decide (peer = u) && bool_decide (sessions e !! s = None) &&
    forallb (negb ∘ call_failed) (calls e w')) X →
    hwkey_client_allowed peer = true ∧ sessions e !! s = None ∧ peer = u ∧ 0 ≤ s ∧
    hwkey_ctxs (loc w') = <[p := HwkeyCtx s peer]> (hwkey_ctxs (loc (served e))) ∧
    table (loc w') = table (loc (served e)) ∧ key_slots (loc w') = key_slots (loc (served e))) as Hfine.
  { intros X ->. apply untroubled in Ht as [Hf _].
    apply andb_prop in Hf as [[->%bool_decide_eq_true Hnew%bool_decide_eq_true]%andb_prop Hcalls].
    pose proof (wp_run _ _ _ _ _ (Hopen Hu Eacc) Er Hcalls) as (? & ? & ? & ?). by split_and!. }
  clear Hopen Hsafe. destruct (hwkey_ctxs (loc w') !! p) as [c|] eqn:Hc.
  2: { injection E as _ <-. destruct (Hfine _ eq_refl) as (_ & _ & _ & _ & Hctx & _).
       by rewrite Hctx, lookup_insert_eq in Hc. }
  injection E as <- <-. destruct (Hfine _ eq_refl) as (_ & Hnew & -> & Hs & Hctx & Htab & Hsl').
  rewrite Hctx, lookup_insert_eq in Hc. injection Hc as <-. cbn [hwkey_chan].
  assert (∀ s q, sessions e !! s = Some q → q ≠ p) as Hp.
  { intros s' q Hq ->. destruct (Hsess s' p Hq) as (_ & d & Hd & _).
    pose proof (new_ptr_fresh (hwkey_ctxs (loc (served e)))). unfold p in Hd. congruence. }
  assert (¬ (p ∈ e_owner <$> table (loc (served e)))) as Hown.
  { unfold table. rewrite <- list_fmap_compose. intros (q & Hpq & Hq)%list_elem_of_fmap.
    pose proof (proj1 (Forall_forall _ _) (hk_nodes _ _ _ Hok) _ Hq) as Hn.
    pose proof (new_ptr_fresh (hwkey_ctxs (loc (served e)))) as Hfresh. destruct Hn as ([c' Hlive] & _).
    unfold p in Hpq. cbn in Hpq, Hlive. congruence. }
  split_and!; [|exact Hs|exact Hnew|exact Htab|exists p; by split_and!]. split_and!; [cbn; by rewrite Hsl'|by exists rest|].
  intros s' q Hq. cbn [sessions served after] in *. rewrite Hctx.
  destruct (decide (s' = s)) as [->|Hne].
  - rewrite lookup_insert_eq in Hq. injection Hq as <-. split; [lia|].
    exists (HwkeyCtx s u). by rewrite lookup_insert_eq.
  - rewrite lookup_insert_ne in Hq by done.
    rewrite lookup_insert_ne by (intros <-; by eapply Hp). by apply Hsess.
Qed.

Lemma link_close_ok s p e r e' :
  link_close hup s e = (r, e') → ok e → sessions e !! s = Some p →
  ok e' ∧ sessions e' = delete s (sessions e) ∧
  table (loc (served e')) = revoke p (table (loc (served e))).
Proof.
  intros E (Hsl & [rest Hok] & Hsess) Hs. unfold link_close in E. rewrite Hs in E.
  destruct (Hsess s p Hs) as (_ & c & Hc & Hch & Hcu).
  pose proof (chan_handler_hup rest (UEvent s hup) p c (served e) Hok Hc (eq_sym Hch)
    (hup_fine Hev) (hup_is_hup Hev)) as Hw.
  destruct (wp_returns _ _ _ Hw) as ([] & w' & Er & Hok' & Hctx & Hsl' & Htab). rewrite Er in E.
  injection E as <- <-. split_and!; [|done|done]. split_and!; [cbn; by rewrite Hsl'|by exists rest|].
  intros s' q Hq. cbn [sessions after] in Hq. apply lookup_delete_Some in Hq as [Hne Hq].
  cbn [served after]. rewrite Hctx.
  destruct (Hsess s' q Hq) as (Hs' & d & Hd & Hds & Hdu). split; [done|]. exists d.
  rewrite lookup_delete_ne; [done|]. intros <-. congruence.
Qed.

Lemma next_token_draw n d bs d' :
  token_ready n d → token_draw d NO_ERROR bs d' → next_token n d = Some (make_token bs).
Proof.
  intros Hr Hd. revert n Hr. remember NO_ERROR as rc eqn:Erc.
  induction Hd as [d rc bs d' E Hn|d bs d1 rc bs' d' E Hn Hd IH]; intros [|n] Hr; try done;
    cbn [next_token token_ready] in *; rewrite E in *; subst; rewrite Z.eqb_refl; cbn [negb].
  - by rewrite (proj2 (Nat.leb_le _ _)) by auto.
  - rewrite (proj2 (Nat.leb_gt _ _)) by lia. apply IH; [done|]. by destruct Hr as [?|[?|?]].
Qed.

Lemma token_draw_failed d rc bs d' :
  token_draw (D := watched D) d rc bs d' → rc ≠ NO_ERROR → lib_failed d' = true.
Proof.
  induction 1 as [d rc bs d' E _|]; [|done]. intros Hrc. apply watch_inv in E as (i & _ & ->). cbn.
  rewrite (proj2 (Z.eqb_neq _ _) Hrc). by rewrite orb_true_r.
Qed.

Lemma sure_answers (f : key_fn (watched D)) d st data d' :
  sure (f HWKEY_MAX_PAYLOAD_SIZE) → key_answer f d st data d' → lib_failed d' = false →
  st = HWKEY_NO_ERROR.
Proof.
  intros Hf [buf n0 k n Hbuf Hr _ <- _] Hd. specialize (Hf (KOut buf (Some n0) d) Hbuf).
  unfold wpx in Hf. rewrite Hr in Hf. by apply Hf.
Qed.

(** Without trouble, a step of the table is an answer of the contract. *)
Lemma served_answer p id e a st data T' d' :
  table_step slots u p (id ++ [0]) (table (loc (served e))) (dev (served e)) a st data T' d' →
  forallb (negb ∘ call_failed) a = true → repeats u slots id e = false → lib_failed d' = false →
  ∃ o, answered_with (W := linked D W) slots u p (id ++ [0]) (table (loc (served e)))
    (lib_rc st) o T' ∧ ∀ d, o = Some d → data = d.
Proof.
  intros Hstep Ha Hrep Hd.
  destruct Hstep as [j s o Hsel Hh Hin|j s o bs d' Hsel Hh Hin Hdraw| |j s o rc bs d' _ _ _ Hdraw Hrc
    |j s f st data d' Hsel Hh Hans|o st data d' Hsel Hf Hans|Hsel Hf].
  - exists None. split; [|done]. rewrite lib_rc_exists.
    change lib_already_exists with (ERR_ALREADY_EXISTS (W := linked D W)).
    by eapply (AExists slots u).
  - exists (Some (make_token bs)). split; [|by intros d [= <-]]. rewrite lib_rc_ok.
    eapply (ANew slots u); [done|done|done|by apply make_token_ok, (token_draw_enough _ _ _ Hdraw)|].
    unfold repeats in Hrep. rewrite Hsel in Hrep. unfold is_opaque_handle in Hrep. rewrite Hh in Hrep.
    rewrite (next_token_draw _ _ _ _ (token_fuel_ready _) Hdraw) in Hrep.
    cbn [andb] in Hrep. by apply bool_decide_eq_false in Hrep.
  - done.
  - by rewrite (token_draw_failed _ _ _ _ Hdraw Hrc) in Hd.
  - assert (st = HWKEY_NO_ERROR) as ->.
    { pose proof Hsel as (_ & Hj & Hsv)%select_slot_Some. rewrite Nat.sub_0_r in Hj.
      pose proof (Forall_lookup_1 _ _ _ _ Hsure Hj) as Hs. unfold surely_served in Hs. rewrite Hh in Hs.
      eapply sure_answers; [apply Hs|exact Hans|exact Hd].
      unfold serves in Hsv. apply andb_prop in Hsv as [[_ Hsv%bool_decide_eq_true]%andb_prop _]. done. }
    exists (Some data). split; [|by intros d [= <-]]. rewrite lib_rc_ok.
    eapply (AKey slots u); [left; by exists j, s|by eexists _, _].
  - assert (st = HWKEY_NO_ERROR) as ->.
    { unfold find_key in Hf. apply head_Some in Hf as [tl Hf].
      assert (o ∈ omap (readable slots u (id ++ [0])) (table (loc (served e)))) as Hin
        by (rewrite Hf; by left).
      apply list_elem_of_omap in Hin as (en & _ & Hr). unfold readable in Hr.
      destruct (slots !! e_slot en) as [s|] eqn:Hs; [|done].
      pose proof (Forall_lookup_1 _ _ _ _ Hsure Hs) as Hsv. unfold surely_served, opaque_data in *.
      destruct (handler s) as [|[o'|]|]; try done. destruct (existsb _ _) eqn:Hex; [|done]. cbn in Hr.
      destruct (bool_decide _); [|done]. injection Hr as <-.
      eapply sure_answers; [by apply Hsv|exact Hans|exact Hd]. }
    exists (Some data). split; [|by intros d [= <-]].
    rewrite lib_rc_ok. eapply (AKey slots u); [|by eexists _, _]. right. split; [done|]. by exists o.
  - exists None. split; [|done]. rewrite lib_rc_not_found. by eapply (ANone slots u).
Qed.


(** What an undisturbed message is answered with. *)
Definition answers m c p T d tr0 T' d' tr' : Prop := ∃ bs r tr,
  since tr0 tr' = SSend (hwkey_chan c) bs r :: tr ∧
  (cmd (msg_hdr m) = HWKEY_GET_KEYSLOT → ∃ a st data,
    bs = response (msg_hdr m) st data ∧ forallb (negb ∘ call_failed) a = true ∧
    table_step slots (hwkey_uuid c) p (msg_payload m ++ [0]) T d a st data T' d') ∧
  (cmd (msg_hdr m) = HWKEY_DERIVE → T' = T ∧ ∃ st data ver,
    bs = response (with_arg1 ver (msg_hdr m)) st data ∧
    derive_step (hwkey_uuid c) (arg1 (msg_hdr m)) (msg_payload m) d st data ver d').

Lemma since_middle old (x : sysev) a r : since old (x :: a ++ r :: old) = x :: a ++ [r].
Proof. replace (x :: a ++ r :: old) with ((x :: a ++ [r]) ++ old) by (cbn; by rewrite <- app_assoc). apply since_app. Qed.

Lemma undisturbed_allocs m a tr : undisturbed m (a ++ tr) = true →
  undisturbed m tr = true ∧ forallb (negb ∘ call_failed) a = true.
Proof.
  unfold undisturbed. rewrite forallb_app. intros [Ha Htr]%andb_prop. split; [done|].
  apply forallb_forall. intros e He. rewrite forallb_forall in Ha. specialize (Ha e He).
  by apply andb_prop in Ha as [? _].
Qed.

Lemma undisturbed_answer m c p T d tr0 T' d' tr' rc :
  msg_step slots c p T d tr0 T' d' tr' rc → undisturbed m (since tr0 tr') = true →
  0 ≤ rc ∧ answers m c p T d tr0 T' d' tr'.
Proof.
  pose proof hwkey_cmds_differ.
  intros [rc' bs Hrc|msg' st data T2 d2 a rc' Hcmd Htab|msg' st data ver d2 rc' Hcmd Hder|msg' rc' Hg Hd] Hun.
  - since_in Hun. cbn in Hun. lia.
  - unfold answers. rewrite since_middle in *.
    cbn [undisturbed forallb] in Hun. apply andb_prop in Hun as [Hs Hun].
    apply undisturbed_allocs in Hun as [Hr Ha]. cbn in Hs, Hr.
    rewrite !andb_true_iff, bool_decide_eq_true in Hr. destruct Hr as [[_ ->] _]. split; [lia|].
    eexists _, _, _. split; [done|]. split; [|congruence]. intros _. by exists a, st, data.
  - unfold answers. since_in Hun. rewrite !since_cons, since_refl by (cbn [length]; lia).
    cbn in Hun. rewrite !andb_true_iff, bool_decide_eq_true in Hun.
    destruct Hun as ([Hs _] & [_ ->] & _). split; [lia|].
    eexists _, _, _. split; [done|]. split; [congruence|]. intros _. split; [done|]. by exists st, data, ver.
  - unfold answers. since_in Hun. rewrite !since_cons, since_refl by (cbn [length]; lia).
    cbn in Hun. rewrite !andb_true_iff, bool_decide_eq_true in Hun.
    destruct Hun as ([Hs _] & [_ ->] & _). split; [lia|].
    eexists _, _, _. split; [done|]. by split.
Qed.

Lemma msg_step_grows c p T d tr0 T' d' tr' rc :
  msg_step slots c p T d tr0 T' d' tr' rc → (length tr0 ≤ length tr')%nat.
Proof. destruct 1; cbn [length]; rewrite ?length_app; cbn [length]; lia. Qed.

(** A message whose delivery and answer are not disturbed. *)
Lemma served_message s p m e :
  ok e → sessions e !! s = Some p → ∃ c w', hwkey_uuid c = u ∧
    hwkey_chan_handler fuel (UEvent s msg) p (env_of (lib_deliver s m) e) = Ret tt w' ∧
    (undisturbed m (calls e w') = true →
      answers m c p (table (loc (served e))) (dev (served e)) (trace (served e))
        (table (loc w')) (dev w') (trace w') ∧
      ∀ b, ok (Linked w' (sessions e) b)).
Proof.
  intros (Hsl & [rest Hok] & Hsess) Hs. destruct (Hsess s p Hs) as (_ & c & Hc & Hch & Hcu).
  set (w0 := env_of (lib_deliver s m) e).
  assert (hwkey_ok rest (loc w0) (trace w0)) as Hok0 by exact Hok.
  destruct (wp_returns _ _ _ (wp_conj _ _ _ _
    (chan_handler_step rest (UEvent s msg) p c slots w0 Hok0 Hc Hsl (eq_sym Hch) (msg_fine Hev))
    (chan_handler_keeps rest (UEvent s msg) p c w0 Hok0 Hc (eq_sym Hch) (msg_fine Hev) (msg_no_hup Hev))))
    as ([] & w' & Er & Hstep & Hok' & Hkeep).
  exists c, w'. split_and!; [done|exact Er|]. intros Hun.
  pose proof (msg_no_hup Hev). pose proof (msg_is_msg Hev). cbn [ev_event] in Hstep.
  change (trace w0) with (trace (served e)) in Hstep. unfold calls in Hun.
  inversion Hstep as [| |T' d' tr' rc _ _ Hrc Hmsg|T' d' tr' rc _ _ Hrc Hmsg]; subst; try congruence.
  2: { exfalso. assert (undisturbed m (since (trace (served e)) tr') = true) as Hun'.
       { match goal with E : _ :: _ = trace w' |- _ => rewrite <- E in Hun end.
         rewrite since_cons in Hun by by eapply msg_step_grows. exact Hun. }
       apply (undisturbed_answer m) in Hmsg as [? _]; [lia|done]. }
  apply (undisturbed_answer m) in Hmsg as [_ Hans]; [|done]. split; [exact Hans|]. intros b.
  destruct Hkeep as [[Hctx Hsl']|[tr Htr]].
  - split_and!; [cbn; by rewrite Hsl'|by exists rest|]. intros s' q Hq. cbn [served].
    rewrite Hctx. by apply Hsess.
  - destruct Hans as (bs & r & tr2 & E & _). exfalso. rewrite Htr in E. unfold since in E.
    destruct (_ - _)%nat; done.
Qed.

Lemma link_get_ok s p id n e rc data m e' :
  link_get msg u slots s id n e = ((rc, data, m), e') → trouble e' = false → ok e →
  sessions e !! s = Some p →
  ok e' ∧ ∃ o, answered_with (W := linked D W) slots u p
      (id ++ [0]) (table (loc (served e))) rc o (table (loc (served e'))) ∧
    sessions e' = sessions e ∧
    ∀ d, o = Some d → Z.of_nat (length d) ≤ n → data = d ∧ m = Z.of_nat (length d).
Proof.
  intros E Ht Hok Hs. unfold link_get in E. rewrite Hs in E.
  destruct (served_message s p (lib_request id) e Hok Hs) as (c & w' & Hcu & Er & Hw). rewrite Er in E.
  assert (∀ X, e' = after e w' (undisturbed (lib_request id) (calls e w') && negb (repeats u slots id e)) X →
    undisturbed (lib_request id) (calls e w') = true ∧ repeats u slots id e = false ∧
    lib_failed (dev w') = false) as Hfine.
  { intros X ->. apply untroubled in Ht as [[? ?%negb_true_iff]%andb_prop ?]. by split_and!. }
  destruct (undisturbed (lib_request id) (calls e w')) eqn:Hun.
  2: { repeat case_match; injection E as _ _ _ <-; by destruct (Hfine _ eq_refl). }
  destruct (Hw eq_refl) as [(bs & r & tr & Ecalls & Hget & _) Hok'].
  unfold calls in E. rewrite Ecalls in E.
  destruct Hget as (a & st & dat & -> & Ha & Hserved); [apply lib_request_cmd|].
  rewrite lib_request_payload, Hcu in Hserved. rewrite lib_answer_says in E. injection E as <- <- <- <-.
  destruct (Hfine _ eq_refl) as (_ & Hrep & Hlib).
  destruct (served_answer _ _ _ _ _ _ _ _ Hserved Ha Hrep Hlib) as (o & Hans & Ho).
  split; [apply Hok'|]. exists o. split_and!; [exact Hans|done|]. intros d -> Hl. rewrite (Ho d eq_refl) in *.
  split; [|done]. by rewrite take_ge by lia.
Qed.

(** The provider derives by [kdf]: an empty input is refused, any other is not
    unless a call fails. *)
Definition derives (kdf : bytes → bytes) : Prop := ∀ ikm d st data d',
  Z.of_nat (length ikm) ≤ HWKEY_MAX_PAYLOAD_SIZE →
  key_answer (D := watched D) (λ _, derive_key_v1 u ikm) d st data d' →
  (ikm = [] → st = HWKEY_ERR_BAD_LEN) ∧
  (ikm ≠ [] → lib_failed d' = false → st = HWKEY_NO_ERROR ∧ data = kdf ikm ∧ length data = length ikm).

Lemma link_derive_ok kdf s p ver src e rc data ver' e' :
  derives kdf → link_derive msg s ver src e = ((rc, data, ver'), e') → trouble e' = false → ok e →
  sessions e !! s = Some p → Z.of_nat (length src) ≤ HWKEY_MAX_PAYLOAD_SIZE →
  ok e' ∧ sessions e' = sessions e ∧ table (loc (served e')) = table (loc (served e)) ∧
  (ver = HWKEY_KDF_VERSION_BEST ∨ ver = HWKEY_KDF_VERSION_1 →
   if decide (src = []) then rc = lib_not_valid
   else rc = NO_ERROR ∧ data = kdf src ∧ ver' = HWKEY_KDF_VERSION_1).
Proof.
  intros Hkdf E Ht Hok Hs Hsrc. unfold link_derive in E. rewrite Hs in E.
  destruct (served_message s p (lib_derive_request ver src) e Hok Hs) as (c & w' & Hcu & Er & Hw).
  rewrite Er in E.
  assert (∀ X, e' = after e w' (undisturbed (lib_derive_request ver src) (calls e w')) X →
    undisturbed (lib_derive_request ver src) (calls e w') = true ∧ lib_failed (dev w') = false) as Hfine.
  { intros X ->. by apply untroubled in Ht. }
  destruct (undisturbed (lib_derive_request ver src) (calls e w')) eqn:Hun.
  2: { repeat case_match; injection E as _ _ _ <-; by destruct (Hfine _ eq_refl). }
  destruct (Hw eq_refl) as [(bs & r & tr & Ecalls & _ & Hder) Hok'].
  unfold calls in E. rewrite Ecalls in E.
  destruct Hder as (Htab & st & dat & v & -> & Hd); [apply lib_derive_cmd|].
  rewrite lib_derive_payload, lib_derive_version, Hcu in Hd.
  destruct (lib_derived_says ver src v st dat) as [Hans Hver]. rewrite Hans, Hver in E.
  injection E as <- <- <- <-. destruct (Hfine _ eq_refl) as [_ Hlib].
  split; [apply Hok'|]. split_and!; [done|exact Htab|]. intros Hv.
  inversion Hd as [st' dat' d' _ Hka|Hb H1]; subst; [|by destruct Hv].
  destruct (Hkdf src _ st dat _ Hsrc Hka) as [He Hne]. destruct (decide (src = [])) as [->|Hsne].
  - rewrite He by done. apply lib_rc_bad_len.
  - destruct (Hne Hsne Hlib) as (-> & -> & Hl). rewrite lib_rc_ok. split_and!; [done| |done].
    by rewrite take_ge by lia.
Qed.

#[local] Instance this_service : KeyService (linked D W) := link_service u slots.

Lemma after_trouble e w fine X : trouble e = true → trouble (after e w fine X) = true.
Proof. by intros E; cbn; rewrite E. Qed.

Lemma link_laws kdf : derives kdf → KeyServiceLaws (W := linked D W) slots u kdf.
Proof.
  intros Hkdf. split.
  - intros e rc e' E Ht. cbn in *. unfold link_open in E.
    repeat case_match; simplify_eq; by apply after_trouble.
  - intros s e r e' E Ht. cbn in *. unfold link_close in E.
    repeat case_match; simplify_eq; try done; by apply after_trouble.
  - intros s id n e [[rc data] m] e' E Ht. cbn in *. unfold link_get in E.
    repeat case_match; simplify_eq; try done; by apply after_trouble.
  - intros s ver src e [[rc data] v] e' E Ht. cbn in *. unfold link_derive in E.
    repeat case_match; simplify_eq; try done; by apply after_trouble.
  - exact lib_max_size_range.
  - intros e rc e' E Ht Hok. by apply link_open_ok.
  - intros s p e r e' E _ Hok Hs. by eapply link_close_ok.
  - intros s id n e rc data m e' Hn E. cbn in E. unfold link_get in E.
    repeat case_match; simplify_eq; cbn [length]; rewrite ?length_take; lia.
  - intros s p id n e rc data m e' E Ht Hok Hs _. exact (link_get_ok s p id n e rc data m e' E Ht Hok Hs).
  - intros s ver src e rc data v e' E. cbn in E. unfold link_derive in E.
    repeat case_match; simplify_eq; cbn [length]; rewrite ?length_take; lia.
  - intros s p ver src e rc data v e' E Ht Hok Hs Hsrc. exact (link_derive_ok kdf s p ver src e rc data v e' Hkdf E Ht Hok Hs Hsrc).
  - intros s ver src e rc data v e' E Ht Hok Hs. cbn in E, Hs. unfold link_derive in E.
    rewrite Hs in E. by injection E as <- <- <- <-.
  - intros e s p (_ & _ & Hsess) Hs. by apply (Hsess s p).
Qed.
End Laws.

(** * 4. The tests on the service *)

Lemma tester_allowed cfg : fake_client_allowed cfg HWCRYPTO_UNITTEST_APP_UUID = true.
Proof. destruct cfg as [[] [] ? [] ? [] []]; by vm_compute. Qed.
Lemma aes_allowed cfg : fake_client_allowed cfg SAMPLE_HWAES_APP_UUID = true.
Proof. destruct cfg as [[] [] ? [] ? [] []]; by vm_compute. Qed.

Section Provider.
Context {D : Type} `{!Uapi} `{!HwkeyIface} `{!Evp D} `{!EvpLaws D} `{!EvpCbc D} `{!Platform D}.
Context (cfg : config).
#[local] Instance fake : HwkeyProvider (watched D) := fake_provider cfg.

(** The service's derivation for a client. *)
Definition kdf_for (u : uuid) (ikm : bytes) : bytes :=
  hkdf_sha256 (D := D) (Z.of_nat (length ikm)) fake_device_key (uuid_bytes (D := D) u) ikm.

Lemma derives_for u : derives (D := D) u (kdf_for u).
Proof.
  intros ikm d st data d' Hl Hka. pose proof Hka as [buf n0 k n Hbuf Hf Hn Hd ->].
  pose proof (derive_key_v1_correct u ikm (KOut buf (Some n0) d) ltac:(cbn; lia)) as Hspec.
  unfold wp in Hspec. cbn in Hf. rewrite Hf in Hspec. destruct Hspec as (_ & Hnil & Hne). split.
  - intros Hikm. by destruct (Hnil Hikm) as [-> _].
  - intros Hikm Hlib. assert (st = HWKEY_NO_ERROR) as ->.
    { eapply (sure_answers (λ _, fake_derive_key_v1 u ikm)); [by apply sure_derive|exact Hka|exact Hlib]. }
    pose proof hwkey_errors_not_ok as (Hgen & _).
    destruct (Hne Hikm) as [(_ & Hk & ->)|[Hbad _]]; [|by rewrite Hbad in Hgen].
    rewrite Hn in Hk. injection Hk as ->. cbn [kbuf].
    pose proof (hkdf_sha256_length (D := D) (Z.of_nat (length ikm)) fake_device_key (uuid_bytes (D := D) u) ikm
      (Zle_0_nat _)) as Hlen.
    rewrite take_overwrite_Z by exact Hlen. unfold kdf_for. split_and!; [done..|].
    change (hkdf_sha256 (D := watched D)) with (hkdf_sha256 (D := D)).
    change (uuid_bytes (D := watched D)) with (uuid_bytes (D := D)). lia.
Qed.

(** The keys of the unit tests and of the AES service are constants, or
    derived by calls that do not fail. *)
Lemma keys_sure u : u = HWCRYPTO_UNITTEST_APP_UUID ∨ u = SAMPLE_HWAES_APP_UUID →
  Forall (surely_served u) (_keys (D := watched D) cfg).
Proof.
  intros Hu. assert (∀ v : uuid, bool_decide (v = HWCRYPTO_UNITTEST_APP_UUID) = false →
    bool_decide (v = SAMPLE_HWAES_APP_UUID) = false → v ≠ u) as Hother
    by (intros v H1%bool_decide_eq_false H2%bool_decide_eq_false ->; by destruct Hu).
  assert (∀ id file b, Forall (surely_served u) (sign_slot (D := watched D) id file b)) as Hsign.
  { intros id [key|] b; [|apply Forall_nil_2]. apply Forall_singleton. intros E. by apply Hother in E. }
  assert (∀ id file, Forall (surely_served u) (encrypt_slot (D := watched D) id file)) as Hencrypt.
  { intros id [key|]; [|apply Forall_nil_2]. apply Forall_singleton. intros _. apply sure_const. }
  unfold _keys. repeat apply Forall_app_2; [|apply Hsign|apply Hsign|apply Hencrypt|apply Hencrypt|].
  - repeat apply Forall_cons_2; [..|by apply Forall_nil_2]; intros E; by apply Hother in E.
  - destruct (WITH_HWCRYPTO_UNITTEST cfg); [|apply Forall_nil_2].
    repeat apply Forall_cons_2; [..|by apply Forall_nil_2]; intros _;
      first [exact (sure_const _unittest_key32)|exact sure_derived].
Qed.
End Provider.

Section OnService.
Context {D W : Type} `{!Uapi} `{!HwkeyIface} `{!Evp D} `{!EvpLaws D} `{!EvpCbc D} `{!Platform D}
  `{!HwrngDev D} `{!HwrngDevFair D} `{!Kernel W} `{!KernelLaws W}
  `{!HwkeyLib W} `{!HwkeyLibLaws W}.
Context (cfg : config) (port ready msg hup : Z) (stack : Z → bytes).
Abbreviation tester := HWCRYPTO_UNITTEST_APP_UUID.
#[local] Instance provider : HwkeyProvider (watched D) := fake_provider cfg.
#[local] Instance client : HwkeyClient (linked D W) :=
  link_client port ready msg hup tester (_keys cfg).
#[local] Instance service : KeyService (linked D W) := link_service tester (_keys cfg).

Definition service_kdf : bytes → bytes := kdf_for (D := D) tester.

(** C5. The tests of the key service pass on the key service of this
    repository with its fake provider, in every build configuration and on
    every kernel, when the client's calls run the service's handlers on the
    requests they send: the service connects the tests and answers every
    request as they expect, no check fails, and it is left without a session
    or a handle.  The only exceptions are causes outside the service, read off
    the calls it made and off its device: a call of the kernel, an allocation,
    the random number device or the cryptography failed, the kernel connected
    another client or reused an open handle, a message received is not the
    request sent, or the device repeats the token of a live handle.  Of the
    cryptography this needs that the unit tests' ciphertext decrypts to their
    key and that HKDF tells the sources of the derivation tests apart. *)
Theorem hwkey_tests_on_service (w : world ut_state unit (linked D W)) :
  events_ok ready msg hup → sized stack → kdf_fits (kdf := service_kdf) → test_vector (D:=D) →
  link_ok tester (_keys cfg) (env w) → sessions (env w) = ∅ →
  opaque_handles (loc (served (env w))) = [] →
  wpt (run_hwkey_tests stack (WITH_HWCRYPTO_UNITTEST cfg)) (λ _ w',
    checks (loc w') = checks (loc w) ∧ sessions (env w') = ∅ ∧
    opaque_handles (loc (served (env w'))) = []) w.
Proof.
  intros Hev Hstack Hk Hv Hok Hs Ho.
  pose proof (link_laws port ready msg hup tester (_keys cfg) Hev (tester_allowed cfg)
    (keys_sure cfg tester (or_introl eq_refl)) service_kdf (derives_for cfg tester)).
  eapply wpt_mono; [apply (run_hwkey_tests_pass cfg stack (kdf := service_kdf)); [done|done|done|done|done|]|].
  - cbn. unfold table. by rewrite Ho.
  - intros _ w' (Hcs & HX & HT). split_and!; [done|done|]. by apply fmap_nil_inv in HT.
Qed.
End OnService.
