(* ===== verification/HwkeyLinkDemo.v ===== *)
(** The theorems on the table of handles and on the unit tests at concrete
    states: the scripted kernel, the fake random number device, and a toy
    cipher that knows the unit tests' ciphertext. *)

From S2P Require Import Prelude Ipc HwrngDev Evp Hwkey HwkeyProps HwkeyCorrect HwkeyProvider HwkeyDemo Watch HwkeyTable HwkeyTest HwkeyTestCorrect HwkeyTestPasses HwkeyLink HwrngTestCorrect.

Module LinkDemo.
#[local] Instance uapi : Uapi := Sim.uapi.
#[local] Instance kernel : Kernel script := Sim.kernel.
#[local] Instance laws : KernelLaws script := Sim.kernel_laws.
#[local] Existing Instances Fake.dev Fake.laws.
#[local] Existing Instances HwkeyDemo.iface HwkeyDemo.platform.

(** * 1. The table *)

Section TableDemo.
#[local] Existing Instances HwkeyDemo.evp HwkeyDemo.evp_laws HwkeyDemo.evp_cbc HwkeyDemo.provider.

(** The client that holds a handle presents its token. *)
Lemma hwkey_refines_table_witness :
  wp (hwkey_chan_handler token_fuel (UEvent 100 8) 1) (λ _ w',
    client_step (_keys HwkeyDemo.cfg) 8 HwkeyDemo.tester 1
      (table (loc (HwkeyDemo.w HwkeyDemo.get_key))) 1 (trace (HwkeyDemo.w HwkeyDemo.get_key))
      (table (loc w')) (dev w') (trace w')) (HwkeyDemo.w HwkeyDemo.get_key).
Proof.
  apply (hwkey_refines_table [] (UEvent 100 8) 1 HwkeyDemo.tester);
    [apply HwkeyDemo.demo_hwkey_ok|apply lookup_singleton_eq|done..].
Defined.
End TableDemo.

(** * 2. The unit tests *)

(** The toy cipher, except on the unit tests' ciphertext. *)
Definition vector : bytes * bytes * bytes :=
  (_unittest_key32, replicate 16 0, drop 16 _unittest_encrypted_key32).
Definition decrypt (k iv ct : bytes) : bytes :=
  if bool_decide ((k, iv, ct) = vector) then UNITTEST_DERIVED_KEYSLOT else ToyEvp.crypt k iv ct.

#[local] Instance evp : Evp Z := {|
  evp_call := evp_call (Evp := ToyEvp.toy_evp Z);
  evp_decrypt_update _ k iv ct d := ((true, decrypt k iv ct), d);
  evp_encrypt_update := evp_encrypt_update (Evp := ToyEvp.toy_evp Z);
  evp_final := evp_final (Evp := ToyEvp.toy_evp Z);
  evp_iv_length := evp_iv_length (Evp := ToyEvp.toy_evp Z);
  evp_key_length := evp_key_length (Evp := ToyEvp.toy_evp Z);
  evp_block_size := evp_block_size (Evp := ToyEvp.toy_evp Z);
  hkdf := hkdf (Evp := ToyEvp.toy_evp Z);
  aes_decrypt _ := decrypt;
  aes_encrypt := aes_encrypt (Evp := ToyEvp.toy_evp Z);
  hkdf_sha256 := hkdf_sha256 (Evp := ToyEvp.toy_evp Z)
|}.

Lemma length_decrypt k iv ct : length (decrypt k iv ct) = length ct.
Proof.
  unfold decrypt. case_bool_decide as E; [by injection E as -> -> ->|]. unfold ToyEvp.crypt. apply length_fmap.
Qed.

#[local] Instance evp_laws : EvpLaws Z.
Proof.
  destruct (ToyEvp.toy_evp_laws Z). split; try done; intros.
  - apply length_decrypt.
  - cbn in *. simplify_eq. by rewrite length_decrypt.
  - cbn in *. by simplify_eq.
Qed.
#[local] Instance evp_cbc : EvpCbc Z.
Proof. destruct (ToyEvp.toy_evp_cbc Z). by split. Qed.

(** A library that puts the tests' connections and messages on the script. *)
#[local] Instance lib : HwkeyLib script := {|
  lib_dial s := Script (sc_next s) [HWCRYPTO_UNITTEST_APP_UUID] (sc_sends s) (sc_msgs s) (sc_allocs s);
  lib_deliver _ m s := Script (sc_next s) (sc_peers s) (sc_sends s) [m] (sc_allocs s);
  lib_request id := [0; 0; 0; 0] ++ id;
  lib_derive_request ver src := [2; 0; ver; 0] ++ src;
  lib_answer bs := (bs !!! 1%nat, drop 4 bs);
  lib_version bs := bs !!! 2%nat;
  lib_rc st := if st =? 0 then NO_ERROR else if st =? 5 then ERR_NOT_FOUND
               else if st =? 6 then -26 else if st =? 3 then -23 else st;
  lib_already_exists := -26;
  lib_bad_handle := -19;
  lib_not_valid := -23;
  lib_max_size := 128;
  lib_rng n := (NO_ERROR, seqZ 0 n);
  lib_rand := 7
|}.
#[local] Instance lib_laws : HwkeyLibLaws script.
Proof. by split. Qed.

Definition cfg : config := Config true None false None false None None.
Lemma link_cfg_ok : config_ok cfg.
Proof. by split. Qed.
#[local] Instance provider : HwkeyProvider (watched Z) := fake_provider cfg.

(** The service as it starts, with no client. *)
Definition idle : world (hwkey_state (watched Z)) (watched Z) script :=
  World (HwkeyState ∅ [] (replicate 2049 0) (replicate 2048 0) (Some (_keys cfg))) (Watched 1 false)
    Sim.quiet [].
Definition start : world ut_state unit (linked Z script) :=
  World (UtState [] (-1) (replicate 256 0) (replicate 1024 0)) tt (Linked idle ∅ false) [].
Definition stack (n : Z) : bytes := replicate (Z.to_nat n) 204.

Lemma idle_ok : link_ok HWCRYPTO_UNITTEST_APP_UUID (_keys cfg) (env start).
Proof.
  split_and!; [done| |intros s p Hs; exact (False_ind _ (lookup_empty_Some _ _ Hs))]. exists []. split.
  - apply Permutation_refl.
  - apply NoDup_nil_2.
  - apply NoDup_nil_2.
  - apply Forall_nil_2.
  - by vm_compute.
  - by vm_compute.
  - intros slots [= <-]. apply (keys_slot_ok cfg link_cfg_ok).
  - intros p c Hc. exact (False_ind _ (lookup_empty_Some _ _ Hc)).
Qed.

#[local] Instance client : HwkeyClient (linked Z script) :=
  link_client 99 1 8 4 HWCRYPTO_UNITTEST_APP_UUID (_keys cfg).
#[local] Instance service : KeyService (linked Z script) :=
  link_service HWCRYPTO_UNITTEST_APP_UUID (_keys cfg).

Lemma hwkey_tests_on_service_witness :
  wpt (run_hwkey_tests stack true) (λ _ w',
    checks (loc w') = [] ∧ sessions (env w') = ∅ ∧ opaque_handles (loc (served (env w'))) = []) start.
Proof.
  apply (hwkey_tests_on_service cfg 99 1 8 4 stack start);
    [by split| |split; [|by vm_compute..]|by vm_compute|apply idle_ok|done|done].
  - intros n Hn. unfold stack. rewrite length_replicate. lia.
  - intros src. pose proof (hkdf_sha256_length (Z.of_nat (length src)) fake_device_key
      (uuid_bytes HWCRYPTO_UNITTEST_APP_UUID) src (Zle_0_nat _)). unfold service_kdf, kdf_for. lia.
Defined.

(** Here nothing goes wrong, so the tests do pass. *)
Lemma the_tests_run :
  match run_hwkey_tests stack true start with
  | Ret _ w' => trouble (env w') = false ∧ checks (loc w') = []
  | Halt _ _ => False
  end.
Proof. by vm_compute. Qed.

Lemma stats_test_correct_witness :
  wp stats_test (λ _ w',
    total (_hist (loc w')) = 256000 ∧
    checks (loc w') =
      if deviation 1000 (_hist (loc w')) / 256 <? 50 then [] else ["average dev"%string]) start.
Proof.
  apply (stats_test_correct start); [|by vm_compute|by vm_compute; lia].
  intros e. exists (seqZ 0 256), e. split_and!; [done|done|].
  apply Forall_forall. intros b Hb%elem_of_seqZ. unfold is_byte. lia.
Defined.
End LinkDemo.
