(* ===== verification/HwaesLink.v ===== *)
(** The AES service on the key service: requests that name their key by an
    opaque handle, with hwkey_srv.c and its provider at the other end of the
    session that hwaes/main.c opens. *)

From S2P Require Import Prelude Ipc HwrngDev Evp Hwkey HwkeyProps HwkeyCorrect HwkeyProvider.
From S2P Require Import Watch HwkeyTable HwkeyTest HwkeyTestCorrect HwkeyLink Hwaes HwaesCorrect.

(** * 1. The client library of the AES service *)

(** It is that of the unit tests. *)
Definition key_client `{!HwkeyTest.HwkeyClient W} : Hwaes.HwkeyClient W := {|
  hwkey_open := k_hwkey_open;
  hwkey_get_keyslot_data := k_hwkey_get_keyslot_data;
  hwkey_close s e := (k_hwkey_close s e).2
|}.

(** The name a handle argument stands for, as the key service compares it. *)
Definition handle_name (data : bytes) : bytes := cstr data ++ [0].

Section Requests.
Context `{!HwaesIface}.
Implicit Types args : hwaes_aes_op_args.

(** A handle argument that the service passes on: of the length of its data,
    not too long, ended by a NUL. *)
Definition handle_arg args (data : bytes) : Prop :=
  args_key_type args = HWAES_OPAQUE_HANDLE ∧ args_key args = ArgIn (Z.of_nat (length data)) (Some data) ∧
  Z.of_nat (length data) ≤ Hwaes.HWKEY_OPAQUE_HANDLE_MAX_SIZE ∧ last data = Some 0.

(** The same request with its key in the clear, [ty] being another type. *)
Definition in_the_clear (ty : Z) (key : bytes) args : hwaes_aes_op_args :=
  AesOpArgs (ArgIn (Z.of_nat (length key)) (Some key)) (args_iv args) (args_text_in args)
    (args_aad args) (args_tag_in args) (args_text_out args) (args_tag_out args) ty
    (args_padding args) (args_mode args) (args_encrypt args).

Lemma handle_arg_present args data : handle_arg args data → present (args_key args) = Some data.
Proof.
  intros (_ & Ha & _ & Hl). rewrite Ha. unfold present. cbn. destruct data; [done|].
  by destruct (Z.eqb_spec (Z.of_nat (length (z :: data))) 0).
Qed.

(** The key in the clear passes the same checks. *)
Lemma clear_checks ty args data key :
  handle_arg args data → 0 < Z.of_nat (length key) → request_error args = None →
  request_error (in_the_clear ty key args) = None.
Proof.
  intros Hh Hk Herr. unfold request_error in *. rewrite (handle_arg_present _ _ Hh) in Herr.
  cbn [args_padding args_text_in args_text_out in_the_clear].
  assert (present (args_key (in_the_clear ty key args)) = Some key) as ->.
  { unfold present. cbn. by destruct (Z.eqb_spec (Z.of_nat (length key)) 0); [lia|]. }
  done.
Qed.

Lemma cstr_no_nul bs : ¬ (0 ∈ cstr bs).
Proof.
  induction bs as [|b bs IH]; cbn; [by apply not_elem_of_nil|].
  destruct (Z.eqb_spec b 0); [by apply not_elem_of_nil|]. by apply not_elem_of_cons.
Qed.
End Requests.

(** * 2. What a handle is exchanged for *)

Section Exchange.
Context {D X W : Type} `{!Uapi} `{!HwaesIface} `{!HwkeyIface} `{!HwrngDev D}
  `{!HwkeyTest.HwkeyClient W} `{!KeyService W} (slots : list (hwkey_keyslot D)) (u : uuid)
  (kdf : bytes → bytes) `{!KeyServiceLaws slots u kdf} `{!EvpCtx X W}.
#[local] Existing Instance key_client.
Implicit Types (s : hwaes_state X W) (args : hwaes_aes_op_args).

(** The state after a session [x] that left the service at [e]. *)
Definition after_session (x : Z) (e : W) s : hwaes_state X W :=
  HwaesState (cipher_ctx s) (text_out s) (tag_out s) ((false, x) :: (true, x) :: Hwaes.sessions s) e.

(** The service is as it was: its invariant, the sessions, the handles. *)
Definition same_service (e e' : W) : Prop :=
  k_ok e' ∧ k_ctx e' = k_ctx e ∧ k_table e' = k_table e.

(** A session for one request. *)
Lemma one_session e x e1 id n rc bs m e2 :
  k_hwkey_open e = (x, e1) → k_hwkey_get_keyslot_data x id n e1 = ((rc, bs, m), e2) →
  let e3 := (k_hwkey_close x e2).2 in
  k_ok e → 0 ∉ id → select_slot u (id ++ [0]) slots 0 = None → k_trouble e3 = false →
  0 ≤ x ∧ same_service e e3 ∧
  match find_key slots u (id ++ [0]) (k_table e) with
  | Some d => rc = NO_ERROR ∧ ∃ key, can_answer (retriever d) HWKEY_NO_ERROR key ∧
      (Z.of_nat (length key) ≤ n → bs = key ∧ m = Z.of_nat (length key))
  | None => rc = ERR_NOT_FOUND
  end.
Proof.
  intros E1 E2 e3 Hok Hid Hsel Ht. destruct (k_hwkey_close x e2) as [[] e3'] eqn:E3. cbn in e3. subst e3.
  assert (k_trouble e2 = false) as Ht2.
  { destruct (k_trouble e2) eqn:T; [|done]. by rewrite (close_trouble slots u kdf _ _ _ _ E3 T) in Ht. }
  assert (k_trouble e1 = false) as Ht1.
  { destruct (k_trouble e1) eqn:T; [|done]. by rewrite (get_trouble slots u kdf _ _ _ _ _ _ E2 T) in Ht2. }
  destruct (open_ok slots u kdf _ _ _ E1 Ht1 Hok) as (Hok1 & Hx & Hnew & HT1 & p & _ & Hown & HX1).
  assert (k_ctx e1 !! x = Some p) as Hp by (by rewrite HX1, lookup_insert_eq).
  destruct (get_ok slots u kdf _ _ _ _ _ _ _ _ _ E2 Ht2 Hok1 Hp Hid) as (Hok2 & o & Ha & HX2 & Hd).
  assert (k_ctx e2 !! x = Some p) as Hp2 by (by rewrite HX2).
  destruct (close_ok slots u kdf _ _ _ _ _ E3 Ht Hok2 Hp2) as (Hok3 & HX3 & HT3).
  split; [done|]. rewrite HT1 in Ha. cbn in Ht |- *.
  assert (k_table e2 = k_table e → same_service e e3') as Hsame.
  { intros HT. split_and!; [done| |].
    - by rewrite HX3, HX2, HX1, delete_insert_id.
    - rewrite HT3, HT. unfold revoke. apply filter_all, Forall_forall. intros en Hen Hon.
      apply Hown. rewrite <- Hon. by apply list_elem_of_fmap_2. }
  inversion Ha as [? ? ? Hs|? ? ? ? Hs|f data Hf Hka|Hs Hn]; subst; try congruence.
  - split; [by apply Hsame|]. destruct Hf as [(j & sl & Hs & _)|(_ & d & Hfind & ->)]; [congruence|].
    rewrite Hfind. split; [done|]. exists data. split; [done|]. by apply Hd.
  - split; [by apply Hsame|]. by rewrite Hn.
Qed.

(** The key that a handle is exchanged for. *)
Lemma fetch_handle args data s :
  handle_arg args data → k_ok (libs s) → select_slot u (handle_name data) slots 0 = None →
  ∃ r s1, fetch_key args s = Ret r s1 ∧ (k_trouble (libs s1) = false →
    (∃ x, 0 ≤ x ∧ s1 = after_session x (libs s1) s) ∧ same_service (libs s) (libs s1) ∧
    match find_key slots u (handle_name data) (k_table (libs s)) with
    | Some d => ∃ key, can_answer (retriever d) HWKEY_NO_ERROR key ∧
        (Z.of_nat (length key) ≤ AES_KEY_MAX_SIZE →
         r = inr (overwrite key (replicate (Z.to_nat AES_KEY_MAX_SIZE) 0), Z.of_nat (length key)))
    | None => r = inl HWAES_ERR_IO
    end).
Proof.
  intros (Ht & Ha & Hmax & Hlast) Hok Hsel. pose proof aes_key_max_range.
  pose proof err_not_found_neg. pose proof no_error_zero.
  assert (fetch data (Z.of_nat (length data) - 1) s = Ret 0 s) as Hfetch.
  { rewrite last_lookup in Hlast. assert (0 < length data)%nat by (destruct data; [done|cbn; lia]).
    unfold fetch. replace (Z.to_nat (Z.of_nat (length data) - 1)) with (Nat.pred (length data)) by lia.
    rewrite Hlast. by rewrite (proj2 (Z.leb_le _ _)) by lia. }
  unfold fetch_key. rewrite Ha, Ht, Z.eqb_refl. cbn [in_data in_len data_of].
  unfold bind at 1, data_of, ret at 1. cbn [in_data].
  rewrite (proj2 (Z.ltb_ge _ _)) by done. unfold bind at 1. rewrite Hfetch.
  change (negb (0 =? 0)) with false. cbn iota. unfold bind at 1, open_session.
  destruct (hwkey_open (libs s)) as [x e1] eqn:E1. destruct (Z.ltb_spec x 0) as [Hx|Hx].
  { eexists _, _. split; [done|]. cbn [libs]. intros Htr.
    destruct (open_ok slots u kdf _ _ _ E1 Htr Hok) as (_ & ? & _). lia. }
  unfold bind at 1, lib_call. cbn [libs].
  destruct (hwkey_get_keyslot_data x (cstr data) AES_KEY_MAX_SIZE e1) as [[[rc bs] m] e2] eqn:E2.
  unfold bind at 1, close_session, modify. cbn [cipher_ctx text_out tag_out Hwaes.sessions libs].
  assert (0 ∉ cstr data) as Hid by apply cstr_no_nul.
  pose proof (one_session _ _ _ _ _ _ _ _ _ E1 E2 Hok Hid Hsel) as Hone. cbn zeta in Hone.
  destruct (find_key _ _ _ _) as [d|].
  - destruct (negb (rc =? NO_ERROR)) eqn:Hrc; (eexists _, _; split; [done|]); intros Htr;
      destruct (Hone Htr) as (_ & Hsame & -> & key & Hka & Hkey);
      [by rewrite Z.eqb_refl in Hrc|].
    split_and!; [by exists x|done|]. exists key. split; [done|]. intros Hl.
    destruct (Hkey Hl) as [-> ->]. by rewrite u32_small by lia.
  - destruct (negb (rc =? NO_ERROR)) eqn:Hrc; (eexists _, _; split; [done|]); intros Htr;
      destruct (Hone Htr) as (_ & Hsame & ->); [|lia].
    by split_and!; [exists x|..].
Qed.

(** A request by handle is the request by the key it stands for. *)
Lemma opaque_request ty args data s :
  ty ≠ HWAES_OPAQUE_HANDLE → handle_arg args data → k_ok (libs s) →
  select_slot u (handle_name data) slots 0 = None → request_error args = None →
  ∃ r s1, fetch_key args s = Ret r s1 ∧ (k_trouble (libs s1) = false →
    (∃ x, 0 ≤ x ∧ s1 = after_session x (libs s1) s) ∧ same_service (libs s) (libs s1) ∧
    match find_key slots u (handle_name data) (k_table (libs s)) with
    | Some d => ∃ key, can_answer (retriever d) HWKEY_NO_ERROR key ∧
        (0 < Z.of_nat (length key) ≤ AES_KEY_MAX_SIZE →
         hwaes_aes_op args s = hwaes_aes_op (in_the_clear ty key args) s1)
    | None => hwaes_aes_op args s = Ret HWAES_ERR_IO s1
    end).
Proof.
  intros Hty Hh Hok Hsel Herr. destruct (fetch_handle args data s Hh Hok Hsel) as (r & s1 & E & Hr).
  exists r, s1. split; [done|]. intros Htr. destruct (Hr Htr) as (Hx & Hsame & Hres).
  split_and!; [done..|]. rewrite !hwaes_op_checks, Herr. unfold checked_op.
  destruct (find_key _ _ _ _) as [d|].
  - destruct Hres as (key & Hka & Hkey). exists key. split; [done|]. intros [Hpos Hl].
    specialize (Hkey Hl). subst r. rewrite hwaes_op_checks, (clear_checks ty args data key) by done.
    unfold checked_op, bind. rewrite E. unfold fetch_key, data_of. cbn [args_key in_the_clear in_data args_key_type].
    rewrite (proj2 (Z.eqb_neq _ _) Hty). unfold bind, ret. cbn [in_len].
    change (select_cipher (in_the_clear ty key args)) with (select_cipher args).
    destruct (select_cipher args _) as [rc|c]; [done|].
    rewrite !Nat2Z.id, take_overwrite, firstn_all. done.
  - unfold bind. by rewrite E, Hres.
Qed.
End Exchange.

(** * 3. The key service of this repository *)

Section OnService.
Context {D X W : Type} `{!Uapi} `{!HwaesIface} `{!HwkeyIface} `{!Evp D} `{!EvpLaws D} `{!EvpCbc D}
  `{!Platform D} `{!HwrngDev D} `{!HwrngDevFair D} `{!Kernel W} `{!KernelLaws W}
  `{!HwkeyLib W} `{!HwkeyLibLaws W} `{!EvpCtx X (linked D W)}.
Context (cfg : config) (port ready msg hup : Z).
Abbreviation aes := SAMPLE_HWAES_APP_UUID.
#[local] Instance provider : HwkeyProvider (watched D) := fake_provider cfg.
#[local] Instance lib_client : HwkeyTest.HwkeyClient (linked D W) :=
  link_client port ready msg hup aes (_keys cfg).
#[local] Instance service : KeyService (linked D W) := link_service aes (_keys cfg).
#[local] Existing Instance key_client.
Implicit Types (s : hwaes_state X (linked D W)) (args : hwaes_aes_op_args).

(** The keys that handles give the AES service, by the names of their slots. *)
Definition aes_key_of (name : bytes) : option bytes :=
  if bool_decide (name = str "com.android.trusty.apploader.encrypt.key.0")
  then APPLOADER_ENCRYPT_KEY_0_FILE cfg
  else if bool_decide (name = str "com.android.trusty.apploader.encrypt.key.1")
  then APPLOADER_ENCRYPT_KEY_1_FILE cfg
  else if bool_decide (name = str "com.android.trusty.hwaes.unittest.opaque_handle")
  then (if WITH_HWCRYPTO_UNITTEST cfg then Some _unittest_key32 else None)
  else None.

(** The key of a handle, by its token, whoever holds it. *)
Definition handle_key (name : bytes) (e : HwkeyTable.entry) : option bytes :=
  if bool_decide (e_token e = take (Z.to_nat HWKEY_OPAQUE_HANDLE_SIZE) name)
  then _keys (D := watched D) cfg !! e_slot e ≫= λ sl, aes_key_of (key_id sl) else None.
Definition aes_key (name : bytes) (T : list HwkeyTable.entry) : option bytes :=
  head (omap (handle_key name) T).

(** The AES service has no slot of its own. *)
Lemma no_own_slot name : select_slot aes name (_keys (D := watched D) cfg) 0 = None.
Proof.
  apply select_none, forallb_forall. intros sl Hsl%list_elem_of_In.
  assert (forallb (λ sl, negb (bool_decide (aes = slot_uuid sl))) (_keys (D := watched D) cfg) = true) as Hall
    by by destruct cfg as [[] [] [] [] [] [] []].
  apply forallb_forall with (x := sl) in Hall; [|by apply list_elem_of_In].
  unfold serves. destruct (bool_decide (aes = slot_uuid sl)); [done|]. by rewrite andb_false_r.
Qed.

(** A constant key is what it answers. *)
Lemma const_answer (bs key : bytes) st :
  can_answer (D := watched D) (get_apploader_key bs) st key → key = bs.
Proof.
  intros (d & d' & [buf n0 k n Hbuf Hf Hn _ ->]). unfold get_apploader_key, bind, assert in Hf.
  destruct (Z.of_nat (length bs) <=? HWKEY_MAX_PAYLOAD_SIZE) eqn:Hle; [|done].
  cbn [ret] in Hf. unfold ret, write_kbuf, set_klen, modify in Hf.
  repeat case_match; simplify_eq; cbn in *; simplify_eq. rewrite Nat2Z.id. apply take_overwrite.
Qed.

(** What a slot lets the AES service read. *)
Definition reads_slot (sl : hwkey_keyslot (watched D)) : option (hwkey_opaque_handle_data (watched D)) :=
  match opaque_data sl with
  | Some data => if existsb (λ a, bool_decide (a = aes)) (allowed_uuids data) then Some data else None
  | None => None
  end.
Definition slot_key (sl : hwkey_keyslot (watched D)) : Prop :=
  match reads_slot sl with
  | Some d => ∃ K, aes_key_of (key_id sl) = Some K ∧
      ∀ key, can_answer (retriever d) HWKEY_NO_ERROR key → key = K
  | None => aes_key_of (key_id sl) = None
  end.

Lemma slots_keys : Forall slot_key (_keys (D := watched D) cfg).
Proof.
  unfold _keys. repeat apply Forall_app_2.
  - repeat apply Forall_cons_2; [..|by apply Forall_nil_2]; done.
  - unfold sign_slot. case_match; [|by apply Forall_nil_2]. apply Forall_cons_2; [done|by apply Forall_nil_2].
  - unfold sign_slot. case_match; [|by apply Forall_nil_2]. apply Forall_cons_2; [done|by apply Forall_nil_2].
  - unfold encrypt_slot. case_match; [|by apply Forall_nil_2]. apply Forall_cons_2; [|by apply Forall_nil_2].
    eexists. split; [eassumption|]. intros key. apply const_answer.
  - unfold encrypt_slot. case_match; [|by apply Forall_nil_2]. apply Forall_cons_2; [|by apply Forall_nil_2].
    eexists. split; [eassumption|]. intros key. apply const_answer.
  - destruct (WITH_HWCRYPTO_UNITTEST cfg) eqn:Hc; [|by apply Forall_nil_2].
    repeat apply Forall_cons_2; [..|by apply Forall_nil_2]; try done.
    exists _unittest_key32. split; [|intros key; apply const_answer].
    unfold aes_key_of. cbn [key_id]. by rewrite Hc.
Qed.

(** The key that the service retrieves for a name. *)
Lemma aes_key_found name T :
  match find_key (_keys (D := watched D) cfg) aes name T with
  | Some d => ∃ K, aes_key name T = Some K ∧
      ∀ key, can_answer (retriever d) HWKEY_NO_ERROR key → key = K
  | None => aes_key name T = None
  end.
Proof.
  induction T as [|e T IH]; [done|]. unfold find_key, aes_key in *. cbn [omap list_omap].
  unfold readable, handle_key.
  destruct (_keys (D := watched D) cfg !! e_slot e) as [sl|] eqn:Hsl; cbn [mbind option_bind];
    [|by case_bool_decide].
  pose proof (Forall_lookup_1 _ _ _ _ slots_keys Hsl) as Hk. unfold slot_key, reads_slot in Hk.
  case_bool_decide as Htok.
  - destruct (opaque_data sl) as [d|]; [|by rewrite Hk].
    destruct (existsb _ (allowed_uuids d)); [|by rewrite Hk].
    destruct Hk as (K & HK & Hans). cbn. rewrite HK. by exists K.
  - destruct (opaque_data sl) as [d|]; [|done]. by rewrite andb_false_r.
Qed.

Lemma aes_key_name name T K : aes_key name T = Some K → ∃ id, aes_key_of id = Some K.
Proof.
  induction T as [|e T IH]; [done|]. unfold aes_key in *. cbn [omap list_omap].
  destruct (handle_key name e) as [K'|] eqn:E; [|done]. intros [= ->]. unfold handle_key in E.
  case_bool_decide; [|done]. apply bind_Some in E as (sl & _ & Hk). by exists (key_id sl).
Qed.

(** C6. The AES service with the key service of this repository and its provider,
    in every configuration whose encryption keys are neither empty nor longer
    than AES_KEY_MAX_SIZE, and from any state the two are in: a request that
    passes the checks on its arguments and whose key is an opaque handle has
    exactly the result of the same request with, in the clear, the key that
    the handle stands for: the apploader's encryption key, or the unit tests',
    of the slot the token was given for, whichever client the handle belongs
    to.  If no live handle has this token, or its slot is not one the AES
    service may read, the request is answered HWAES_ERR_IO and writes nothing.
    The one session the request opens is closed, and the key service has the
    sessions and the handles it had.  The key service's part in this is proved:
    the only exceptions are the causes outside it, those of the theorem on its
    unit tests (a failed call of the kernel, the allocator, the device or the
    cryptography under the key service, a lost message or connection). *)
Theorem hwaes_on_key_service ty args data s :
  events_ok ready msg hup → ty ≠ HWAES_OPAQUE_HANDLE →
  (∀ name K, aes_key_of name = Some K → 0 < Z.of_nat (length K) ≤ AES_KEY_MAX_SIZE) →
  handle_arg args data → link_ok aes (_keys cfg) (libs s) → request_error args = None →
  ∃ r s1, fetch_key args s = Ret r s1 ∧ (trouble (libs s1) = false →
    (∃ x, 0 ≤ x ∧ s1 = after_session x (libs s1) s) ∧ same_service (libs s) (libs s1) ∧
    hwaes_aes_op args s =
      match aes_key (handle_name data) (table (loc (served (libs s)))) with
      | Some K => hwaes_aes_op (in_the_clear ty K args) s1
      | None => Ret HWAES_ERR_IO s1
      end).
Proof.
  intros Hev Hty Hsize Hh Hok Herr.
  pose proof (link_laws port ready msg hup aes (_keys cfg) Hev (aes_allowed cfg)
    (keys_sure cfg aes (or_intror eq_refl)) (kdf_for aes) (derives_for cfg aes)).
  assert (k_ok (libs s)) as Hko by exact Hok.
  destruct (opaque_request (_keys cfg) aes (kdf_for (D := D) aes) ty args data s Hty Hh Hko
    (no_own_slot _) Herr) as (r & s1 & E & Hr).
  exists r, s1. split; [done|]. intros Ht. destruct (Hr Ht) as (Hx & Hsame & Hres).
  split_and!; [done..|]. change (table (loc (served (libs s)))) with (k_table (libs s)).
  pose proof (aes_key_found (handle_name data) (k_table (libs s))) as Hf.
  destruct (find_key _ _ _ _) as [d|].
  - destruct Hf as (K & HK & Hans). destruct Hres as (key & Hka & Hop). rewrite (Hans key Hka) in Hop.
    rewrite HK. apply Hop.
    destruct (aes_key_name _ _ _ HK) as [id Hid]. by eapply Hsize.
  - by rewrite Hf.
Qed.
End OnService.
