(* ===== verification/HwaesLinkDemo.v ===== *)
(** The theorem on the AES service and the key service together at a concrete
    state: the AES unit tests hold a handle, and ask for an encryption by it. *)

From S2P Require Import Prelude Ipc HwrngDev Evp Hwkey HwkeyProps HwkeyCorrect HwkeyProvider HwkeyDemo.
From S2P Require Import Watch HwkeyTable HwkeyTest HwkeyTestCorrect HwkeyLink Hwaes HwaesCorrect HwaesDemo HwaesLink.

Module HwaesLinkDemo.
#[local] Instance uapi : Uapi := Sim.uapi.
#[local] Instance kernel : Kernel script := Sim.kernel.
#[local] Instance laws : KernelLaws script := Sim.kernel_laws.
#[local] Existing Instances Fake.dev Fake.laws.
#[local] Existing Instances HwkeyDemo.iface HwkeyDemo.platform HwkeyDemo.evp HwkeyDemo.evp_laws
  HwkeyDemo.evp_cbc HwaesDemo.iface.
#[local] Instance provider : HwkeyProvider (watched Z) := fake_provider HwkeyDemo.cfg.

(** A library whose connections come from the AES service. *)
#[local] Instance lib : HwkeyLib script := {|
  lib_dial s := Script (sc_next s) [SAMPLE_HWAES_APP_UUID] (sc_sends s) (sc_msgs s) (sc_allocs s);
  lib_deliver _ m s := Script (sc_next s) (sc_peers s) (sc_sends s) [m] (sc_allocs s);
  lib_request id := [0; 0; 0; 0] ++ id;
  lib_derive_request ver src := [2; 0; ver; 0] ++ src;
  lib_answer bs := (bs !!! 1%nat, drop 4 bs);
  lib_version bs := bs !!! 2%nat;
  lib_rc st := if st =? 0 then NO_ERROR else if st =? 5 then ERR_NOT_FOUND
               else if st =? 6 then -26 else if st =? 3 then -23 else st;
  lib_already_exists := -26;
  lib_bad_handle := -19;
  lib_not_valid := -23;
  lib_max_size := 128;
  lib_rng n := (NO_ERROR, seqZ 0 n);
  lib_rand := 7
|}.
#[local] Instance lib_laws : HwkeyLibLaws script.
Proof. by split. Qed.

(** The cipher context of HwaesDemo.v, whatever the libraries' state. *)
Definition on {A B D} (f : A → unit → B * unit) (a : A) (d : D) : B * D := ((f a tt).1, d).
#[local] Instance ctx {D} : EvpCtx setup D :=
  let c := HwaesDemo.ctx in {|
  ctx_new d := ((ctx_new (EvpCtx := c) tt).1, d);
  ctx_reset := ctx_reset (EvpCtx := c);
  ctx_init e ci k iv := on (ctx_init (EvpCtx := c) e ci k iv);
  ctx_set_padding := on (ctx_set_padding (EvpCtx := c));
  ctx_aad n bs := on (ctx_aad (EvpCtx := c) n bs);
  ctx_set_tag n bs := on (ctx_set_tag (EvpCtx := c) n bs);
  ctx_update n bs := on (ctx_update (EvpCtx := c) n bs);
  ctx_final := on (ctx_final (EvpCtx := c));
  ctx_get_tag n := on (ctx_get_tag (EvpCtx := c) n);
  cipher_iv_length := cipher_iv_length (EvpCtx := c);
  cipher_block_size := cipher_block_size (EvpCtx := c);
  crypt := crypt (EvpCtx := c);
  auth_tag := auth_tag (EvpCtx := c)
|}.

(** The unit tests' client holds a handle of slot 9, another client one of a
    slot that the AES service may not read. *)
Definition tok : bytes := make_token (seqZ 1 34).
Definition tok2 : bytes := make_token (seqZ 101 34).
Definition holder : hwkey_chan_ctx := HwkeyCtx 100 HWAES_UNITTEST_APP_UUID.
Definition state : hwkey_state (watched Z) :=
  HwkeyState {[1%positive := holder]}
    [(9%positive, OpaqueNode 9 1 tok); (10%positive, OpaqueNode 5 1 tok2)]
    (replicate 2049 0) (replicate 2048 0) (Some (_keys HwkeyDemo.cfg)).
Definition served : world (hwkey_state (watched Z)) (watched Z) script :=
  World state (Watched 1 false) (Script 101 [] [] [] []) [SAccept 8 100].
Definition service : linked Z script := Linked served ∅ false.

Lemma tok_ok n : 0 < n → token_ok (make_token (seqZ n 34)).
Proof.
  intros Hn. apply make_token_ok.
  assert (Fake.nonzero (seqZ n 34) = seqZ n 34) as ->; [|rewrite length_seqZ; lia].
  unfold Fake.nonzero. apply filter_all, Forall_forall. intros b Hb%elem_of_seqZ. lia.
Qed.

Lemma service_ok : link_ok SAMPLE_HWAES_APP_UUID (_keys HwkeyDemo.cfg) service.
Proof.
  split_and!; [done| |intros s p Hs; exact (False_ind _ (lookup_empty_Some _ _ Hs))]. exists []. split.
  - unfold balanced, objects. by vm_compute.
  - by vm_compute; apply (bool_decide_unpack _); vm_compute.
  - apply (bool_decide_unpack _). by vm_compute.
  - repeat apply Forall_cons_2; [..|by apply Forall_nil_2].
    + split_and!; [by exists holder|by eexists _, _|by apply tok_ok].
    + split_and!; [by exists holder|by eexists _, _|by apply tok_ok].
  - by vm_compute.
  - by vm_compute.
  - intros slots [= <-]. apply (keys_slot_ok HwkeyDemo.cfg HwkeyDemo.cfg_ok).
  - intros p c Hp. change (({[1%positive := holder]} : gmap ptr hwkey_chan_ctx) !! p = Some c) in Hp.
    apply lookup_singleton_Some in Hp as [<- <-]. by vm_compute.
Qed.

#[local] Instance client : HwkeyTest.HwkeyClient (linked Z script) :=
  link_client 99 1 8 4 SAMPLE_HWAES_APP_UUID (_keys HwkeyDemo.cfg).
#[local] Existing Instance key_client.

Definition start : hwaes_state setup (linked Z script) :=
  HwaesState (Some (Setup None None None [] None None)) (replicate 5 0) (replicate 16 0) [] service.
Definition sealing (key : bytes) (ty : Z) : hwaes_aes_op_args :=
  AesOpArgs (HwaesDemo.in_bytes key) (HwaesDemo.in_bytes HwaesDemo.iv)
    (HwaesDemo.in_bytes HwaesDemo.text) (HwaesDemo.in_bytes [9; 9]) HwaesDemo.none
    (ArgOut 5 true) (ArgOut 16 true) ty 0 1 true.

(** By the handle the text is sealed as by the key; by the other one not. *)
Example sealed_by_handle :
  match hwaes_aes_op (sealing tok 1) start, hwaes_aes_op (sealing _unittest_key32 0) start with
  | Ret rc s, Ret rc' s' => rc = 0 ∧ rc' = 0 ∧ text_out s = text_out s' ∧ tag_out s = tag_out s' ∧
      text_out s ≠ HwaesDemo.text ∧ trouble (libs s) = false
  | _, _ => False
  end.
Proof. by vm_compute. Qed.

Example not_readable :
  match hwaes_aes_op (sealing tok2 1) start with
  | Ret rc s => rc = HWAES_ERR_IO ∧ text_out s = replicate 5 0 ∧ trouble (libs s) = false
  | _ => False
  end.
Proof. by vm_compute. Qed.

Lemma hwaes_on_key_service_witness :
  ∃ r s1, fetch_key (sealing tok 1) start = Ret r s1 ∧ (trouble (libs s1) = false →
    hwaes_aes_op (sealing tok 1) start = hwaes_aes_op (in_the_clear 0 _unittest_key32 (sealing tok 1)) s1).
Proof.
  destruct (hwaes_on_key_service HwkeyDemo.cfg 99 1 8 4 0 (sealing tok 1) tok start) as (r & s1 & E & Hr).
  - by split.
  - done.
  - intros name K. unfold aes_key_of. repeat case_bool_decide; intros [= <-]. done.
  - by split_and!.
  - apply service_ok.
  - done.
  - exists r, s1. split; [exact E|]. intros Ht. destruct (Hr Ht) as (_ & _ & Hop). exact Hop.
Defined.
End HwaesLinkDemo.
