(* ===== verification/HwrngLink.v ===== *)
(** The random number tests of the unit tests over the random number service
    itself: the call of lib/rng is answered by a client that keeps to the
    protocol (a session, opened once; a request; the bytes that the service
    sent), and runs the handlers of hwrng_srv.c.  How lib/rng is written is not
    modelled. *)

From S2P Require Import Prelude Ipc HwrngDev Hwrng Dump HwkeyTest HwkeyTestCorrect HwrngTestCorrect.

(** * 1. What there is between them *)

(** lib/rng, rand and the kernel: a connection and a message that wait, and the
    bytes of a [struct hwrng_req]. *)
Class HwrngLib (W : Type) := {
  rng_dial : W → W;
  rng_deliver : handle → bytes → W → W;
  rng_message : Z → bytes;
  rng_rand : W → Z * W
}.

(** A message that is received is the one sent, and a request says its length. *)
Class HwrngLibLaws (W : Type) `{!Uapi, !HwrngIface, !Kernel W, !HwrngLib W} : Prop := {
  rng_received h n e rc bs v : 0 ≤ n < 2 ^ 32 →
    k_recv h sizeof_hwrng_req sizeof_hwrng_req (rng_deliver h (rng_message n) e) = ((rc, bs), v) →
    0 ≤ rc → bs = rng_message n;
  rng_message_len n : 0 ≤ n < 2 ^ 32 → hwrng_req_len (rng_message n) = n
}.

(** The service, the context of the client's session once it is open, and
    whether a call that the service made of the kernel or the allocator has
    failed: read off the trace of its calls, not off what it answers. *)
Record rng_linked (D W : Type) := RngLinked {
  rng_served : world hwrng_state D W;
  rng_session : option ptr;
  rng_trouble : bool
}.
Arguments RngLinked {D W}.
Arguments rng_served {D W}.
Arguments rng_session {D W}.
Arguments rng_trouble {D W}.
#[export] Instance rng_troubles {D W} : Troubles (rng_linked D W) := {| k_trouble := rng_trouble |}.

Section Link.
Context {D W : Type} `{!Uapi} `{!HwrngIface} `{!HwrngDev D} `{!Kernel W} `{!HwrngLib W}.
Implicit Types e : rng_linked D W.
(** The service's port and the events of a new connection and a message; the
    calls of the client libraries that are not about random numbers. *)
Context (port ev_ready ev_msg : Z) (others : HwkeyClient (rng_linked D W)).

Definition env_of (f : W → W) (w : world hwrng_state D W) : world hwrng_state D W :=
  World (loc w) (dev w) (f (env w)) (trace w).

(** The bytes that the events [tr], newest first, sent on [h]. *)
Definition delivered (h : handle) (tr : list sysev) : bytes :=
  foldl (λ bs x, match x with
                 | SSend h' data rc => if (h' =? h) && (0 <=? rc) then data ++ bs else bs
                 | _ => bs
                 end) [] tr.

(** The service at [w] after some calls, and the session. *)
Definition rng_after e (w : world hwrng_state D W) (p : option ptr) : rng_linked D W :=
  RngLinked w p (rng_trouble e || negb (forallb (negb ∘ call_failed)
                                          (since (trace (rng_served e)) (trace w)))).

(** The session is opened by the first request and kept. *)
Definition open_session e : rng_linked D W :=
  match rng_session e with
  | Some _ => e
  | None =>
    let p := new_ptr (ctxs (loc (rng_served e))) in
    match hwrng_port_handler (UEvent port ev_ready) (env_of rng_dial (rng_served e)) with
    | Ret _ w => rng_after e w ((λ _, p) <$> ctxs (loc w) !! p)
    | Halt _ w => rng_after e w None
    end
  end.

Definition link_rand (n : Z) e : (Z * bytes) * rng_linked D W :=
  let e := open_session e in
  let lost := ((ERR_CHANNEL_CLOSED, []), e) in
  match rng_session e with
  | None => lost
  | Some p =>
    match ctxs (loc (rng_served e)) !! p with
    | None => lost
    | Some c =>
      match hwrng_chan_handler (UEvent (chan c) ev_msg) p
              (env_of (rng_deliver (chan c) (rng_message n)) (rng_served e)) with
      | Ret _ w =>
        let data := delivered (chan c) (since (trace (rng_served e)) (trace w)) in
        ((if Z.of_nat (length data) =? n then NO_ERROR else ERR_CHANNEL_CLOSED, data),
         rng_after e w (Some p))
      | Halt _ w => ((ERR_CHANNEL_CLOSED, []), rng_after e w (Some p))
      end
    end
  end.

Definition link_k_rand e : Z * rng_linked D W :=
  let '(z, v) := rng_rand (env (rng_served e)) in
  (z, RngLinked (env_of (λ _, v) (rng_served e)) (rng_session e) (rng_trouble e)).

Definition rng_client : HwkeyClient (rng_linked D W) := {|
  ERR_ALREADY_EXISTS := ERR_ALREADY_EXISTS (W := rng_linked D W);
  ERR_BAD_HANDLE := ERR_BAD_HANDLE (W := rng_linked D W);
  ERR_NOT_VALID := ERR_NOT_VALID (W := rng_linked D W);
  HWKEY_OPAQUE_HANDLE_MAX_SIZE := HWKEY_OPAQUE_HANDLE_MAX_SIZE (W := rng_linked D W);
  k_hwkey_open := k_hwkey_open;
  k_hwkey_close := k_hwkey_close;
  k_hwkey_get_keyslot_data := k_hwkey_get_keyslot_data;
  k_hwkey_derive := k_hwkey_derive;
  k_trusty_rng_hw_rand := link_rand;
  k_rand := link_k_rand
|}.

(** Between two requests of its only client: nothing is pending, and the
    session's channel takes messages. *)
Record rng_idle e : Prop := {
  idle_ok : ∃ rest, hwrng_ok rest (loc (rng_served e)) (trace (rng_served e));
  idle_queue : hwrng_req_list (loc (rng_served e)) = [];
  idle_session p : rng_session e = Some p →
    ∃ c, ctxs (loc (rng_served e)) !! p = Some c ∧ send_blocked c = false
}.

Record rng_events : Prop := {
  rng_ready_fine : tipc_port_error ev_ready = false;
  rng_ready_ready : has ev_ready IPC_HANDLE_POLL_READY = true;
  rng_msg_fine : tipc_chan_error ev_msg = false;
  rng_msg_no_hup : has ev_msg IPC_HANDLE_POLL_HUP = false;
  rng_msg_no_unblock : has ev_msg IPC_HANDLE_POLL_SEND_UNBLOCKED = false;
  rng_msg_msg : has ev_msg IPC_HANDLE_POLL_MSG = true
}.

(** * 2. A request *)

Context `{!HwrngDevLaws D} `{!HwrngLibLaws W} (Hev : rng_events).

Lemma rng_port_opens w :
  wp (hwrng_port_handler (UEvent port ev_ready)) (λ _ w', dev w' = dev w ∧
    (forallb (negb ∘ call_failed) (since (trace w) (trace w')) = true →
     hwrng_req_list (loc w') = hwrng_req_list (loc w) ∧
     ∃ h, ctxs (loc w') !! new_ptr (ctxs (loc w)) = Some (HwrngCtx h 0 false))) (env_of rng_dial w).
Proof.
  destruct Hev as [Hf Hr _ _ _ _]. unfold env_of, hwrng_port_handler, tipc_handle_port_errors. cbn [ev_event ev_handle].
  rewrite Hf, Hr. ipc_steps. unfold accept. ipc_call r v E. destruct r as [h u]. wp_cases Hh; ipc_steps.
  { split; [done|]. intros Hc. since_in Hc. cbn in Hc. lia. }
  unfold alloc_ok. ipc_call ok v2 E2. destruct ok; cbn [negb]; ipc_steps.
  2: { apply wp_close. intros. ipc_steps. split; [done|]. intros Hc. by since_in Hc. }
  unfold store. ipc_steps. unfold set_cookie. ipc_call rc v3 E3. wp_cases Hck; ipc_steps.
  - apply wp_close. intros. ipc_steps. split; [done|]. intros Hc. since_in Hc. cbn in Hc.
    by rewrite (proj2 (Z.eqb_neq rc 0)) in Hc by lia.
  - split; [done|]. intros _. split; [done|]. exists h. cbn. by rewrite lookup_insert_eq.
Qed.

(** The handler answers with the next [n] bytes of the device, at once, unless
    a call fails. *)
Lemma chan_handler_serves rest p c n bs d w :
  hwrng_ok rest (loc w) (trace w) → hwrng_req_list (loc w) = [] →
  ctxs (loc w) !! p = Some c → send_blocked c = false → 0 < n ≤ MAX_HWRNG_MSG_SIZE →
  hwrng_dev_get_rng_data n (dev w) = ((NO_ERROR, bs), d) →
  wp (hwrng_chan_handler (UEvent (chan c) ev_msg) p) (λ _ w',
    forallb (negb ∘ call_failed) (since (trace w) (trace w')) = true →
    dev w' = d ∧ hwrng_req_list (loc w') = [] ∧
    (∃ c', ctxs (loc w') !! p = Some c' ∧ send_blocked c' = false) ∧
    ∃ rc req rc', since (trace w) (trace w') = [SSend (chan c) bs rc; SRecv (chan c) rc' req] ∧ 0 ≤ rc)
    (env_of (rng_deliver (chan c) (rng_message n)) w).
Proof.
  intros Hok Hl Hp Hb Hn Hdev. destruct Hev as [_ _ Hf Hh Hu Hm]. unfold MAX_HWRNG_MSG_SIZE in Hn.
  unfold hwrng_chan_handler, tipc_handle_chan_errors, env_of. cbn [ev_event ev_handle].
  rewrite Hf, Hh, Hu, Hm. ipc_steps. eapply wp_deref; [done|]. ipc_steps.
  apply wp_assert; [by rewrite Z.eqb_refl|]. ipc_steps. unfold hwrng_chan_handle_msg. ipc_steps.
  eapply wp_deref; [done|]. ipc_steps. unfold tipc_recv. ipc_call r v E. destruct r as [rc' req]. cbn [env] in E.
  wp_cases Hrc.
  { ipc_steps. rewrite (proj2 (Z.eqb_neq rc' 0)) by lia. cbn [negb]. ipc_steps.
    eapply close_chan_spec; [done|]. intros v2. unfold hwrng_kick_req_queue, hwrng_handle_req_queue. ipc_steps.
    cbn [hwrng_req_list with_list with_ctxs]. rewrite Hl. cbn [unlink filter list_filter foldM]. ipc_steps.
    intros Hc. since_in Hc. cbn in Hc. by rewrite Hrc in Hc. }
  apply Z.ltb_ge in Hrc. pose proof (rng_received (chan c) n _ _ _ _ ltac:(lia) E Hrc) as ->.
  ipc_steps. rewrite Hl.
  rewrite bool_decide_false by apply not_elem_of_nil. unfold store. ipc_steps. cbn [Z.eqb negb]. ipc_steps.
  rewrite rng_message_len by lia.
  unfold hwrng_kick_req_queue, hwrng_handle_req_queue. ipc_steps. cbn [with_list with_ctxs hwrng_req_list].
  rewrite Hl. cbn [app foldM]. ipc_steps. eapply wp_mono.
  { apply (service_req_spec p (resize n c)); [cbn; by rewrite lookup_insert_eq|cbn; lia]. }
  intros more w' Hr.
  assert (chunk (resize n c) = n) as Hc by (unfold chunk, MAX_HWRNG_MSG_SIZE; cbn; lia).
  destruct Hr as [Hb'|rc x d' v2 _ Hrc2 E2|x d' v2 _ E2 Es|rc x d' v2 _ Hrc2 Hne E2 Es
    |rc x d' v2 _ Hrc2 Hle E2 Es|rc x d' v2 _ Hrc2 Hgt E2 Es];
    try (rewrite Hc in E2; cbn [dev] in E2; rewrite Hdev in E2; simplify_eq).
  - cbn in Hb'. congruence.
  - pose proof err_not_enough_buffer_neg as Hneg. ipc_steps. intros Hcalls. since_in Hcalls. cbn in Hcalls. lia.
  - ipc_steps. intros Hcalls. since_in Hcalls. cbn in Hcalls, Hrc2. lia.
  - ipc_steps. intros _. split_and!; [done| | |].
    + change (unlink p (hwrng_req_list (loc w) ++ [p]) = []). rewrite Hl. apply unlink_cons_eq, not_elem_of_nil.
    + cbn. exists (resize 0 (resize n c)). by rewrite lookup_insert_eq.
    + eexists _, _, _. cbn [trace]. rewrite !since_cons, since_refl by (cbn [length]; lia). by split.
  - unfold MAX_HWRNG_MSG_SIZE in Hgt. cbn in Hgt. lia.
Qed.

Lemma open_session_ok e : rng_idle e →
  dev (rng_served (open_session e)) = dev (rng_served e) ∧
  (rng_trouble (open_session e) = false → ∃ p c,
    rng_session (open_session e) = Some p ∧ rng_idle (open_session e) ∧
    ctxs (loc (rng_served (open_session e))) !! p = Some c ∧ send_blocked c = false).
Proof.
  intros [[rest Hok] Hq Hs]. unfold open_session. destruct (rng_session e) as [p|] eqn:Es.
  { split; [done|]. intros _. destruct (Hs p eq_refl) as (c & Hc & Hb). exists p, c. split_and!; [done| |done..].
    split; [by exists rest|done|]. intros p' Hp'. rewrite Es in Hp'. injection Hp' as <-. by exists c. }
  pose proof (rng_port_opens (rng_served e)) as Ho.
  pose proof (port_handler_stable rest (hwrng_ok rest) (UEvent port ev_ready)
    (env_of rng_dial (rng_served e)) Hok (rng_ready_fine Hev)) as Hst.
  destruct (wp_returns _ _ _ (wp_conj _ _ _ _ Ho Hst)) as (x & w' & E & (Hd & Hopen) & Hok').
  rewrite E. split; [exact Hd|]. cbn [rng_session rng_served rng_trouble rng_after].
  intros [_ Hcalls%negb_false_iff]%orb_false_iff. destruct (Hopen Hcalls) as (Hl & h & Hc). rewrite Hc. cbn.
  eexists _, _. split_and!; [done| |exact Hc|done].
  split; [by exists rest|cbn; congruence|]. cbn. intros p [= <-]. by eexists.
Qed.

Lemma link_rand_keeps n e : rng_trouble e = true → rng_trouble (link_rand n e).2 = true.
Proof.
  intros Ht. assert (rng_trouble (open_session e) = true) as Ho.
  { unfold open_session. repeat case_match; unfold rng_after; cbn; by rewrite Ht. }
  unfold link_rand. repeat case_match; unfold rng_after; cbn; by rewrite ?Ho.
Qed.

Lemma link_rand_opened n e :
  rng_trouble (link_rand n e).2 = false → rng_trouble (open_session e) = false.
Proof.
  unfold link_rand. repeat case_match; unfold rng_after; cbn; try done; by intros [? _]%orb_false_iff.
Qed.

(** The call: the client gets the next [n] bytes of the device. *)
Lemma link_rand_serves n bs d e :
  rng_idle e → 0 < n ≤ MAX_HWRNG_MSG_SIZE →
  hwrng_dev_get_rng_data n (dev (rng_served e)) = ((NO_ERROR, bs), d) →
  rng_trouble (link_rand n e).2 = false →
  (link_rand n e).1 = (NO_ERROR, bs) ∧ rng_idle (link_rand n e).2 ∧
  dev (rng_served (link_rand n e).2) = d.
Proof.
  intros Hi Hn Hdev Ht. pose proof (link_rand_opened _ _ Ht) as Ho.
  destruct (open_session_ok e Hi) as [Hd Hopen]. destruct (Hopen Ho) as (p & c & Hs & Hi' & Hc & Hb).
  unfold link_rand in *. rewrite Hs, Hc in *. destruct Hi' as [[rest Hok] Hq _]. rewrite <- Hd in Hdev.
  pose proof (chan_handler_serves rest p c n bs d _ Hok Hq Hc Hb Hn Hdev) as Hserve.
  pose proof (chan_handler_stable rest (hwrng_ok rest) (UEvent (chan c) ev_msg) p c
    (env_of (rng_deliver (chan c) (rng_message n)) (rng_served (open_session e)))
    Hok Hc eq_refl (rng_msg_fine Hev)) as Hsafe.
  destruct (wp_returns _ _ _ (wp_conj _ _ _ _ Hserve Hsafe)) as (x & w' & E & Hr & Hok').
  rewrite E in *. cbn [snd rng_after rng_trouble] in Ht.
  apply orb_false_iff in Ht as [_ Hcalls%negb_false_iff].
  destruct (Hr Hcalls) as (Hd' & Hl & (c' & Hc' & Hb') & rc & req & rc' & Htr & Hrc).
  cbn [fst snd]. rewrite Htr.
  assert (delivered (chan c) [SSend (chan c) bs rc; SRecv (chan c) rc' req] = bs) as ->.
  { unfold delivered. cbn. rewrite Z.eqb_refl. cbn. destruct (Z.leb_spec 0 rc); [|lia]. apply app_nil_r. }
  assert (Z.of_nat (length bs) = n) as -> by (eapply rng_data_full; [|exact Hdev]; lia).
  rewrite Z.eqb_refl. split_and!; [done| |done].
  split; [by exists rest|done|]. cbn. intros q [= <-]. by exists c'.
Qed.

(** rand does not concern the service. *)
Lemma link_k_rand_idle e z e' :
  link_k_rand e = (z, e') → rng_idle e → rng_idle e' ∧ dev (rng_served e') = dev (rng_served e).
Proof.
  unfold link_k_rand. destruct (rng_rand _) as [z' v]. intros [= <- <-] [Hok Hq Hs]. split; [|done].
  by split.
Qed.
End Link.

(** * 3. The tests, on any device that always delivers *)

Section Tests.
Context {D W : Type} `{!Uapi} `{!HwrngIface} `{!HwrngDev D} `{!HwrngDevLaws D} `{!Kernel W}
  `{!HwrngLib W} `{!HwrngLibLaws W}.
Context (port ev_ready ev_msg : Z) (others : HwkeyClient (rng_linked D W)).
Context (Hev : rng_events ev_ready ev_msg) (Hdev : device_ready (D := D)).
(** What is known of the device, and kept by it. *)
Context (dev_ok : D → Prop) (Hkeep : ∀ n d rc bs d',
  dev_ok d → hwrng_dev_get_rng_data n d = ((rc, bs), d') → dev_ok d').
#[local] Instance client : HwkeyClient (rng_linked D W) := rng_client port ev_ready ev_msg others.
Implicit Types w : world ut_state unit (rng_linked D W).

Definition rng_device w : D := dev (rng_served (env w)).

(** The service is idle, with the device in [d]; the checks that failed, the
    histogram and the size of the buffer. *)
Record resting (cs : list string) (hist : list Z) (size : nat) (d : D) w : Prop := {
  rest_idle : rng_idle (env w);
  rest_checks : checks (loc w) = cs;
  rest_hist : _hist (loc w) = hist;
  rest_size : length (_rng_buf (loc w)) = size;
  rest_device : rng_device w = d;
  rest_dev_ok : dev_ok d
}.

Lemma keeps_rand n : keeps (env_call (k_trusty_rng_hw_rand (W := rng_linked D W) n)).
Proof. apply keeps_env_call. intros e a e' E Ht. pose proof (link_rand_keeps port ev_ready ev_msg n e Ht) as Hk. by rewrite (E : link_rand _ _ _ n e = _) in Hk. Qed.
Lemma keeps_k_rand : keeps (env_call (k_rand (W := rng_linked D W))).
Proof.
  apply keeps_env_call. intros e a e' E Ht. change (link_k_rand e = (a, e')) in E. unfold link_k_rand in E.
  destruct (rng_rand _). by injection E as <- <-.
Qed.
Lemma keeps_rng_request n : keeps (rng_request (W := rng_linked D W) n).
Proof.
  apply keeps_bind; [apply keeps_get_loc|]. intros buf. destruct (_ <? n); [apply keeps_stop|].
  apply keeps_bind; [apply keeps_rand|]. keeps_tac.
Qed.
Lemma keeps_dump (buf : bytes) base len :
  keeps (hwrng_show_data (S := world ut_state unit (rng_linked D W)) buf base len).
Proof.
  assert (∀ fuel at0 count, keeps (W := rng_linked D W) (dump_loop fuel false buf base len at0 count)) as Hl.
  { induction fuel as [|fuel IH]; intros at0 count; [apply keeps_stop|]. cbn [dump_loop].
    destruct (negb _); [apply keeps_ret|]. apply keeps_bind.
    - apply keeps_foldM. intros out i. apply keeps_bind; [apply keeps_fetch|]. intros b. apply keeps_ret.
    - intros line. apply keeps_bind; [apply IH|]. intros rest. apply keeps_ret. }
  apply keeps_bind; [apply Hl|]. intros out. apply keeps_ret.
Qed.
Lemma keeps_var_loop k : keeps (var_rng_req_loop (W := rng_linked D W) k).
Proof.
  induction k as [|k IH]; [apply keeps_ret|]. cbn [var_rng_req_loop].
  apply keeps_bind; [apply keeps_k_rand|]. intros z. apply keeps_bind; [apply keeps_get_loc|]. intros buf.
  apply keeps_bind; [apply keeps_rng_request|]. intros _. exact IH.
Qed.
Lemma keeps_update data : keeps (hwrng_update_hist (W := rng_linked D W) data).
Proof. apply keeps_bind; [apply keeps_get_loc|]. intros h. destruct (forallb _ _); [apply keeps_mod_loc|apply keeps_stop]. Qed.
Lemma keeps_stats_loop k n : keeps (stats_loop (W := rng_linked D W) k n).
Proof.
  induction k as [|k IH]; [apply keeps_ret|]. cbn [stats_loop].
  apply keeps_bind; [apply keeps_rng_request|]. intros rc. apply keeps_bind; [|by intros _].
  destruct (negb _); [apply keeps_ret|]. apply keeps_bind; [apply keeps_get_loc|]. intros buf. apply keeps_update.
Qed.
Lemma keeps_stats_test : keeps (stats_test (W := rng_linked D W)).
Proof.
  unfold stats_test. apply keeps_bind; [apply keeps_mod_loc|]. intros _.
  apply keeps_bind; [apply keeps_stats_loop|]. keeps_tac.
Qed.

Lemma rng_request_served n cs hist size d w :
  resting cs hist size d w → 0 < n ≤ MAX_HWRNG_MSG_SIZE → n ≤ Z.of_nat size →
  ∃ bs d', hwrng_dev_get_rng_data n d = ((NO_ERROR, bs), d') ∧
    wpt (rng_request n) (λ rc w', rc = NO_ERROR ∧ resting cs hist size d' w' ∧
      take (Z.to_nat n) (_rng_buf (loc w')) = bs) w.
Proof.
  intros [Hi Hc Hh Hs Hd Hdo] Hn Hsize. pose proof (Hdev n d ltac:(lia)) as Hok.
  destruct (hwrng_dev_get_rng_data n d) as [[rc bs] d'] eqn:E. cbn in Hok. subst rc.
  assert (Z.of_nat (length bs) = n) as Hl by (eapply rng_data_full; [|exact E]; lia).
  pose proof (Hkeep _ _ _ _ _ Hdo E) as Hdo'. exists bs, d'. split; [done|]. rewrite <- Hd in E.
  unfold rng_request. apply wpt_bind; [|apply wpt_get_loc].
  { intros buf. destruct (_ <? n); [apply keeps_stop|]. apply keeps_bind; [apply keeps_rand|]. keeps_tac. }
  destruct (Z.ltb_spec (Z.of_nat (length (_rng_buf (loc w)))) n); [lia|].
  apply wpt_bind; [keeps_tac|]. apply wpt_env_call. intros [rc x] v Ev Hv.
  change (link_rand port ev_ready ev_msg n (env w) = ((rc, x), v)) in Ev.
  pose proof (link_rand_serves port ev_ready ev_msg Hev n bs d' (env w) Hi Hn E) as Hserve.
  rewrite Ev in Hserve. destruct (Hserve Hv) as ([= -> ->] & Hi' & Hd').
  apply wpt_wp. ipc_steps. unfold expect. rewrite Z.eqb_refl. cbn [negb]. ipc_steps.
  assert (take (Z.to_nat n) bs = bs) as -> by (apply take_ge; lia).
  split_and!; [done| |].
  - split; [done..| |exact Hd'|done]. cbn. rewrite length_overwrite; [exact Hs|lia].
  - cbn. rewrite <- Hl, Nat2Z.id. apply take_overwrite.
Qed.

Lemma show_data_test_passes cs hist size d w :
  resting cs hist size d w → 32 ≤ Z.of_nat size →
  wpt show_data_test (λ _ w', ∃ d', resting cs hist size d' w') w.
Proof.
  intros Hr Hsize. unfold show_data_test.
  destruct (rng_request_served 32 cs hist size d w Hr) as (bs & d' & _ & Hw); [by vm_compute|done|].
  apply wpt_bind.
  { intros rc. destruct (_ =? _); [|apply keeps_ret]. apply keeps_bind; [apply keeps_get_loc|]. intros buf.
    apply keeps_bind; [apply keeps_dump|]. intros _. apply keeps_ret. }
  eapply wpt_mono; [exact Hw|]. intros rc w' (-> & Hr' & _). rewrite Z.eqb_refl. apply wpt_wp. ipc_steps.
  eapply wp_mono; [apply (hexdump_prints (_rng_buf (loc w')) 0 32 w')|].
  - rewrite (rest_size _ _ _ _ _ Hr'). lia.
  - done.
  - intros out w2 [-> _]. apply wp_ret. by exists d'.
Qed.

Lemma var_rng_req_loop_passes k cs hist size d w :
  resting cs hist size d w → 0 < Z.of_nat size ≤ MAX_HWRNG_MSG_SIZE →
  wpt (var_rng_req_loop k) (λ _ w', ∃ d', resting cs hist size d' w') w.
Proof.
  revert d w. induction k as [|k IH]; intros d w Hr Hsize; cbn [var_rng_req_loop]; [apply wpt_ret; by exists d|].
  apply wpt_bind.
  { intros z. apply keeps_bind; [apply keeps_get_loc|]. intros buf.
    apply keeps_bind; [apply keeps_rng_request|]. intros _. apply keeps_var_loop. }
  apply wpt_env_call. intros z v E _. change (link_k_rand (env w) = (z, v)) in E.
  destruct (link_k_rand_idle _ _ _ E (rest_idle _ _ _ _ _ Hr)) as [Hi Hd].
  assert (resting cs hist size d (World (loc w) (dev w) v (trace w))) as Hr'.
  { destruct Hr as [_ Hc Hh Hs Hd' Hdo]. split; [done..| |done]. unfold rng_device in *. cbn. congruence. }
  apply wpt_bind; [|apply wpt_get_loc].
  { intros buf. apply keeps_bind; [apply keeps_rng_request|]. intros _. apply keeps_var_loop. }
  cbn [loc]. rewrite (rest_size _ _ _ _ _ Hr).
  pose proof (Z.mod_pos_bound (u64 z) (Z.of_nat size) ltac:(lia)) as Hmod.
  destruct (rng_request_served (u64 z mod Z.of_nat size + 1) cs hist size d _ Hr') as (bs & d' & _ & Hw); [lia..|].
  apply wpt_bind; [intros _; apply keeps_var_loop|].
  eapply wpt_mono; [exact Hw|]. intros rc w' (_ & Hr2 & _). by apply (IH d').
Qed.
End Tests.

(** * 4. The histogram of the fake device *)

Lemma hist_fold_lookup bs h j : NoDup (Z.to_nat <$> bs) →
  foldl hist_inc h bs !! j =
    if decide (j ∈ Z.to_nat <$> bs) then (λ n, u32 (n + 1)) <$> h !! j else h !! j.
Proof.
  revert h. induction bs as [|b bs IH]; intros h Hnd; cbn [foldl fmap list_fmap] in *.
  { by rewrite decide_False by apply not_elem_of_nil. }
  apply NoDup_cons in Hnd as [Hb Hnd]. rewrite IH by done. unfold hist_inc.
  destruct (decide (j = Z.to_nat b)) as [->|Hne].
  - rewrite decide_False by done. rewrite decide_True by apply list_elem_of_here.
    by rewrite list_lookup_alter_eq.
  - rewrite list_lookup_alter_ne by done.
    destruct (decide (j ∈ Z.to_nat <$> bs)) as [Hin|Hin].
    + by rewrite decide_True by by apply list_elem_of_further.
    + rewrite decide_False; [done|]. by intros [?|?]%elem_of_cons.
Qed.

(** Each of 256 successive bytes of the counter has its own value. *)
Definition counter_bytes (c : Z) : bytes := (λ i, (c + i) mod 256) <$> seqZ 0 256.

Lemma counter_bytes_nodup c : NoDup (Z.to_nat <$> counter_bytes c).
Proof.
  unfold counter_bytes. rewrite <- list_fmap_compose. apply NoDup_fmap_2_strong; [|apply NoDup_seqZ].
  intros i j [Hi1 Hi2]%elem_of_seqZ [Hj1 Hj2]%elem_of_seqZ E. cbn in E.
  pose proof (Z.mod_pos_bound (c + i) 256). pose proof (Z.mod_pos_bound (c + j) 256).
  pose proof (Z_div_mod_eq_full (c + i) 256). pose proof (Z_div_mod_eq_full (c + j) 256). lia.
Qed.

Lemma counter_bytes_all c j : (j < 256)%nat → j ∈ Z.to_nat <$> counter_bytes c.
Proof.
  intros Hj. unfold counter_bytes. rewrite <- list_fmap_compose. apply list_elem_of_fmap.
  exists ((Z.of_nat j - c) mod 256). split.
  - cbn. rewrite Zplus_mod_idemp_r. replace (c + (Z.of_nat j - c)) with (Z.of_nat j) by lia.
    rewrite Z.mod_small by lia. lia.
  - apply elem_of_seqZ. pose proof (Z.mod_pos_bound (Z.of_nat j - c) 256). lia.
Qed.

Lemma counter_bytes_range c : forallb (λ b, (0 <=? b) && (b <? 256)) (counter_bytes c) = true.
Proof.
  apply forallb_forall. intros b Hb%list_elem_of_In. apply list_elem_of_fmap in Hb as (i & -> & _).
  pose proof (Z.mod_pos_bound (c + i) 256). lia.
Qed.

Lemma hist_counter_bytes c m :
  0 ≤ m → m + 1 < 2 ^ 32 → foldl hist_inc (replicate 256 m) (counter_bytes c) = replicate 256 (m + 1).
Proof.
  intros Hm Hmax. apply list_eq. intros j. rewrite hist_fold_lookup by apply counter_bytes_nodup.
  destruct (decide (j < 256)%nat) as [Hj|Hj].
  - rewrite decide_True by by apply counter_bytes_all.
    rewrite !(proj2 (lookup_replicate _ _ _ _)) by done. cbn. by rewrite u32_small by lia.
  - rewrite !(proj2 (lookup_ge_None _ j)) by (rewrite length_replicate; lia). by destruct (decide _).
Qed.

(** * 5. The tests on the fake device *)

Section FakeTests.
Context {W : Type} `{!Uapi} `{!HwrngIface} `{!Kernel W} `{!HwrngLib W} `{!HwrngLibLaws W}.
#[local] Existing Instances Fake.dev Fake.laws.
Context (port ev_ready ev_msg : Z) (others : HwkeyClient (rng_linked Z W)).
#[local] Instance fake_client : HwkeyClient (rng_linked Z W) := rng_client port ev_ready ev_msg others.
Implicit Types w : world ut_state unit (rng_linked Z W).

Lemma fake_always_ready : device_ready (D := Z).
Proof. intros n d Hn. cbn. unfold Fake.get_rng_data. by destruct (Fake.rng_fill _ _). Qed.

Lemma fake_256 d bs d' : 0 ≤ d < 2 ^ 64 →
  hwrng_dev_get_rng_data 256 d = ((NO_ERROR, bs), d') → bs = counter_bytes d.
Proof.
  intros Hd E. cbn in E. unfold Fake.get_rng_data in E. rewrite Fake.fill_spec in E by done.
  by injection E as <- _.
Qed.

Lemma fake_counter n d rc bs d' : 0 ≤ d < 2 ^ 64 →
  hwrng_dev_get_rng_data n d = ((rc, bs), d') → 0 ≤ d' < 2 ^ 64.
Proof.
  intros Hd E. cbn in E. unfold Fake.get_rng_data in E. rewrite Fake.fill_spec in E by done.
  injection E as _ _ <-. apply u64_range.
Qed.
Abbreviation at_rest cs hist size := (λ w, ∃ d, resting (λ d, 0 ≤ d < 2 ^ 64) cs hist size d w).
Context (Hev : rng_events ev_ready ev_msg).

Lemma stats_loop_fake k m cs size w :
  at_rest cs (replicate 256 m) size w → 256 ≤ Z.of_nat size →
  0 ≤ m → m + Z.of_nat k < 2 ^ 32 →
  wpt (stats_loop k 256) (λ _, at_rest cs (replicate 256 (m + Z.of_nat k)) size) w.
Proof.
  revert m w. induction k as [|k IH]; intros m w [d Hr] Hsize Hm Hmax; cbn [stats_loop].
  { apply wpt_ret. exists d. by replace (m + Z.of_nat 0) with m by lia. }
  destruct (rng_request_served port ev_ready ev_msg others Hev fake_always_ready _ fake_counter
    256 cs _ size d w Hr) as (bs & d' & E & Hw); [by vm_compute|done|].
  apply wpt_bind.
  { intros rc. apply keeps_bind; [|intros _; apply (keeps_stats_loop port ev_ready ev_msg others)].
    destruct (negb _); [apply keeps_ret|]. apply keeps_bind; [apply keeps_get_loc|]. intros buf.
    apply (keeps_update (D := Z)). }
  eapply wpt_mono; [exact Hw|]. intros rc w' (-> & Hr' & Hb).
  pose proof (fake_256 d bs d' (rest_dev_ok _ _ _ _ _ _ Hr) E) as ->. rewrite Z.eqb_refl. cbn [negb].
  apply wpt_bind; [intros _; apply (keeps_stats_loop port ev_ready ev_msg others)|].
  apply wpt_wp. ipc_steps. rewrite Hb. unfold hwrng_update_hist. ipc_steps.
  rewrite (rest_hist _ _ _ _ _ _ Hr'). rewrite length_replicate. rewrite counter_bytes_range. ipc_steps.
  replace (m + Z.of_nat (S k)) with (m + 1 + Z.of_nat k) by lia. apply IH; [|done|lia|lia].
  exists d'. destruct Hr' as [Hi Hc Hh Hs Hd Hdo]. split; [exact Hi|exact Hc| |exact Hs|exact Hd|exact Hdo].
  cbn. rewrite Hh. apply hist_counter_bytes; lia.
Qed.

(** C7. The random number tests of hwcrypto-unittest, their requests served by
    the handlers of the random number service over the fake device, on any
    kernel: from a service at rest, with or without a session yet, every
    request is served at once and in full, no check of the three tests fails
    (whatever rand answers), the histogram they leave counts each byte value
    exactly 1000 times, and the service is at rest again.  The only exception
    is a call of the kernel or the allocator that fails under the service's
    handlers (accept, set_cookie, send, the receipt of a request, calloc), read
    off the trace of their calls. *)
Theorem hwrng_tests_on_service cs hist w :
  at_rest cs hist 1024 w → length hist = 256%nat →
  wpt (show_data_test;; var_rng_req_test;; stats_test) (λ _, at_rest cs (replicate 256 1000) 1024) w.
Proof.
  intros [d Hr] Hl. pose proof (keeps_stats_test port ev_ready ev_msg others) as Hks.
  apply wpt_bind.
  { intros _. apply keeps_bind; [|by intros _]. apply (keeps_var_loop port ev_ready ev_msg others). }
  eapply wpt_mono; [eapply (show_data_test_passes port ev_ready ev_msg others Hev fake_always_ready _ fake_counter); [done|lia]|].
  intros _ w1 [d1 Hr1]. apply wpt_bind; [by intros _|].
  eapply wpt_mono; [eapply (var_rng_req_loop_passes port ev_ready ev_msg others Hev fake_always_ready _ fake_counter); [done|by vm_compute]|].
  intros _ w2 [d2 Hr2]. unfold stats_test. apply wpt_bind; [|apply wpt_mod_loc].
  { intros _. apply keeps_bind; [apply (keeps_stats_loop port ev_ready ev_msg others)|]. keeps_tac. }
  apply wpt_bind; [keeps_tac|]. eapply wpt_mono; [apply (stats_loop_fake 1000 0 cs 1024)|].
  - exists d2. destruct Hr2 as [Hi Hc Hh Hs Hd Hdo]. split; [exact Hi|exact Hc| |exact Hs|exact Hd|exact Hdo].
    cbn. by rewrite Hh, Hl.
  - lia.
  - lia.
  - by vm_compute.
  - intros _ w3 [d3 Hr3]. apply wpt_wp. ipc_steps. rewrite (rest_hist _ _ _ _ _ _ Hr3).
    assert (∀ h, h = replicate 256 1000 → hist_sum h = 256000 ∧ hist_dev 1000 h = 0) as Hh by (by intros ? ->).
    destruct (Hh (replicate 256 (0 + Z.of_nat 1000)) eq_refl) as [E1 E2].
    rewrite E1. change (256000 / 256) with 1000. rewrite E2. unfold expect. cbn. ipc_steps. by exists d3.
Qed.
End FakeTests.
