(* ===== verification/HwrngLinkDemo.v ===== *)
(** The random number tests on their service at a concrete state: a kernel that
    keeps the message for the service, and a service that has just started. *)

From S2P Require Import Prelude Ipc HwrngDev Hwrng HwkeyTest HwkeyTestCorrect HwrngTestCorrect HwrngLink.

Module HwrngLinkDemo.
#[local] Instance uapi : Uapi := Sim.uapi.
#[local] Existing Instances Fake.dev Fake.laws.
#[local] Existing Instance Demo.iface.

(** The message that waits, and the next handle. *)
Definition mailbox : Type := bytes * Z.

#[local] Instance kernel : Kernel mailbox := {|
  k_port_create _ _ _ _ e := (e.2, (e.1, e.2 + 1));
  k_accept _ e := ((Z.max 0 e.2, "tester"%string), (e.1, e.2 + 1));
  k_set_cookie _ e := (0, e);
  k_close _ e := (0, e);
  k_send _ bs e := (Z.of_nat (length bs), e);
  k_recv _ mn mx e :=
    let n := Z.of_nat (length e.1) in
    if (mn <=? n) && (n <=? mx) then ((n, e.1), ([], e.2)) else ((-19, []), e);
  k_alloc e := (true, e)
|}.

(** A length in little-endian order; rand answers what is in the second place. *)
#[local] Instance lib : HwrngLib mailbox := {|
  rng_dial e := e;
  rng_deliver _ m e := (m, e.2);
  rng_message n := [n mod 256; n / 256 mod 256; n / 65536 mod 256; n / 16777216];
  rng_rand e := (e.2 * 7919, (e.1, e.2 + 1))
|}.

#[local] Instance lib_laws : HwrngLibLaws mailbox.
Proof.
  split.
  - intros h n e rc bs v _ E Hrc. cbn in E. case_match; injection E as <- <- _; [done|lia].
  - intros n Hn. cbn. rewrite <- (u32_small n) at 5 by done. f_equal.
    pose proof (Z_div_mod_eq_full n 256). pose proof (Z_div_mod_eq_full (n / 256) 256).
    pose proof (Z_div_mod_eq_full (n / 65536) 256).
    rewrite (Z.div_div n 256 256) in * by lia. change (256 * 256) with 65536 in *.
    rewrite (Z.div_div n 65536 256) in * by lia. change (65536 * 256) with 16777216 in *. lia.
Qed.

(** The other calls of the client libraries. *)
Definition no_keys : HwkeyClient (rng_linked Z mailbox) := {|
  ERR_ALREADY_EXISTS := -30; ERR_BAD_HANDLE := -9; ERR_NOT_VALID := -7;
  HWKEY_OPAQUE_HANDLE_MAX_SIZE := 128;
  k_hwkey_open e := (-2, e);
  k_hwkey_close _ e := (tt, e);
  k_hwkey_get_keyslot_data _ _ _ e := ((-2, [], 0), e);
  k_hwkey_derive _ _ _ e := ((-2, [], 0), e);
  k_trusty_rng_hw_rand _ e := ((-2, []), e);
  k_rand e := (0, e)
|}.

Definition start : rng_linked Z mailbox :=
  RngLinked (World hwrng_init Fake.counter0 ([], 100) []) None false.
#[local] Instance tests_client : HwkeyClient (rng_linked Z mailbox) := rng_client 7 1 8 no_keys.

(** The first request opens the session. *)
Example first_request :
  let '((rc, data), e) := link_rand 7 1 8 5 start in
  rc = 0 ∧ data = [1; 2; 3; 4; 5] ∧ rng_session e = Some 1%positive ∧ rng_trouble e = false ∧
  (link_rand 7 1 8 3 e).1 = ((0, [6; 7; 8]) : Z * bytes).
Proof. by vm_compute. Qed.

Definition w : world ut_state unit (rng_linked Z mailbox) :=
  World (UtState [] 0 (replicate 256 0) (replicate 1024 0)) tt start [].

Lemma hwrng_tests_on_service_witness :
  wpt (show_data_test;; var_rng_req_test;; stats_test) (λ _ w',
    checks (loc w') = [] ∧ _hist (loc w') = replicate 256 1000) w.
Proof.
  eapply wpt_mono; [apply (hwrng_tests_on_service 7 1 8 no_keys) with (cs := []) (hist := replicate 256 0)|].
  - split; reflexivity.
  - exists Fake.counter0. split; [|done..|by vm_compute]. split; [|done|done].
    exists []. apply hwrng_init_ok.
  - done.
  - intros _ w' (d & Hr). split; [exact (rest_checks _ _ _ _ _ _ Hr)|exact (rest_hist _ _ _ _ _ _ Hr)].
Defined.

(** On this kernel no call fails, so requests are served. *)
Example requests_served :
  match (show_data_test;; var_rng_req_loop 2;; stats_loop 1 256) w with
  | Ret _ w' => rng_trouble (env w') = false ∧ checks (loc w') = []
  | Halt _ _ => False
  end.
Proof. by vm_compute. Qed.
End HwrngLinkDemo.
